(** * svach: sanitising file names

    A shallow embedding of the Go package [svach] (functions [New],
    [NewWithOpts], [validOptStr], [Name], [Clean], [validName], [valid],
    [repeatedCharsExp], [replaceAllStringSubmatch]) together with the parts
    of the Go standard library it calls: [unicode/utf8], [strings],
    [html.UnescapeString], [crypto/md5], [fmt.Sprintf "%x"] and the
    [regexp] operations on the package's patterns.

    A Go [string] is a sequence of bytes: it is modelled as [list ascii].
    A [rune] and an [int] are modelled as [Z]. *)

From Stdlib Require Import Ascii String.
From Stdlib Require Import ZArith Zbitwise List Bool Lia Arith.
Import ListNotations.
Local Open Scope Z_scope.

(** ** Bytes and strings *)

Definition gostring := list ascii.
Definition rune := Z.

Definition code (c : ascii) : Z := Z.of_N (N_of_ascii c).
Definition chr (z : Z) : ascii := ascii_of_N (Z.to_N z).

(** A Go string literal. *)
Definition str (s : string) : gostring := list_ascii_of_string s.

(** [len(s)] *)
Definition len (s : gostring) : Z := Z.of_nat (length s).

Fixpoint bytes_eqb (a b : gostring) : bool :=
  match a, b with
  | [], [] => true
  | x :: a', y :: b' => Ascii.eqb x y && bytes_eqb a' b'
  | _, _ => false
  end.

(** [len(a) != len(b)*2] is [negb (len_eq a b)]. *)
Definition len_eq {A B : Type} (a : list A) (b : list B) : bool :=
  Z.of_nat (length a) =? Z.of_nat (length b) * 2.

(** [s[lo:hi]] for [0 <= lo <= hi <= len(s)]. *)
Definition slice (s : gostring) (lo hi : Z) : gostring :=
  firstn (Z.to_nat (hi - lo)) (skipn (Z.to_nat lo) s).

(** [strings.IndexByte(s, c) >= 0] *)
Definition containsByte (c : ascii) (s : gostring) : bool :=
  existsb (Ascii.eqb c) s.

(** What a call can do: return a value, panic, or fail to return within the
    number of loop iterations it was allowed.  [Unmodelled] marks the one
    place where this development does not follow the library: a pattern
    built at run time from a replacement string that contains regular
    expression operators. *)
Inductive outcome (A : Type) : Type :=
| Value (a : A)
| Panic
| OutOfFuel
| Unmodelled.
Arguments Value {A} a.
Arguments Panic {A}.
Arguments OutOfFuel {A}.
Arguments Unmodelled {A}.

(** ** unicode/utf8 *)
Module utf8.

Definition RuneError : rune := 0xFFFD.
Definition RuneSelf : Z := 0x80.
Definition MaxRune : rune := 0x10FFFF.

(** The entry of the table [first] for a leading byte, as the pair of the
    sequence length and the range accepted for the second byte; [None] for
    the entries [xx] (no leading byte) and [as] (ASCII) is not used: ASCII is
    tested before. *)
Definition first (b : Z) : option (Z * (Z * Z)) :=
  if b <? 0xC2 then None
  else if b <? 0xE0 then Some (2, (0x80, 0xBF))
  else if b =? 0xE0 then Some (3, (0xA0, 0xBF))
  else if b <? 0xED then Some (3, (0x80, 0xBF))
  else if b =? 0xED then Some (3, (0x80, 0x9F))
  else if b <? 0xF0 then Some (3, (0x80, 0xBF))
  else if b =? 0xF0 then Some (4, (0x90, 0xBF))
  else if b <? 0xF4 then Some (4, (0x80, 0xBF))
  else if b =? 0xF4 then Some (4, (0x80, 0x8F))
  else None.

Definition cont (b : Z) : bool := (0x80 <=? b) && (b <=? 0xBF).

(** [utf8.DecodeRuneInString]: the rune at the start of [s] and its width in
    bytes; [(RuneError, 0)] for the empty string and [(RuneError, 1)] for a
    byte that starts no valid encoding. *)
Definition DecodeRuneInString (s : gostring) : rune * nat :=
  match s with
  | [] => (RuneError, 0%nat)
  | c0 :: t =>
    let s0 := code c0 in
    if s0 <? RuneSelf then (s0, 1%nat)
    else match first s0 with
    | None => (RuneError, 1%nat)
    | Some (sz, (lo, hi)) =>
      match t with
      | [] => (RuneError, 1%nat)
      | c1 :: t1 =>
        let s1 := code c1 in
        if (s1 <? lo) || (hi <? s1) then (RuneError, 1%nat)
        else if sz <=? 2 then
          (Z.lor (Z.shiftl (Z.land s0 0x1F) 6) (Z.land s1 0x3F), 2%nat)
        else match t1 with
        | [] => (RuneError, 1%nat)
        | c2 :: t2 =>
          let s2 := code c2 in
          if negb (cont s2) then (RuneError, 1%nat)
          else if sz <=? 3 then
            (Z.lor (Z.lor (Z.shiftl (Z.land s0 0x0F) 12)
                          (Z.shiftl (Z.land s1 0x3F) 6))
                   (Z.land s2 0x3F), 3%nat)
          else match t2 with
          | [] => (RuneError, 1%nat)
          | c3 :: _ =>
            let s3 := code c3 in
            if negb (cont s3) then (RuneError, 1%nat)
            else
              (Z.lor (Z.lor (Z.lor (Z.shiftl (Z.land s0 0x07) 18)
                                   (Z.shiftl (Z.land s1 0x3F) 12))
                            (Z.shiftl (Z.land s2 0x3F) 6))
                     (Z.land s3 0x3F), 4%nat)
          end
        end
      end
    end
  end.

(** [utf8.EncodeRune]; the rune is read as a [uint32], a rune beyond
    [MaxRune] or a surrogate is encoded as [RuneError]. *)
Definition EncodeRune (r : rune) : gostring :=
  let i := r mod 2 ^ 32 in
  if i <=? 0x7F then [chr i]
  else if i <=? 0x7FF then
    [chr (Z.lor 0xC0 (Z.shiftr i 6)); chr (Z.lor 0x80 (Z.land i 0x3F))]
  else
    let three (x : Z) :=
      [chr (Z.lor 0xE0 (Z.shiftr x 12));
       chr (Z.lor 0x80 (Z.land (Z.shiftr x 6) 0x3F));
       chr (Z.lor 0x80 (Z.land x 0x3F))] in
    if (MaxRune <? i) || ((0xD800 <=? i) && (i <=? 0xDFFF)) then three RuneError
    else if i <=? 0xFFFF then three i
    else
      [chr (Z.lor 0xF0 (Z.shiftr i 18));
       chr (Z.lor 0x80 (Z.land (Z.shiftr i 12) 0x3F));
       chr (Z.lor 0x80 (Z.land (Z.shiftr i 6) 0x3F));
       chr (Z.lor 0x80 (Z.land i 0x3F))].

(** A decoded rune with the bytes it was read from. *)
Definition token : Type := rune * gostring.

(** The runes of [s] in order, as [for i, c := range s] and the regexp
    machine read them: each step decodes at the current position and moves on
    by the width found (one byte after an invalid byte).  [skip] counts the
    bytes of the current rune still to pass over. *)
Fixpoint runes_from (skip : nat) (s : gostring) : list token :=
  match s with
  | [] => []
  | c :: t =>
    match skip with
    | S k => runes_from k t
    | O =>
      let '(r, w) := DecodeRuneInString s in
      (r, firstn w s) :: runes_from (w - 1) t
    end
  end.

Definition runes (s : gostring) : list token := runes_from 0 s.

(** The bytes a list of tokens was read from. *)
Definition bytes (ts : list token) : gostring := concat (map snd ts).

(** The byte of an invalid encoding: [RuneError] of width 1. *)
Definition invalid (t : token) : bool :=
  (fst t =? RuneError) && (length (snd t) =? 1)%nat.

(** [utf8.ValidString] *)
Definition ValidString (s : gostring) : bool :=
  forallb (fun t => negb (invalid t)) (runes s).

End utf8.

(** ** crypto/md5 and fmt.Sprintf("%x") *)
Module md5.

Definition u32 (z : Z) : Z := z mod 2 ^ 32.

(** [bits.RotateLeft32] *)
Definition rotl (x : Z) (c : Z) : Z :=
  u32 (Z.lor (Z.shiftl x c) (Z.shiftr x (32 - c))).

(** The additive constants of the 64 steps. *)
Definition K : list Z :=
  [
   0xd76aa478; 0xe8c7b756; 0x242070db; 0xc1bdceee;
   0xf57c0faf; 0x4787c62a; 0xa8304613; 0xfd469501;
   0x698098d8; 0x8b44f7af; 0xffff5bb1; 0x895cd7be;
   0x6b901122; 0xfd987193; 0xa679438e; 0x49b40821;
   0xf61e2562; 0xc040b340; 0x265e5a51; 0xe9b6c7aa;
   0xd62f105d; 0x02441453; 0xd8a1e681; 0xe7d3fbc8;
   0x21e1cde6; 0xc33707d6; 0xf4d50d87; 0x455a14ed;
   0xa9e3e905; 0xfcefa3f8; 0x676f02d9; 0x8d2a4c8a;
   0xfffa3942; 0x8771f681; 0x6d9d6122; 0xfde5380c;
   0xa4beea44; 0x4bdecfa9; 0xf6bb4b60; 0xbebfbc70;
   0x289b7ec6; 0xeaa127fa; 0xd4ef3085; 0x04881d05;
   0xd9d4d039; 0xe6db99e5; 0x1fa27cf8; 0xc4ac5665;
   0xf4292244; 0x432aff97; 0xab9423a7; 0xfc93a039;
   0x655b59c3; 0x8f0ccc92; 0xffeff47d; 0x85845dd1;
   0x6fa87e4f; 0xfe2ce6e0; 0xa3014314; 0x4e0811a1;
   0xf7537e82; 0xbd3af235; 0x2ad7d2bb; 0xeb86d391
  ].

(** The rotation of each step. *)
Definition shifts : list Z :=
  [7; 12; 17; 22; 7; 12; 17; 22; 7; 12; 17; 22; 7; 12; 17; 22;
   5; 9; 14; 20; 5; 9; 14; 20; 5; 9; 14; 20; 5; 9; 14; 20;
   4; 11; 16; 23; 4; 11; 16; 23; 4; 11; 16; 23; 4; 11; 16; 23;
   6; 10; 15; 21; 6; 10; 15; 21; 6; 10; 15; 21; 6; 10; 15; 21].

Definition not32 (x : Z) : Z := Z.lxor x 0xFFFFFFFF.

Record state : Type := mkState { sa : Z; sb : Z; sc : Z; sd : Z }.

Definition init : state :=
  mkState 0x67452301 0xefcdab89 0x98badcfe 0x10325476.

(** Step [i] of a block whose sixteen little-endian words are [m]. *)
Definition step (m : list Z) (st : state) (i : nat) : state :=
  let '(mkState a b c d) := st in
  let iz := Z.of_nat i in
  let '(f, g) :=
    if iz <? 16 then (Z.lor (Z.land b c) (Z.land (not32 b) d), iz)
    else if iz <? 32 then
      (Z.lor (Z.land d b) (Z.land (not32 d) c), (5 * iz + 1) mod 16)
    else if iz <? 48 then (Z.lxor (Z.lxor b c) d, (3 * iz + 5) mod 16)
    else (Z.lxor c (Z.lor b (not32 d)), (7 * iz) mod 16) in
  let x := u32 (f + a + nth i K 0 + nth (Z.to_nat g) m 0) in
  mkState d (u32 (b + rotl x (nth i shifts 0))) b c.

(** The little-endian 32-bit words of a byte sequence. *)
Fixpoint words (bs : gostring) : list Z :=
  match bs with
  | b0 :: b1 :: b2 :: b3 :: t =>
    (code b0 + Z.shiftl (code b1) 8 + Z.shiftl (code b2) 16
     + Z.shiftl (code b3) 24) :: words t
  | _ => []
  end.

(** One 64-byte block. *)
Definition block (st : state) (m : list Z) : state :=
  let st' := fold_left (step m) (seq 0 64) st in
  mkState (u32 (sa st + sa st')) (u32 (sb st + sb st'))
          (u32 (sc st + sc st')) (u32 (sd st + sd st')).

Fixpoint blocks (n : nat) (st : state) (ws : list Z) : state :=
  match n with
  | O => st
  | S n' => blocks n' (block st (firstn 16 ws)) (skipn 16 ws)
  end.

Definition le_bytes (n : nat) (z : Z) : gostring :=
  map (fun i => chr (Z.shiftr z (8 * Z.of_nat i) mod 256)) (seq 0 n).

(** The message followed by the byte 0x80, zero bytes up to 56 modulo 64,
    and the length in bits as a 64-bit little-endian number. *)
Definition pad (msg : gostring) : gostring :=
  let l := len msg in
  let zeros := Z.to_nat ((55 - l) mod 64) in
  msg ++ chr 0x80 :: repeat (chr 0) zeros ++ le_bytes 8 ((8 * l) mod 2 ^ 64).

Definition le32 (z : Z) : gostring :=
  [chr (z mod 256); chr (Z.shiftr z 8 mod 256);
   chr (Z.shiftr z 16 mod 256); chr (Z.shiftr z 24 mod 256)].

(** [md5.Sum]: the 16 bytes of the digest. *)
Definition Sum (msg : gostring) : gostring :=
  let p := pad msg in
  let st := blocks (length p / 64) init (words p) in
  le32 (sa st) ++ le32 (sb st) ++ le32 (sc st) ++ le32 (sd st).

End md5.

Module fmt.

Definition hexdigit (d : Z) : ascii :=
  if d <? 10 then chr (48 + d) else chr (87 + d).

(** [fmt.Sprintf("%x", b)] for a byte array [b]: two lower-case hexadecimal
    digits for each byte. *)
Definition Sprintf_x (b : gostring) : gostring :=
  flat_map (fun c => [hexdigit (code c / 16); hexdigit (code c mod 16)]) b.

End fmt.

(** ** unicode: the property tables

    The tables are those of the Unicode Character Database, version 14.0.0,
    as ranges of code points. *)
Module unicode.

(** The category Cc (control). *)
Definition Cc : list (Z * Z) :=
  [(0x0, 0x1F); (0x7F, 0x9F)].

(** The category Cf (format). *)
Definition Cf : list (Z * Z) :=
  [(0xAD, 0xAD); (0x600, 0x605); (0x61C, 0x61C); (0x6DD, 0x6DD);
   (0x70F, 0x70F); (0x890, 0x891); (0x8E2, 0x8E2); (0x180E, 0x180E);
   (0x200B, 0x200F); (0x202A, 0x202E); (0x2060, 0x2064); (0x2066, 0x206F);
   (0xFEFF, 0xFEFF); (0xFFF9, 0xFFFB); (0x110BD, 0x110BD); (0x110CD, 0x110CD);
   (0x13430, 0x13438); (0x1BCA0, 0x1BCA3); (0x1D173, 0x1D17A);
   (0xE0001, 0xE0001); (0xE0020, 0xE007F)].

(** The category Zl (line separator). *)
Definition Zl : list (Z * Z) :=
  [(0x2028, 0x2028)].

(** The category Zp (paragraph separator). *)
Definition Zp : list (Z * Z) :=
  [(0x2029, 0x2029)].

(** The category Zs (space separator). *)
Definition Zs : list (Z * Z) :=
  [(0x20, 0x20); (0xA0, 0xA0); (0x1680, 0x1680); (0x2000, 0x200A);
   (0x202F, 0x202F); (0x205F, 0x205F); (0x3000, 0x3000)].

(** The category Nd (decimal digit), the table [unicode.Digit]. *)
Definition Nd : list (Z * Z) :=
  [(0x30, 0x39); (0x660, 0x669); (0x6F0, 0x6F9); (0x7C0, 0x7C9);
   (0x966, 0x96F); (0x9E6, 0x9EF); (0xA66, 0xA6F); (0xAE6, 0xAEF);
   (0xB66, 0xB6F); (0xBE6, 0xBEF); (0xC66, 0xC6F); (0xCE6, 0xCEF);
   (0xD66, 0xD6F); (0xDE6, 0xDEF); (0xE50, 0xE59); (0xED0, 0xED9);
   (0xF20, 0xF29); (0x1040, 0x1049); (0x1090, 0x1099); (0x17E0, 0x17E9);
   (0x1810, 0x1819); (0x1946, 0x194F); (0x19D0, 0x19D9); (0x1A80, 0x1A89);
   (0x1A90, 0x1A99); (0x1B50, 0x1B59); (0x1BB0, 0x1BB9); (0x1C40, 0x1C49);
   (0x1C50, 0x1C59); (0xA620, 0xA629); (0xA8D0, 0xA8D9); (0xA900, 0xA909);
   (0xA9D0, 0xA9D9); (0xA9F0, 0xA9F9); (0xAA50, 0xAA59); (0xABF0, 0xABF9);
   (0xFF10, 0xFF19); (0x104A0, 0x104A9); (0x10D30, 0x10D39);
   (0x11066, 0x1106F); (0x110F0, 0x110F9); (0x11136, 0x1113F);
   (0x111D0, 0x111D9); (0x112F0, 0x112F9); (0x11450, 0x11459);
   (0x114D0, 0x114D9); (0x11650, 0x11659); (0x116C0, 0x116C9);
   (0x11730, 0x11739); (0x118E0, 0x118E9); (0x11950, 0x11959);
   (0x11C50, 0x11C59); (0x11D50, 0x11D59); (0x11DA0, 0x11DA9);
   (0x16A60, 0x16A69); (0x16AC0, 0x16AC9); (0x16B50, 0x16B59);
   (0x1D7CE, 0x1D7FF); (0x1E140, 0x1E149); (0x1E2F0, 0x1E2F9);
   (0x1E950, 0x1E959); (0x1FBF0, 0x1FBF9)].

(** The categories Lu, Ll, Lt, Lm and Lo, the table [unicode.Letter]. *)
Definition L : list (Z * Z) :=
  [(0x41, 0x5A); (0x61, 0x7A); (0xAA, 0xAA); (0xB5, 0xB5); (0xBA, 0xBA);
   (0xC0, 0xD6); (0xD8, 0xF6); (0xF8, 0x2C1); (0x2C6, 0x2D1); (0x2E0, 0x2E4);
   (0x2EC, 0x2EC); (0x2EE, 0x2EE); (0x370, 0x374); (0x376, 0x377);
   (0x37A, 0x37D); (0x37F, 0x37F); (0x386, 0x386); (0x388, 0x38A);
   (0x38C, 0x38C); (0x38E, 0x3A1); (0x3A3, 0x3F5); (0x3F7, 0x481);
   (0x48A, 0x52F); (0x531, 0x556); (0x559, 0x559); (0x560, 0x588);
   (0x5D0, 0x5EA); (0x5EF, 0x5F2); (0x620, 0x64A); (0x66E, 0x66F);
   (0x671, 0x6D3); (0x6D5, 0x6D5); (0x6E5, 0x6E6); (0x6EE, 0x6EF);
   (0x6FA, 0x6FC); (0x6FF, 0x6FF); (0x710, 0x710); (0x712, 0x72F);
   (0x74D, 0x7A5); (0x7B1, 0x7B1); (0x7CA, 0x7EA); (0x7F4, 0x7F5);
   (0x7FA, 0x7FA); (0x800, 0x815); (0x81A, 0x81A); (0x824, 0x824);
   (0x828, 0x828); (0x840, 0x858); (0x860, 0x86A); (0x870, 0x887);
   (0x889, 0x88E); (0x8A0, 0x8C9); (0x904, 0x939); (0x93D, 0x93D);
   (0x950, 0x950); (0x958, 0x961); (0x971, 0x980); (0x985, 0x98C);
   (0x98F, 0x990); (0x993, 0x9A8); (0x9AA, 0x9B0); (0x9B2, 0x9B2);
   (0x9B6, 0x9B9); (0x9BD, 0x9BD); (0x9CE, 0x9CE); (0x9DC, 0x9DD);
   (0x9DF, 0x9E1); (0x9F0, 0x9F1); (0x9FC, 0x9FC); (0xA05, 0xA0A);
   (0xA0F, 0xA10); (0xA13, 0xA28); (0xA2A, 0xA30); (0xA32, 0xA33);
   (0xA35, 0xA36); (0xA38, 0xA39); (0xA59, 0xA5C); (0xA5E, 0xA5E);
   (0xA72, 0xA74); (0xA85, 0xA8D); (0xA8F, 0xA91); (0xA93, 0xAA8);
   (0xAAA, 0xAB0); (0xAB2, 0xAB3); (0xAB5, 0xAB9); (0xABD, 0xABD);
   (0xAD0, 0xAD0); (0xAE0, 0xAE1); (0xAF9, 0xAF9); (0xB05, 0xB0C);
   (0xB0F, 0xB10); (0xB13, 0xB28); (0xB2A, 0xB30); (0xB32, 0xB33);
   (0xB35, 0xB39); (0xB3D, 0xB3D); (0xB5C, 0xB5D); (0xB5F, 0xB61);
   (0xB71, 0xB71); (0xB83, 0xB83); (0xB85, 0xB8A); (0xB8E, 0xB90);
   (0xB92, 0xB95); (0xB99, 0xB9A); (0xB9C, 0xB9C); (0xB9E, 0xB9F);
   (0xBA3, 0xBA4); (0xBA8, 0xBAA); (0xBAE, 0xBB9); (0xBD0, 0xBD0);
   (0xC05, 0xC0C); (0xC0E, 0xC10); (0xC12, 0xC28); (0xC2A, 0xC39);
   (0xC3D, 0xC3D); (0xC58, 0xC5A); (0xC5D, 0xC5D); (0xC60, 0xC61);
   (0xC80, 0xC80); (0xC85, 0xC8C); (0xC8E, 0xC90); (0xC92, 0xCA8);
   (0xCAA, 0xCB3); (0xCB5, 0xCB9); (0xCBD, 0xCBD); (0xCDD, 0xCDE);
   (0xCE0, 0xCE1); (0xCF1, 0xCF2); (0xD04, 0xD0C); (0xD0E, 0xD10);
   (0xD12, 0xD3A); (0xD3D, 0xD3D); (0xD4E, 0xD4E); (0xD54, 0xD56);
   (0xD5F, 0xD61); (0xD7A, 0xD7F); (0xD85, 0xD96); (0xD9A, 0xDB1);
   (0xDB3, 0xDBB); (0xDBD, 0xDBD); (0xDC0, 0xDC6); (0xE01, 0xE30);
   (0xE32, 0xE33); (0xE40, 0xE46); (0xE81, 0xE82); (0xE84, 0xE84);
   (0xE86, 0xE8A); (0xE8C, 0xEA3); (0xEA5, 0xEA5); (0xEA7, 0xEB0);
   (0xEB2, 0xEB3); (0xEBD, 0xEBD); (0xEC0, 0xEC4); (0xEC6, 0xEC6);
   (0xEDC, 0xEDF); (0xF00, 0xF00); (0xF40, 0xF47); (0xF49, 0xF6C);
   (0xF88, 0xF8C); (0x1000, 0x102A); (0x103F, 0x103F); (0x1050, 0x1055);
   (0x105A, 0x105D); (0x1061, 0x1061); (0x1065, 0x1066); (0x106E, 0x1070);
   (0x1075, 0x1081); (0x108E, 0x108E); (0x10A0, 0x10C5); (0x10C7, 0x10C7);
   (0x10CD, 0x10CD); (0x10D0, 0x10FA); (0x10FC, 0x1248); (0x124A, 0x124D);
   (0x1250, 0x1256); (0x1258, 0x1258); (0x125A, 0x125D); (0x1260, 0x1288);
   (0x128A, 0x128D); (0x1290, 0x12B0); (0x12B2, 0x12B5); (0x12B8, 0x12BE);
   (0x12C0, 0x12C0); (0x12C2, 0x12C5); (0x12C8, 0x12D6); (0x12D8, 0x1310);
   (0x1312, 0x1315); (0x1318, 0x135A); (0x1380, 0x138F); (0x13A0, 0x13F5);
   (0x13F8, 0x13FD); (0x1401, 0x166C); (0x166F, 0x167F); (0x1681, 0x169A);
   (0x16A0, 0x16EA); (0x16F1, 0x16F8); (0x1700, 0x1711); (0x171F, 0x1731);
   (0x1740, 0x1751); (0x1760, 0x176C); (0x176E, 0x1770); (0x1780, 0x17B3);
   (0x17D7, 0x17D7); (0x17DC, 0x17DC); (0x1820, 0x1878); (0x1880, 0x1884);
   (0x1887, 0x18A8); (0x18AA, 0x18AA); (0x18B0, 0x18F5); (0x1900, 0x191E);
   (0x1950, 0x196D); (0x1970, 0x1974); (0x1980, 0x19AB); (0x19B0, 0x19C9);
   (0x1A00, 0x1A16); (0x1A20, 0x1A54); (0x1AA7, 0x1AA7); (0x1B05, 0x1B33);
   (0x1B45, 0x1B4C); (0x1B83, 0x1BA0); (0x1BAE, 0x1BAF); (0x1BBA, 0x1BE5);
   (0x1C00, 0x1C23); (0x1C4D, 0x1C4F); (0x1C5A, 0x1C7D); (0x1C80, 0x1C88);
   (0x1C90, 0x1CBA); (0x1CBD, 0x1CBF); (0x1CE9, 0x1CEC); (0x1CEE, 0x1CF3);
   (0x1CF5, 0x1CF6); (0x1CFA, 0x1CFA); (0x1D00, 0x1DBF); (0x1E00, 0x1F15);
   (0x1F18, 0x1F1D); (0x1F20, 0x1F45); (0x1F48, 0x1F4D); (0x1F50, 0x1F57);
   (0x1F59, 0x1F59); (0x1F5B, 0x1F5B); (0x1F5D, 0x1F5D); (0x1F5F, 0x1F7D);
   (0x1F80, 0x1FB4); (0x1FB6, 0x1FBC); (0x1FBE, 0x1FBE); (0x1FC2, 0x1FC4);
   (0x1FC6, 0x1FCC); (0x1FD0, 0x1FD3); (0x1FD6, 0x1FDB); (0x1FE0, 0x1FEC);
   (0x1FF2, 0x1FF4); (0x1FF6, 0x1FFC); (0x2071, 0x2071); (0x207F, 0x207F);
   (0x2090, 0x209C); (0x2102, 0x2102); (0x2107, 0x2107); (0x210A, 0x2113);
   (0x2115, 0x2115); (0x2119, 0x211D); (0x2124, 0x2124); (0x2126, 0x2126);
   (0x2128, 0x2128); (0x212A, 0x212D); (0x212F, 0x2139); (0x213C, 0x213F);
   (0x2145, 0x2149); (0x214E, 0x214E); (0x2183, 0x2184); (0x2C00, 0x2CE4);
   (0x2CEB, 0x2CEE); (0x2CF2, 0x2CF3); (0x2D00, 0x2D25); (0x2D27, 0x2D27);
   (0x2D2D, 0x2D2D); (0x2D30, 0x2D67); (0x2D6F, 0x2D6F); (0x2D80, 0x2D96);
   (0x2DA0, 0x2DA6); (0x2DA8, 0x2DAE); (0x2DB0, 0x2DB6); (0x2DB8, 0x2DBE);
   (0x2DC0, 0x2DC6); (0x2DC8, 0x2DCE); (0x2DD0, 0x2DD6); (0x2DD8, 0x2DDE);
   (0x2E2F, 0x2E2F); (0x3005, 0x3006); (0x3031, 0x3035); (0x303B, 0x303C);
   (0x3041, 0x3096); (0x309D, 0x309F); (0x30A1, 0x30FA); (0x30FC, 0x30FF);
   (0x3105, 0x312F); (0x3131, 0x318E); (0x31A0, 0x31BF); (0x31F0, 0x31FF);
   (0x3400, 0x4DBF); (0x4E00, 0xA48C); (0xA4D0, 0xA4FD); (0xA500, 0xA60C);
   (0xA610, 0xA61F); (0xA62A, 0xA62B); (0xA640, 0xA66E); (0xA67F, 0xA69D);
   (0xA6A0, 0xA6E5); (0xA717, 0xA71F); (0xA722, 0xA788); (0xA78B, 0xA7CA);
   (0xA7D0, 0xA7D1); (0xA7D3, 0xA7D3); (0xA7D5, 0xA7D9); (0xA7F2, 0xA801);
   (0xA803, 0xA805); (0xA807, 0xA80A); (0xA80C, 0xA822); (0xA840, 0xA873);
   (0xA882, 0xA8B3); (0xA8F2, 0xA8F7); (0xA8FB, 0xA8FB); (0xA8FD, 0xA8FE);
   (0xA90A, 0xA925); (0xA930, 0xA946); (0xA960, 0xA97C); (0xA984, 0xA9B2);
   (0xA9CF, 0xA9CF); (0xA9E0, 0xA9E4); (0xA9E6, 0xA9EF); (0xA9FA, 0xA9FE);
   (0xAA00, 0xAA28); (0xAA40, 0xAA42); (0xAA44, 0xAA4B); (0xAA60, 0xAA76);
   (0xAA7A, 0xAA7A); (0xAA7E, 0xAAAF); (0xAAB1, 0xAAB1); (0xAAB5, 0xAAB6);
   (0xAAB9, 0xAABD); (0xAAC0, 0xAAC0); (0xAAC2, 0xAAC2); (0xAADB, 0xAADD);
   (0xAAE0, 0xAAEA); (0xAAF2, 0xAAF4); (0xAB01, 0xAB06); (0xAB09, 0xAB0E);
   (0xAB11, 0xAB16); (0xAB20, 0xAB26); (0xAB28, 0xAB2E); (0xAB30, 0xAB5A);
   (0xAB5C, 0xAB69); (0xAB70, 0xABE2); (0xAC00, 0xD7A3); (0xD7B0, 0xD7C6);
   (0xD7CB, 0xD7FB); (0xF900, 0xFA6D); (0xFA70, 0xFAD9); (0xFB00, 0xFB06);
   (0xFB13, 0xFB17); (0xFB1D, 0xFB1D); (0xFB1F, 0xFB28); (0xFB2A, 0xFB36);
   (0xFB38, 0xFB3C); (0xFB3E, 0xFB3E); (0xFB40, 0xFB41); (0xFB43, 0xFB44);
   (0xFB46, 0xFBB1); (0xFBD3, 0xFD3D); (0xFD50, 0xFD8F); (0xFD92, 0xFDC7);
   (0xFDF0, 0xFDFB); (0xFE70, 0xFE74); (0xFE76, 0xFEFC); (0xFF21, 0xFF3A);
   (0xFF41, 0xFF5A); (0xFF66, 0xFFBE); (0xFFC2, 0xFFC7); (0xFFCA, 0xFFCF);
   (0xFFD2, 0xFFD7); (0xFFDA, 0xFFDC); (0x10000, 0x1000B); (0x1000D, 0x10026);
   (0x10028, 0x1003A); (0x1003C, 0x1003D); (0x1003F, 0x1004D);
   (0x10050, 0x1005D); (0x10080, 0x100FA); (0x10280, 0x1029C);
   (0x102A0, 0x102D0); (0x10300, 0x1031F); (0x1032D, 0x10340);
   (0x10342, 0x10349); (0x10350, 0x10375); (0x10380, 0x1039D);
   (0x103A0, 0x103C3); (0x103C8, 0x103CF); (0x10400, 0x1049D);
   (0x104B0, 0x104D3); (0x104D8, 0x104FB); (0x10500, 0x10527);
   (0x10530, 0x10563); (0x10570, 0x1057A); (0x1057C, 0x1058A);
   (0x1058C, 0x10592); (0x10594, 0x10595); (0x10597, 0x105A1);
   (0x105A3, 0x105B1); (0x105B3, 0x105B9); (0x105BB, 0x105BC);
   (0x10600, 0x10736); (0x10740, 0x10755); (0x10760, 0x10767);
   (0x10780, 0x10785); (0x10787, 0x107B0); (0x107B2, 0x107BA);
   (0x10800, 0x10805); (0x10808, 0x10808); (0x1080A, 0x10835);
   (0x10837, 0x10838); (0x1083C, 0x1083C); (0x1083F, 0x10855);
   (0x10860, 0x10876); (0x10880, 0x1089E); (0x108E0, 0x108F2);
   (0x108F4, 0x108F5); (0x10900, 0x10915); (0x10920, 0x10939);
   (0x10980, 0x109B7); (0x109BE, 0x109BF); (0x10A00, 0x10A00);
   (0x10A10, 0x10A13); (0x10A15, 0x10A17); (0x10A19, 0x10A35);
   (0x10A60, 0x10A7C); (0x10A80, 0x10A9C); (0x10AC0, 0x10AC7);
   (0x10AC9, 0x10AE4); (0x10B00, 0x10B35); (0x10B40, 0x10B55);
   (0x10B60, 0x10B72); (0x10B80, 0x10B91); (0x10C00, 0x10C48);
   (0x10C80, 0x10CB2); (0x10CC0, 0x10CF2); (0x10D00, 0x10D23);
   (0x10E80, 0x10EA9); (0x10EB0, 0x10EB1); (0x10F00, 0x10F1C);
   (0x10F27, 0x10F27); (0x10F30, 0x10F45); (0x10F70, 0x10F81);
   (0x10FB0, 0x10FC4); (0x10FE0, 0x10FF6); (0x11003, 0x11037);
   (0x11071, 0x11072); (0x11075, 0x11075); (0x11083, 0x110AF);
   (0x110D0, 0x110E8); (0x11103, 0x11126); (0x11144, 0x11144);
   (0x11147, 0x11147); (0x11150, 0x11172); (0x11176, 0x11176);
   (0x11183, 0x111B2); (0x111C1, 0x111C4); (0x111DA, 0x111DA);
   (0x111DC, 0x111DC); (0x11200, 0x11211); (0x11213, 0x1122B);
   (0x11280, 0x11286); (0x11288, 0x11288); (0x1128A, 0x1128D);
   (0x1128F, 0x1129D); (0x1129F, 0x112A8); (0x112B0, 0x112DE);
   (0x11305, 0x1130C); (0x1130F, 0x11310); (0x11313, 0x11328);
   (0x1132A, 0x11330); (0x11332, 0x11333); (0x11335, 0x11339);
   (0x1133D, 0x1133D); (0x11350, 0x11350); (0x1135D, 0x11361);
   (0x11400, 0x11434); (0x11447, 0x1144A); (0x1145F, 0x11461);
   (0x11480, 0x114AF); (0x114C4, 0x114C5); (0x114C7, 0x114C7);
   (0x11580, 0x115AE); (0x115D8, 0x115DB); (0x11600, 0x1162F);
   (0x11644, 0x11644); (0x11680, 0x116AA); (0x116B8, 0x116B8);
   (0x11700, 0x1171A); (0x11740, 0x11746); (0x11800, 0x1182B);
   (0x118A0, 0x118DF); (0x118FF, 0x11906); (0x11909, 0x11909);
   (0x1190C, 0x11913); (0x11915, 0x11916); (0x11918, 0x1192F);
   (0x1193F, 0x1193F); (0x11941, 0x11941); (0x119A0, 0x119A7);
   (0x119AA, 0x119D0); (0x119E1, 0x119E1); (0x119E3, 0x119E3);
   (0x11A00, 0x11A00); (0x11A0B, 0x11A32); (0x11A3A, 0x11A3A);
   (0x11A50, 0x11A50); (0x11A5C, 0x11A89); (0x11A9D, 0x11A9D);
   (0x11AB0, 0x11AF8); (0x11C00, 0x11C08); (0x11C0A, 0x11C2E);
   (0x11C40, 0x11C40); (0x11C72, 0x11C8F); (0x11D00, 0x11D06);
   (0x11D08, 0x11D09); (0x11D0B, 0x11D30); (0x11D46, 0x11D46);
   (0x11D60, 0x11D65); (0x11D67, 0x11D68); (0x11D6A, 0x11D89);
   (0x11D98, 0x11D98); (0x11EE0, 0x11EF2); (0x11FB0, 0x11FB0);
   (0x12000, 0x12399); (0x12480, 0x12543); (0x12F90, 0x12FF0);
   (0x13000, 0x1342E); (0x14400, 0x14646); (0x16800, 0x16A38);
   (0x16A40, 0x16A5E); (0x16A70, 0x16ABE); (0x16AD0, 0x16AED);
   (0x16B00, 0x16B2F); (0x16B40, 0x16B43); (0x16B63, 0x16B77);
   (0x16B7D, 0x16B8F); (0x16E40, 0x16E7F); (0x16F00, 0x16F4A);
   (0x16F50, 0x16F50); (0x16F93, 0x16F9F); (0x16FE0, 0x16FE1);
   (0x16FE3, 0x16FE3); (0x17000, 0x187F7); (0x18800, 0x18CD5);
   (0x18D00, 0x18D08); (0x1AFF0, 0x1AFF3); (0x1AFF5, 0x1AFFB);
   (0x1AFFD, 0x1AFFE); (0x1B000, 0x1B122); (0x1B150, 0x1B152);
   (0x1B164, 0x1B167); (0x1B170, 0x1B2FB); (0x1BC00, 0x1BC6A);
   (0x1BC70, 0x1BC7C); (0x1BC80, 0x1BC88); (0x1BC90, 0x1BC99);
   (0x1D400, 0x1D454); (0x1D456, 0x1D49C); (0x1D49E, 0x1D49F);
   (0x1D4A2, 0x1D4A2); (0x1D4A5, 0x1D4A6); (0x1D4A9, 0x1D4AC);
   (0x1D4AE, 0x1D4B9); (0x1D4BB, 0x1D4BB); (0x1D4BD, 0x1D4C3);
   (0x1D4C5, 0x1D505); (0x1D507, 0x1D50A); (0x1D50D, 0x1D514);
   (0x1D516, 0x1D51C); (0x1D51E, 0x1D539); (0x1D53B, 0x1D53E);
   (0x1D540, 0x1D544); (0x1D546, 0x1D546); (0x1D54A, 0x1D550);
   (0x1D552, 0x1D6A5); (0x1D6A8, 0x1D6C0); (0x1D6C2, 0x1D6DA);
   (0x1D6DC, 0x1D6FA); (0x1D6FC, 0x1D714); (0x1D716, 0x1D734);
   (0x1D736, 0x1D74E); (0x1D750, 0x1D76E); (0x1D770, 0x1D788);
   (0x1D78A, 0x1D7A8); (0x1D7AA, 0x1D7C2); (0x1D7C4, 0x1D7CB);
   (0x1DF00, 0x1DF1E); (0x1E100, 0x1E12C); (0x1E137, 0x1E13D);
   (0x1E14E, 0x1E14E); (0x1E290, 0x1E2AD); (0x1E2C0, 0x1E2EB);
   (0x1E7E0, 0x1E7E6); (0x1E7E8, 0x1E7EB); (0x1E7ED, 0x1E7EE);
   (0x1E7F0, 0x1E7FE); (0x1E800, 0x1E8C4); (0x1E900, 0x1E943);
   (0x1E94B, 0x1E94B); (0x1EE00, 0x1EE03); (0x1EE05, 0x1EE1F);
   (0x1EE21, 0x1EE22); (0x1EE24, 0x1EE24); (0x1EE27, 0x1EE27);
   (0x1EE29, 0x1EE32); (0x1EE34, 0x1EE37); (0x1EE39, 0x1EE39);
   (0x1EE3B, 0x1EE3B); (0x1EE42, 0x1EE42); (0x1EE47, 0x1EE47);
   (0x1EE49, 0x1EE49); (0x1EE4B, 0x1EE4B); (0x1EE4D, 0x1EE4F);
   (0x1EE51, 0x1EE52); (0x1EE54, 0x1EE54); (0x1EE57, 0x1EE57);
   (0x1EE59, 0x1EE59); (0x1EE5B, 0x1EE5B); (0x1EE5D, 0x1EE5D);
   (0x1EE5F, 0x1EE5F); (0x1EE61, 0x1EE62); (0x1EE64, 0x1EE64);
   (0x1EE67, 0x1EE6A); (0x1EE6C, 0x1EE72); (0x1EE74, 0x1EE77);
   (0x1EE79, 0x1EE7C); (0x1EE7E, 0x1EE7E); (0x1EE80, 0x1EE89);
   (0x1EE8B, 0x1EE9B); (0x1EEA1, 0x1EEA3); (0x1EEA5, 0x1EEA9);
   (0x1EEAB, 0x1EEBB); (0x20000, 0x2A6DF); (0x2A700, 0x2B738);
   (0x2B740, 0x2B81D); (0x2B820, 0x2CEA1); (0x2CEB0, 0x2EBE0);
   (0x2F800, 0x2FA1D); (0x30000, 0x3134A)].

(** The lower-case mappings of [unicode.CaseRanges] above ASCII: every
    [stride]-th rune from [lo] to [hi] maps to itself plus [delta]. *)
Definition lowerRanges : list (Z * Z * Z * Z) :=
  [(0xC0, 0xD6, 1, 32); (0xD8, 0xDE, 1, 32); (0x100, 0x12E, 2, 1);
   (0x130, 0x130, 1, -199); (0x132, 0x136, 2, 1); (0x139, 0x147, 2, 1);
   (0x14A, 0x176, 2, 1); (0x178, 0x178, 1, -121); (0x179, 0x17D, 2, 1);
   (0x181, 0x181, 1, 210); (0x182, 0x184, 2, 1); (0x186, 0x186, 1, 206);
   (0x187, 0x187, 1, 1); (0x189, 0x18A, 1, 205); (0x18B, 0x18B, 1, 1);
   (0x18E, 0x18E, 1, 79); (0x18F, 0x18F, 1, 202); (0x190, 0x190, 1, 203);
   (0x191, 0x191, 1, 1); (0x193, 0x193, 1, 205); (0x194, 0x194, 1, 207);
   (0x196, 0x196, 1, 211); (0x197, 0x197, 1, 209); (0x198, 0x198, 1, 1);
   (0x19C, 0x19C, 1, 211); (0x19D, 0x19D, 1, 213); (0x19F, 0x19F, 1, 214);
   (0x1A0, 0x1A4, 2, 1); (0x1A6, 0x1A6, 1, 218); (0x1A7, 0x1A7, 1, 1);
   (0x1A9, 0x1A9, 1, 218); (0x1AC, 0x1AC, 1, 1); (0x1AE, 0x1AE, 1, 218);
   (0x1AF, 0x1AF, 1, 1); (0x1B1, 0x1B2, 1, 217); (0x1B3, 0x1B5, 2, 1);
   (0x1B7, 0x1B7, 1, 219); (0x1B8, 0x1B8, 1, 1); (0x1BC, 0x1BC, 1, 1);
   (0x1C4, 0x1C4, 1, 2); (0x1C5, 0x1C5, 1, 1); (0x1C7, 0x1C7, 1, 2);
   (0x1C8, 0x1C8, 1, 1); (0x1CA, 0x1CA, 1, 2); (0x1CB, 0x1DB, 2, 1);
   (0x1DE, 0x1EE, 2, 1); (0x1F1, 0x1F1, 1, 2); (0x1F2, 0x1F4, 2, 1);
   (0x1F6, 0x1F6, 1, -97); (0x1F7, 0x1F7, 1, -56); (0x1F8, 0x21E, 2, 1);
   (0x220, 0x220, 1, -130); (0x222, 0x232, 2, 1); (0x23A, 0x23A, 1, 10795);
   (0x23B, 0x23B, 1, 1); (0x23D, 0x23D, 1, -163); (0x23E, 0x23E, 1, 10792);
   (0x241, 0x241, 1, 1); (0x243, 0x243, 1, -195); (0x244, 0x244, 1, 69);
   (0x245, 0x245, 1, 71); (0x246, 0x24E, 2, 1); (0x370, 0x372, 2, 1);
   (0x376, 0x376, 1, 1); (0x37F, 0x37F, 1, 116); (0x386, 0x386, 1, 38);
   (0x388, 0x38A, 1, 37); (0x38C, 0x38C, 1, 64); (0x38E, 0x38F, 1, 63);
   (0x391, 0x3A1, 1, 32); (0x3A3, 0x3AB, 1, 32); (0x3CF, 0x3CF, 1, 8);
   (0x3D8, 0x3EE, 2, 1); (0x3F4, 0x3F4, 1, -60); (0x3F7, 0x3F7, 1, 1);
   (0x3F9, 0x3F9, 1, -7); (0x3FA, 0x3FA, 1, 1); (0x3FD, 0x3FF, 1, -130);
   (0x400, 0x40F, 1, 80); (0x410, 0x42F, 1, 32); (0x460, 0x480, 2, 1);
   (0x48A, 0x4BE, 2, 1); (0x4C0, 0x4C0, 1, 15); (0x4C1, 0x4CD, 2, 1);
   (0x4D0, 0x52E, 2, 1); (0x531, 0x556, 1, 48); (0x10A0, 0x10C5, 1, 7264);
   (0x10C7, 0x10C7, 1, 7264); (0x10CD, 0x10CD, 1, 7264);
   (0x13A0, 0x13EF, 1, 38864); (0x13F0, 0x13F5, 1, 8);
   (0x1C90, 0x1CBA, 1, -3008); (0x1CBD, 0x1CBF, 1, -3008);
   (0x1E00, 0x1E94, 2, 1); (0x1E9E, 0x1E9E, 1, -7615); (0x1EA0, 0x1EFE, 2, 1);
   (0x1F08, 0x1F0F, 1, -8); (0x1F18, 0x1F1D, 1, -8); (0x1F28, 0x1F2F, 1, -8);
   (0x1F38, 0x1F3F, 1, -8); (0x1F48, 0x1F4D, 1, -8); (0x1F59, 0x1F5F, 2, -8);
   (0x1F68, 0x1F6F, 1, -8); (0x1F88, 0x1F8F, 1, -8); (0x1F98, 0x1F9F, 1, -8);
   (0x1FA8, 0x1FAF, 1, -8); (0x1FB8, 0x1FB9, 1, -8); (0x1FBA, 0x1FBB, 1, -74);
   (0x1FBC, 0x1FBC, 1, -9); (0x1FC8, 0x1FCB, 1, -86); (0x1FCC, 0x1FCC, 1, -9);
   (0x1FD8, 0x1FD9, 1, -8); (0x1FDA, 0x1FDB, 1, -100); (0x1FE8, 0x1FE9, 1, -8);
   (0x1FEA, 0x1FEB, 1, -112); (0x1FEC, 0x1FEC, 1, -7);
   (0x1FF8, 0x1FF9, 1, -128); (0x1FFA, 0x1FFB, 1, -126);
   (0x1FFC, 0x1FFC, 1, -9); (0x2126, 0x2126, 1, -7517);
   (0x212A, 0x212A, 1, -8383); (0x212B, 0x212B, 1, -8262);
   (0x2132, 0x2132, 1, 28); (0x2160, 0x216F, 1, 16); (0x2183, 0x2183, 1, 1);
   (0x24B6, 0x24CF, 1, 26); (0x2C00, 0x2C2F, 1, 48); (0x2C60, 0x2C60, 1, 1);
   (0x2C62, 0x2C62, 1, -10743); (0x2C63, 0x2C63, 1, -3814);
   (0x2C64, 0x2C64, 1, -10727); (0x2C67, 0x2C6B, 2, 1);
   (0x2C6D, 0x2C6D, 1, -10780); (0x2C6E, 0x2C6E, 1, -10749);
   (0x2C6F, 0x2C6F, 1, -10783); (0x2C70, 0x2C70, 1, -10782);
   (0x2C72, 0x2C72, 1, 1); (0x2C75, 0x2C75, 1, 1); (0x2C7E, 0x2C7F, 1, -10815);
   (0x2C80, 0x2CE2, 2, 1); (0x2CEB, 0x2CED, 2, 1); (0x2CF2, 0x2CF2, 1, 1);
   (0xA640, 0xA66C, 2, 1); (0xA680, 0xA69A, 2, 1); (0xA722, 0xA72E, 2, 1);
   (0xA732, 0xA76E, 2, 1); (0xA779, 0xA77B, 2, 1); (0xA77D, 0xA77D, 1, -35332);
   (0xA77E, 0xA786, 2, 1); (0xA78B, 0xA78B, 1, 1); (0xA78D, 0xA78D, 1, -42280);
   (0xA790, 0xA792, 2, 1); (0xA796, 0xA7A8, 2, 1); (0xA7AA, 0xA7AA, 1, -42308);
   (0xA7AB, 0xA7AB, 1, -42319); (0xA7AC, 0xA7AC, 1, -42315);
   (0xA7AD, 0xA7AD, 1, -42305); (0xA7AE, 0xA7AE, 1, -42308);
   (0xA7B0, 0xA7B0, 1, -42258); (0xA7B1, 0xA7B1, 1, -42282);
   (0xA7B2, 0xA7B2, 1, -42261); (0xA7B3, 0xA7B3, 1, 928);
   (0xA7B4, 0xA7C2, 2, 1); (0xA7C4, 0xA7C4, 1, -48);
   (0xA7C5, 0xA7C5, 1, -42307); (0xA7C6, 0xA7C6, 1, -35384);
   (0xA7C7, 0xA7C9, 2, 1); (0xA7D0, 0xA7D0, 1, 1); (0xA7D6, 0xA7D8, 2, 1);
   (0xA7F5, 0xA7F5, 1, 1); (0xFF21, 0xFF3A, 1, 32); (0x10400, 0x10427, 1, 40);
   (0x104B0, 0x104D3, 1, 40); (0x10570, 0x1057A, 1, 39);
   (0x1057C, 0x1058A, 1, 39); (0x1058C, 0x10592, 1, 39);
   (0x10594, 0x10595, 1, 39); (0x10C80, 0x10CB2, 1, 64);
   (0x118A0, 0x118BF, 1, 32); (0x16E40, 0x16E5F, 1, 32);
   (0x1E900, 0x1E921, 1, 34)].

Definition inRanges (t : list (Z * Z)) (r : rune) : bool :=
  existsb (fun '(lo, hi) => (lo <=? r) && (r <=? hi)) t.

(** [unicode.IsLetter] *)
Definition IsLetter (r : rune) : bool := inRanges L r.

(** [unicode.IsDigit] *)
Definition IsDigit (r : rune) : bool := inRanges Nd r.

(** [unicode.ToLower] *)
Definition ToLower (r : rune) : rune :=
  if r <=? 0x7F then
    if (65 <=? r) && (r <=? 90) then r + 32 else r
  else
    match find (fun '(lo, hi, stride, _) =>
                  (lo <=? r) && (r <=? hi) && ((r - lo) mod stride =? 0))
               lowerRanges with
    | Some (_, _, _, delta) => r + delta
    | None => r
    end.

End unicode.

(** ** html.UnescapeString *)
Module html.

Local Open Scope string_scope.

(** The table [entity]: the named character references that stand for one
    rune.  The name includes the final semicolon where there is one. *)
Definition entity : list (string * rune) :=
  [("AElig", 0xC6); ("AElig;", 0xC6); ("AMP", 0x26); ("AMP;", 0x26);
   ("Aacute", 0xC1); ("Aacute;", 0xC1); ("Abreve;", 0x102); ("Acirc", 0xC2);
   ("Acirc;", 0xC2); ("Acy;", 0x410); ("Afr;", 0x1D504); ("Agrave", 0xC0);
   ("Agrave;", 0xC0); ("Alpha;", 0x391); ("Amacr;", 0x100); ("And;", 0x2A53);
   ("Aogon;", 0x104); ("Aopf;", 0x1D538); ("ApplyFunction;", 0x2061);
   ("Aring", 0xC5); ("Aring;", 0xC5); ("Ascr;", 0x1D49C); ("Assign;", 0x2254);
   ("Atilde", 0xC3); ("Atilde;", 0xC3); ("Auml", 0xC4); ("Auml;", 0xC4);
   ("Backslash;", 0x2216); ("Barv;", 0x2AE7); ("Barwed;", 0x2306);
   ("Bcy;", 0x411); ("Because;", 0x2235); ("Bernoullis;", 0x212C);
   ("Beta;", 0x392); ("Bfr;", 0x1D505); ("Bopf;", 0x1D539); ("Breve;", 0x2D8);
   ("Bscr;", 0x212C); ("Bumpeq;", 0x224E); ("CHcy;", 0x427); ("COPY", 0xA9);
   ("COPY;", 0xA9); ("Cacute;", 0x106); ("Cap;", 0x22D2);
   ("CapitalDifferentialD;", 0x2145); ("Cayleys;", 0x212D); ("Ccaron;", 0x10C);
   ("Ccedil", 0xC7); ("Ccedil;", 0xC7); ("Ccirc;", 0x108);
   ("Cconint;", 0x2230); ("Cdot;", 0x10A); ("Cedilla;", 0xB8);
   ("CenterDot;", 0xB7); ("Cfr;", 0x212D); ("Chi;", 0x3A7);
   ("CircleDot;", 0x2299); ("CircleMinus;", 0x2296); ("CirclePlus;", 0x2295);
   ("CircleTimes;", 0x2297); ("ClockwiseContourIntegral;", 0x2232);
   ("CloseCurlyDoubleQuote;", 0x201D); ("CloseCurlyQuote;", 0x2019);
   ("Colon;", 0x2237); ("Colone;", 0x2A74); ("Congruent;", 0x2261);
   ("Conint;", 0x222F); ("ContourIntegral;", 0x222E); ("Copf;", 0x2102);
   ("Coproduct;", 0x2210); ("CounterClockwiseContourIntegral;", 0x2233);
   ("Cross;", 0x2A2F); ("Cscr;", 0x1D49E); ("Cup;", 0x22D3);
   ("CupCap;", 0x224D); ("DD;", 0x2145); ("DDotrahd;", 0x2911);
   ("DJcy;", 0x402); ("DScy;", 0x405); ("DZcy;", 0x40F); ("Dagger;", 0x2021);
   ("Darr;", 0x21A1); ("Dashv;", 0x2AE4); ("Dcaron;", 0x10E); ("Dcy;", 0x414);
   ("Del;", 0x2207); ("Delta;", 0x394); ("Dfr;", 0x1D507);
   ("DiacriticalAcute;", 0xB4); ("DiacriticalDot;", 0x2D9);
   ("DiacriticalDoubleAcute;", 0x2DD); ("DiacriticalGrave;", 0x60);
   ("DiacriticalTilde;", 0x2DC); ("Diamond;", 0x22C4);
   ("DifferentialD;", 0x2146); ("Dopf;", 0x1D53B); ("Dot;", 0xA8);
   ("DotDot;", 0x20DC); ("DotEqual;", 0x2250);
   ("DoubleContourIntegral;", 0x222F); ("DoubleDot;", 0xA8);
   ("DoubleDownArrow;", 0x21D3); ("DoubleLeftArrow;", 0x21D0);
   ("DoubleLeftRightArrow;", 0x21D4); ("DoubleLeftTee;", 0x2AE4);
   ("DoubleLongLeftArrow;", 0x27F8); ("DoubleLongLeftRightArrow;", 0x27FA);
   ("DoubleLongRightArrow;", 0x27F9); ("DoubleRightArrow;", 0x21D2);
   ("DoubleRightTee;", 0x22A8); ("DoubleUpArrow;", 0x21D1);
   ("DoubleUpDownArrow;", 0x21D5); ("DoubleVerticalBar;", 0x2225);
   ("DownArrow;", 0x2193); ("DownArrowBar;", 0x2913);
   ("DownArrowUpArrow;", 0x21F5); ("DownBreve;", 0x311);
   ("DownLeftRightVector;", 0x2950); ("DownLeftTeeVector;", 0x295E);
   ("DownLeftVector;", 0x21BD); ("DownLeftVectorBar;", 0x2956);
   ("DownRightTeeVector;", 0x295F); ("DownRightVector;", 0x21C1);
   ("DownRightVectorBar;", 0x2957); ("DownTee;", 0x22A4);
   ("DownTeeArrow;", 0x21A7); ("Downarrow;", 0x21D3); ("Dscr;", 0x1D49F);
   ("Dstrok;", 0x110); ("ENG;", 0x14A); ("ETH", 0xD0); ("ETH;", 0xD0);
   ("Eacute", 0xC9); ("Eacute;", 0xC9); ("Ecaron;", 0x11A); ("Ecirc", 0xCA);
   ("Ecirc;", 0xCA); ("Ecy;", 0x42D); ("Edot;", 0x116); ("Efr;", 0x1D508);
   ("Egrave", 0xC8); ("Egrave;", 0xC8); ("Element;", 0x2208);
   ("Emacr;", 0x112); ("EmptySmallSquare;", 0x25FB);
   ("EmptyVerySmallSquare;", 0x25AB); ("Eogon;", 0x118); ("Eopf;", 0x1D53C);
   ("Epsilon;", 0x395); ("Equal;", 0x2A75); ("EqualTilde;", 0x2242);
   ("Equilibrium;", 0x21CC); ("Escr;", 0x2130); ("Esim;", 0x2A73);
   ("Eta;", 0x397); ("Euml", 0xCB); ("Euml;", 0xCB); ("Exists;", 0x2203);
   ("ExponentialE;", 0x2147); ("Fcy;", 0x424); ("Ffr;", 0x1D509);
   ("FilledSmallSquare;", 0x25FC); ("FilledVerySmallSquare;", 0x25AA);
   ("Fopf;", 0x1D53D); ("ForAll;", 0x2200); ("Fouriertrf;", 0x2131);
   ("Fscr;", 0x2131); ("GJcy;", 0x403); ("GT", 0x3E); ("GT;", 0x3E);
   ("Gamma;", 0x393); ("Gammad;", 0x3DC); ("Gbreve;", 0x11E);
   ("Gcedil;", 0x122); ("Gcirc;", 0x11C); ("Gcy;", 0x413); ("Gdot;", 0x120);
   ("Gfr;", 0x1D50A); ("Gg;", 0x22D9); ("Gopf;", 0x1D53E);
   ("GreaterEqual;", 0x2265); ("GreaterEqualLess;", 0x22DB);
   ("GreaterFullEqual;", 0x2267); ("GreaterGreater;", 0x2AA2);
   ("GreaterLess;", 0x2277); ("GreaterSlantEqual;", 0x2A7E);
   ("GreaterTilde;", 0x2273); ("Gscr;", 0x1D4A2); ("Gt;", 0x226B);
   ("HARDcy;", 0x42A); ("Hacek;", 0x2C7); ("Hat;", 0x5E); ("Hcirc;", 0x124);
   ("Hfr;", 0x210C); ("HilbertSpace;", 0x210B); ("Hopf;", 0x210D);
   ("HorizontalLine;", 0x2500); ("Hscr;", 0x210B); ("Hstrok;", 0x126);
   ("HumpDownHump;", 0x224E); ("HumpEqual;", 0x224F); ("IEcy;", 0x415);
   ("IJlig;", 0x132); ("IOcy;", 0x401); ("Iacute", 0xCD); ("Iacute;", 0xCD);
   ("Icirc", 0xCE); ("Icirc;", 0xCE); ("Icy;", 0x418); ("Idot;", 0x130);
   ("Ifr;", 0x2111); ("Igrave", 0xCC); ("Igrave;", 0xCC); ("Im;", 0x2111);
   ("Imacr;", 0x12A); ("ImaginaryI;", 0x2148); ("Implies;", 0x21D2);
   ("Int;", 0x222C); ("Integral;", 0x222B); ("Intersection;", 0x22C2);
   ("InvisibleComma;", 0x2063); ("InvisibleTimes;", 0x2062); ("Iogon;", 0x12E);
   ("Iopf;", 0x1D540); ("Iota;", 0x399); ("Iscr;", 0x2110); ("Itilde;", 0x128);
   ("Iukcy;", 0x406); ("Iuml", 0xCF); ("Iuml;", 0xCF); ("Jcirc;", 0x134);
   ("Jcy;", 0x419); ("Jfr;", 0x1D50D); ("Jopf;", 0x1D541); ("Jscr;", 0x1D4A5);
   ("Jsercy;", 0x408); ("Jukcy;", 0x404); ("KHcy;", 0x425); ("KJcy;", 0x40C);
   ("Kappa;", 0x39A); ("Kcedil;", 0x136); ("Kcy;", 0x41A); ("Kfr;", 0x1D50E);
   ("Kopf;", 0x1D542); ("Kscr;", 0x1D4A6); ("LJcy;", 0x409); ("LT", 0x3C);
   ("LT;", 0x3C); ("Lacute;", 0x139); ("Lambda;", 0x39B); ("Lang;", 0x27EA);
   ("Laplacetrf;", 0x2112); ("Larr;", 0x219E); ("Lcaron;", 0x13D);
   ("Lcedil;", 0x13B); ("Lcy;", 0x41B); ("LeftAngleBracket;", 0x27E8);
   ("LeftArrow;", 0x2190); ("LeftArrowBar;", 0x21E4);
   ("LeftArrowRightArrow;", 0x21C6); ("LeftCeiling;", 0x2308);
   ("LeftDoubleBracket;", 0x27E6); ("LeftDownTeeVector;", 0x2961);
   ("LeftDownVector;", 0x21C3); ("LeftDownVectorBar;", 0x2959);
   ("LeftFloor;", 0x230A); ("LeftRightArrow;", 0x2194);
   ("LeftRightVector;", 0x294E); ("LeftTee;", 0x22A3);
   ("LeftTeeArrow;", 0x21A4); ("LeftTeeVector;", 0x295A);
   ("LeftTriangle;", 0x22B2); ("LeftTriangleBar;", 0x29CF);
   ("LeftTriangleEqual;", 0x22B4); ("LeftUpDownVector;", 0x2951);
   ("LeftUpTeeVector;", 0x2960); ("LeftUpVector;", 0x21BF);
   ("LeftUpVectorBar;", 0x2958); ("LeftVector;", 0x21BC);
   ("LeftVectorBar;", 0x2952); ("Leftarrow;", 0x21D0);
   ("Leftrightarrow;", 0x21D4); ("LessEqualGreater;", 0x22DA);
   ("LessFullEqual;", 0x2266); ("LessGreater;", 0x2276); ("LessLess;", 0x2AA1);
   ("LessSlantEqual;", 0x2A7D); ("LessTilde;", 0x2272); ("Lfr;", 0x1D50F);
   ("Ll;", 0x22D8); ("Lleftarrow;", 0x21DA); ("Lmidot;", 0x13F);
   ("LongLeftArrow;", 0x27F5); ("LongLeftRightArrow;", 0x27F7);
   ("LongRightArrow;", 0x27F6); ("Longleftarrow;", 0x27F8);
   ("Longleftrightarrow;", 0x27FA); ("Longrightarrow;", 0x27F9);
   ("Lopf;", 0x1D543); ("LowerLeftArrow;", 0x2199);
   ("LowerRightArrow;", 0x2198); ("Lscr;", 0x2112); ("Lsh;", 0x21B0);
   ("Lstrok;", 0x141); ("Lt;", 0x226A); ("Map;", 0x2905); ("Mcy;", 0x41C);
   ("MediumSpace;", 0x205F); ("Mellintrf;", 0x2133); ("Mfr;", 0x1D510);
   ("MinusPlus;", 0x2213); ("Mopf;", 0x1D544); ("Mscr;", 0x2133);
   ("Mu;", 0x39C); ("NJcy;", 0x40A); ("Nacute;", 0x143); ("Ncaron;", 0x147);
   ("Ncedil;", 0x145); ("Ncy;", 0x41D); ("NegativeMediumSpace;", 0x200B);
   ("NegativeThickSpace;", 0x200B); ("NegativeThinSpace;", 0x200B);
   ("NegativeVeryThinSpace;", 0x200B); ("NestedGreaterGreater;", 0x226B);
   ("NestedLessLess;", 0x226A); ("NewLine;", 0xA); ("Nfr;", 0x1D511);
   ("NoBreak;", 0x2060); ("NonBreakingSpace;", 0xA0); ("Nopf;", 0x2115);
   ("Not;", 0x2AEC); ("NotCongruent;", 0x2262); ("NotCupCap;", 0x226D);
   ("NotDoubleVerticalBar;", 0x2226); ("NotElement;", 0x2209);
   ("NotEqual;", 0x2260); ("NotExists;", 0x2204); ("NotGreater;", 0x226F);
   ("NotGreaterEqual;", 0x2271); ("NotGreaterLess;", 0x2279);
   ("NotGreaterTilde;", 0x2275); ("NotLeftTriangle;", 0x22EA);
   ("NotLeftTriangleEqual;", 0x22EC); ("NotLess;", 0x226E);
   ("NotLessEqual;", 0x2270); ("NotLessGreater;", 0x2278);
   ("NotLessTilde;", 0x2274); ("NotPrecedes;", 0x2280);
   ("NotPrecedesSlantEqual;", 0x22E0); ("NotReverseElement;", 0x220C);
   ("NotRightTriangle;", 0x22EB); ("NotRightTriangleEqual;", 0x22ED);
   ("NotSquareSubsetEqual;", 0x22E2); ("NotSquareSupersetEqual;", 0x22E3);
   ("NotSubsetEqual;", 0x2288); ("NotSucceeds;", 0x2281);
   ("NotSucceedsSlantEqual;", 0x22E1); ("NotSupersetEqual;", 0x2289);
   ("NotTilde;", 0x2241); ("NotTildeEqual;", 0x2244);
   ("NotTildeFullEqual;", 0x2247); ("NotTildeTilde;", 0x2249);
   ("NotVerticalBar;", 0x2224); ("Nscr;", 0x1D4A9); ("Ntilde", 0xD1);
   ("Ntilde;", 0xD1); ("Nu;", 0x39D); ("OElig;", 0x152); ("Oacute", 0xD3);
   ("Oacute;", 0xD3); ("Ocirc", 0xD4); ("Ocirc;", 0xD4); ("Ocy;", 0x41E);
   ("Odblac;", 0x150); ("Ofr;", 0x1D512); ("Ograve", 0xD2); ("Ograve;", 0xD2);
   ("Omacr;", 0x14C); ("Omega;", 0x3A9); ("Omicron;", 0x39F);
   ("Oopf;", 0x1D546); ("OpenCurlyDoubleQuote;", 0x201C);
   ("OpenCurlyQuote;", 0x2018); ("Or;", 0x2A54); ("Oscr;", 0x1D4AA);
   ("Oslash", 0xD8); ("Oslash;", 0xD8); ("Otilde", 0xD5); ("Otilde;", 0xD5);
   ("Otimes;", 0x2A37); ("Ouml", 0xD6); ("Ouml;", 0xD6); ("OverBar;", 0x203E);
   ("OverBrace;", 0x23DE); ("OverBracket;", 0x23B4);
   ("OverParenthesis;", 0x23DC); ("PartialD;", 0x2202); ("Pcy;", 0x41F);
   ("Pfr;", 0x1D513); ("Phi;", 0x3A6); ("Pi;", 0x3A0); ("PlusMinus;", 0xB1);
   ("Poincareplane;", 0x210C); ("Popf;", 0x2119); ("Pr;", 0x2ABB);
   ("Precedes;", 0x227A); ("PrecedesEqual;", 0x2AAF);
   ("PrecedesSlantEqual;", 0x227C); ("PrecedesTilde;", 0x227E);
   ("Prime;", 0x2033); ("Product;", 0x220F); ("Proportion;", 0x2237);
   ("Proportional;", 0x221D); ("Pscr;", 0x1D4AB); ("Psi;", 0x3A8);
   ("QUOT", 0x22); ("QUOT;", 0x22); ("Qfr;", 0x1D514); ("Qopf;", 0x211A);
   ("Qscr;", 0x1D4AC); ("RBarr;", 0x2910); ("REG", 0xAE); ("REG;", 0xAE);
   ("Racute;", 0x154); ("Rang;", 0x27EB); ("Rarr;", 0x21A0);
   ("Rarrtl;", 0x2916); ("Rcaron;", 0x158); ("Rcedil;", 0x156);
   ("Rcy;", 0x420); ("Re;", 0x211C); ("ReverseElement;", 0x220B);
   ("ReverseEquilibrium;", 0x21CB); ("ReverseUpEquilibrium;", 0x296F);
   ("Rfr;", 0x211C); ("Rho;", 0x3A1); ("RightAngleBracket;", 0x27E9);
   ("RightArrow;", 0x2192); ("RightArrowBar;", 0x21E5);
   ("RightArrowLeftArrow;", 0x21C4); ("RightCeiling;", 0x2309);
   ("RightDoubleBracket;", 0x27E7); ("RightDownTeeVector;", 0x295D);
   ("RightDownVector;", 0x21C2); ("RightDownVectorBar;", 0x2955);
   ("RightFloor;", 0x230B); ("RightTee;", 0x22A2); ("RightTeeArrow;", 0x21A6);
   ("RightTeeVector;", 0x295B); ("RightTriangle;", 0x22B3);
   ("RightTriangleBar;", 0x29D0); ("RightTriangleEqual;", 0x22B5);
   ("RightUpDownVector;", 0x294F); ("RightUpTeeVector;", 0x295C);
   ("RightUpVector;", 0x21BE); ("RightUpVectorBar;", 0x2954);
   ("RightVector;", 0x21C0); ("RightVectorBar;", 0x2953);
   ("Rightarrow;", 0x21D2); ("Ropf;", 0x211D); ("RoundImplies;", 0x2970);
   ("Rrightarrow;", 0x21DB); ("Rscr;", 0x211B); ("Rsh;", 0x21B1);
   ("RuleDelayed;", 0x29F4); ("SHCHcy;", 0x429); ("SHcy;", 0x428);
   ("SOFTcy;", 0x42C); ("Sacute;", 0x15A); ("Sc;", 0x2ABC); ("Scaron;", 0x160);
   ("Scedil;", 0x15E); ("Scirc;", 0x15C); ("Scy;", 0x421); ("Sfr;", 0x1D516);
   ("ShortDownArrow;", 0x2193); ("ShortLeftArrow;", 0x2190);
   ("ShortRightArrow;", 0x2192); ("ShortUpArrow;", 0x2191); ("Sigma;", 0x3A3);
   ("SmallCircle;", 0x2218); ("Sopf;", 0x1D54A); ("Sqrt;", 0x221A);
   ("Square;", 0x25A1); ("SquareIntersection;", 0x2293);
   ("SquareSubset;", 0x228F); ("SquareSubsetEqual;", 0x2291);
   ("SquareSuperset;", 0x2290); ("SquareSupersetEqual;", 0x2292);
   ("SquareUnion;", 0x2294); ("Sscr;", 0x1D4AE); ("Star;", 0x22C6);
   ("Sub;", 0x22D0); ("Subset;", 0x22D0); ("SubsetEqual;", 0x2286);
   ("Succeeds;", 0x227B); ("SucceedsEqual;", 0x2AB0);
   ("SucceedsSlantEqual;", 0x227D); ("SucceedsTilde;", 0x227F);
   ("SuchThat;", 0x220B); ("Sum;", 0x2211); ("Sup;", 0x22D1);
   ("Superset;", 0x2283); ("SupersetEqual;", 0x2287); ("Supset;", 0x22D1);
   ("THORN", 0xDE); ("THORN;", 0xDE); ("TRADE;", 0x2122); ("TSHcy;", 0x40B);
   ("TScy;", 0x426); ("Tab;", 0x9); ("Tau;", 0x3A4); ("Tcaron;", 0x164);
   ("Tcedil;", 0x162); ("Tcy;", 0x422); ("Tfr;", 0x1D517);
   ("Therefore;", 0x2234); ("Theta;", 0x398); ("ThinSpace;", 0x2009);
   ("Tilde;", 0x223C); ("TildeEqual;", 0x2243); ("TildeFullEqual;", 0x2245);
   ("TildeTilde;", 0x2248); ("Topf;", 0x1D54B); ("TripleDot;", 0x20DB);
   ("Tscr;", 0x1D4AF); ("Tstrok;", 0x166); ("Uacute", 0xDA); ("Uacute;", 0xDA);
   ("Uarr;", 0x219F); ("Uarrocir;", 0x2949); ("Ubrcy;", 0x40E);
   ("Ubreve;", 0x16C); ("Ucirc", 0xDB); ("Ucirc;", 0xDB); ("Ucy;", 0x423);
   ("Udblac;", 0x170); ("Ufr;", 0x1D518); ("Ugrave", 0xD9); ("Ugrave;", 0xD9);
   ("Umacr;", 0x16A); ("UnderBar;", 0x5F); ("UnderBrace;", 0x23DF);
   ("UnderBracket;", 0x23B5); ("UnderParenthesis;", 0x23DD);
   ("Union;", 0x22C3); ("UnionPlus;", 0x228E); ("Uogon;", 0x172);
   ("Uopf;", 0x1D54C); ("UpArrow;", 0x2191); ("UpArrowBar;", 0x2912);
   ("UpArrowDownArrow;", 0x21C5); ("UpDownArrow;", 0x2195);
   ("UpEquilibrium;", 0x296E); ("UpTee;", 0x22A5); ("UpTeeArrow;", 0x21A5);
   ("Uparrow;", 0x21D1); ("Updownarrow;", 0x21D5); ("UpperLeftArrow;", 0x2196);
   ("UpperRightArrow;", 0x2197); ("Upsi;", 0x3D2); ("Upsilon;", 0x3A5);
   ("Uring;", 0x16E); ("Uscr;", 0x1D4B0); ("Utilde;", 0x168); ("Uuml", 0xDC);
   ("Uuml;", 0xDC); ("VDash;", 0x22AB); ("Vbar;", 0x2AEB); ("Vcy;", 0x412);
   ("Vdash;", 0x22A9); ("Vdashl;", 0x2AE6); ("Vee;", 0x22C1);
   ("Verbar;", 0x2016); ("Vert;", 0x2016); ("VerticalBar;", 0x2223);
   ("VerticalLine;", 0x7C); ("VerticalSeparator;", 0x2758);
   ("VerticalTilde;", 0x2240); ("VeryThinSpace;", 0x200A); ("Vfr;", 0x1D519);
   ("Vopf;", 0x1D54D); ("Vscr;", 0x1D4B1); ("Vvdash;", 0x22AA);
   ("Wcirc;", 0x174); ("Wedge;", 0x22C0); ("Wfr;", 0x1D51A);
   ("Wopf;", 0x1D54E); ("Wscr;", 0x1D4B2); ("Xfr;", 0x1D51B); ("Xi;", 0x39E);
   ("Xopf;", 0x1D54F); ("Xscr;", 0x1D4B3); ("YAcy;", 0x42F); ("YIcy;", 0x407);
   ("YUcy;", 0x42E); ("Yacute", 0xDD); ("Yacute;", 0xDD); ("Ycirc;", 0x176);
   ("Ycy;", 0x42B); ("Yfr;", 0x1D51C); ("Yopf;", 0x1D550); ("Yscr;", 0x1D4B4);
   ("Yuml;", 0x178); ("ZHcy;", 0x416); ("Zacute;", 0x179); ("Zcaron;", 0x17D);
   ("Zcy;", 0x417); ("Zdot;", 0x17B); ("ZeroWidthSpace;", 0x200B);
   ("Zeta;", 0x396); ("Zfr;", 0x2128); ("Zopf;", 0x2124); ("Zscr;", 0x1D4B5);
   ("aacute", 0xE1); ("aacute;", 0xE1); ("abreve;", 0x103); ("ac;", 0x223E);
   ("acd;", 0x223F); ("acirc", 0xE2); ("acirc;", 0xE2); ("acute", 0xB4);
   ("acute;", 0xB4); ("acy;", 0x430); ("aelig", 0xE6); ("aelig;", 0xE6);
   ("af;", 0x2061); ("afr;", 0x1D51E); ("agrave", 0xE0); ("agrave;", 0xE0);
   ("alefsym;", 0x2135); ("aleph;", 0x2135); ("alpha;", 0x3B1);
   ("amacr;", 0x101); ("amalg;", 0x2A3F); ("amp", 0x26); ("amp;", 0x26);
   ("and;", 0x2227); ("andand;", 0x2A55); ("andd;", 0x2A5C);
   ("andslope;", 0x2A58); ("andv;", 0x2A5A); ("ang;", 0x2220);
   ("ange;", 0x29A4); ("angle;", 0x2220); ("angmsd;", 0x2221);
   ("angmsdaa;", 0x29A8); ("angmsdab;", 0x29A9); ("angmsdac;", 0x29AA);
   ("angmsdad;", 0x29AB); ("angmsdae;", 0x29AC); ("angmsdaf;", 0x29AD);
   ("angmsdag;", 0x29AE); ("angmsdah;", 0x29AF); ("angrt;", 0x221F);
   ("angrtvb;", 0x22BE); ("angrtvbd;", 0x299D); ("angsph;", 0x2222);
   ("angst;", 0xC5); ("angzarr;", 0x237C); ("aogon;", 0x105);
   ("aopf;", 0x1D552); ("ap;", 0x2248); ("apE;", 0x2A70); ("apacir;", 0x2A6F);
   ("ape;", 0x224A); ("apid;", 0x224B); ("apos;", 0x27); ("approx;", 0x2248);
   ("approxeq;", 0x224A); ("aring", 0xE5); ("aring;", 0xE5);
   ("ascr;", 0x1D4B6); ("ast;", 0x2A); ("asymp;", 0x2248);
   ("asympeq;", 0x224D); ("atilde", 0xE3); ("atilde;", 0xE3); ("auml", 0xE4);
   ("auml;", 0xE4); ("awconint;", 0x2233); ("awint;", 0x2A11);
   ("bNot;", 0x2AED); ("backcong;", 0x224C); ("backepsilon;", 0x3F6);
   ("backprime;", 0x2035); ("backsim;", 0x223D); ("backsimeq;", 0x22CD);
   ("barvee;", 0x22BD); ("barwed;", 0x2305); ("barwedge;", 0x2305);
   ("bbrk;", 0x23B5); ("bbrktbrk;", 0x23B6); ("bcong;", 0x224C);
   ("bcy;", 0x431); ("bdquo;", 0x201E); ("becaus;", 0x2235);
   ("because;", 0x2235); ("bemptyv;", 0x29B0); ("bepsi;", 0x3F6);
   ("bernou;", 0x212C); ("beta;", 0x3B2); ("beth;", 0x2136);
   ("between;", 0x226C); ("bfr;", 0x1D51F); ("bigcap;", 0x22C2);
   ("bigcirc;", 0x25EF); ("bigcup;", 0x22C3); ("bigodot;", 0x2A00);
   ("bigoplus;", 0x2A01); ("bigotimes;", 0x2A02); ("bigsqcup;", 0x2A06);
   ("bigstar;", 0x2605); ("bigtriangledown;", 0x25BD);
   ("bigtriangleup;", 0x25B3); ("biguplus;", 0x2A04); ("bigvee;", 0x22C1);
   ("bigwedge;", 0x22C0); ("bkarow;", 0x290D); ("blacklozenge;", 0x29EB);
   ("blacksquare;", 0x25AA); ("blacktriangle;", 0x25B4);
   ("blacktriangledown;", 0x25BE); ("blacktriangleleft;", 0x25C2);
   ("blacktriangleright;", 0x25B8); ("blank;", 0x2423); ("blk12;", 0x2592);
   ("blk14;", 0x2591); ("blk34;", 0x2593); ("block;", 0x2588);
   ("bnot;", 0x2310); ("bopf;", 0x1D553); ("bot;", 0x22A5);
   ("bottom;", 0x22A5); ("bowtie;", 0x22C8); ("boxDL;", 0x2557);
   ("boxDR;", 0x2554); ("boxDl;", 0x2556); ("boxDr;", 0x2553);
   ("boxH;", 0x2550); ("boxHD;", 0x2566); ("boxHU;", 0x2569);
   ("boxHd;", 0x2564); ("boxHu;", 0x2567); ("boxUL;", 0x255D);
   ("boxUR;", 0x255A); ("boxUl;", 0x255C); ("boxUr;", 0x2559);
   ("boxV;", 0x2551); ("boxVH;", 0x256C); ("boxVL;", 0x2563);
   ("boxVR;", 0x2560); ("boxVh;", 0x256B); ("boxVl;", 0x2562);
   ("boxVr;", 0x255F); ("boxbox;", 0x29C9); ("boxdL;", 0x2555);
   ("boxdR;", 0x2552); ("boxdl;", 0x2510); ("boxdr;", 0x250C);
   ("boxh;", 0x2500); ("boxhD;", 0x2565); ("boxhU;", 0x2568);
   ("boxhd;", 0x252C); ("boxhu;", 0x2534); ("boxminus;", 0x229F);
   ("boxplus;", 0x229E); ("boxtimes;", 0x22A0); ("boxuL;", 0x255B);
   ("boxuR;", 0x2558); ("boxul;", 0x2518); ("boxur;", 0x2514);
   ("boxv;", 0x2502); ("boxvH;", 0x256A); ("boxvL;", 0x2561);
   ("boxvR;", 0x255E); ("boxvh;", 0x253C); ("boxvl;", 0x2524);
   ("boxvr;", 0x251C); ("bprime;", 0x2035); ("breve;", 0x2D8);
   ("brvbar", 0xA6); ("brvbar;", 0xA6); ("bscr;", 0x1D4B7); ("bsemi;", 0x204F);
   ("bsim;", 0x223D); ("bsime;", 0x22CD); ("bsol;", 0x5C); ("bsolb;", 0x29C5);
   ("bsolhsub;", 0x27C8); ("bull;", 0x2022); ("bullet;", 0x2022);
   ("bump;", 0x224E); ("bumpE;", 0x2AAE); ("bumpe;", 0x224F);
   ("bumpeq;", 0x224F); ("cacute;", 0x107); ("cap;", 0x2229);
   ("capand;", 0x2A44); ("capbrcup;", 0x2A49); ("capcap;", 0x2A4B);
   ("capcup;", 0x2A47); ("capdot;", 0x2A40); ("caret;", 0x2041);
   ("caron;", 0x2C7); ("ccaps;", 0x2A4D); ("ccaron;", 0x10D); ("ccedil", 0xE7);
   ("ccedil;", 0xE7); ("ccirc;", 0x109); ("ccups;", 0x2A4C);
   ("ccupssm;", 0x2A50); ("cdot;", 0x10B); ("cedil", 0xB8); ("cedil;", 0xB8);
   ("cemptyv;", 0x29B2); ("cent", 0xA2); ("cent;", 0xA2); ("centerdot;", 0xB7);
   ("cfr;", 0x1D520); ("chcy;", 0x447); ("check;", 0x2713);
   ("checkmark;", 0x2713); ("chi;", 0x3C7); ("cir;", 0x25CB);
   ("cirE;", 0x29C3); ("circ;", 0x2C6); ("circeq;", 0x2257);
   ("circlearrowleft;", 0x21BA); ("circlearrowright;", 0x21BB);
   ("circledR;", 0xAE); ("circledS;", 0x24C8); ("circledast;", 0x229B);
   ("circledcirc;", 0x229A); ("circleddash;", 0x229D); ("cire;", 0x2257);
   ("cirfnint;", 0x2A10); ("cirmid;", 0x2AEF); ("cirscir;", 0x29C2);
   ("clubs;", 0x2663); ("clubsuit;", 0x2663); ("colon;", 0x3A);
   ("colone;", 0x2254); ("coloneq;", 0x2254); ("comma;", 0x2C);
   ("commat;", 0x40); ("comp;", 0x2201); ("compfn;", 0x2218);
   ("complement;", 0x2201); ("complexes;", 0x2102); ("cong;", 0x2245);
   ("congdot;", 0x2A6D); ("conint;", 0x222E); ("copf;", 0x1D554);
   ("coprod;", 0x2210); ("copy", 0xA9); ("copy;", 0xA9); ("copysr;", 0x2117);
   ("crarr;", 0x21B5); ("cross;", 0x2717); ("cscr;", 0x1D4B8);
   ("csub;", 0x2ACF); ("csube;", 0x2AD1); ("csup;", 0x2AD0);
   ("csupe;", 0x2AD2); ("ctdot;", 0x22EF); ("cudarrl;", 0x2938);
   ("cudarrr;", 0x2935); ("cuepr;", 0x22DE); ("cuesc;", 0x22DF);
   ("cularr;", 0x21B6); ("cularrp;", 0x293D); ("cup;", 0x222A);
   ("cupbrcap;", 0x2A48); ("cupcap;", 0x2A46); ("cupcup;", 0x2A4A);
   ("cupdot;", 0x228D); ("cupor;", 0x2A45); ("curarr;", 0x21B7);
   ("curarrm;", 0x293C); ("curlyeqprec;", 0x22DE); ("curlyeqsucc;", 0x22DF);
   ("curlyvee;", 0x22CE); ("curlywedge;", 0x22CF); ("curren", 0xA4);
   ("curren;", 0xA4); ("curvearrowleft;", 0x21B6);
   ("curvearrowright;", 0x21B7); ("cuvee;", 0x22CE); ("cuwed;", 0x22CF);
   ("cwconint;", 0x2232); ("cwint;", 0x2231); ("cylcty;", 0x232D);
   ("dArr;", 0x21D3); ("dHar;", 0x2965); ("dagger;", 0x2020);
   ("daleth;", 0x2138); ("darr;", 0x2193); ("dash;", 0x2010);
   ("dashv;", 0x22A3); ("dbkarow;", 0x290F); ("dblac;", 0x2DD);
   ("dcaron;", 0x10F); ("dcy;", 0x434); ("dd;", 0x2146); ("ddagger;", 0x2021);
   ("ddarr;", 0x21CA); ("ddotseq;", 0x2A77); ("deg", 0xB0); ("deg;", 0xB0);
   ("delta;", 0x3B4); ("demptyv;", 0x29B1); ("dfisht;", 0x297F);
   ("dfr;", 0x1D521); ("dharl;", 0x21C3); ("dharr;", 0x21C2);
   ("diam;", 0x22C4); ("diamond;", 0x22C4); ("diamondsuit;", 0x2666);
   ("diams;", 0x2666); ("die;", 0xA8); ("digamma;", 0x3DD); ("disin;", 0x22F2);
   ("div;", 0xF7); ("divide", 0xF7); ("divide;", 0xF7);
   ("divideontimes;", 0x22C7); ("divonx;", 0x22C7); ("djcy;", 0x452);
   ("dlcorn;", 0x231E); ("dlcrop;", 0x230D); ("dollar;", 0x24);
   ("dopf;", 0x1D555); ("dot;", 0x2D9); ("doteq;", 0x2250);
   ("doteqdot;", 0x2251); ("dotminus;", 0x2238); ("dotplus;", 0x2214);
   ("dotsquare;", 0x22A1); ("doublebarwedge;", 0x2306); ("downarrow;", 0x2193);
   ("downdownarrows;", 0x21CA); ("downharpoonleft;", 0x21C3);
   ("downharpoonright;", 0x21C2); ("drbkarow;", 0x2910); ("drcorn;", 0x231F);
   ("drcrop;", 0x230C); ("dscr;", 0x1D4B9); ("dscy;", 0x455);
   ("dsol;", 0x29F6); ("dstrok;", 0x111); ("dtdot;", 0x22F1);
   ("dtri;", 0x25BF); ("dtrif;", 0x25BE); ("duarr;", 0x21F5);
   ("duhar;", 0x296F); ("dwangle;", 0x29A6); ("dzcy;", 0x45F);
   ("dzigrarr;", 0x27FF); ("eDDot;", 0x2A77); ("eDot;", 0x2251);
   ("eacute", 0xE9); ("eacute;", 0xE9); ("easter;", 0x2A6E);
   ("ecaron;", 0x11B); ("ecir;", 0x2256); ("ecirc", 0xEA); ("ecirc;", 0xEA);
   ("ecolon;", 0x2255); ("ecy;", 0x44D); ("edot;", 0x117); ("ee;", 0x2147);
   ("efDot;", 0x2252); ("efr;", 0x1D522); ("eg;", 0x2A9A); ("egrave", 0xE8);
   ("egrave;", 0xE8); ("egs;", 0x2A96); ("egsdot;", 0x2A98); ("el;", 0x2A99);
   ("elinters;", 0x23E7); ("ell;", 0x2113); ("els;", 0x2A95);
   ("elsdot;", 0x2A97); ("emacr;", 0x113); ("empty;", 0x2205);
   ("emptyset;", 0x2205); ("emptyv;", 0x2205); ("emsp13;", 0x2004);
   ("emsp14;", 0x2005); ("emsp;", 0x2003); ("eng;", 0x14B); ("ensp;", 0x2002);
   ("eogon;", 0x119); ("eopf;", 0x1D556); ("epar;", 0x22D5);
   ("eparsl;", 0x29E3); ("eplus;", 0x2A71); ("epsi;", 0x3B5);
   ("epsilon;", 0x3B5); ("epsiv;", 0x3F5); ("eqcirc;", 0x2256);
   ("eqcolon;", 0x2255); ("eqsim;", 0x2242); ("eqslantgtr;", 0x2A96);
   ("eqslantless;", 0x2A95); ("equals;", 0x3D); ("equest;", 0x225F);
   ("equiv;", 0x2261); ("equivDD;", 0x2A78); ("eqvparsl;", 0x29E5);
   ("erDot;", 0x2253); ("erarr;", 0x2971); ("escr;", 0x212F);
   ("esdot;", 0x2250); ("esim;", 0x2242); ("eta;", 0x3B7); ("eth", 0xF0);
   ("eth;", 0xF0); ("euml", 0xEB); ("euml;", 0xEB); ("euro;", 0x20AC);
   ("excl;", 0x21); ("exist;", 0x2203); ("expectation;", 0x2130);
   ("exponentiale;", 0x2147); ("fallingdotseq;", 0x2252); ("fcy;", 0x444);
   ("female;", 0x2640); ("ffilig;", 0xFB03); ("fflig;", 0xFB00);
   ("ffllig;", 0xFB04); ("ffr;", 0x1D523); ("filig;", 0xFB01);
   ("flat;", 0x266D); ("fllig;", 0xFB02); ("fltns;", 0x25B1); ("fnof;", 0x192);
   ("fopf;", 0x1D557); ("forall;", 0x2200); ("fork;", 0x22D4);
   ("forkv;", 0x2AD9); ("fpartint;", 0x2A0D); ("frac12", 0xBD);
   ("frac12;", 0xBD); ("frac13;", 0x2153); ("frac14", 0xBC); ("frac14;", 0xBC);
   ("frac15;", 0x2155); ("frac16;", 0x2159); ("frac18;", 0x215B);
   ("frac23;", 0x2154); ("frac25;", 0x2156); ("frac34", 0xBE);
   ("frac34;", 0xBE); ("frac35;", 0x2157); ("frac38;", 0x215C);
   ("frac45;", 0x2158); ("frac56;", 0x215A); ("frac58;", 0x215D);
   ("frac78;", 0x215E); ("frasl;", 0x2044); ("frown;", 0x2322);
   ("fscr;", 0x1D4BB); ("gE;", 0x2267); ("gEl;", 0x2A8C); ("gacute;", 0x1F5);
   ("gamma;", 0x3B3); ("gammad;", 0x3DD); ("gap;", 0x2A86); ("gbreve;", 0x11F);
   ("gcirc;", 0x11D); ("gcy;", 0x433); ("gdot;", 0x121); ("ge;", 0x2265);
   ("gel;", 0x22DB); ("geq;", 0x2265); ("geqq;", 0x2267);
   ("geqslant;", 0x2A7E); ("ges;", 0x2A7E); ("gescc;", 0x2AA9);
   ("gesdot;", 0x2A80); ("gesdoto;", 0x2A82); ("gesdotol;", 0x2A84);
   ("gesles;", 0x2A94); ("gfr;", 0x1D524); ("gg;", 0x226B); ("ggg;", 0x22D9);
   ("gimel;", 0x2137); ("gjcy;", 0x453); ("gl;", 0x2277); ("glE;", 0x2A92);
   ("gla;", 0x2AA5); ("glj;", 0x2AA4); ("gnE;", 0x2269); ("gnap;", 0x2A8A);
   ("gnapprox;", 0x2A8A); ("gne;", 0x2A88); ("gneq;", 0x2A88);
   ("gneqq;", 0x2269); ("gnsim;", 0x22E7); ("gopf;", 0x1D558);
   ("grave;", 0x60); ("gscr;", 0x210A); ("gsim;", 0x2273); ("gsime;", 0x2A8E);
   ("gsiml;", 0x2A90); ("gt", 0x3E); ("gt;", 0x3E); ("gtcc;", 0x2AA7);
   ("gtcir;", 0x2A7A); ("gtdot;", 0x22D7); ("gtlPar;", 0x2995);
   ("gtquest;", 0x2A7C); ("gtrapprox;", 0x2A86); ("gtrarr;", 0x2978);
   ("gtrdot;", 0x22D7); ("gtreqless;", 0x22DB); ("gtreqqless;", 0x2A8C);
   ("gtrless;", 0x2277); ("gtrsim;", 0x2273); ("hArr;", 0x21D4);
   ("hairsp;", 0x200A); ("half;", 0xBD); ("hamilt;", 0x210B);
   ("hardcy;", 0x44A); ("harr;", 0x2194); ("harrcir;", 0x2948);
   ("harrw;", 0x21AD); ("hbar;", 0x210F); ("hcirc;", 0x125);
   ("hearts;", 0x2665); ("heartsuit;", 0x2665); ("hellip;", 0x2026);
   ("hercon;", 0x22B9); ("hfr;", 0x1D525); ("hksearow;", 0x2925);
   ("hkswarow;", 0x2926); ("hoarr;", 0x21FF); ("homtht;", 0x223B);
   ("hookleftarrow;", 0x21A9); ("hookrightarrow;", 0x21AA); ("hopf;", 0x1D559);
   ("horbar;", 0x2015); ("hscr;", 0x1D4BD); ("hslash;", 0x210F);
   ("hstrok;", 0x127); ("hybull;", 0x2043); ("hyphen;", 0x2010);
   ("iacute", 0xED); ("iacute;", 0xED); ("ic;", 0x2063); ("icirc", 0xEE);
   ("icirc;", 0xEE); ("icy;", 0x438); ("iecy;", 0x435); ("iexcl", 0xA1);
   ("iexcl;", 0xA1); ("iff;", 0x21D4); ("ifr;", 0x1D526); ("igrave", 0xEC);
   ("igrave;", 0xEC); ("ii;", 0x2148); ("iiiint;", 0x2A0C); ("iiint;", 0x222D);
   ("iinfin;", 0x29DC); ("iiota;", 0x2129); ("ijlig;", 0x133);
   ("imacr;", 0x12B); ("image;", 0x2111); ("imagline;", 0x2110);
   ("imagpart;", 0x2111); ("imath;", 0x131); ("imof;", 0x22B7);
   ("imped;", 0x1B5); ("in;", 0x2208); ("incare;", 0x2105); ("infin;", 0x221E);
   ("infintie;", 0x29DD); ("inodot;", 0x131); ("int;", 0x222B);
   ("intcal;", 0x22BA); ("integers;", 0x2124); ("intercal;", 0x22BA);
   ("intlarhk;", 0x2A17); ("intprod;", 0x2A3C); ("iocy;", 0x451);
   ("iogon;", 0x12F); ("iopf;", 0x1D55A); ("iota;", 0x3B9); ("iprod;", 0x2A3C);
   ("iquest", 0xBF); ("iquest;", 0xBF); ("iscr;", 0x1D4BE); ("isin;", 0x2208);
   ("isinE;", 0x22F9); ("isindot;", 0x22F5); ("isins;", 0x22F4);
   ("isinsv;", 0x22F3); ("isinv;", 0x2208); ("it;", 0x2062);
   ("itilde;", 0x129); ("iukcy;", 0x456); ("iuml", 0xEF); ("iuml;", 0xEF);
   ("jcirc;", 0x135); ("jcy;", 0x439); ("jfr;", 0x1D527); ("jmath;", 0x237);
   ("jopf;", 0x1D55B); ("jscr;", 0x1D4BF); ("jsercy;", 0x458);
   ("jukcy;", 0x454); ("kappa;", 0x3BA); ("kappav;", 0x3F0);
   ("kcedil;", 0x137); ("kcy;", 0x43A); ("kfr;", 0x1D528); ("kgreen;", 0x138);
   ("khcy;", 0x445); ("kjcy;", 0x45C); ("kopf;", 0x1D55C); ("kscr;", 0x1D4C0);
   ("lAarr;", 0x21DA); ("lArr;", 0x21D0); ("lAtail;", 0x291B);
   ("lBarr;", 0x290E); ("lE;", 0x2266); ("lEg;", 0x2A8B); ("lHar;", 0x2962);
   ("lacute;", 0x13A); ("laemptyv;", 0x29B4); ("lagran;", 0x2112);
   ("lambda;", 0x3BB); ("lang;", 0x27E8); ("langd;", 0x2991);
   ("langle;", 0x27E8); ("lap;", 0x2A85); ("laquo", 0xAB); ("laquo;", 0xAB);
   ("larr;", 0x2190); ("larrb;", 0x21E4); ("larrbfs;", 0x291F);
   ("larrfs;", 0x291D); ("larrhk;", 0x21A9); ("larrlp;", 0x21AB);
   ("larrpl;", 0x2939); ("larrsim;", 0x2973); ("larrtl;", 0x21A2);
   ("lat;", 0x2AAB); ("latail;", 0x2919); ("late;", 0x2AAD);
   ("lbarr;", 0x290C); ("lbbrk;", 0x2772); ("lbrace;", 0x7B);
   ("lbrack;", 0x5B); ("lbrke;", 0x298B); ("lbrksld;", 0x298F);
   ("lbrkslu;", 0x298D); ("lcaron;", 0x13E); ("lcedil;", 0x13C);
   ("lceil;", 0x2308); ("lcub;", 0x7B); ("lcy;", 0x43B); ("ldca;", 0x2936);
   ("ldquo;", 0x201C); ("ldquor;", 0x201E); ("ldrdhar;", 0x2967);
   ("ldrushar;", 0x294B); ("ldsh;", 0x21B2); ("le;", 0x2264);
   ("leftarrow;", 0x2190); ("leftarrowtail;", 0x21A2);
   ("leftharpoondown;", 0x21BD); ("leftharpoonup;", 0x21BC);
   ("leftleftarrows;", 0x21C7); ("leftrightarrow;", 0x2194);
   ("leftrightarrows;", 0x21C6); ("leftrightharpoons;", 0x21CB);
   ("leftrightsquigarrow;", 0x21AD); ("leftthreetimes;", 0x22CB);
   ("leg;", 0x22DA); ("leq;", 0x2264); ("leqq;", 0x2266);
   ("leqslant;", 0x2A7D); ("les;", 0x2A7D); ("lescc;", 0x2AA8);
   ("lesdot;", 0x2A7F); ("lesdoto;", 0x2A81); ("lesdotor;", 0x2A83);
   ("lesges;", 0x2A93); ("lessapprox;", 0x2A85); ("lessdot;", 0x22D6);
   ("lesseqgtr;", 0x22DA); ("lesseqqgtr;", 0x2A8B); ("lessgtr;", 0x2276);
   ("lesssim;", 0x2272); ("lfisht;", 0x297C); ("lfloor;", 0x230A);
   ("lfr;", 0x1D529); ("lg;", 0x2276); ("lgE;", 0x2A91); ("lhard;", 0x21BD);
   ("lharu;", 0x21BC); ("lharul;", 0x296A); ("lhblk;", 0x2584);
   ("ljcy;", 0x459); ("ll;", 0x226A); ("llarr;", 0x21C7);
   ("llcorner;", 0x231E); ("llhard;", 0x296B); ("lltri;", 0x25FA);
   ("lmidot;", 0x140); ("lmoust;", 0x23B0); ("lmoustache;", 0x23B0);
   ("lnE;", 0x2268); ("lnap;", 0x2A89); ("lnapprox;", 0x2A89);
   ("lne;", 0x2A87); ("lneq;", 0x2A87); ("lneqq;", 0x2268); ("lnsim;", 0x22E6);
   ("loang;", 0x27EC); ("loarr;", 0x21FD); ("lobrk;", 0x27E6);
   ("longleftarrow;", 0x27F5); ("longleftrightarrow;", 0x27F7);
   ("longmapsto;", 0x27FC); ("longrightarrow;", 0x27F6);
   ("looparrowleft;", 0x21AB); ("looparrowright;", 0x21AC); ("lopar;", 0x2985);
   ("lopf;", 0x1D55D); ("loplus;", 0x2A2D); ("lotimes;", 0x2A34);
   ("lowast;", 0x2217); ("lowbar;", 0x5F); ("loz;", 0x25CA);
   ("lozenge;", 0x25CA); ("lozf;", 0x29EB); ("lpar;", 0x28);
   ("lparlt;", 0x2993); ("lrarr;", 0x21C6); ("lrcorner;", 0x231F);
   ("lrhar;", 0x21CB); ("lrhard;", 0x296D); ("lrm;", 0x200E);
   ("lrtri;", 0x22BF); ("lsaquo;", 0x2039); ("lscr;", 0x1D4C1);
   ("lsh;", 0x21B0); ("lsim;", 0x2272); ("lsime;", 0x2A8D); ("lsimg;", 0x2A8F);
   ("lsqb;", 0x5B); ("lsquo;", 0x2018); ("lsquor;", 0x201A);
   ("lstrok;", 0x142); ("lt", 0x3C); ("lt;", 0x3C); ("ltcc;", 0x2AA6);
   ("ltcir;", 0x2A79); ("ltdot;", 0x22D6); ("lthree;", 0x22CB);
   ("ltimes;", 0x22C9); ("ltlarr;", 0x2976); ("ltquest;", 0x2A7B);
   ("ltrPar;", 0x2996); ("ltri;", 0x25C3); ("ltrie;", 0x22B4);
   ("ltrif;", 0x25C2); ("lurdshar;", 0x294A); ("luruhar;", 0x2966);
   ("mDDot;", 0x223A); ("macr", 0xAF); ("macr;", 0xAF); ("male;", 0x2642);
   ("malt;", 0x2720); ("maltese;", 0x2720); ("map;", 0x21A6);
   ("mapsto;", 0x21A6); ("mapstodown;", 0x21A7); ("mapstoleft;", 0x21A4);
   ("mapstoup;", 0x21A5); ("marker;", 0x25AE); ("mcomma;", 0x2A29);
   ("mcy;", 0x43C); ("mdash;", 0x2014); ("measuredangle;", 0x2221);
   ("mfr;", 0x1D52A); ("mho;", 0x2127); ("micro", 0xB5); ("micro;", 0xB5);
   ("mid;", 0x2223); ("midast;", 0x2A); ("midcir;", 0x2AF0); ("middot", 0xB7);
   ("middot;", 0xB7); ("minus;", 0x2212); ("minusb;", 0x229F);
   ("minusd;", 0x2238); ("minusdu;", 0x2A2A); ("mlcp;", 0x2ADB);
   ("mldr;", 0x2026); ("mnplus;", 0x2213); ("models;", 0x22A7);
   ("mopf;", 0x1D55E); ("mp;", 0x2213); ("mscr;", 0x1D4C2);
   ("mstpos;", 0x223E); ("mu;", 0x3BC); ("multimap;", 0x22B8);
   ("mumap;", 0x22B8); ("nLeftarrow;", 0x21CD); ("nLeftrightarrow;", 0x21CE);
   ("nRightarrow;", 0x21CF); ("nVDash;", 0x22AF); ("nVdash;", 0x22AE);
   ("nabla;", 0x2207); ("nacute;", 0x144); ("nap;", 0x2249); ("napos;", 0x149);
   ("napprox;", 0x2249); ("natur;", 0x266E); ("natural;", 0x266E);
   ("naturals;", 0x2115); ("nbsp", 0xA0); ("nbsp;", 0xA0); ("ncap;", 0x2A43);
   ("ncaron;", 0x148); ("ncedil;", 0x146); ("ncong;", 0x2247);
   ("ncup;", 0x2A42); ("ncy;", 0x43D); ("ndash;", 0x2013); ("ne;", 0x2260);
   ("neArr;", 0x21D7); ("nearhk;", 0x2924); ("nearr;", 0x2197);
   ("nearrow;", 0x2197); ("nequiv;", 0x2262); ("nesear;", 0x2928);
   ("nexist;", 0x2204); ("nexists;", 0x2204); ("nfr;", 0x1D52B);
   ("nge;", 0x2271); ("ngeq;", 0x2271); ("ngsim;", 0x2275); ("ngt;", 0x226F);
   ("ngtr;", 0x226F); ("nhArr;", 0x21CE); ("nharr;", 0x21AE);
   ("nhpar;", 0x2AF2); ("ni;", 0x220B); ("nis;", 0x22FC); ("nisd;", 0x22FA);
   ("niv;", 0x220B); ("njcy;", 0x45A); ("nlArr;", 0x21CD); ("nlarr;", 0x219A);
   ("nldr;", 0x2025); ("nle;", 0x2270); ("nleftarrow;", 0x219A);
   ("nleftrightarrow;", 0x21AE); ("nleq;", 0x2270); ("nless;", 0x226E);
   ("nlsim;", 0x2274); ("nlt;", 0x226E); ("nltri;", 0x22EA);
   ("nltrie;", 0x22EC); ("nmid;", 0x2224); ("nopf;", 0x1D55F); ("not", 0xAC);
   ("not;", 0xAC); ("notin;", 0x2209); ("notinva;", 0x2209);
   ("notinvb;", 0x22F7); ("notinvc;", 0x22F6); ("notni;", 0x220C);
   ("notniva;", 0x220C); ("notnivb;", 0x22FE); ("notnivc;", 0x22FD);
   ("npar;", 0x2226); ("nparallel;", 0x2226); ("npolint;", 0x2A14);
   ("npr;", 0x2280); ("nprcue;", 0x22E0); ("nprec;", 0x2280);
   ("nrArr;", 0x21CF); ("nrarr;", 0x219B); ("nrightarrow;", 0x219B);
   ("nrtri;", 0x22EB); ("nrtrie;", 0x22ED); ("nsc;", 0x2281);
   ("nsccue;", 0x22E1); ("nscr;", 0x1D4C3); ("nshortmid;", 0x2224);
   ("nshortparallel;", 0x2226); ("nsim;", 0x2241); ("nsime;", 0x2244);
   ("nsimeq;", 0x2244); ("nsmid;", 0x2224); ("nspar;", 0x2226);
   ("nsqsube;", 0x22E2); ("nsqsupe;", 0x22E3); ("nsub;", 0x2284);
   ("nsube;", 0x2288); ("nsubseteq;", 0x2288); ("nsucc;", 0x2281);
   ("nsup;", 0x2285); ("nsupe;", 0x2289); ("nsupseteq;", 0x2289);
   ("ntgl;", 0x2279); ("ntilde", 0xF1); ("ntilde;", 0xF1); ("ntlg;", 0x2278);
   ("ntriangleleft;", 0x22EA); ("ntrianglelefteq;", 0x22EC);
   ("ntriangleright;", 0x22EB); ("ntrianglerighteq;", 0x22ED); ("nu;", 0x3BD);
   ("num;", 0x23); ("numero;", 0x2116); ("numsp;", 0x2007);
   ("nvDash;", 0x22AD); ("nvHarr;", 0x2904); ("nvdash;", 0x22AC);
   ("nvinfin;", 0x29DE); ("nvlArr;", 0x2902); ("nvrArr;", 0x2903);
   ("nwArr;", 0x21D6); ("nwarhk;", 0x2923); ("nwarr;", 0x2196);
   ("nwarrow;", 0x2196); ("nwnear;", 0x2927); ("oS;", 0x24C8);
   ("oacute", 0xF3); ("oacute;", 0xF3); ("oast;", 0x229B); ("ocir;", 0x229A);
   ("ocirc", 0xF4); ("ocirc;", 0xF4); ("ocy;", 0x43E); ("odash;", 0x229D);
   ("odblac;", 0x151); ("odiv;", 0x2A38); ("odot;", 0x2299);
   ("odsold;", 0x29BC); ("oelig;", 0x153); ("ofcir;", 0x29BF);
   ("ofr;", 0x1D52C); ("ogon;", 0x2DB); ("ograve", 0xF2); ("ograve;", 0xF2);
   ("ogt;", 0x29C1); ("ohbar;", 0x29B5); ("ohm;", 0x3A9); ("oint;", 0x222E);
   ("olarr;", 0x21BA); ("olcir;", 0x29BE); ("olcross;", 0x29BB);
   ("oline;", 0x203E); ("olt;", 0x29C0); ("omacr;", 0x14D); ("omega;", 0x3C9);
   ("omicron;", 0x3BF); ("omid;", 0x29B6); ("ominus;", 0x2296);
   ("oopf;", 0x1D560); ("opar;", 0x29B7); ("operp;", 0x29B9);
   ("oplus;", 0x2295); ("or;", 0x2228); ("orarr;", 0x21BB); ("ord;", 0x2A5D);
   ("order;", 0x2134); ("orderof;", 0x2134); ("ordf", 0xAA); ("ordf;", 0xAA);
   ("ordm", 0xBA); ("ordm;", 0xBA); ("origof;", 0x22B6); ("oror;", 0x2A56);
   ("orslope;", 0x2A57); ("orv;", 0x2A5B); ("oscr;", 0x2134); ("oslash", 0xF8);
   ("oslash;", 0xF8); ("osol;", 0x2298); ("otilde", 0xF5); ("otilde;", 0xF5);
   ("otimes;", 0x2297); ("otimesas;", 0x2A36); ("ouml", 0xF6); ("ouml;", 0xF6);
   ("ovbar;", 0x233D); ("par;", 0x2225); ("para", 0xB6); ("para;", 0xB6);
   ("parallel;", 0x2225); ("parsim;", 0x2AF3); ("parsl;", 0x2AFD);
   ("part;", 0x2202); ("pcy;", 0x43F); ("percnt;", 0x25); ("period;", 0x2E);
   ("permil;", 0x2030); ("perp;", 0x22A5); ("pertenk;", 0x2031);
   ("pfr;", 0x1D52D); ("phi;", 0x3C6); ("phiv;", 0x3D5); ("phmmat;", 0x2133);
   ("phone;", 0x260E); ("pi;", 0x3C0); ("pitchfork;", 0x22D4); ("piv;", 0x3D6);
   ("planck;", 0x210F); ("planckh;", 0x210E); ("plankv;", 0x210F);
   ("plus;", 0x2B); ("plusacir;", 0x2A23); ("plusb;", 0x229E);
   ("pluscir;", 0x2A22); ("plusdo;", 0x2214); ("plusdu;", 0x2A25);
   ("pluse;", 0x2A72); ("plusmn", 0xB1); ("plusmn;", 0xB1);
   ("plussim;", 0x2A26); ("plustwo;", 0x2A27); ("pm;", 0xB1);
   ("pointint;", 0x2A15); ("popf;", 0x1D561); ("pound", 0xA3);
   ("pound;", 0xA3); ("pr;", 0x227A); ("prE;", 0x2AB3); ("prap;", 0x2AB7);
   ("prcue;", 0x227C); ("pre;", 0x2AAF); ("prec;", 0x227A);
   ("precapprox;", 0x2AB7); ("preccurlyeq;", 0x227C); ("preceq;", 0x2AAF);
   ("precnapprox;", 0x2AB9); ("precneqq;", 0x2AB5); ("precnsim;", 0x22E8);
   ("precsim;", 0x227E); ("prime;", 0x2032); ("primes;", 0x2119);
   ("prnE;", 0x2AB5); ("prnap;", 0x2AB9); ("prnsim;", 0x22E8);
   ("prod;", 0x220F); ("profalar;", 0x232E); ("profline;", 0x2312);
   ("profsurf;", 0x2313); ("prop;", 0x221D); ("propto;", 0x221D);
   ("prsim;", 0x227E); ("prurel;", 0x22B0); ("pscr;", 0x1D4C5);
   ("psi;", 0x3C8); ("puncsp;", 0x2008); ("qfr;", 0x1D52E); ("qint;", 0x2A0C);
   ("qopf;", 0x1D562); ("qprime;", 0x2057); ("qscr;", 0x1D4C6);
   ("quaternions;", 0x210D); ("quatint;", 0x2A16); ("quest;", 0x3F);
   ("questeq;", 0x225F); ("quot", 0x22); ("quot;", 0x22); ("rAarr;", 0x21DB);
   ("rArr;", 0x21D2); ("rAtail;", 0x291C); ("rBarr;", 0x290F);
   ("rHar;", 0x2964); ("racute;", 0x155); ("radic;", 0x221A);
   ("raemptyv;", 0x29B3); ("rang;", 0x27E9); ("rangd;", 0x2992);
   ("range;", 0x29A5); ("rangle;", 0x27E9); ("raquo", 0xBB); ("raquo;", 0xBB);
   ("rarr;", 0x2192); ("rarrap;", 0x2975); ("rarrb;", 0x21E5);
   ("rarrbfs;", 0x2920); ("rarrc;", 0x2933); ("rarrfs;", 0x291E);
   ("rarrhk;", 0x21AA); ("rarrlp;", 0x21AC); ("rarrpl;", 0x2945);
   ("rarrsim;", 0x2974); ("rarrtl;", 0x21A3); ("rarrw;", 0x219D);
   ("ratail;", 0x291A); ("ratio;", 0x2236); ("rationals;", 0x211A);
   ("rbarr;", 0x290D); ("rbbrk;", 0x2773); ("rbrace;", 0x7D);
   ("rbrack;", 0x5D); ("rbrke;", 0x298C); ("rbrksld;", 0x298E);
   ("rbrkslu;", 0x2990); ("rcaron;", 0x159); ("rcedil;", 0x157);
   ("rceil;", 0x2309); ("rcub;", 0x7D); ("rcy;", 0x440); ("rdca;", 0x2937);
   ("rdldhar;", 0x2969); ("rdquo;", 0x201D); ("rdquor;", 0x201D);
   ("rdsh;", 0x21B3); ("real;", 0x211C); ("realine;", 0x211B);
   ("realpart;", 0x211C); ("reals;", 0x211D); ("rect;", 0x25AD); ("reg", 0xAE);
   ("reg;", 0xAE); ("rfisht;", 0x297D); ("rfloor;", 0x230B); ("rfr;", 0x1D52F);
   ("rhard;", 0x21C1); ("rharu;", 0x21C0); ("rharul;", 0x296C);
   ("rho;", 0x3C1); ("rhov;", 0x3F1); ("rightarrow;", 0x2192);
   ("rightarrowtail;", 0x21A3); ("rightharpoondown;", 0x21C1);
   ("rightharpoonup;", 0x21C0); ("rightleftarrows;", 0x21C4);
   ("rightleftharpoons;", 0x21CC); ("rightrightarrows;", 0x21C9);
   ("rightsquigarrow;", 0x219D); ("rightthreetimes;", 0x22CC);
   ("ring;", 0x2DA); ("risingdotseq;", 0x2253); ("rlarr;", 0x21C4);
   ("rlhar;", 0x21CC); ("rlm;", 0x200F); ("rmoust;", 0x23B1);
   ("rmoustache;", 0x23B1); ("rnmid;", 0x2AEE); ("roang;", 0x27ED);
   ("roarr;", 0x21FE); ("robrk;", 0x27E7); ("ropar;", 0x2986);
   ("ropf;", 0x1D563); ("roplus;", 0x2A2E); ("rotimes;", 0x2A35);
   ("rpar;", 0x29); ("rpargt;", 0x2994); ("rppolint;", 0x2A12);
   ("rrarr;", 0x21C9); ("rsaquo;", 0x203A); ("rscr;", 0x1D4C7);
   ("rsh;", 0x21B1); ("rsqb;", 0x5D); ("rsquo;", 0x2019); ("rsquor;", 0x2019);
   ("rthree;", 0x22CC); ("rtimes;", 0x22CA); ("rtri;", 0x25B9);
   ("rtrie;", 0x22B5); ("rtrif;", 0x25B8); ("rtriltri;", 0x29CE);
   ("ruluhar;", 0x2968); ("rx;", 0x211E); ("sacute;", 0x15B);
   ("sbquo;", 0x201A); ("sc;", 0x227B); ("scE;", 0x2AB4); ("scap;", 0x2AB8);
   ("scaron;", 0x161); ("sccue;", 0x227D); ("sce;", 0x2AB0);
   ("scedil;", 0x15F); ("scirc;", 0x15D); ("scnE;", 0x2AB6);
   ("scnap;", 0x2ABA); ("scnsim;", 0x22E9); ("scpolint;", 0x2A13);
   ("scsim;", 0x227F); ("scy;", 0x441); ("sdot;", 0x22C5); ("sdotb;", 0x22A1);
   ("sdote;", 0x2A66); ("seArr;", 0x21D8); ("searhk;", 0x2925);
   ("searr;", 0x2198); ("searrow;", 0x2198); ("sect", 0xA7); ("sect;", 0xA7);
   ("semi;", 0x3B); ("seswar;", 0x2929); ("setminus;", 0x2216);
   ("setmn;", 0x2216); ("sext;", 0x2736); ("sfr;", 0x1D530);
   ("sfrown;", 0x2322); ("sharp;", 0x266F); ("shchcy;", 0x449);
   ("shcy;", 0x448); ("shortmid;", 0x2223); ("shortparallel;", 0x2225);
   ("shy", 0xAD); ("shy;", 0xAD); ("sigma;", 0x3C3); ("sigmaf;", 0x3C2);
   ("sigmav;", 0x3C2); ("sim;", 0x223C); ("simdot;", 0x2A6A);
   ("sime;", 0x2243); ("simeq;", 0x2243); ("simg;", 0x2A9E);
   ("simgE;", 0x2AA0); ("siml;", 0x2A9D); ("simlE;", 0x2A9F);
   ("simne;", 0x2246); ("simplus;", 0x2A24); ("simrarr;", 0x2972);
   ("slarr;", 0x2190); ("smallsetminus;", 0x2216); ("smashp;", 0x2A33);
   ("smeparsl;", 0x29E4); ("smid;", 0x2223); ("smile;", 0x2323);
   ("smt;", 0x2AAA); ("smte;", 0x2AAC); ("softcy;", 0x44C); ("sol;", 0x2F);
   ("solb;", 0x29C4); ("solbar;", 0x233F); ("sopf;", 0x1D564);
   ("spades;", 0x2660); ("spadesuit;", 0x2660); ("spar;", 0x2225);
   ("sqcap;", 0x2293); ("sqcup;", 0x2294); ("sqsub;", 0x228F);
   ("sqsube;", 0x2291); ("sqsubset;", 0x228F); ("sqsubseteq;", 0x2291);
   ("sqsup;", 0x2290); ("sqsupe;", 0x2292); ("sqsupset;", 0x2290);
   ("sqsupseteq;", 0x2292); ("squ;", 0x25A1); ("square;", 0x25A1);
   ("squarf;", 0x25AA); ("squf;", 0x25AA); ("srarr;", 0x2192);
   ("sscr;", 0x1D4C8); ("ssetmn;", 0x2216); ("ssmile;", 0x2323);
   ("sstarf;", 0x22C6); ("star;", 0x2606); ("starf;", 0x2605);
   ("straightepsilon;", 0x3F5); ("straightphi;", 0x3D5); ("strns;", 0xAF);
   ("sub;", 0x2282); ("subE;", 0x2AC5); ("subdot;", 0x2ABD); ("sube;", 0x2286);
   ("subedot;", 0x2AC3); ("submult;", 0x2AC1); ("subnE;", 0x2ACB);
   ("subne;", 0x228A); ("subplus;", 0x2ABF); ("subrarr;", 0x2979);
   ("subset;", 0x2282); ("subseteq;", 0x2286); ("subseteqq;", 0x2AC5);
   ("subsetneq;", 0x228A); ("subsetneqq;", 0x2ACB); ("subsim;", 0x2AC7);
   ("subsub;", 0x2AD5); ("subsup;", 0x2AD3); ("succ;", 0x227B);
   ("succapprox;", 0x2AB8); ("succcurlyeq;", 0x227D); ("succeq;", 0x2AB0);
   ("succnapprox;", 0x2ABA); ("succneqq;", 0x2AB6); ("succnsim;", 0x22E9);
   ("succsim;", 0x227F); ("sum;", 0x2211); ("sung;", 0x266A); ("sup1", 0xB9);
   ("sup1;", 0xB9); ("sup2", 0xB2); ("sup2;", 0xB2); ("sup3", 0xB3);
   ("sup3;", 0xB3); ("sup;", 0x2283); ("supE;", 0x2AC6); ("supdot;", 0x2ABE);
   ("supdsub;", 0x2AD8); ("supe;", 0x2287); ("supedot;", 0x2AC4);
   ("suphsol;", 0x27C9); ("suphsub;", 0x2AD7); ("suplarr;", 0x297B);
   ("supmult;", 0x2AC2); ("supnE;", 0x2ACC); ("supne;", 0x228B);
   ("supplus;", 0x2AC0); ("supset;", 0x2283); ("supseteq;", 0x2287);
   ("supseteqq;", 0x2AC6); ("supsetneq;", 0x228B); ("supsetneqq;", 0x2ACC);
   ("supsim;", 0x2AC8); ("supsub;", 0x2AD4); ("supsup;", 0x2AD6);
   ("swArr;", 0x21D9); ("swarhk;", 0x2926); ("swarr;", 0x2199);
   ("swarrow;", 0x2199); ("swnwar;", 0x292A); ("szlig", 0xDF);
   ("szlig;", 0xDF); ("target;", 0x2316); ("tau;", 0x3C4); ("tbrk;", 0x23B4);
   ("tcaron;", 0x165); ("tcedil;", 0x163); ("tcy;", 0x442); ("tdot;", 0x20DB);
   ("telrec;", 0x2315); ("tfr;", 0x1D531); ("there4;", 0x2234);
   ("therefore;", 0x2234); ("theta;", 0x3B8); ("thetasym;", 0x3D1);
   ("thetav;", 0x3D1); ("thickapprox;", 0x2248); ("thicksim;", 0x223C);
   ("thinsp;", 0x2009); ("thkap;", 0x2248); ("thksim;", 0x223C);
   ("thorn", 0xFE); ("thorn;", 0xFE); ("tilde;", 0x2DC); ("times", 0xD7);
   ("times;", 0xD7); ("timesb;", 0x22A0); ("timesbar;", 0x2A31);
   ("timesd;", 0x2A30); ("tint;", 0x222D); ("toea;", 0x2928); ("top;", 0x22A4);
   ("topbot;", 0x2336); ("topcir;", 0x2AF1); ("topf;", 0x1D565);
   ("topfork;", 0x2ADA); ("tosa;", 0x2929); ("tprime;", 0x2034);
   ("trade;", 0x2122); ("triangle;", 0x25B5); ("triangledown;", 0x25BF);
   ("triangleleft;", 0x25C3); ("trianglelefteq;", 0x22B4);
   ("triangleq;", 0x225C); ("triangleright;", 0x25B9);
   ("trianglerighteq;", 0x22B5); ("tridot;", 0x25EC); ("trie;", 0x225C);
   ("triminus;", 0x2A3A); ("triplus;", 0x2A39); ("trisb;", 0x29CD);
   ("tritime;", 0x2A3B); ("trpezium;", 0x23E2); ("tscr;", 0x1D4C9);
   ("tscy;", 0x446); ("tshcy;", 0x45B); ("tstrok;", 0x167); ("twixt;", 0x226C);
   ("twoheadleftarrow;", 0x219E); ("twoheadrightarrow;", 0x21A0);
   ("uArr;", 0x21D1); ("uHar;", 0x2963); ("uacute", 0xFA); ("uacute;", 0xFA);
   ("uarr;", 0x2191); ("ubrcy;", 0x45E); ("ubreve;", 0x16D); ("ucirc", 0xFB);
   ("ucirc;", 0xFB); ("ucy;", 0x443); ("udarr;", 0x21C5); ("udblac;", 0x171);
   ("udhar;", 0x296E); ("ufisht;", 0x297E); ("ufr;", 0x1D532);
   ("ugrave", 0xF9); ("ugrave;", 0xF9); ("uharl;", 0x21BF); ("uharr;", 0x21BE);
   ("uhblk;", 0x2580); ("ulcorn;", 0x231C); ("ulcorner;", 0x231C);
   ("ulcrop;", 0x230F); ("ultri;", 0x25F8); ("umacr;", 0x16B); ("uml", 0xA8);
   ("uml;", 0xA8); ("uogon;", 0x173); ("uopf;", 0x1D566); ("uparrow;", 0x2191);
   ("updownarrow;", 0x2195); ("upharpoonleft;", 0x21BF);
   ("upharpoonright;", 0x21BE); ("uplus;", 0x228E); ("upsi;", 0x3C5);
   ("upsih;", 0x3D2); ("upsilon;", 0x3C5); ("upuparrows;", 0x21C8);
   ("urcorn;", 0x231D); ("urcorner;", 0x231D); ("urcrop;", 0x230E);
   ("uring;", 0x16F); ("urtri;", 0x25F9); ("uscr;", 0x1D4CA);
   ("utdot;", 0x22F0); ("utilde;", 0x169); ("utri;", 0x25B5);
   ("utrif;", 0x25B4); ("uuarr;", 0x21C8); ("uuml", 0xFC); ("uuml;", 0xFC);
   ("uwangle;", 0x29A7); ("vArr;", 0x21D5); ("vBar;", 0x2AE8);
   ("vBarv;", 0x2AE9); ("vDash;", 0x22A8); ("vangrt;", 0x299C);
   ("varepsilon;", 0x3F5); ("varkappa;", 0x3F0); ("varnothing;", 0x2205);
   ("varphi;", 0x3D5); ("varpi;", 0x3D6); ("varpropto;", 0x221D);
   ("varr;", 0x2195); ("varrho;", 0x3F1); ("varsigma;", 0x3C2);
   ("vartheta;", 0x3D1); ("vartriangleleft;", 0x22B2);
   ("vartriangleright;", 0x22B3); ("vcy;", 0x432); ("vdash;", 0x22A2);
   ("vee;", 0x2228); ("veebar;", 0x22BB); ("veeeq;", 0x225A);
   ("vellip;", 0x22EE); ("verbar;", 0x7C); ("vert;", 0x7C); ("vfr;", 0x1D533);
   ("vltri;", 0x22B2); ("vopf;", 0x1D567); ("vprop;", 0x221D);
   ("vrtri;", 0x22B3); ("vscr;", 0x1D4CB); ("vzigzag;", 0x299A);
   ("wcirc;", 0x175); ("wedbar;", 0x2A5F); ("wedge;", 0x2227);
   ("wedgeq;", 0x2259); ("weierp;", 0x2118); ("wfr;", 0x1D534);
   ("wopf;", 0x1D568); ("wp;", 0x2118); ("wr;", 0x2240); ("wreath;", 0x2240);
   ("wscr;", 0x1D4CC); ("xcap;", 0x22C2); ("xcirc;", 0x25EF);
   ("xcup;", 0x22C3); ("xdtri;", 0x25BD); ("xfr;", 0x1D535);
   ("xhArr;", 0x27FA); ("xharr;", 0x27F7); ("xi;", 0x3BE); ("xlArr;", 0x27F8);
   ("xlarr;", 0x27F5); ("xmap;", 0x27FC); ("xnis;", 0x22FB);
   ("xodot;", 0x2A00); ("xopf;", 0x1D569); ("xoplus;", 0x2A01);
   ("xotime;", 0x2A02); ("xrArr;", 0x27F9); ("xrarr;", 0x27F6);
   ("xscr;", 0x1D4CD); ("xsqcup;", 0x2A06); ("xuplus;", 0x2A04);
   ("xutri;", 0x25B3); ("xvee;", 0x22C1); ("xwedge;", 0x22C0);
   ("yacute", 0xFD); ("yacute;", 0xFD); ("yacy;", 0x44F); ("ycirc;", 0x177);
   ("ycy;", 0x44B); ("yen", 0xA5); ("yen;", 0xA5); ("yfr;", 0x1D536);
   ("yicy;", 0x457); ("yopf;", 0x1D56A); ("yscr;", 0x1D4CE); ("yucy;", 0x44E);
   ("yuml", 0xFF); ("yuml;", 0xFF); ("zacute;", 0x17A); ("zcaron;", 0x17E);
   ("zcy;", 0x437); ("zdot;", 0x17C); ("zeetrf;", 0x2128); ("zeta;", 0x3B6);
   ("zfr;", 0x1D537); ("zhcy;", 0x436); ("zigrarr;", 0x21DD);
   ("zopf;", 0x1D56B); ("zscr;", 0x1D4CF); ("zwj;", 0x200D); ("zwnj;", 0x200C)].

(** The table [entity2]: the named character references that stand for two
    runes. *)
Definition entity2 : list (string * (rune * rune)) :=
  [("NotEqualTilde;", (0x2242, 0x338));
   ("NotGreaterFullEqual;", (0x2267, 0x338));
   ("NotGreaterGreater;", (0x226B, 0x338));
   ("NotGreaterSlantEqual;", (0x2A7E, 0x338));
   ("NotHumpDownHump;", (0x224E, 0x338)); ("NotHumpEqual;", (0x224F, 0x338));
   ("NotLeftTriangleBar;", (0x29CF, 0x338)); ("NotLessLess;", (0x226A, 0x338));
   ("NotLessSlantEqual;", (0x2A7D, 0x338));
   ("NotNestedGreaterGreater;", (0x2AA2, 0x338));
   ("NotNestedLessLess;", (0x2AA1, 0x338));
   ("NotPrecedesEqual;", (0x2AAF, 0x338));
   ("NotRightTriangleBar;", (0x29D0, 0x338));
   ("NotSquareSubset;", (0x228F, 0x338));
   ("NotSquareSuperset;", (0x2290, 0x338)); ("NotSubset;", (0x2282, 0x20D2));
   ("NotSucceedsEqual;", (0x2AB0, 0x338));
   ("NotSucceedsTilde;", (0x227F, 0x338)); ("NotSuperset;", (0x2283, 0x20D2));
   ("ThickSpace;", (0x205F, 0x200A)); ("acE;", (0x223E, 0x333));
   ("bne;", (0x3D, 0x20E5)); ("bnequiv;", (0x2261, 0x20E5));
   ("caps;", (0x2229, 0xFE00)); ("cups;", (0x222A, 0xFE00));
   ("fjlig;", (0x66, 0x6A)); ("gesl;", (0x22DB, 0xFE00));
   ("gvertneqq;", (0x2269, 0xFE00)); ("gvnE;", (0x2269, 0xFE00));
   ("lates;", (0x2AAD, 0xFE00)); ("lesg;", (0x22DA, 0xFE00));
   ("lvertneqq;", (0x2268, 0xFE00)); ("lvnE;", (0x2268, 0xFE00));
   ("nGg;", (0x22D9, 0x338)); ("nGtv;", (0x226B, 0x338));
   ("nLl;", (0x22D8, 0x338)); ("nLtv;", (0x226A, 0x338));
   ("nang;", (0x2220, 0x20D2)); ("napE;", (0x2A70, 0x338));
   ("napid;", (0x224B, 0x338)); ("nbump;", (0x224E, 0x338));
   ("nbumpe;", (0x224F, 0x338)); ("ncongdot;", (0x2A6D, 0x338));
   ("nedot;", (0x2250, 0x338)); ("nesim;", (0x2242, 0x338));
   ("ngE;", (0x2267, 0x338)); ("ngeqq;", (0x2267, 0x338));
   ("ngeqslant;", (0x2A7E, 0x338)); ("nges;", (0x2A7E, 0x338));
   ("nlE;", (0x2266, 0x338)); ("nleqq;", (0x2266, 0x338));
   ("nleqslant;", (0x2A7D, 0x338)); ("nles;", (0x2A7D, 0x338));
   ("notinE;", (0x22F9, 0x338)); ("notindot;", (0x22F5, 0x338));
   ("nparsl;", (0x2AFD, 0x20E5)); ("npart;", (0x2202, 0x338));
   ("npre;", (0x2AAF, 0x338)); ("npreceq;", (0x2AAF, 0x338));
   ("nrarrc;", (0x2933, 0x338)); ("nrarrw;", (0x219D, 0x338));
   ("nsce;", (0x2AB0, 0x338)); ("nsubE;", (0x2AC5, 0x338));
   ("nsubset;", (0x2282, 0x20D2)); ("nsubseteqq;", (0x2AC5, 0x338));
   ("nsucceq;", (0x2AB0, 0x338)); ("nsupE;", (0x2AC6, 0x338));
   ("nsupset;", (0x2283, 0x20D2)); ("nsupseteqq;", (0x2AC6, 0x338));
   ("nvap;", (0x224D, 0x20D2)); ("nvge;", (0x2265, 0x20D2));
   ("nvgt;", (0x3E, 0x20D2)); ("nvle;", (0x2264, 0x20D2));
   ("nvlt;", (0x3C, 0x20D2)); ("nvltrie;", (0x22B4, 0x20D2));
   ("nvrtrie;", (0x22B5, 0x20D2)); ("nvsim;", (0x223C, 0x20D2));
   ("race;", (0x223D, 0x331)); ("smtes;", (0x2AAC, 0xFE00));
   ("sqcaps;", (0x2293, 0xFE00)); ("sqcups;", (0x2294, 0xFE00));
   ("varsubsetneq;", (0x228A, 0xFE00)); ("varsubsetneqq;", (0x2ACB, 0xFE00));
   ("varsupsetneq;", (0x228B, 0xFE00)); ("varsupsetneqq;", (0x2ACC, 0xFE00));
   ("vnsub;", (0x2282, 0x20D2)); ("vnsup;", (0x2283, 0x20D2));
   ("vsubnE;", (0x2ACB, 0xFE00)); ("vsubne;", (0x228A, 0xFE00));
   ("vsupnE;", (0x2ACC, 0xFE00)); ("vsupne;", (0x228B, 0xFE00))].

Local Close Scope string_scope.

Definition longestEntityWithoutSemicolon : Z := 6.

(** The runes that replace the numeric references 0x80 to 0x9F. *)
Definition replacementTable : list rune :=
  [0x20AC; 0x0081; 0x201A; 0x0192; 0x201E; 0x2026; 0x2020; 0x2021; 0x02C6;
   0x2030; 0x0160; 0x2039; 0x0152; 0x008D; 0x017D; 0x008F; 0x0090; 0x2018;
   0x2019; 0x201C; 0x201D; 0x2022; 0x2013; 0x2014; 0x02DC; 0x2122; 0x0161;
   0x203A; 0x0153; 0x009D; 0x017E; 0x0178].

Definition lookup {A : Type} (tbl : list (string * A)) (name : gostring)
  : option A :=
  option_map snd (find (fun e => bytes_eqb (str (fst e)) name) tbl).

(** The 32-bit signed value a [rune] computation wraps around to. *)
Definition int32 (z : Z) : Z := (z + 2 ^ 31) mod 2 ^ 32 - 2 ^ 31.

Definition between (lo : Z) (c : ascii) (hi : Z) : bool :=
  (lo <=? code c) && (code c <=? hi).

Definition digitValue (hex : bool) (c : ascii) : option Z :=
  if between 48 c 57 then Some (code c - 48)
  else if hex && between 97 c 102 then Some (code c - 97 + 10)
  else if hex && between 65 c 70 then Some (code c - 65 + 10)
  else None.

(** The loop over the digits of a numeric reference: the value read and the
    number of bytes passed, a closing semicolon included. *)
Fixpoint scanDigits (hex : bool) (x : Z) (s : gostring) : Z * nat :=
  match s with
  | [] => (x, 0%nat)
  | c :: t =>
    match digitValue hex c with
    | Some d =>
      let '(x', n) :=
        scanDigits hex (int32 ((if hex then 16 else 10) * x + d)) t in
      (x', S n)
    | None => if Ascii.eqb c ";" then (x, 1%nat) else (x, 0%nat)
    end
  end.

Definition alnum (c : ascii) : bool :=
  between 97 c 122 || between 65 c 90 || between 48 c 57.

(** The loop over the characters of a name: the number of bytes passed, a
    closing semicolon included. *)
Fixpoint scanName (s : gostring) : nat :=
  match s with
  | [] => 0%nat
  | c :: t =>
    if alnum c then S (scanName t)
    else if Ascii.eqb c ";" then 1%nat else 0%nat
  end.

(** [for j := maxLen; j > 1; j--]: the longest prefix of the name that is an
    entity, with the number of source bytes it takes. *)
Fixpoint longestPrefix (name : gostring) (j : nat) : option (rune * nat) :=
  match j with
  | O => None
  | S j' =>
    if (1 <? j)%nat then
      match lookup entity (firstn j name) with
      | Some x => Some (x, S j)
      | None => longestPrefix name j'
      end
    else None
  end.

(** [unescapeEntity] for text outside attributes, on [s = b[src:]], which
    starts with an ampersand: the bytes written at [dst] and the number of
    bytes of [s] read. *)
Definition unescapeEntity (s : gostring) : gostring * nat :=
  let amp := (firstn 1 s, 1%nat) in
  match s with
  | _ :: c1 :: rest =>
    if Ascii.eqb c1 "#" then
      match rest with
      | c2 :: rest2 =>
        if (len s <=? 3) then amp
        else
          let hex := Ascii.eqb c2 "x" || Ascii.eqb c2 "X" in
          let start := if hex then 3%nat else 2%nat in
          let '(x, n) := scanDigits hex 0 (skipn start s) in
          let i := (start + n)%nat in
          if (i <=? 3)%nat then amp
          else
            let x' :=
              if (0x80 <=? x) && (x <=? 0x9F)
              then nth (Z.to_nat (x - 0x80)) replacementTable 0
              else if (x =? 0) || ((0xD800 <=? x) && (x <=? 0xDFFF))
                      || (0x10FFFF <? x)
              then 0xFFFD
              else x in
            (utf8.EncodeRune x', i)
      | [] => amp
      end
    else
      let i := S (scanName (skipn 1 s)) in
      let entityName := firstn (i - 1) (skipn 1 s) in
      let verbatim := (firstn i s, i) in
      match entityName with
      | [] => verbatim
      | _ =>
        match lookup entity entityName with
        | Some x => (utf8.EncodeRune x, i)
        | None =>
          match lookup entity2 entityName with
          | Some (x0, x1) => (utf8.EncodeRune x0 ++ utf8.EncodeRune x1, i)
          | None =>
            let maxLen :=
              Z.min (len entityName - 1) longestEntityWithoutSemicolon in
            match longestPrefix entityName (Z.to_nat maxLen) with
            | Some (x, n) => (utf8.EncodeRune x, n)
            | None => verbatim
            end
          end
        end
      end
  | _ => amp
  end.

(** The loop of [UnescapeString]: text up to the next ampersand is copied,
    an entity is replaced.  [skip] counts the bytes of the entity read last
    that are still to pass over. *)
Fixpoint unescape_from (skip : nat) (s : gostring) : gostring :=
  match s with
  | [] => []
  | c :: t =>
    match skip with
    | S k => unescape_from k t
    | O =>
      if Ascii.eqb c "&" then
        let '(out, n) := unescapeEntity s in
        out ++ unescape_from (n - 1) t
      else c :: unescape_from 0 t
    end
  end.

(** [html.UnescapeString] *)
Definition UnescapeString (s : gostring) : gostring := unescape_from 0 s.

End html.

(** ** strings *)
Module strings.

(** The second loop of [ToValidUTF8]; [invalid] says that the previous byte
    was part of an invalid sequence. *)
Fixpoint toValid (replacement : gostring) (invalid : bool)
         (ts : list utf8.token) : gostring :=
  match ts with
  | [] => []
  | t :: rest =>
    if utf8.invalid t then
      (if invalid then [] else replacement) ++ toValid replacement true rest
    else snd t ++ toValid replacement false rest
  end.

(** [strings.ToValidUTF8]: each run of bytes of invalid encodings is
    replaced by [replacement]. *)
Definition ToValidUTF8 (s replacement : gostring) : gostring :=
  toValid replacement false (utf8.runes s).

Definition isASCII (s : gostring) : bool :=
  forallb (fun c => code c <? utf8.RuneSelf) s.

(** [strings.Map(unicode.ToLower, s)] *)
Definition mapToLower (s : gostring) : gostring :=
  flat_map (fun t => utf8.EncodeRune (unicode.ToLower (fst t))) (utf8.runes s).

(** [strings.ToLower] *)
Definition ToLower (s : gostring) : gostring :=
  if isASCII s then
    map (fun c => if (65 <=? code c) && (code c <=? 90)
                  then chr (code c + 32) else c) s
  else mapToLower s.

(** [strings.Contains(s, ".")] *)
Definition ContainsDot (s : gostring) : bool := containsByte "." s.

End strings.

(** ** regexp

    The patterns of the package are built from classes of runes; each is
    given below by the function that, at a position of the text, says how
    many runes the leftmost-first match starting there takes.  None of them
    matches the empty string. *)
Module regexp.

(** A compiled pattern: at a position (the flag says whether it is the start
    of the text) and on the runes from there on, the capture group that took
    part (0 when the pattern has none) and the number of runes matched. *)
Definition Regexp : Type := bool -> list utf8.token -> option (nat * nat).

(** The number of runes at the head of [ts] that are in the class [P]. *)
Fixpoint run (P : rune -> bool) (ts : list utf8.token) : nat :=
  match ts with
  | t :: rest => if P (fst t) then S (run P rest) else O
  | [] => O
  end.

(** [[P]]: one rune of the class. *)
Definition one (P : rune -> bool) : Regexp :=
  fun _ ts => if (1 <=? run P ts)%nat then Some (0, 1)%nat else None.

(** [[P]+]: the longest run of runes of the class. *)
Definition plus (P : rune -> bool) : Regexp :=
  fun _ ts => if (1 <=? run P ts)%nat then Some (0%nat, run P ts) else None.

(** [[P]+$]: a run of runes of the class that ends the text. *)
Definition plusEnd (P : rune -> bool) : Regexp :=
  fun _ ts =>
    if (1 <=? run P ts)%nat && (run P ts =? length ts)%nat
    then Some (0%nat, run P ts) else None.

(** [^[P]+]: a run of runes of the class that starts the text. *)
Definition startPlus (P : rune -> bool) : Regexp :=
  fun atStart ts =>
    if atStart && (1 <=? run P ts)%nat then Some (0%nat, run P ts) else None.

(** [([P1]{2,})|([P2]{2,})|...]: the first class, in order, of which two or
    more runes stand at the position; group [g] is the [g]-th class. *)
Fixpoint repeated (g : nat) (classes : list (rune -> bool)) : Regexp :=
  fun atStart ts =>
    match classes with
    | [] => None
    | P :: more =>
      if (2 <=? run P ts)%nat then Some (g, run P ts)
      else repeated (S g) more atStart ts
    end.

(** Whether the runes [lit] stand at the head of [ts]. *)
Fixpoint litPrefix (lit : list rune) (ts : list utf8.token) : bool :=
  match lit, ts with
  | [], _ => true
  | r :: lit', t :: ts' => (r =? fst t) && litPrefix lit' ts'
  | _ :: _, [] => false
  end.

(** The number of copies of [lit] one after the other at the head of [ts];
    [n] bounds the count. *)
Fixpoint copies (n : nat) (lit : list rune) (ts : list utf8.token) : nat :=
  match n with
  | O => O
  | S n' =>
    if litPrefix lit ts then S (copies n' lit (skipn (length lit) ts)) else O
  end.

(** [(lit){2,}] for a non-empty literal: two or more copies of it. *)
Definition litRepeated (lit : list rune) : Regexp :=
  fun _ ts =>
    let k := copies (length ts) lit ts in
    if (2 <=? k)%nat then Some (1%nat, (k * length lit)%nat) else None.

(** [re.MatchString(s)]: the pattern matches somewhere in the text. *)
Fixpoint matchFrom (re : Regexp) (atStart : bool) (ts : list utf8.token)
  : bool :=
  match re atStart ts with
  | Some _ => true
  | None =>
    match ts with
    | [] => false
    | _ :: rest => matchFrom re false rest
    end
  end.

Definition MatchString (re : Regexp) (s : gostring) : bool :=
  matchFrom re true (utf8.runes s).

(** *** Templates *)

(** [strings.Cut(template, "$")] *)
Fixpoint cutDollar (s : gostring) : option (gostring * gostring) :=
  match s with
  | [] => None
  | c :: t =>
    if Ascii.eqb c "$" then Some ([], t)
    else match cutDollar t with
         | Some (before, after) => Some (c :: before, after)
         | None => None
         end
  end.

Definition nameRune (r : rune) : bool :=
  unicode.IsLetter r || unicode.IsDigit r || (r =? 95).

(** The loop of [extract] that reads a number; [-1] when the name is not one. *)
Fixpoint parseNum (num : Z) (name : gostring) : Z :=
  match name with
  | [] => num
  | c :: t =>
    if (code c <? 48) || (57 <? code c) || (100000000 <=? num) then -1
    else parseNum (num * 10 + code c - 48) t
  end.

(** [extract]: the name after a dollar sign, its number ([-1] when it is not
    a number) and the rest of the template; [None] when there is no name or
    a brace is not closed. *)
Definition extract (s : gostring) : option (gostring * Z * gostring) :=
  match s with
  | [] => None
  | c0 :: t0 =>
    let brace := Ascii.eqb c0 "{" in
    let s' := if brace then t0 else s in
    let i := length (utf8.bytes (firstn (run nameRune (utf8.runes s'))
                                        (utf8.runes s'))) in
    if (i =? 0)%nat then None
    else
      let name := firstn i s' in
      let num0 := parseNum 0 name in
      let num :=
        match name with
        | c :: _ :: _ => if Ascii.eqb c "0" then -1 else num0
        | _ => num0
        end in
      if brace then
        match skipn i s' with
        | c :: rest => if Ascii.eqb c "}" then Some (name, num, rest) else None
        | [] => None
        end
      else Some (name, num, skipn i s')
  end.

(** [re.expand] for a pattern without named groups: [m] holds the text of
    the match and of each group, [None] for a group that took no part.  Each
    turn of the loop passes a dollar sign of the template, so [fuel] above
    the length of the template is enough. *)
Fixpoint expand_loop (fuel : nat) (template : gostring)
         (m : list (option gostring)) : gostring :=
  match fuel with
  | O => template
  | S fuel' =>
    match cutDollar template with
    | None => template
    | Some (before, after) =>
      before ++
      match after with
      | c :: rest =>
        if Ascii.eqb c "$" then "$"%char :: expand_loop fuel' rest m
        else
          match extract after with
          | None => "$"%char :: expand_loop fuel' after m
          | Some (_, num, rest') =>
            (if 0 <=? num then
               match nth_error m (Z.to_nat num) with
               | Some (Some text) => text
               | _ => []
               end
             else [])
            ++ expand_loop fuel' rest' m
          end
      | [] => "$"%char :: []
      end
    end
  end.

Definition expand (template : gostring) (m : list (option gostring))
  : gostring :=
  expand_loop (S (length template)) template m.

(** The loop of [re.replaceAll] for a pattern that matches no empty string:
    the text before a match is copied and the match is replaced by
    [repl] of its text.  [skip] counts the runes of the match found last
    that are still to pass over. *)
Fixpoint replaceAll (re : Regexp) (repl : gostring -> gostring)
         (atStart : bool) (skip : nat) (ts : list utf8.token) : gostring :=
  match ts with
  | [] => []
  | t :: rest =>
    match skip with
    | S k => replaceAll re repl false k rest
    | O =>
      match re atStart ts with
      | Some (_, n) =>
        repl (utf8.bytes (firstn n ts))
        ++ replaceAll re repl false (n - 1) rest
      | None => snd t ++ replaceAll re repl false 0 rest
      end
    end
  end.

(** [re.ReplaceAllString(src, repl)] for a pattern without groups: in the
    template [$0] and [${0}] stand for the text of the match, and every
    other name for the empty string. *)
Definition ReplaceAllString (re : Regexp) (src repl : gostring) : gostring :=
  replaceAll re (fun text => expand repl [Some text]) true 0 (utf8.runes src).

(** The loop of [re.allMatches]: each match as its group and the byte
    offsets of its start and end.  [pos] is the offset of the position. *)
Fixpoint findAll (re : Regexp) (atStart : bool) (skip : nat) (pos : Z)
         (ts : list utf8.token) : list (nat * Z * Z) :=
  match ts with
  | [] => []
  | t :: rest =>
    let next := pos + len (snd t) in
    match skip with
    | S k => findAll re false k next rest
    | O =>
      match re atStart ts with
      | Some (g, n) =>
        (g, pos, pos + len (utf8.bytes (firstn n ts)))
        :: findAll re false (n - 1) next rest
      | None => findAll re false 0 next rest
      end
    end
  end.

(** [re.FindAllStringSubmatchIndex(src, -1)] for a pattern of [groups]
    groups of which the one that takes part spans the whole match: for each
    match the offsets of the match and then of each group, [-1] for a group
    that took no part. *)
Definition FindAllStringSubmatchIndex (re : Regexp) (groups : nat)
           (src : gostring) : list (list Z) :=
  map (fun '(g, lo, hi) =>
         lo :: hi ::
         flat_map (fun i => if (i =? g)%nat then [lo; hi] else [-1; -1])
                  (seq 1 groups))
      (findAll re true 0 0 (utf8.runes src)).

(** *** Classes *)

(** [[[:cntrl:]]] *)
Definition cntrl (r : rune) : bool := ((0 <=? r) && (r <=? 0x1F)) || (r =? 0x7F).

(** [[[:space:]]]: tab, new line, vertical tab, form feed, carriage return
    and space. *)
Definition space (r : rune) : bool := ((9 <=? r) && (r <=? 13)) || (r =? 32).

Definition only (c : ascii) (r : rune) : bool := r =? code c.

(** The result of compiling a pattern built at run time. *)
Inductive compiled : Type :=
| Compiled (re : Regexp)
| CompileError
| NotModelled.

(** The bytes that start an operator in a pattern: a backslash, a dot, a
    plus, a star, a question mark, parentheses, a bar, an opening bracket or
    brace, a caret and a dollar sign. *)
Definition operator (c : ascii) : bool :=
  existsb (Ascii.eqb c) (str "\.+*?()|[{^$").

(** [regexp.Compile("(" + lit + "){2,}")] for a non-empty [lit].  A pattern
    that is not valid UTF-8 is an error.  A [lit] without operators is read
    as its runes.  Other patterns are not modelled. *)
Definition compileRepeated (lit : gostring) : compiled :=
  if negb (utf8.ValidString lit) then CompileError
  else if existsb operator lit then NotModelled
  else Compiled (litRepeated (map fst (utf8.runes lit))).

End regexp.

(** ** Package svach *)
Module svach.

(** [type Svach struct] *)
Record Svach : Type := mkSvach { replaceStr : gostring; maxLen : Z }.

(** [ErrCntrl], [ErrInval] and [ErrLen] *)
Inductive error : Type := ErrCntrl | ErrInval | ErrLen.

Definition iMaxLen : Z := 240.

(** [func New() *Svach] *)
Definition New : Svach := mkSvach [] iMaxLen.

(** [[[:cntrl:]]] *)
Definition cntrlExp : regexp.Regexp := regexp.one regexp.cntrl.

(** The characters that are invalid on Windows. *)
Definition invChar (r : rune) : bool :=
  existsb (fun c => r =? code c) (str "<>:" ++ [chr 34] ++ str "/\|?*").

(** [invCharExp]: the pattern of one or more of the characters above. *)
Definition invCharExp : regexp.Regexp := regexp.plus invChar.

Definition spaceOrDot (r : rune) : bool :=
  regexp.space r || regexp.only "." r.

(** [(?s:[[:space:]]|\.)+$] *)
Definition rightSDExp : regexp.Regexp := regexp.plusEnd spaceOrDot.

(** [^\.+] *)
Definition leftdotExpr : regexp.Regexp := regexp.startPlus (regexp.only ".").

(** [func validOptStr(s string) error] *)
Definition validOptStr (s : gostring) : option error :=
  if regexp.MatchString cntrlExp s then Some ErrCntrl
  else if regexp.MatchString invCharExp s || strings.ContainsDot s
  then Some ErrInval
  else None.

(** [func NewWithOpts(replaceStr string, maxLen int)]: the object and the
    error. *)
Definition NewWithOpts (replaceStr : gostring) (maxLen : Z)
  : Svach * option error :=
  let s := mkSvach [] iMaxLen in
  match validOptStr replaceStr with
  | Some err => (s, Some err)
  | None =>
    if 255 <? maxLen then (s, Some ErrLen)
    else (mkSvach replaceStr maxLen, None)
  end.

(** [invalidNamesMap], with the length of the names as key. *)
Definition invalidNamesMap (n : Z) : list gostring :=
  if n =? 1 then [str "."]
  else if n =? 2 then [str ".."]
  else if n =? 3 then map str ["con"; "prn"; "aux"; "nul"]%string
  else if n =? 4 then
    map str ["com1"; "com2"; "com3"; "com4";
             "com5"; "com6"; "com7"; "com8";
             "com9"; "lpt1"; "lpt2"; "lpt3";
             "lpt4"; "lpt5"; "lpt6"; "lpt7";
             "lpt8"; "lpt9"]%string
  else [].

(** [func valid(name string) bool] *)
Definition valid (name : gostring) : bool :=
  if bytes_eqb name [] then false
  else if len name <? 5 then
    negb (existsb (fun invName => bytes_eqb (strings.ToLower name) invName)
                  (invalidNamesMap (len name)))
  else true.

(** [func validName(fileName, intrStr, replaceStr string, maxLen int) string];
    the slice [intrStr[:maxLen]] panics for a negative [maxLen]. *)
Definition validName (fileName intrStr replaceStr : gostring) (maxLen : Z)
  : outcome gostring :=
  if negb (bytes_eqb intrStr replaceStr) && negb (bytes_eqb intrStr [])
     && valid intrStr
  then
    if maxLen <? len intrStr then
      if maxLen <? 0 then Panic
      else Value (strings.ToValidUTF8 (slice intrStr 0 maxLen) [])
    else Value intrStr
  else Value (fmt.Sprintf_x (md5.Sum fileName)).

(** The intermediate string of [name]. *)
Definition nameIntr (fileName replaceStr : gostring) : gostring :=
  let intrStr := strings.ToValidUTF8 fileName replaceStr in
  let intrStr := html.UnescapeString intrStr in
  let intrStr := regexp.ReplaceAllString cntrlExp intrStr replaceStr in
  let intrStr := regexp.ReplaceAllString invCharExp intrStr replaceStr in
  let intrStr := regexp.ReplaceAllString rightSDExp intrStr replaceStr in
  let intrStr := regexp.ReplaceAllString leftdotExpr intrStr (str ".") in
  intrStr.

(** [func name(fileName, replaceStr string, maxLen int) string] *)
Definition name (fileName replaceStr : gostring) (maxLen : Z)
  : outcome gostring :=
  validName fileName (nameIntr fileName replaceStr) replaceStr maxLen.

(** [func (s *Svach) Name(fileName string) string] *)
Definition Name (s : Svach) (fileName : gostring) : outcome gostring :=
  name fileName (replaceStr s) (maxLen s).

Definition controlOrFormat (r : rune) : bool :=
  unicode.inRanges unicode.Cc r || unicode.inRanges unicode.Cf r.

(** [\p{Cc}|\p{Cf}] *)
Definition unicodeControl : regexp.Regexp := regexp.one controlOrFormat.

Definition separator (r : rune) : bool :=
  unicode.inRanges unicode.Zl r || unicode.inRanges unicode.Zp r
  || unicode.inRanges unicode.Zs r.

(** [\p{Zl}|\p{Zp}|\p{Zs}] *)
Definition unicodeSpace : regexp.Regexp := regexp.one separator.

(** [func repeatedCharsExp(vals []string) *regexp.Regexp]: the pattern
    [(v1{2,})|(v2{2,})|...], each [v] being a class of runes. *)
Definition repeatedCharsExp (vals : list (rune -> bool)) : regexp.Regexp :=
  regexp.repeated 1 vals.

Definition cleanVals : list (rune -> bool) :=
  [regexp.space; regexp.only "_"; regexp.only "-"; regexp.only "+";
   regexp.only "."; regexp.only "!"].

Definition cleanExpr : regexp.Regexp := repeatedCharsExp cleanVals.

Definition cleanReplaceWith : list gostring :=
  map str [""; " "; "_"; "-"; "+"; "."; "!"]%string.

(** The inner loop of [replaceAllStringSubmatch] over the groups of one
    match: [i] is the index in [sm] of the offsets in [pairs]. *)
Fixpoint submatchLoop (src : gostring) (replaceGroup : list gostring)
         (i : Z) (pairs : list Z) (st : gostring * Z) : gostring * Z :=
  match pairs with
  | start :: stop :: more =>
    let '(s, prevPos) := st in
    submatchLoop src replaceGroup (i + 2) more
      (if start =? -1 then st
       else (s ++ slice src prevPos start
               ++ nth (Z.to_nat (i / 2)) replaceGroup [],
             stop))
  | _ => st
  end.

(** [func replaceAllStringSubmatch(re, src, replaceGroup) string], [sms]
    being [re.FindAllStringSubmatchIndex(src, -1)]. *)
Definition replaceAllStringSubmatch (sms : list (list Z)) (src : gostring)
           (replaceGroup : list gostring) : gostring :=
  match sms with
  | [] => src
  | sm0 :: _ =>
    if negb (len_eq sm0 replaceGroup) then []
    else
      let '(s, prevPos) :=
        fold_left (fun st sm => submatchLoop src replaceGroup 2 (skipn 2 sm) st)
                  sms ([], 0) in
      s ++ slice src prevPos (len src)
  end.

(** One turn of the loop of [clean]; [replaceExpr] is [None] for [nil]. *)
Definition cleanStep (replaceExpr : option regexp.Regexp)
           (replaceStr intrStr : gostring) : gostring :=
  let intrStr :=
    replaceAllStringSubmatch
      (regexp.FindAllStringSubmatchIndex cleanExpr 6 intrStr)
      intrStr cleanReplaceWith in
  let intrStr :=
    match replaceExpr with
    | Some re => regexp.ReplaceAllString re intrStr replaceStr
    | None => intrStr
    end in
  let intrStr := regexp.ReplaceAllString rightSDExp intrStr replaceStr in
  let intrStr := regexp.ReplaceAllString leftdotExpr intrStr (str ".") in
  intrStr.

(** [for startStr := intrStr; ; startStr = intrStr { ... }]: the string on
    which the loop breaks and the number of turns it took, or [None] when
    it has not broken after [fuel] turns. *)
Fixpoint cleanLoop (fuel : nat) (step : gostring -> gostring)
         (startStr : gostring) : option (gostring * nat) :=
  match fuel with
  | O => None
  | S fuel' =>
    let intrStr := step startStr in
    if bytes_eqb startStr intrStr then Some (intrStr, 1%nat)
    else match cleanLoop fuel' step intrStr with
         | Some (r, n) => Some (r, S n)
         | None => None
         end
  end.

(** The passes of [clean] before the loop. *)
Definition cleanPasses (intrStr replaceStr : gostring) : gostring :=
  let intrStr := html.UnescapeString intrStr in
  let intrStr := regexp.ReplaceAllString unicodeControl intrStr replaceStr in
  let intrStr := regexp.ReplaceAllString unicodeSpace intrStr (str " ") in
  let intrStr := regexp.ReplaceAllString invCharExp intrStr replaceStr in
  intrStr.

(** The loop of [clean] with its pattern [replaceExpr]. *)
Definition cleanFix (fuel : nat) (replaceExpr : option regexp.Regexp)
           (replaceStr intrStr : gostring) : outcome gostring :=
  match cleanLoop fuel (cleanStep replaceExpr replaceStr) intrStr with
  | Some (r, _) => Value r
  | None => OutOfFuel
  end.

(** [replaceExpr]: [nil] for the empty replacement string, or else
    [regexp.MustCompile("(" + replaceStr + ")" + "{2,}")], which panics
    when the pattern does not compile. *)
Definition compileReplaceExpr (replaceStr : gostring)
  : outcome (option regexp.Regexp) :=
  if bytes_eqb replaceStr [] then Value None
  else
    match regexp.compileRepeated replaceStr with
    | regexp.Compiled re => Value (Some re)
    | regexp.CompileError => Panic
    | regexp.NotModelled => Unmodelled
    end.

(** The intermediate string of [clean]. *)
Definition cleanIntr (fuel : nat) (fileName replaceStr : gostring)
  : outcome gostring :=
  let intrStr := strings.ToValidUTF8 fileName replaceStr in
  if bytes_eqb intrStr [] then Value intrStr
  else
    let intrStr := cleanPasses intrStr replaceStr in
    match compileReplaceExpr replaceStr with
    | Value replaceExpr => cleanFix fuel replaceExpr replaceStr intrStr
    | Panic => Panic
    | OutOfFuel => OutOfFuel
    | Unmodelled => Unmodelled
    end.

(** [func clean(fileName, replaceStr string, maxLen int) string]; the loop
    is given [fuel] turns. *)
Definition clean (fuel : nat) (fileName replaceStr : gostring) (maxLen : Z)
  : outcome gostring :=
  match cleanIntr fuel fileName replaceStr with
  | Value intrStr => validName fileName intrStr replaceStr maxLen
  | Panic => Panic
  | OutOfFuel => OutOfFuel
  | Unmodelled => Unmodelled
  end.

(** [func (s *Svach) Clean(fileName string) string] *)
Definition Clean (fuel : nat) (s : Svach) (fileName : gostring)
  : outcome gostring :=
  clean fuel fileName (replaceStr s) (maxLen s).

End svach.

(** ** The words of the specification *)
Module spec.

(** The bytes of the letter e with an acute accent, U+00E9. *)
Definition e_acute : gostring := [chr 0xC3; chr 0xA9].

(** The nine characters that are invalid on Windows. *)
Definition allInvalid : gostring := str "<>:" ++ [chr 34] ++ str "/\|?*".

(** The reserved names. *)
Definition reservedNames : list gostring :=
  map str ["."; ".."; "con"; "prn"; "aux"; "nul";
           "com1"; "com2"; "com3"; "com4"; "com5"; "com6"; "com7"; "com8";
           "com9"; "lpt1"; "lpt2"; "lpt3"; "lpt4"; "lpt5"; "lpt6"; "lpt7";
           "lpt8"; "lpt9"]%string.

(** Validation rejects the intermediate string: it is empty, equals the
    replacement string, or its length in bytes is 1 to 4 and its lower-case
    form is a reserved name. *)
Definition rejected (intrStr replaceStr : gostring) : Prop :=
  intrStr = [] \/ intrStr = replaceStr
  \/ (1 <= len intrStr <= 4 /\ In (strings.ToLower intrStr) reservedNames).

(** The fallback: the md5 digest of the raw input in hexadecimal. *)
Definition fallback (fileName : gostring) : gostring :=
  fmt.Sprintf_x (md5.Sum fileName).

Definition lowerHex (c : ascii) : Prop :=
  48 <= code c <= 57 \/ 97 <= code c <= 102.

(** A control character: 0x00 to 0x1F, or 0x7F. *)
Definition control (c : ascii) : Prop := code c <= 0x1F \/ code c = 0x7F.

(** A reserved path character, or a dot. *)
Definition reservedOrDot (c : ascii) : Prop := In c (allInvalid ++ str ".").

Definition hasControl (s : gostring) : Prop := exists c, In c s /\ control c.

Definition hasReservedOrDot (s : gostring) : Prop :=
  exists c, In c s /\ reservedOrDot c.

(** A call that does not return, however many turns its loop is given. *)
Inductive diverges (run : nat -> outcome gostring) : Prop :=
| diverges_intro : (forall fuel, run fuel = OutOfFuel) -> diverges run.

End spec.

(** ** The patterns on runes

    The replacement loops of [regexp] seen on the runes of the text: a match
    is replaced by runes, the other runes are kept. *)
Module tokens.

(** The loop of [regexp.replaceAll] with the replacement [rep], a function
    of the group and of the runes matched. *)
Fixpoint replace (re : regexp.Regexp)
         (rep : nat -> list utf8.token -> list utf8.token)
         (atStart : bool) (skip : nat) (ts : list utf8.token)
  : list utf8.token :=
  match ts with
  | [] => []
  | t :: rest =>
    match skip with
    | S k => replace re rep false k rest
    | O =>
      match re atStart ts with
      | Some (g, n) => rep g (firstn n ts) ++ replace re rep false (n - 1) rest
      | None => t :: replace re rep false 0 rest
      end
    end
  end.

(** The rune of an ASCII character. *)
Definition ascii (c : ascii) : utf8.token := (code c, [c]).

(** The replacement by nothing. *)
Definition drop (g : nat) (m : list utf8.token) : list utf8.token := [].

(** The replacement by one character. *)
Definition put (c : Ascii.ascii) (g : nat) (m : list utf8.token)
  : list utf8.token := [ascii c].

(** The replacement of [cleanReplaceWith] for each group of [cleanExpr]. *)
Definition canonical (g : nat) (m : list utf8.token) : list utf8.token :=
  map ascii (nth g svach.cleanReplaceWith []).

(** The last byte of a string is a space character or a dot. *)
Definition endsSD (s : gostring) : bool :=
  match rev s with
  | c :: _ => svach.spaceOrDot (code c)
  | [] => false
  end.

(** What one match does to the builder and to [prevPos] in
    [replaceAllStringSubmatch]. *)
Definition effect (src : gostring) (replaceGroup : list gostring)
           (st : gostring * Z) (m : nat * Z * Z) : gostring * Z :=
  let '(g, lo, hi) := m in
  (fst st ++ slice src (snd st) lo ++ nth g replaceGroup [], hi).

(** The offsets of a match as [FindAllStringSubmatchIndex] gives them. *)
Definition row (groups : nat) (m : nat * Z * Z) : list Z :=
  let '(g, lo, hi) := m in
  lo :: hi ::
  flat_map (fun i => if (i =? g)%nat then [lo; hi] else [-1; -1])
           (seq 1 groups).

(** A pattern matches at least one rune, and runes of the text only. *)
Definition nonempty (re : regexp.Regexp) : Prop :=
  forall b ts g n, re b ts = Some (g, n) -> (1 <= n <= length ts)%nat.

End tokens.

(** ** Predicates on strings and runes *)

(** The case analysis of a function given by tests. *)
Ltac split_ifs :=
  repeat match goal with
         | H : context [if ?b then _ else _] |- _ => destruct b eqn:?
         | H : context [match ?x with _ => _ end] |- _ => destruct x eqn:?
         end.

(** A rune of a string is an ASCII byte read as itself, or a rune above
    ASCII read from bytes above ASCII. *)
Definition tok_ok (t : utf8.token) : Prop :=
  snd t <> []
  /\ ((exists c, t = (code c, [c]) /\ code c < 128)
      \/ (128 <= fst t /\ Forall (fun b => 128 <= code b) (snd t))).

(** A token that is read the same whatever follows it. *)
Definition stable (t : utf8.token) : Prop :=
  snd t <> []
  /\ forall rest,
      utf8.DecodeRuneInString (snd t ++ rest) = (fst t, length (snd t)).

(** A rune that was read from a valid encoding. *)
Definition wf (t : utf8.token) : Prop := stable t /\ utf8.invalid t = false.

(** A string of valid encodings. *)
Definition Valid (s : gostring) : Prop :=
  exists ts, Forall wf ts /\ utf8.bytes ts = s.

Definition ascii7 (c : ascii) : Prop := code c < 128.

(** All the runes of a string have a property. *)
Definition allRunes (Q : utf8.token -> Prop) (s : gostring) : Prop :=
  Forall Q (utf8.runes s).

Definition pass (re : regexp.Regexp)
           (rep : nat -> list utf8.token -> list utf8.token) (s : gostring)
  : gostring :=
  utf8.bytes (tokens.replace re rep true 0 (utf8.runes s)).

(** The runes that [[P]] or [[P]+] does not match are not in [P]. *)
Definition classOf (P : rune -> bool) (re : regexp.Regexp) : Prop :=
  tokens.nonempty re
  /\ forall b t rest, re b (t :: rest) = None -> P (fst t) = false.

Definition matchesClass (P : rune -> bool) (re : regexp.Regexp) : Prop :=
  forall b ts g n, re b ts = Some (g, n) -> (1 <= regexp.run P ts)%nat.

(** The runes that enter the loop of [clean] with the empty replacement
    string: none is a control or format character or an invalid character,
    and the only separator is the space. *)
Definition cleanRunes (s : gostring) : Prop :=
  Valid s
  /\ allRunes (fun t => svach.controlOrFormat (fst t) = false) s
  /\ allRunes (fun t => svach.separator (fst t) = true -> t = tokens.ascii " ") s
  /\ allRunes (fun t => svach.invChar (fst t) = false) s.

Definition lower_entry_ok (e : Z * Z * Z * Z) : bool :=
  let '(lo, hi, stride, delta) := e in
  ((128 <=? lo + delta) && (hi + delta <? 2 ^ 32))
  || ((lo =? hi) && ((lo + delta =? 105) || (lo + delta =? 107))).

Definition plainByte (b : ascii) : bool :=
  (code b <? 128) && negb (Ascii.eqb b "i") && negb (Ascii.eqb b "k").

(** The strings [a...a ] on which the loop turns for ever when the
    replacement string is [a ]. *)
Definition as_space (n : nat) : gostring := repeat "a"%char n ++ [" "%char].

Definition as_space_runes (n : nat) : list utf8.token :=
  repeat (tokens.ascii "a") n ++ [tokens.ascii " "].

(** The number of runes of a string. *)
Definition runeCount (s : gostring) : nat := length (utf8.runes s).

(** The replacement by the runes of a text. *)
Definition putRunes (text : gostring) (g : nat) (m : list utf8.token)
  : list utf8.token := utf8.runes text.

(** The pattern [replaceExpr] of a replacement string without operators. *)
Definition plainExpr (R : gostring) : option regexp.Regexp :=
  if bytes_eqb R [] then None
  else Some (regexp.litRepeated (map fst (utf8.runes R))).

(** The second pass of a turn of the loop: the repeated replacement
    strings. *)
Definition secondPass (R s : gostring) : gostring :=
  match plainExpr R with
  | Some rx => regexp.ReplaceAllString rx s R
  | None => s
  end.

(** A turn of the loop of [clean]. *)
Definition loopStep (R : gostring) : gostring -> gostring :=
  svach.cleanStep (plainExpr R) R.


(** ** Words for the properties of names *)
Module names.

(** A byte that is no control character (0x00 to 0x1F, 0x7F) and none of
    the nine characters that are invalid on Windows. *)
Definition nameByte (c : ascii) : Prop :=
  ~ spec.control c /\ ~ In c spec.allInvalid.

(** The lower-case form of an ASCII letter; any other byte is itself. *)
Definition asciiLower (c : ascii) : ascii :=
  if (65 <=? code c) && (code c <=? 90) then chr (code c + 32) else c.

(** Two bytes of the same class of [cleanExpr]: two space characters, or
    twice the same of the separators [_], [-], [+], [.] and [!]. *)
Definition sameSeparator (a b : ascii) : bool :=
  existsb (fun P : rune -> bool => P (code a) && P (code b)) svach.cleanVals.

(** Whether no separator is repeated in the string: no two bytes one after
    the other are of the same class. *)
Fixpoint noRepeat (s : gostring) : bool :=
  match s with
  | a :: t =>
    match t with
    | b :: _ => negb (sameSeparator a b) && noRepeat t
    | [] => true
    end
  | [] => true
  end.

(** Whether the string starts with two dots. *)
Definition twoDots (s : gostring) : bool :=
  match s with
  | a :: b :: _ => Ascii.eqb a "." && Ascii.eqb b "."
  | _ => false
  end.

(** Two runes of the same class of [cleanExpr]. *)
Definition sameClass (r1 r2 : rune) : bool :=
  existsb (fun P : rune -> bool => P r1 && P r2) svach.cleanVals.

(** Whether no two runes of the same class stand one after the other. *)
Fixpoint noPairs (ts : list utf8.token) : bool :=
  match ts with
  | t :: rest =>
    match rest with
    | u :: _ => negb (sameClass (fst t) (fst u)) && noPairs rest
    | [] => true
    end
  | [] => true
  end.

(** A rune that is no control or format character (categories Cc and Cf)
    and no separator (categories Zl, Zp and Zs) other than the space. *)
Definition cleanRune (r : rune) : bool :=
  negb (svach.controlOrFormat r) && (negb (svach.separator r) || (r =? 32)).

(** Whether all the runes of the string are such. *)
Definition cleanString (s : gostring) : bool :=
  forallb (fun t => cleanRune (fst t)) (utf8.runes s).

End names.

(** The replacement of a match by the expansion of a template. *)
Definition putTemplate (template : gostring) (g : nat) (m : list utf8.token)
  : list utf8.token :=
  [(0, regexp.expand template [Some (utf8.bytes m)])].

(** A rune of a clean string, with its bytes. *)
Definition cleanTok (t : utf8.token) : Prop :=
  names.cleanRune (fst t) = true.

(** ** Command svach *)
Module cmd.

(** The flags [-n], [-r] and [-c]. *)
Record flags : Type := mkFlags { name : bool; recursive : bool; change : bool }.

(** [s = svach.New()] *)
Definition s : svach.Svach := svach.New.

(** The new name of [n]: [s.Clean(n)], or [s.Name(n)] with the flag [-n]. *)
Definition newName (fuel : nat) (f : flags) (n : gostring) : outcome gostring :=
  if negb (name f) then svach.Clean fuel s n else svach.Name s n.

(** The loop of [main] over the arguments: [fmt.Println(nn)] for each.  The
    state is the text written to the standard output so far. *)
Fixpoint printArgs (fuel : nat) (f : flags) (args : list gostring)
         (stdout : gostring) : gostring * outcome unit :=
  match args with
  | [] => (stdout, Value tt)
  | n :: rest =>
    match newName fuel f n with
    | Value nn => printArgs fuel f rest (stdout ++ nn ++ [chr 10])
    | Panic => (stdout, Panic)
    | OutOfFuel => (stdout, OutOfFuel)
    | Unmodelled => (stdout, Unmodelled)
    end
  end.

(** [func main()]: the text written to the standard output and how the call
    ends.  Without arguments [main] walks the working directory, which is
    not modelled. *)
Definition main (fuel : nat) (f : flags) (args : list gostring)
  : gostring * outcome unit :=
  match args with
  | [] => ([], Unmodelled)
  | _ :: _ => printArgs fuel f args []
  end.

End cmd.

(** * Properties *)

(** ** Bytes *)

Lemma code_range (c : ascii) : 0 <= code c < 256.
Proof.
  unfold code. pose proof (N_ascii_bounded c). lia.
Qed.

Lemma chr_code (c : ascii) : chr (code c) = c.
Proof.
  unfold chr, code. rewrite N2Z.id. apply ascii_N_embedding.
Qed.

Lemma code_chr (z : Z) : 0 <= z < 256 -> code (chr z) = z.
Proof.
  intros H. unfold chr, code. rewrite N_ascii_embedding by lia. lia.
Qed.

Lemma code_inj (a b : ascii) : code a = code b -> a = b.
Proof.
  intros H. rewrite <- (chr_code a), <- (chr_code b). now rewrite H.
Qed.

Lemma bytes_eqb_spec (a b : gostring) : reflect (a = b) (bytes_eqb a b).
Proof.
  revert b. induction a as [|x a IH]; intros [|y b]; simpl; try (constructor; congruence).
  destruct (Ascii.eqb_spec x y) as [->|N]; simpl.
  - destruct (IH b) as [->|N]; constructor; congruence.
  - constructor; congruence.
Qed.

Lemma bytes_eqb_refl (a : gostring) : bytes_eqb a a = true.
Proof. destruct (bytes_eqb_spec a a); congruence. Qed.

Lemma len_nonneg (s : gostring) : 0 <= len s.
Proof. unfold len. lia. Qed.

Lemma len_app (a b : gostring) : len (a ++ b) = len a + len b.
Proof. unfold len. rewrite length_app. lia. Qed.

(** ** Decoding UTF-8 *)

Lemma lor_ge_l (a b : Z) : 0 <= a -> 0 <= b -> a <= Z.lor a b.
Proof.
  intros Ha Hb.
  assert (E : Z.lor a b = Z.lor a (Z.ldiff b a)).
  { apply Z.bits_inj'. intros n Hn.
    rewrite !Z.lor_spec, Z.ldiff_spec.
    destruct (Z.testbit a n), (Z.testbit b n); reflexivity. }
  assert (D : Z.land a (Z.ldiff b a) = 0).
  { apply Z.bits_inj'. intros n Hn.
    rewrite Z.land_spec, Z.ldiff_spec, Z.bits_0.
    destruct (Z.testbit a n), (Z.testbit b n); reflexivity. }
  rewrite E, <- Z.lxor_lor by exact D.
  rewrite <- Z.add_nocarry_lxor by exact D.
  assert (0 <= Z.ldiff b a) by (apply Z.ldiff_nonneg; lia).
  lia.
Qed.

Lemma lor_ge_r (a b : Z) : 0 <= a -> 0 <= b -> b <= Z.lor a b.
Proof. intros. rewrite Z.lor_comm. now apply lor_ge_l. Qed.

Lemma land_mask (x : Z) (n : Z) : 0 <= n -> Z.land x (2 ^ n - 1) = x mod 2 ^ n.
Proof.
  intros Hn. rewrite <- Z.land_ones by exact Hn.
  f_equal. rewrite Z.ones_equiv. lia.
Qed.

Lemma land_1F x : Z.land x 0x1F = x mod 32.
Proof. exact (land_mask x 5 ltac:(lia)). Qed.
Lemma land_0F x : Z.land x 0x0F = x mod 16.
Proof. exact (land_mask x 4 ltac:(lia)). Qed.
Lemma land_07 x : Z.land x 0x07 = x mod 8.
Proof. exact (land_mask x 3 ltac:(lia)). Qed.
Lemma land_3F x : Z.land x 0x3F = x mod 64.
Proof. exact (land_mask x 6 ltac:(lia)). Qed.

Create Rewrite HintDb bits_arith.
#[export] Hint Rewrite land_1F land_0F land_07 land_3F : bits_arith.
#[export] Hint Rewrite Z.shiftl_mul_pow2 Z.shiftr_div_pow2 using lia : bits_arith.

Lemma decode_ascii (c : ascii) (t : gostring) :
  code c < 128 -> utf8.DecodeRuneInString (c :: t) = (code c, 1%nat).
Proof.
  intros H. unfold utf8.DecodeRuneInString, utf8.RuneSelf.
  destruct (code c <? 128) eqn:E; [reflexivity | lia].
Qed.

Lemma first_some (b sz lo hi : Z) :
  utf8.first b = Some (sz, (lo, hi)) ->
  0xC2 <= b <= 0xF4 /\ 2 <= sz <= 4 /\ 0x80 <= lo /\ hi <= 0xBF
  /\ (sz = 2 -> b < 0xE0) /\ (sz = 3 -> 0xE0 <= b < 0xF0)
  /\ (sz = 4 -> 0xF0 <= b)
  /\ (b = 0xE0 -> 0xA0 <= lo) /\ (b = 0xF0 -> 0x90 <= lo).
Proof.
  unfold utf8.first. intros H. split_ifs; inversion H; subst; lia.
Qed.

(** The width of a rune is between one and four bytes of the string. *)
Lemma decode_width (c : ascii) (t : gostring) (r : rune) (w : nat) :
  utf8.DecodeRuneInString (c :: t) = (r, w) ->
  (1 <= w <= 4)%nat /\ (w <= length (c :: t))%nat.
Proof.
  unfold utf8.DecodeRuneInString. intros H.
  split_ifs; inversion H; subst; simpl; lia.
Qed.

Local Opaque Z.shiftl Z.land Z.lor.

(** A byte above ASCII is read as a rune above ASCII, from bytes above
    ASCII. *)
Lemma decode_high (c : ascii) (t : gostring) (r : rune) (w : nat) :
  128 <= code c ->
  utf8.DecodeRuneInString (c :: t) = (r, w) ->
  128 <= r /\ Forall (fun b => 128 <= code b) (firstn w (c :: t)).
Proof.
  intros Hc H. unfold utf8.DecodeRuneInString, utf8.RuneSelf, utf8.cont in H.
  pose proof (code_range c) as Rc.
  destruct (code c <? 128) eqn:E0; [lia|].
  destruct (utf8.first (code c)) as [[sz [lo hi]]|] eqn:F.
  2:{ inversion H; subst. split; [unfold utf8.RuneError; lia|].
      simpl. repeat constructor. lia. }
  apply first_some in F.
  destruct t as [|c1 t1].
  { inversion H; subst. split; [unfold utf8.RuneError; lia|].
    simpl. repeat constructor. lia. }
  pose proof (code_range c1) as R1.
  destruct ((code c1 <? lo) || (hi <? code c1)) eqn:E1.
  { inversion H; subst. split; [unfold utf8.RuneError; lia|].
    simpl. repeat constructor. lia. }
  apply orb_false_iff in E1. destruct E1 as [E1a E1b].
  destruct (sz <=? 2) eqn:S2.
  { injection H as <- <-. split.
    - autorewrite with bits_arith in *.
      etransitivity; [|apply lor_ge_l]; Z.div_mod_to_equations; lia.
    - simpl. repeat constructor; lia. }
  destruct t1 as [|c2 t2].
  { inversion H; subst. split; [unfold utf8.RuneError; lia|].
    simpl. repeat constructor. lia. }
  pose proof (code_range c2) as R2.
  destruct ((128 <=? code c2) && (code c2 <=? 191)) eqn:E2; simpl in H.
  2:{ inversion H; subst. split; [unfold utf8.RuneError; lia|].
      simpl. repeat constructor. lia. }
  apply andb_true_iff in E2. destruct E2 as [E2a E2b].
  destruct (sz <=? 3) eqn:S3.
  { injection H as <- <-. split.
    - autorewrite with bits_arith in *.
      etransitivity; [|apply lor_ge_l].
      + destruct (Z.eq_dec (code c) 0xE0) as [e|n].
        * etransitivity; [|apply lor_ge_r]; Z.div_mod_to_equations; lia.
        * etransitivity; [|apply lor_ge_l]; Z.div_mod_to_equations; lia.
      + apply Z.lor_nonneg. Z.div_mod_to_equations; lia.
      + Z.div_mod_to_equations; lia.
    - simpl. repeat constructor; lia. }
  destruct t2 as [|c3 t3].
  { inversion H; subst. split; [unfold utf8.RuneError; lia|].
    simpl. repeat constructor. lia. }
  pose proof (code_range c3) as R3.
  destruct ((128 <=? code c3) && (code c3 <=? 191)) eqn:E3; simpl in H.
  2:{ inversion H; subst. split; [unfold utf8.RuneError; lia|].
      simpl. repeat constructor. lia. }
  apply andb_true_iff in E3. destruct E3 as [E3a E3b].
  injection H as <- <-. split.
  - autorewrite with bits_arith in *.
    etransitivity; [|apply lor_ge_l].
    + etransitivity; [|apply lor_ge_l].
      * destruct (Z.eq_dec (code c) 0xF0) as [e|n].
        -- etransitivity; [|apply lor_ge_r]; Z.div_mod_to_equations; lia.
        -- etransitivity; [|apply lor_ge_l]; Z.div_mod_to_equations; lia.
      * apply Z.lor_nonneg. Z.div_mod_to_equations; lia.
      * Z.div_mod_to_equations; lia.
    + apply Z.lor_nonneg. split; [apply Z.lor_nonneg|]; Z.div_mod_to_equations; lia.
    + Z.div_mod_to_equations; lia.
  - simpl. repeat constructor; lia.
Qed.

Local Transparent Z.shiftl Z.land Z.lor.

(** A valid encoding is read the same whatever follows it. *)
Lemma decode_stable (c0 : ascii) (t : gostring) (r : rune) (w : nat)
      (rest : gostring) :
  utf8.DecodeRuneInString (c0 :: t) = (r, w) ->
  utf8.invalid (r, firstn w (c0 :: t)) = false ->
  utf8.DecodeRuneInString (firstn w (c0 :: t) ++ rest) = (r, w).
Proof.
  unfold utf8.DecodeRuneInString, utf8.invalid. intros H V.
  split_ifs; inversion H; subst; simpl in *; rewrite ?Z.eqb_refl in *;
    try discriminate;
    repeat match goal with
           | E : ?b = _ |- context [?b] => rewrite E
           end; try reflexivity.
Qed.

(** ** The runes of a string *)

Lemma runes_from_skipn (k : nat) (s : gostring) :
  utf8.runes_from k s = utf8.runes (skipn k s).
Proof.
  revert s. induction k as [|k IH]; intros s; [reflexivity|].
  destruct s as [|c t]; [reflexivity|]. simpl. apply IH.
Qed.

Lemma runes_cons (c : ascii) (t : gostring) (r : rune) (w : nat) :
  utf8.DecodeRuneInString (c :: t) = (r, w) ->
  utf8.runes (c :: t)
  = (r, firstn w (c :: t)) :: utf8.runes (skipn w (c :: t)).
Proof.
  intros H. pose proof (decode_width _ _ _ _ H) as [[W1 _] _].
  unfold utf8.runes at 1. cbn [utf8.runes_from]. rewrite H.
  rewrite runes_from_skipn. destruct w as [|w]; [lia|].
  simpl. rewrite Nat.sub_0_r. reflexivity.
Qed.

(** Induction along the runes of a string. *)
Lemma runes_ind (P : gostring -> Prop) :
  P [] ->
  (forall c t r w,
      utf8.DecodeRuneInString (c :: t) = (r, w) ->
      P (skipn w (c :: t)) -> P (c :: t)) ->
  forall s, P s.
Proof.
  intros Hnil Hcons s.
  remember (length s) as n eqn:Hn.
  revert s Hn. induction n as [n IH] using lt_wf_ind. intros s Hn.
  destruct s as [|c t]; [exact Hnil|].
  destruct (utf8.DecodeRuneInString (c :: t)) as [r w] eqn:D.
  apply (Hcons c t r w D).
  pose proof (decode_width _ _ _ _ D) as [[W1 _] W2].
  apply (IH (length (skipn w (c :: t)))); [|reflexivity].
  rewrite length_skipn. subst n. cbn [length] in *. lia.
Qed.

Lemma bytes_cons (t : utf8.token) (ts : list utf8.token) :
  utf8.bytes (t :: ts) = snd t ++ utf8.bytes ts.
Proof. reflexivity. Qed.

Lemma bytes_app (a b : list utf8.token) :
  utf8.bytes (a ++ b) = utf8.bytes a ++ utf8.bytes b.
Proof. unfold utf8.bytes. now rewrite map_app, concat_app. Qed.

(** The bytes of the runes of a string are the string. *)
Lemma bytes_runes (s : gostring) : utf8.bytes (utf8.runes s) = s.
Proof.
  induction s as [|c t r w D IH] using runes_ind; [reflexivity|].
  rewrite (runes_cons _ _ _ _ D), bytes_cons, IH. apply firstn_skipn.
Qed.

Lemma decode_tok_ok (c : ascii) (t : gostring) (r : rune) (w : nat) :
  utf8.DecodeRuneInString (c :: t) = (r, w) -> tok_ok (r, firstn w (c :: t)).
Proof.
  intros D. pose proof (decode_width _ _ _ _ D) as [[W1 _] _].
  split.
  - destruct w; [lia|]. simpl. discriminate.
  - destruct (Z_lt_le_dec (code c) 128) as [A|A].
    + left. exists c. rewrite (decode_ascii c t A) in D.
      injection D as <- <-. simpl. auto.
    + right. exact (decode_high c t r w A D).
Qed.

Lemma runes_ok (s : gostring) : Forall tok_ok (utf8.runes s).
Proof.
  induction s as [|c t r w D IH] using runes_ind; [constructor|].
  rewrite (runes_cons _ _ _ _ D). constructor; [|exact IH].
  exact (decode_tok_ok c t r w D).
Qed.

Lemma runes_stable (s : gostring) :
  Forall (fun t => utf8.invalid t = false -> stable t) (utf8.runes s).
Proof.
  induction s as [|c t r w D IH] using runes_ind; [constructor|].
  rewrite (runes_cons _ _ _ _ D). constructor; [|exact IH].
  intros V. pose proof (decode_width _ _ _ _ D) as [[W1 _] W2].
  split.
  - destruct w; [lia|]. simpl. discriminate.
  - intros rest. cbn [fst snd]. rewrite length_firstn, Nat.min_l by exact W2.
    exact (decode_stable c t r w rest D V).
Qed.

(** The runes of the bytes of stable tokens are these tokens. *)
Lemma runes_bytes_app (ts : list utf8.token) (rest : gostring) :
  Forall stable ts ->
  utf8.runes (utf8.bytes ts ++ rest) = ts ++ utf8.runes rest.
Proof.
  induction 1 as [|[r bs] ts [N S] _ IH]; [reflexivity|].
  cbn [fst snd] in *. rewrite bytes_cons. cbn [snd].
  destruct bs as [|c bs']; [congruence|].
  rewrite <- app_assoc.
  pose proof (S (utf8.bytes ts ++ rest)) as D.
  change ((c :: bs') ++ utf8.bytes ts ++ rest)
    with (c :: (bs' ++ utf8.bytes ts ++ rest)) in *.
  rewrite (runes_cons _ _ _ _ D).
  change (c :: (bs' ++ utf8.bytes ts ++ rest))
    with ((c :: bs') ++ utf8.bytes ts ++ rest).
  rewrite firstn_app, Nat.sub_diag, firstn_all, firstn_O, app_nil_r.
  rewrite skipn_app, Nat.sub_diag, skipn_all, skipn_O. simpl.
  rewrite IH. reflexivity.
Qed.

Lemma runes_bytes (ts : list utf8.token) :
  Forall stable ts -> utf8.runes (utf8.bytes ts) = ts.
Proof.
  intros H. pose proof (runes_bytes_app ts [] H) as E.
  rewrite !app_nil_r in E. exact E.
Qed.

(** A string is valid when all its runes are stable. *)
Lemma valid_stable (s : gostring) :
  utf8.ValidString s = true -> Forall stable (utf8.runes s).
Proof.
  unfold utf8.ValidString. intros V.
  rewrite forallb_forall in V. pose proof (runes_stable s) as S.
  rewrite Forall_forall in *. intros t Ht. apply (S t Ht).
  apply negb_true_iff. exact (V t Ht).
Qed.

(** An ASCII rune stands in a string where its byte stands. *)
Lemma existsb_runes_ascii (P : rune -> bool) (s : gostring) :
  (forall r, P r = true -> r < 128) ->
  existsb (fun t => P (fst t)) (utf8.runes s)
  = existsb (fun c => P (code c)) s.
Proof.
  intros HP.
  induction s as [|c t r w D IH] using runes_ind; [reflexivity|].
  rewrite (runes_cons _ _ _ _ D).
  assert (E : existsb (fun c => P (code c)) (c :: t)
              = existsb (fun c => P (code c)) (firstn w (c :: t))
                || existsb (fun c => P (code c)) (skipn w (c :: t))).
  { rewrite <- existsb_app, firstn_skipn. reflexivity. }
  rewrite E. clear E. cbn [existsb fst]. rewrite IH. f_equal.
  destruct (decode_tok_ok c t r w D) as [_ [[c' [E A]]|[Hr Hb]]].
  - injection E as -> ->. simpl. now rewrite orb_false_r.
  - cbn [fst snd] in *.
    assert (P r = false) as ->.
    { destruct (P r) eqn:E; [apply HP in E; lia | reflexivity]. }
    symmetry. apply not_true_is_false. intros E.
    apply existsb_exists in E. destruct E as [b [Hin Hb']].
    rewrite Forall_forall in Hb. apply Hb in Hin. apply HP in Hb'. lia.
Qed.

(** ** Encoding UTF-8 *)

Lemma forall_below (P : Z -> bool) (n : nat) :
  forallb P (map Z.of_nat (seq 0 n)) = true ->
  forall x, 0 <= x < Z.of_nat n -> P x = true.
Proof.
  intros H x Hx. rewrite forallb_forall in H. apply H.
  apply in_map_iff. exists (Z.to_nat x). split; [lia|].
  apply in_seq. lia.
Qed.

Lemma lor_C0 (x : Z) : 0 <= x < 32 -> Z.lor 0xC0 x = 0xC0 + x.
Proof.
  intros H. apply Z.eqb_eq.
  apply (forall_below (fun x => Z.lor 0xC0 x =? 0xC0 + x) 32);
    [vm_compute; reflexivity | lia].
Qed.

Lemma lor_E0 (x : Z) : 0 <= x < 16 -> Z.lor 0xE0 x = 0xE0 + x.
Proof.
  intros H. apply Z.eqb_eq.
  apply (forall_below (fun x => Z.lor 0xE0 x =? 0xE0 + x) 16);
    [vm_compute; reflexivity | lia].
Qed.

Lemma lor_F0 (x : Z) : 0 <= x < 8 -> Z.lor 0xF0 x = 0xF0 + x.
Proof.
  intros H. apply Z.eqb_eq.
  apply (forall_below (fun x => Z.lor 0xF0 x =? 0xF0 + x) 8);
    [vm_compute; reflexivity | lia].
Qed.

Lemma lor_80 (x : Z) : 0 <= x < 64 -> Z.lor 0x80 x = 0x80 + x.
Proof.
  intros H. apply Z.eqb_eq.
  apply (forall_below (fun x => Z.lor 0x80 x =? 0x80 + x) 64);
    [vm_compute; reflexivity | lia].
Qed.

Lemma mod64_range (x : Z) : 0 <= x mod 64 < 64.
Proof. apply Z.mod_pos_bound. lia. Qed.

(** The bytes of an encoded rune, without bit operations. *)
Lemma EncodeRune_arith (r : rune) :
  let i := r mod 2 ^ 32 in
  utf8.EncodeRune r =
  if i <=? 0x7F then [chr i]
  else if i <=? 0x7FF then [chr (0xC0 + i / 64); chr (0x80 + i mod 64)]
  else
    let three (x : Z) :=
      [chr (0xE0 + x / 4096); chr (0x80 + (x / 64) mod 64);
       chr (0x80 + x mod 64)] in
    if (utf8.MaxRune <? i) || ((0xD800 <=? i) && (i <=? 0xDFFF))
    then three utf8.RuneError
    else if i <=? 0xFFFF then three i
    else
      [chr (0xF0 + i / 262144); chr (0x80 + (i / 4096) mod 64);
       chr (0x80 + (i / 64) mod 64); chr (0x80 + i mod 64)].
Proof.
  intros i. unfold utf8.EncodeRune. fold i.
  assert (Hi : 0 <= i < 2 ^ 32) by (apply Z.mod_pos_bound; lia).
  rewrite !land_3F, !Z.shiftr_div_pow2 by lia.
  change (2 ^ 6) with 64. change (2 ^ 12) with 4096.
  change (2 ^ 18) with 262144.
  destruct (i <=? 0x7F) eqn:E1; [reflexivity|].
  destruct (i <=? 0x7FF) eqn:E2.
  { rewrite lor_C0, lor_80; [reflexivity | apply mod64_range |].
    Z.div_mod_to_equations; lia. }
  cbv zeta.
  destruct ((utf8.MaxRune <? i) || ((0xD800 <=? i) && (i <=? 0xDFFF))) eqn:E3.
  { vm_compute. reflexivity. }
  destruct (i <=? 0xFFFF) eqn:E4.
  { rewrite lor_E0, !lor_80; [reflexivity | apply mod64_range ..|].
    Z.div_mod_to_equations; lia. }
  apply orb_false_iff in E3. destruct E3 as [E3 _].
  unfold utf8.MaxRune in E3.
  rewrite lor_F0, !lor_80; [reflexivity | apply mod64_range ..|].
  Z.div_mod_to_equations; lia.
Qed.

(** An encoded rune is a valid encoding: it is read back as one rune,
    whatever follows. *)
Lemma encode_stable (r : rune) :
  exists r', stable (r', utf8.EncodeRune r)
             /\ utf8.invalid (r', utf8.EncodeRune r) = false.
Proof.
  pose proof (EncodeRune_arith r) as E. cbv zeta in E.
  set (i := r mod 2 ^ 32) in *.
  assert (Hi : 0 <= i < 2 ^ 32) by (apply Z.mod_pos_bound; lia).
  unfold stable, utf8.invalid. cbn [fst snd]. rewrite E. clear E.
  assert (T : forall x, 0x800 <= x <= 0xFFFF ->
                        ~ (0xD800 <= x <= 0xDFFF) ->
                        exists r' : rune,
      ([chr (0xE0 + x / 4096); chr (0x80 + (x / 64) mod 64);
        chr (0x80 + x mod 64)] <> []
       /\ forall rest,
          utf8.DecodeRuneInString
            ([chr (0xE0 + x / 4096); chr (0x80 + (x / 64) mod 64);
              chr (0x80 + x mod 64)] ++ rest) = (r', 3%nat))).
  { intros x Hx Hs. eexists. split; [discriminate|]. intros rest.
    cbn [app utf8.DecodeRuneInString].
    rewrite !code_chr by (Z.div_mod_to_equations; lia).
    unfold utf8.RuneSelf, utf8.first, utf8.cont.
    repeat match goal with
           | |- context [if ?b then _ else _] =>
             let B := fresh "B" in
             destruct b eqn:B; try (exfalso; Z.div_mod_to_equations; lia)
           end.
    all: try reflexivity. }
  destruct (i <=? 0x7F) eqn:E1.
  { exists i. repeat split; [discriminate| |].
    - intros rest. cbn [app]. rewrite decode_ascii; rewrite code_chr; try lia.
      reflexivity.
    - apply andb_false_iff. left. unfold utf8.RuneError. lia. }
  destruct (i <=? 0x7FF) eqn:E2.
  { eexists. repeat split; [discriminate| |].
    - intros rest. cbn [app utf8.DecodeRuneInString].
      rewrite !code_chr by (Z.div_mod_to_equations; lia).
      unfold utf8.RuneSelf, utf8.first.
      repeat match goal with
             | |- context [if ?b then _ else _] =>
               let B := fresh "B" in
               destruct b eqn:B; try (exfalso; Z.div_mod_to_equations; lia)
             end.
      all: try reflexivity.
    - apply andb_false_iff. right. reflexivity. }
  cbv zeta.
  destruct ((utf8.MaxRune <? i) || ((0xD800 <=? i) && (i <=? 0xDFFF))) eqn:E3.
  { destruct (T utf8.RuneError) as [r' [N D]];
      [unfold utf8.RuneError; lia | unfold utf8.RuneError; lia |].
    exists r'. repeat split; [exact N | exact D |].
    apply andb_false_iff. right. reflexivity. }
  apply orb_false_iff in E3. destruct E3 as [E3 E3'].
  unfold utf8.MaxRune in E3.
  destruct (i <=? 0xFFFF) eqn:E4.
  { destruct (T i) as [r' [N D]]; [lia | lia |].
    exists r'. repeat split; [exact N | exact D |].
    apply andb_false_iff. right. reflexivity. }
  eexists. repeat split; [discriminate| |].
  - intros rest. cbn [app utf8.DecodeRuneInString].
    rewrite !code_chr by (Z.div_mod_to_equations; lia).
    unfold utf8.RuneSelf, utf8.first, utf8.cont.
    repeat match goal with
           | |- context [if ?b then _ else _] =>
             let B := fresh "B" in
             destruct b eqn:B; try (exfalso; Z.div_mod_to_equations; lia)
           end.
    all: try reflexivity.
  - apply andb_false_iff. right. reflexivity.
Qed.

(** A rune above ASCII is encoded with a first byte above ASCII. *)
Lemma encode_high (r : rune) :
  128 <= r < 2 ^ 32 ->
  exists b rest, utf8.EncodeRune r = b :: rest /\ 128 <= code b.
Proof.
  intros H. pose proof (EncodeRune_arith r) as E. cbv zeta in E.
  rewrite Z.mod_small in E by lia. rewrite E. clear E.
  destruct (r <=? 0x7F) eqn:E1; [lia|].
  destruct (r <=? 0x7FF) eqn:E2.
  { eexists. eexists. split; [reflexivity|].
    rewrite code_chr; Z.div_mod_to_equations; lia. }
  destruct ((utf8.MaxRune <? r) || ((0xD800 <=? r) && (r <=? 0xDFFF))) eqn:E3.
  { eexists. eexists. split; [reflexivity|]. vm_compute. discriminate. }
  apply orb_false_iff in E3. destruct E3 as [E3 _]. unfold utf8.MaxRune in E3.
  destruct (r <=? 0xFFFF) eqn:E4.
  { eexists. eexists. split; [reflexivity|].
    rewrite code_chr; Z.div_mod_to_equations; lia. }
  eexists. eexists. split; [reflexivity|].
  rewrite code_chr; Z.div_mod_to_equations; lia.
Qed.

(** ** Lower case and the reserved names *)

Lemma lor_le_add (a b : Z) : 0 <= a -> 0 <= b -> Z.lor a b <= a + b.
Proof.
  intros Ha Hb. pose proof (Zbitwise.Z.add_lor_land a b) as E.
  assert (0 <= Z.land a b) by (apply Z.land_nonneg; lia). lia.
Qed.

Lemma lor_range (a b : Z) : 0 <= a -> 0 <= b -> 0 <= Z.lor a b <= a + b.
Proof.
  intros Ha Hb. split; [apply Z.lor_nonneg; lia | now apply lor_le_add].
Qed.

Local Opaque Z.shiftl Z.land Z.lor.

(** A rune read from a string is below 2^21. *)
Lemma decode_bound (s : gostring) (r : rune) (w : nat) :
  utf8.DecodeRuneInString s = (r, w) -> 0 <= r < 2 ^ 21.
Proof.
  unfold utf8.DecodeRuneInString, utf8.RuneError, utf8.RuneSelf. intros H.
  repeat match goal with
         | c : ascii |- _ =>
           lazymatch goal with
           | _ : 0 <= code c < 256 |- _ => fail
           | _ => pose proof (code_range c)
           end
         end.
  split_ifs; injection H as <- <-; try lia.
  all: repeat match goal with
              | c : ascii |- _ =>
                lazymatch goal with
                | _ : 0 <= code c < 256 |- _ => fail
                | _ => pose proof (code_range c)
                end
              end.
  all: autorewrite with bits_arith in *.
  all: repeat match goal with
              | |- context [Z.lor ?a ?b] =>
                lazymatch goal with
                | _ : 0 <= Z.lor a b <= a + b |- _ => fail
                | _ => assert (0 <= Z.lor a b <= a + b)
                    by (apply lor_range; Z.div_mod_to_equations; lia)
                end
              end.
  all: Z.div_mod_to_equations; lia.
Qed.

Local Transparent Z.shiftl Z.land Z.lor.

Lemma runes_bound (s : gostring) :
  Forall (fun t => 0 <= fst t < 2 ^ 21) (utf8.runes s).
Proof.
  induction s as [|c t r w D IH] using runes_ind; [constructor|].
  rewrite (runes_cons _ _ _ _ D). constructor; [|exact IH].
  exact (decode_bound _ _ _ D).
Qed.

Lemma lowerRanges_ok : forallb lower_entry_ok unicode.lowerRanges = true.
Proof. vm_compute. reflexivity. Qed.

(** The lower case of a rune above ASCII is above ASCII, but for the
    dotted capital I and the Kelvin sign, which become [i] and [k]. *)
Lemma ToLower_high (r : rune) :
  128 <= r < 2 ^ 31 ->
  128 <= unicode.ToLower r < 2 ^ 32
  \/ unicode.ToLower r = 105 \/ unicode.ToLower r = 107.
Proof.
  intros H. unfold unicode.ToLower.
  destruct (r <=? 0x7F) eqn:E; [lia|].
  match goal with
  | |- context [find ?f ?l] => destruct (find f l) as [[[[lo hi] st] d]|] eqn:F
  end.
  - apply find_some in F. destruct F as [Hin Hp].
    pose proof lowerRanges_ok as OK. rewrite forallb_forall in OK.
    specialize (OK _ Hin). unfold lower_entry_ok in OK. lia.
  - lia.
Qed.

(** A string that is not ASCII has a rune above ASCII. *)
Lemma runes_high (s : gostring) :
  strings.isASCII s = false ->
  exists t, In t (utf8.runes s) /\ 128 <= fst t.
Proof.
  unfold strings.isASCII, utf8.RuneSelf.
  induction s as [|c t r w D IH] using runes_ind; [discriminate|].
  intros H. rewrite (runes_cons _ _ _ _ D).
  destruct (Z_lt_le_dec (code c) 128) as [A|A].
  - rewrite (decode_ascii c t A) in D. injection D as <- <-.
    cbn [forallb] in H. destruct (code c <? 128) eqn:E; [|lia].
    destruct (IH H) as [t' [Hin Hr]]. exists t'. split; [now right | exact Hr].
  - exists (r, firstn w (c :: t)). split; [now left|].
    exact (proj1 (decode_high c t r w A D)).
Qed.

Lemma reservedNames_plain :
  forallb (forallb plainByte) spec.reservedNames = true.
Proof. vm_compute. reflexivity. Qed.

(** The lower case of a string that is not ASCII is no reserved name. *)
Lemma mapToLower_not_reserved (s : gostring) :
  strings.isASCII s = false -> ~ In (strings.mapToLower s) spec.reservedNames.
Proof.
  intros H Hin. destruct (runes_high s H) as [t [Ht Hr]].
  pose proof (runes_bound s) as B. rewrite Forall_forall in B.
  specialize (B t Ht). cbv beta in B.
  assert (X : exists b, In b (strings.mapToLower s) /\ plainByte b = false).
  { assert (Y : exists b, In b (utf8.EncodeRune (unicode.ToLower (fst t)))
                          /\ plainByte b = false).
    { destruct (ToLower_high (fst t)) as [L|[L|L]];
        [unfold utf8.token, rune, gostring in *; lia| | |].
      - destruct (encode_high _ L) as [b [rest [E Hb]]].
        exists b. rewrite E. split; [now left|].
        unfold plainByte. destruct (code b <? 128) eqn:C; [lia | reflexivity].
      - rewrite L. exists "i"%char. split; [now left | reflexivity].
      - rewrite L. exists "k"%char. split; [now left | reflexivity]. }
    destruct Y as [b [Hb Hp]]. exists b. split; [|exact Hp].
    unfold strings.mapToLower. apply in_flat_map. exists t. split; assumption. }
  destruct X as [b [Hb Hp]].
  pose proof reservedNames_plain as P. rewrite forallb_forall in P.
  specialize (P _ Hin). rewrite forallb_forall in P. specialize (P _ Hb).
  congruence.
Qed.

Lemma ToLower_reserved_length (s : gostring) :
  In (strings.ToLower s) spec.reservedNames ->
  len (strings.ToLower s) = len s.
Proof.
  unfold strings.ToLower. destruct (strings.isASCII s) eqn:A.
  - intros _. unfold len. now rewrite length_map.
  - intros H. exfalso. exact (mapToLower_not_reserved s A H).
Qed.

Lemma reserved_in_map (n : gostring) :
  In n spec.reservedNames -> In n (svach.invalidNamesMap (len n)).
Proof.
  intros H. unfold spec.reservedNames in H. simpl in H.
  repeat (destruct H as [<-|H]; [vm_compute; tauto|]). contradiction.
Qed.

Lemma map_in_reserved (k : Z) (n : gostring) :
  In n (svach.invalidNamesMap k) -> In n spec.reservedNames.
Proof.
  unfold svach.invalidNamesMap. intros H.
  split_ifs; simpl in H;
    repeat (destruct H as [<-|H]; [vm_compute; tauto|]); contradiction.
Qed.

(** [valid] rejects the empty name and the names of 1 to 4 bytes whose lower
    case is a reserved name. *)
Lemma valid_false_iff (s : gostring) :
  svach.valid s = false <->
  s = [] \/ (1 <= len s <= 4 /\ In (strings.ToLower s) spec.reservedNames).
Proof.
  unfold svach.valid.
  destruct (bytes_eqb_spec s []) as [->|N].
  { split; [now left | reflexivity]. }
  assert (L : 1 <= len s).
  { destruct s; [congruence|]. unfold len. simpl. lia. }
  destruct (len s <? 5) eqn:E.
  - rewrite negb_false_iff, existsb_exists. split.
    + intros [n [Hin Heq]]. right. split; [lia|].
      destruct (bytes_eqb_spec (strings.ToLower s) n) as [->|]; [|discriminate].
      exact (map_in_reserved _ _ Hin).
    + intros [->|[_ H]]; [congruence|].
      exists (strings.ToLower s). split; [|apply bytes_eqb_refl].
      rewrite <- (ToLower_reserved_length s H). now apply reserved_in_map.
  - split; [discriminate|]. intros [->|[H _]]; [congruence | lia].
Qed.

(** ** The replacement loops *)

Lemma run_cons (P : rune -> bool) (t : utf8.token) (ts : list utf8.token) :
  regexp.run P (t :: ts) = if P (fst t) then S (regexp.run P ts) else O.
Proof. reflexivity. Qed.

Lemma run_le (P : rune -> bool) (ts : list utf8.token) :
  (regexp.run P ts <= length ts)%nat.
Proof.
  induction ts as [|t ts IH]; [reflexivity|]. rewrite run_cons.
  destruct (P (fst t)); simpl; lia.
Qed.

Lemma one_nonempty (P : rune -> bool) : tokens.nonempty (regexp.one P).
Proof.
  intros b ts g n. unfold regexp.one.
  destruct (1 <=? regexp.run P ts)%nat eqn:E; [|discriminate].
  intros H. injection H as <- <-. apply Nat.leb_le in E.
  pose proof (run_le P ts). lia.
Qed.

Lemma plus_nonempty (P : rune -> bool) : tokens.nonempty (regexp.plus P).
Proof.
  intros b ts g n. unfold regexp.plus.
  destruct (1 <=? regexp.run P ts)%nat eqn:E; [|discriminate].
  intros H. injection H as <- <-. apply Nat.leb_le in E.
  pose proof (run_le P ts). lia.
Qed.

Lemma plusEnd_nonempty (P : rune -> bool) : tokens.nonempty (regexp.plusEnd P).
Proof.
  intros b ts g n. unfold regexp.plusEnd.
  destruct (1 <=? regexp.run P ts)%nat eqn:E; [|discriminate].
  destruct (regexp.run P ts =? length ts)%nat; [|discriminate].
  intros H. injection H as <- <-. apply Nat.leb_le in E.
  pose proof (run_le P ts). lia.
Qed.

Lemma startPlus_nonempty (P : rune -> bool) :
  tokens.nonempty (regexp.startPlus P).
Proof.
  intros b ts g n. unfold regexp.startPlus.
  destruct b; [|discriminate].
  destruct (1 <=? regexp.run P ts)%nat eqn:E; [|discriminate].
  intros H. injection H as <- <-. apply Nat.leb_le in E.
  pose proof (run_le P ts). lia.
Qed.

Lemma repeated_some (cs : list (rune -> bool)) (g0 : nat) (b : bool)
      (ts : list utf8.token) (g n : nat) :
  regexp.repeated g0 cs b ts = Some (g, n) ->
  exists P, nth_error cs (g - g0) = Some P /\ (g0 <= g)%nat
            /\ n = regexp.run P ts /\ (2 <= n)%nat.
Proof.
  revert g0. induction cs as [|P cs IH]; intros g0; [discriminate|].
  cbn [regexp.repeated].
  destruct (2 <=? regexp.run P ts)%nat eqn:E.
  - intros H. injection H as <- <-. exists P. rewrite Nat.sub_diag.
    apply Nat.leb_le in E. auto.
  - intros H. destruct (IH _ H) as [Q [HQ [Hg [Hn H2]]]].
    exists Q. replace (g - g0)%nat with (S (g - S g0)) by lia.
    cbn [nth_error]. repeat split; auto. lia.
Qed.

Lemma repeated_nonempty (cs : list (rune -> bool)) (g0 : nat) :
  tokens.nonempty (regexp.repeated g0 cs).
Proof.
  intros b ts g n H. destruct (repeated_some _ _ _ _ _ _ H) as [P [_ [_ [-> H2]]]].
  pose proof (run_le P ts). lia.
Qed.

Lemma replace_skip (re : regexp.Regexp) rep (k : nat) :
  forall b ts,
    tokens.replace re rep b (S k) ts
    = tokens.replace re rep false 0 (skipn (S k) ts).
Proof.
  induction k as [|k IH]; intros b [|t rest]; try reflexivity.
  cbn [tokens.replace skipn]. rewrite IH. reflexivity.
Qed.

Lemma replace_match (re : regexp.Regexp) rep b t rest g n :
  re b (t :: rest) = Some (g, n) -> (1 <= n)%nat ->
  tokens.replace re rep b 0 (t :: rest)
  = rep g (firstn n (t :: rest))
    ++ tokens.replace re rep false 0 (skipn n (t :: rest)).
Proof.
  intros H Hn. cbn [tokens.replace]. rewrite H. f_equal.
  destruct n as [|[|n]]; [lia | reflexivity |].
  cbn [Nat.sub]. rewrite replace_skip. reflexivity.
Qed.

Lemma replace_nomatch (re : regexp.Regexp) rep b t rest :
  re b (t :: rest) = None ->
  tokens.replace re rep b 0 (t :: rest)
  = t :: tokens.replace re rep false 0 rest.
Proof. intros H. cbn [tokens.replace]. now rewrite H. Qed.

(** Induction along the matches of a pattern. *)
Lemma replace_ind (re : regexp.Regexp) rep
      (Q : bool -> list utf8.token -> list utf8.token -> Prop) :
  tokens.nonempty re ->
  (forall b, Q b [] []) ->
  (forall b t rest g n out,
      re b (t :: rest) = Some (g, n) ->
      (1 <= n <= length (t :: rest))%nat ->
      Q false (skipn n (t :: rest)) out ->
      Q b (t :: rest) (rep g (firstn n (t :: rest)) ++ out)) ->
  (forall b t rest out,
      re b (t :: rest) = None ->
      Q false rest out -> Q b (t :: rest) (t :: out)) ->
  forall ts b, Q b ts (tokens.replace re rep b 0 ts).
Proof.
  intros WF Hnil Hm Hn ts.
  remember (length ts) as len eqn:L. revert ts L.
  induction len as [len IH] using lt_wf_ind. intros ts L b.
  destruct ts as [|t rest]; [apply Hnil|].
  destruct (re b (t :: rest)) as [[g n]|] eqn:M.
  - pose proof (WF _ _ _ _ M) as W.
    rewrite (replace_match re rep b t rest g n M) by lia.
    apply Hm; [exact M | exact W |].
    apply (IH (length (skipn n (t :: rest)))); [|reflexivity].
    rewrite length_skipn. lia.
  - rewrite (replace_nomatch re rep b t rest M).
    apply Hn; [exact M|]. apply (IH (length rest)); [|reflexivity].
    subst len. simpl. lia.
Qed.

(** The loop on bytes is the loop on runes. *)
Lemma replaceAll_tokens (re : regexp.Regexp) repl rep :
  (forall g m, repl (utf8.bytes m) = utf8.bytes (rep g m)) ->
  forall ts b k,
    regexp.replaceAll re repl b k ts
    = utf8.bytes (tokens.replace re rep b k ts).
Proof.
  intros H. induction ts as [|t rest IH]; intros b k; [reflexivity|].
  cbn [regexp.replaceAll tokens.replace]. destruct k as [|k]; [|apply IH].
  destruct (re b (t :: rest)) as [[g n]|].
  - rewrite bytes_app, <- H, IH. reflexivity.
  - rewrite bytes_cons, IH. reflexivity.
Qed.

(** A replacement that keeps a property of the runes. *)
Lemma replace_Forall (re : regexp.Regexp) rep (Q : utf8.token -> Prop) :
  tokens.nonempty re ->
  (forall g m, Forall Q (rep g m)) ->
  forall ts b, Forall Q ts -> Forall Q (tokens.replace re rep b 0 ts).
Proof.
  intros WF Hrep ts b.
  apply (replace_ind re rep (fun b ts out => Forall Q ts -> Forall Q out) WF).
  - intros _ _. constructor.
  - intros b' t rest g n out M W IH F. apply Forall_app. split; [apply Hrep|].
    apply IH. rewrite <- (firstn_skipn n (t :: rest)) in F.
    apply Forall_app in F. tauto.
  - intros b' t rest out M IH F. inversion F; subst. constructor; auto.
Qed.

(** Without a match nothing is replaced. *)
Lemma replace_none (re : regexp.Regexp) rep :
  forall ts b,
    (forall k, re (b && (k =? 0)%nat) (skipn k ts) = None) ->
    tokens.replace re rep b 0 ts = ts.
Proof.
  induction ts as [|t rest IH]; intros b H; [reflexivity|].
  pose proof (H 0%nat) as H0. cbn [skipn Nat.eqb] in H0.
  rewrite andb_true_r in H0. rewrite replace_nomatch by exact H0.
  f_equal. apply IH. intros k. pose proof (H (S k)) as Hk.
  cbn [skipn Nat.eqb] in Hk. rewrite andb_false_r in Hk. exact Hk.
Qed.

Lemma bytes_length_pos (ts : list utf8.token) :
  Forall tok_ok ts -> (length ts <= length (utf8.bytes ts))%nat.
Proof.
  induction 1 as [|t ts [N _] _ IH]; [reflexivity|].
  rewrite bytes_cons, length_app. destruct (snd t); [congruence|].
  simpl. lia.
Qed.


(** ** [replaceAllStringSubmatch] *)

Lemma firstn_add (A : Type) (n m : nat) (l : list A) :
  firstn (n + m) l = firstn n l ++ firstn m (skipn n l).
Proof.
  revert l. induction n as [|n IH]; intros l; [reflexivity|].
  destruct l as [|a l]; [cbn; now rewrite firstn_nil|].
  cbn [Nat.add firstn skipn app]. now rewrite IH.
Qed.

Lemma skipn_add (A : Type) (n m : nat) (l : list A) :
  skipn (n + m) l = skipn m (skipn n l).
Proof.
  revert l. induction n as [|n IH]; intros l; [reflexivity|].
  destruct l as [|a l]; [cbn; now rewrite skipn_nil|].
  cbn [Nat.add skipn]. apply IH.
Qed.

Lemma slice_split (s : gostring) (a b c : Z) :
  0 <= a <= b -> b <= c ->
  slice s a c = slice s a b ++ slice s b c.
Proof.
  intros H1 H2. unfold slice.
  replace (Z.to_nat (c - a)) with (Z.to_nat (b - a) + Z.to_nat (c - b))%nat
    by lia.
  rewrite firstn_add, <- skipn_add.
  replace (Z.to_nat a + Z.to_nat (b - a))%nat with (Z.to_nat b) by lia.
  reflexivity.
Qed.

Lemma slice_empty (s : gostring) (a : Z) : slice s a a = [].
Proof. unfold slice. now rewrite Z.sub_diag. Qed.

Lemma slice_all (s : gostring) : slice s 0 (len s) = s.
Proof.
  unfold slice, len. rewrite Z.sub_0_r, Nat2Z.id. apply firstn_all.
Qed.

Lemma slice_mid (pre a post : gostring) :
  slice (pre ++ a ++ post) (len pre) (len pre + len a) = a.
Proof.
  unfold slice, len.
  replace (Z.to_nat (Z.of_nat (length pre) + Z.of_nat (length a)
                     - Z.of_nat (length pre))) with (length a) by lia.
  rewrite Nat2Z.id, skipn_app, skipn_all, Nat.sub_diag. cbn [app skipn].
  rewrite firstn_app, firstn_all, Nat.sub_diag, firstn_O. apply app_nil_r.
Qed.

(** The inner loop on the row of a match of [cleanExpr]. *)
Lemma submatchLoop_row (src : gostring) (rg : list gostring) (g : nat)
      (lo hi : Z) (st : gostring * Z) :
  (1 <= g <= 6)%nat -> 0 <= lo ->
  svach.submatchLoop src rg 2 (skipn 2 (tokens.row 6 (g, lo, hi))) st
  = tokens.effect src rg st (g, lo, hi).
Proof.
  intros Hg Hlo. destruct st as [s prev].
  assert (L : (lo =? -1) = false) by lia.
  unfold tokens.effect, tokens.row. cbn [skipn fst snd].
  destruct g as [|[|[|[|[|[|[|g]]]]]]]; try lia;
    cbn [seq flat_map Nat.eqb app svach.submatchLoop];
    rewrite ?L; cbn [Z.eqb Pos.eqb]; reflexivity.
Qed.

Lemma findAll_bounds (re : regexp.Regexp) :
  forall ts b skip pos,
    0 <= pos ->
    Forall (fun m => 0 <= snd (fst m)) (regexp.findAll re b skip pos ts).
Proof.
  induction ts as [|t rest IH]; intros b skip pos Hp; [constructor|].
  cbn [regexp.findAll]. pose proof (len_nonneg (snd t)).
  destruct skip as [|k]; [|apply IH; lia].
  destruct (re b (t :: rest)) as [[g n]|]; [|apply IH; lia].
  constructor; [exact Hp | apply IH; lia].
Qed.

(** The builder after the matches from a position on. *)
Lemma collapse_fold (re : regexp.Regexp) rep (rg : list gostring)
      (src : gostring) :
  (forall g m, utf8.bytes (rep g m) = nth g rg []) ->
  tokens.nonempty re ->
  forall ts pre skip b s prev,
    src = pre ++ utf8.bytes ts ->
    0 <= prev <= len pre + len (utf8.bytes (firstn skip ts)) ->
    (skip <= length ts)%nat ->
    let st := fold_left (tokens.effect src rg)
                        (regexp.findAll re b skip (len pre) ts) (s, prev) in
    fst st ++ slice src (snd st) (len src)
    = s ++ slice src prev (len pre + len (utf8.bytes (firstn skip ts)))
        ++ utf8.bytes (tokens.replace re rep b skip ts).
Proof.
  intros Hrep WF.
  induction ts as [|t rest IH]; intros pre skip b s prev Hsrc Hprev Hskip st.
  - subst st. cbn [regexp.findAll fold_left fst snd tokens.replace].
    rewrite firstn_nil in *. cbn [utf8.bytes map concat] in *.
    rewrite app_nil_r in Hsrc. subst src. unfold len at 2. cbn [length].
    rewrite Z.add_0_r, app_nil_r. reflexivity.
  - assert (Hsrc' : src = (pre ++ snd t) ++ utf8.bytes rest).
    { rewrite Hsrc, bytes_cons, app_assoc. reflexivity. }
    destruct skip as [|k].
    + change (utf8.bytes (firstn 0 (t :: rest))) with (@nil ascii) in *.
      change (len []) with 0 in *. rewrite Z.add_0_r in *.
      subst st. cbn [regexp.findAll tokens.replace].
      destruct (re b (t :: rest)) as [[g n]|] eqn:M.
      * pose proof (WF _ _ _ _ M) as W. cbn [fold_left].
        change (tokens.effect src rg (s, prev)
                       (g, len pre,
                        len pre + len (utf8.bytes (firstn n (t :: rest)))))
          with (s ++ slice src prev (len pre) ++ nth g rg [],
                len pre + len (utf8.bytes (firstn n (t :: rest)))).
        assert (Hhi : len pre + len (utf8.bytes (firstn n (t :: rest)))
                      = len (pre ++ snd t)
                        + len (utf8.bytes (firstn (n - 1) rest))).
        { destruct n as [|n]; [lia|]. cbn [firstn Nat.sub].
          rewrite Nat.sub_0_r, bytes_cons, !len_app. lia. }
        rewrite <- (len_app pre (snd t)).
        specialize (IH (pre ++ snd t) (n - 1)%nat false
                       (s ++ slice src prev (len pre) ++ nth g rg [])
                       (len pre + len (utf8.bytes (firstn n (t :: rest))))
                       Hsrc').
        cbv zeta in IH. etransitivity; [apply IH|].
        -- rewrite <- Hhi. pose proof (len_nonneg pre).
           pose proof (len_nonneg (utf8.bytes (firstn n (t :: rest)))). lia.
        -- cbn [length] in W. lia.
        -- rewrite <- Hhi, slice_empty. cbn [app].
           rewrite bytes_app, Hrep, <- !app_assoc. reflexivity.
      * rewrite <- (len_app pre (snd t)).
        specialize (IH (pre ++ snd t) 0%nat false s prev Hsrc').
        cbv zeta in IH.
        change (utf8.bytes (firstn 0 rest)) with (@nil ascii) in IH.
        change (len []) with 0 in IH. rewrite Z.add_0_r in IH.
        etransitivity; [apply IH|].
        -- rewrite len_app. pose proof (len_nonneg (snd t)). lia.
        -- lia.
        -- rewrite bytes_cons. f_equal. rewrite app_assoc. f_equal.
           rewrite len_app.
           rewrite (slice_split src prev (len pre) (len pre + len (snd t)))
             by (pose proof (len_nonneg (snd t)); lia).
           f_equal. rewrite Hsrc, bytes_cons. apply slice_mid.
    + subst st. cbn [regexp.findAll tokens.replace].
      rewrite <- (len_app pre (snd t)).
      assert (E : len pre + len (utf8.bytes (firstn (S k) (t :: rest)))
                  = len (pre ++ snd t) + len (utf8.bytes (firstn k rest))).
      { cbn [firstn]. rewrite bytes_cons, !len_app. lia. }
      rewrite E in *. apply IH; [exact Hsrc' | exact Hprev |].
      cbn [length] in Hskip. lia.
Qed.

Lemma fold_left_rows (src : gostring) (rg : list gostring)
      (ms : list (nat * Z * Z)) (st : gostring * Z) :
  Forall (fun m => (1 <= fst (fst m) <= 6)%nat /\ 0 <= snd (fst m)) ms ->
  fold_left (fun st sm => svach.submatchLoop src rg 2 (skipn 2 sm) st)
            (map (tokens.row 6) ms) st
  = fold_left (tokens.effect src rg) ms st.
Proof.
  intros F. revert st. induction F as [|[[g lo] hi] ms [Hg Hlo] _ IH];
    intros st; [reflexivity|].
  cbn [map fold_left]. cbn [fst snd] in *.
  rewrite submatchLoop_row by assumption. apply IH.
Qed.

Lemma findAll_groups (cs : list (rune -> bool)) :
  forall ts b skip pos,
    Forall (fun m => (1 <= fst (fst m) <= length cs)%nat)
           (regexp.findAll (regexp.repeated 1 cs) b skip pos ts).
Proof.
  induction ts as [|t rest IH]; intros b skip pos; [constructor|].
  cbn [regexp.findAll]. destruct skip as [|k]; [|apply IH].
  destruct (regexp.repeated 1 cs b (t :: rest)) as [[g n]|] eqn:M; [|apply IH].
  constructor; [|apply IH]. cbn [fst].
  destruct (repeated_some _ _ _ _ _ _ M) as [P [HP [Hg _]]].
  assert (g - 1 < length cs)%nat by (apply nth_error_Some; congruence). lia.
Qed.

Lemma canonical_bytes (g : nat) (m : list utf8.token) :
  utf8.bytes (tokens.canonical g m) = nth g svach.cleanReplaceWith [].
Proof.
  unfold tokens.canonical. generalize (nth g svach.cleanReplaceWith []).
  intros l. induction l as [|c l IH]; [reflexivity|].
  cbn [map]. rewrite bytes_cons, IH. reflexivity.
Qed.

(** The repeated separators are replaced as by a replacement loop on the
    runes. *)
Lemma collapse_tokens (src : gostring) :
  svach.replaceAllStringSubmatch
    (regexp.FindAllStringSubmatchIndex svach.cleanExpr 6 src)
    src svach.cleanReplaceWith
  = utf8.bytes (tokens.replace svach.cleanExpr tokens.canonical true 0
                               (utf8.runes src)).
Proof.
  pose proof (collapse_fold svach.cleanExpr tokens.canonical
                            svach.cleanReplaceWith src canonical_bytes
                            (repeated_nonempty _ _)
                            (utf8.runes src) [] 0%nat true [] 0) as C.
  cbv zeta in C. cbn [app firstn utf8.bytes map concat] in C.
  change (len []) with 0 in C. cbn [Z.add] in C.
  rewrite slice_empty in C. cbn [app] in C.
  rewrite <- C; [| symmetry; apply bytes_runes | lia | lia]. clear C.
  unfold svach.replaceAllStringSubmatch, regexp.FindAllStringSubmatchIndex.
  fold (tokens.row 6).
  assert (G : Forall (fun m => (1 <= fst (fst m) <= 6)%nat /\ 0 <= snd (fst m))
                     (regexp.findAll svach.cleanExpr true 0 0 (utf8.runes src))).
  { pose proof (findAll_groups svach.cleanVals (utf8.runes src) true 0%nat 0) as G1.
    pose proof (findAll_bounds svach.cleanExpr (utf8.runes src) true 0%nat 0
                               ltac:(lia)) as G2.
    rewrite Forall_forall in *. intros m Hm. split; [apply (G1 m Hm) | apply (G2 m Hm)]. }
  destruct (regexp.findAll svach.cleanExpr true 0 0 (utf8.runes src))
    as [|[[g lo] hi] ms] eqn:FA.
  - cbn [map fold_left fst snd app]. symmetry. apply slice_all.
  - cbn [map]. 
    assert (LE : len_eq (tokens.row 6 (g, lo, hi)) svach.cleanReplaceWith = true).
    { unfold len_eq, tokens.row. cbn [length seq flat_map app].
      repeat match goal with
             | |- context [if ?b then _ else _] => destruct b
             end; reflexivity. }
    rewrite LE. cbn [negb].
    change (tokens.row 6 (g, lo, hi) :: map (tokens.row 6) ms)
      with (map (tokens.row 6) ((g, lo, hi) :: ms)).
    rewrite fold_left_rows by exact G.
    match goal with
    | |- (let '(s, prev) := ?X in _) = _ =>
      transitivity (fst X ++ slice src (snd X) (len src));
        [destruct X; reflexivity | reflexivity]
    end.
Qed.

(** ** The passes of [clean] on runes *)

Lemma expand_plain (template : gostring) (m : list (option gostring)) :
  regexp.cutDollar template = None -> regexp.expand template m = template.
Proof.
  intros H. unfold regexp.expand. cbn [regexp.expand_loop]. now rewrite H.
Qed.

Lemma cutDollar_none (s : gostring) :
  ~ In "$"%char s -> regexp.cutDollar s = None.
Proof.
  induction s as [|c s IH]; [reflexivity|]. intros N. cbn [regexp.cutDollar].
  destruct (Ascii.eqb_spec c "$") as [->|_]; [exfalso; apply N; now left|].
  rewrite IH; [reflexivity|]. intros H. apply N. now right.
Qed.

(** A replacement by a text without dollar sign, on runes. *)
Lemma ReplaceAllString_tokens (re : regexp.Regexp) (src repl : gostring) rep :
  regexp.cutDollar repl = None ->
  (forall g m, utf8.bytes (rep g m) = repl) ->
  regexp.ReplaceAllString re src repl
  = utf8.bytes (tokens.replace re rep true 0 (utf8.runes src)).
Proof.
  intros D H. unfold regexp.ReplaceAllString. apply replaceAll_tokens.
  intros g m. rewrite expand_plain by exact D. symmetry. apply H.
Qed.

Lemma firstn_tok_ok (n : nat) (ts : list utf8.token) :
  Forall tok_ok ts -> Forall tok_ok (firstn n ts).
Proof.
  intros F. rewrite <- (firstn_skipn n ts) in F.
  apply Forall_app in F. tauto.
Qed.

Lemma run_firstn_all (P : rune -> bool) (ts : list utf8.token) :
  Forall (fun t => P (fst t) = true) (firstn (regexp.run P ts) ts).
Proof.
  induction ts as [|t ts IH]; [constructor|]. rewrite run_cons.
  destruct (P (fst t)) eqn:E; [|constructor].
  cbn [firstn]. constructor; assumption.
Qed.

Lemma ascii_tok (c : ascii) (t : utf8.token) :
  code c < 128 -> tok_ok t -> fst t = code c -> t = tokens.ascii c.
Proof.
  intros A [_ [[d [-> _]]|[H _]]] E.
  - cbn [fst] in E. apply code_inj in E. now subst d.
  - lia.
Qed.

(** What the loop returns is left as it is by one more turn. *)
Lemma cleanLoop_fixed (step : gostring -> gostring) :
  forall fuel s r n,
    svach.cleanLoop fuel step s = Some (r, n) -> step r = r.
Proof.
  induction fuel as [|fuel IH]; intros s r n; [discriminate|].
  cbn [svach.cleanLoop].
  destruct (bytes_eqb_spec s (step s)) as [E|N].
  - intros X. injection X as <- _. now rewrite <- E.
  - destruct (svach.cleanLoop fuel step (step s)) as [[r' n']|] eqn:L;
      [|discriminate].
    intros X. injection X as <- _. exact (IH _ _ _ L).
Qed.

(** ** The end of the name *)

Lemma endsSD_app (a b : gostring) :
  b <> [] -> tokens.endsSD (a ++ b) = tokens.endsSD b.
Proof.
  intros N. unfold tokens.endsSD. rewrite rev_app_distr.
  destruct (rev b) as [|c r] eqn:E; [|reflexivity].
  exfalso. apply N. rewrite <- (rev_involutive b), E. reflexivity.
Qed.

Lemma spaceOrDot_ascii (r : rune) : svach.spaceOrDot r = true -> r < 128.
Proof.
  unfold svach.spaceOrDot, regexp.space, regexp.only.
  change (code ".") with 46. lia.
Qed.

(** The bytes of a rune that is no space and no dot do not end in one. *)
Lemma endsSD_token (t : utf8.token) :
  tok_ok t -> svach.spaceOrDot (fst t) = false -> tokens.endsSD (snd t) = false.
Proof.
  intros [N [[c [-> A]]|[H F]]] S.
  - exact S.
  - unfold tokens.endsSD. destruct (rev (snd t)) as [|c r] eqn:E; [reflexivity|].
    assert (In c (snd t)) by (apply in_rev; rewrite E; now left).
    rewrite Forall_forall in F. specialize (F c H0). cbv beta in F.
    destruct (svach.spaceOrDot (code c)) eqn:X; [|reflexivity].
    apply spaceOrDot_ascii in X. lia.
Qed.

Lemma run_all (P : rune -> bool) (ts : list utf8.token) :
  regexp.run P ts = length ts <-> forallb (fun t => P (fst t)) ts = true.
Proof.
  induction ts as [|t ts IH]; [tauto|]. rewrite run_cons. cbn [forallb length].
  destruct (P (fst t)); cbn [andb]; [|split; [lia | discriminate]].
  rewrite <- IH. lia.
Qed.

Lemma tok_bytes_nonempty (t : utf8.token) (rest : gostring) :
  tok_ok t -> snd t ++ rest <> [].
Proof.
  intros [N _] E. apply app_eq_nil in E. tauto.
Qed.

(** After the trailing spaces and dots are replaced by a text that does not
    end in one, the string does not end in one. *)
Lemma rightSD_end (s replaceStr : gostring) :
  ~ In "$"%char replaceStr ->
  tokens.endsSD replaceStr = false ->
  tokens.endsSD (regexp.ReplaceAllString svach.rightSDExp s replaceStr) = false.
Proof.
  intros D E.
  rewrite (ReplaceAllString_tokens _ s replaceStr
             (fun _ _ => utf8.runes replaceStr) (cutDollar_none _ D)
             (fun _ _ => bytes_runes replaceStr)).
  set (P := fun t : utf8.token => svach.spaceOrDot (fst t)).
  enough (Q : (utf8.runes s = [] ->
               tokens.replace svach.rightSDExp
                 (fun _ _ => utf8.runes replaceStr) true 0 (utf8.runes s) = [])
              /\ (Forall tok_ok (utf8.runes s) ->
                  tokens.endsSD
                    (utf8.bytes
                       (tokens.replace svach.rightSDExp
                          (fun _ _ => utf8.runes replaceStr) true 0
                          (utf8.runes s))) = false
                  /\ (forallb P (utf8.runes s) = false ->
                      utf8.bytes
                        (tokens.replace svach.rightSDExp
                           (fun _ _ => utf8.runes replaceStr) true 0
                           (utf8.runes s)) <> []))).
  { exact (proj1 (proj2 Q (runes_ok s))). }
  generalize (utf8.runes s) as ts. intros ts. generalize true as b. revert ts.
  refine (replace_ind svach.rightSDExp _
            (fun b ts out =>
               (ts = [] -> out = [])
               /\ (Forall tok_ok ts ->
                   tokens.endsSD (utf8.bytes out) = false
                   /\ (forallb P ts = false -> utf8.bytes out <> [])))
            (plusEnd_nonempty _) _ _ _).
  - intros _. split; [reflexivity|]. intros _. split; [reflexivity | discriminate].
  - intros b t rest g n out M W [IHnil _].
    split; [discriminate|]. intros F.
    unfold svach.rightSDExp, regexp.plusEnd in M.
    destruct (1 <=? regexp.run svach.spaceOrDot (t :: rest))%nat; [|discriminate].
    destruct (regexp.run svach.spaceOrDot (t :: rest) =? length (t :: rest))%nat
      eqn:A; [|discriminate].
    injection M as _ Hn. apply Nat.eqb_eq in A.
    assert (N : n = length (t :: rest)) by (rewrite <- Hn; exact A).
    rewrite N, skipn_all in IHnil. rewrite (IHnil eq_refl), app_nil_r.
    rewrite bytes_runes. split; [exact E|].
    intros X. pose proof (proj1 (run_all svach.spaceOrDot (t :: rest)) A) as Y.
    change (forallb P (t :: rest) = true) in Y. congruence.
  - intros b t rest out M [_ IH].
    split; [discriminate|]. intros F. inversion F as [|? ? Ft Fr]; subst.
    destruct (IH Fr) as [IH1 IH2]. rewrite bytes_cons.
    split; [|intros _; now apply tok_bytes_nonempty].
    destruct (utf8.bytes out) as [|c o] eqn:O.
    + rewrite app_nil_r. apply endsSD_token; [exact Ft|].
      destruct (forallb P rest) eqn:R; [|exfalso; now apply IH2].
      unfold svach.rightSDExp, regexp.plusEnd in M.
      destruct (svach.spaceOrDot (fst t)) eqn:X; [|reflexivity].
      exfalso.
      assert (A : regexp.run svach.spaceOrDot (t :: rest) = length (t :: rest)).
      { apply (proj2 (run_all svach.spaceOrDot (t :: rest))).
        cbn [forallb]. rewrite X. exact R. }
      rewrite A, Nat.eqb_refl in M. cbn [length] in M. discriminate.
    + rewrite endsSD_app by discriminate. exact IH1.
Qed.

Lemma replace_startPlus_false (P : rune -> bool) rep (ts : list utf8.token) :
  tokens.replace (regexp.startPlus P) rep false 0 ts = ts.
Proof. apply replace_none. intros k. reflexivity. Qed.

Lemma bytes_nil_inv (ts : list utf8.token) :
  Forall tok_ok ts -> utf8.bytes ts = [] -> ts = [].
Proof.
  intros F E. destruct ts as [|t ts]; [reflexivity|].
  inversion F; subst. rewrite bytes_cons in E.
  exfalso. revert E. now apply tok_bytes_nonempty.
Qed.

Lemma endsSD_dots (ts : list utf8.token) :
  ts <> [] -> Forall tok_ok ts ->
  Forall (fun t => regexp.only "." (fst t) = true) ts ->
  tokens.endsSD (utf8.bytes ts) = true.
Proof.
  intros N F A. destruct (exists_last N) as [ts' [t ->]].
  apply Forall_app in F. destruct F as [_ F]. inversion F as [|? ? Ft _]; subst.
  apply Forall_app in A. destruct A as [_ A]. inversion A as [|? ? At _]; subst.
  rewrite bytes_app. cbn [utf8.bytes map concat]. rewrite app_nil_r.
  rewrite endsSD_app by (destruct Ft; assumption).
  assert (t = tokens.ascii ".") as ->.
  { apply ascii_tok; [vm_compute; reflexivity | exact Ft |].
    unfold regexp.only in At. lia. }
  reflexivity.
Qed.

(** Making the leading dots one keeps the end of the string. *)
Lemma leftdot_end (s : gostring) :
  tokens.endsSD s = false ->
  tokens.endsSD (regexp.ReplaceAllString svach.leftdotExpr s (str ".")) = false.
Proof.
  intros E.
  rewrite (ReplaceAllString_tokens _ s (str ".") (tokens.put ".") eq_refl
                                   (fun _ _ => eq_refl)).
  pose proof (runes_ok s) as F. rewrite <- (bytes_runes s) in E.
  destruct (utf8.runes s) as [|t rest] eqn:R; [reflexivity|].
  unfold svach.leftdotExpr.
  destruct (regexp.startPlus (regexp.only ".") true (t :: rest))
    as [[g n]|] eqn:M.
  - pose proof (startPlus_nonempty _ _ _ _ _ M) as W.
    rewrite (replace_match _ _ _ _ _ _ _ M) by lia.
    rewrite replace_startPlus_false.
    unfold regexp.startPlus in M. cbn [andb] in M.
    destruct (1 <=? regexp.run (regexp.only ".") (t :: rest))%nat; [|discriminate].
    injection M as _ Hn.
    assert (Hn' : n = regexp.run (regexp.only ".") (t :: rest))
      by (rewrite <- Hn; reflexivity).
    clear Hn.
    pose proof (run_firstn_all (regexp.only ".") (t :: rest)) as A.
    rewrite <- Hn' in A.
    rewrite <- (firstn_skipn n (t :: rest)) in E, F.
    apply Forall_app in F. destruct F as [F1 F2].
    rewrite bytes_app in E. rewrite bytes_app.
    destruct (utf8.bytes (skipn n (t :: rest))) as [|c o] eqn:O.
    + exfalso. rewrite app_nil_r in E.
      rewrite endsSD_dots in E; [discriminate | | exact F1 | exact A].
      destruct n; [lia|]. discriminate.
    + rewrite endsSD_app in E by discriminate.
      rewrite endsSD_app by discriminate. exact E.
  - rewrite (replace_nomatch _ _ _ _ _ M), replace_startPlus_false. exact E.
Qed.

Lemma nameIntr_end (x replaceStr : gostring) :
  ~ In "$"%char replaceStr ->
  tokens.endsSD replaceStr = false ->
  tokens.endsSD (svach.nameIntr x replaceStr) = false.
Proof.
  intros D E. unfold svach.nameIntr. apply leftdot_end. now apply rightSD_end.
Qed.

Lemma cleanStep_end (re : option regexp.Regexp) (replaceStr s : gostring) :
  ~ In "$"%char replaceStr ->
  tokens.endsSD replaceStr = false ->
  tokens.endsSD (svach.cleanStep re replaceStr s) = false.
Proof.
  intros D E. unfold svach.cleanStep. apply leftdot_end. now apply rightSD_end.
Qed.

(** The loop returns the result of a turn. *)
Lemma cleanLoop_result (step : gostring -> gostring) :
  forall fuel s r n,
    svach.cleanLoop fuel step s = Some (r, n) -> exists s', r = step s'.
Proof.
  induction fuel as [|fuel IH]; intros s r n; [discriminate|].
  cbn [svach.cleanLoop].
  destruct (bytes_eqb s (step s)).
  - intros X. injection X as <- _. now exists s.
  - destruct (svach.cleanLoop fuel step (step s)) as [[r' n']|] eqn:L;
      [|discriminate].
    intros X. injection X as <- _. exact (IH _ _ _ L).
Qed.

Lemma cleanIntr_end (fuel : nat) (x replaceStr intrStr : gostring) :
  ~ In "$"%char replaceStr ->
  tokens.endsSD replaceStr = false ->
  svach.cleanIntr fuel x replaceStr = Value intrStr ->
  tokens.endsSD intrStr = false.
Proof.
  intros D E. unfold svach.cleanIntr.
  destruct (bytes_eqb_spec (strings.ToValidUTF8 x replaceStr) []) as [->|_].
  { intros H. injection H as <-. reflexivity. }
  assert (L : forall re s0 r,
             svach.cleanFix fuel re replaceStr s0 = Value r ->
             tokens.endsSD r = false).
  { intros re s0 r. unfold svach.cleanFix.
    destruct (svach.cleanLoop fuel (svach.cleanStep re replaceStr) s0)
      as [[r' n]|] eqn:C; [|discriminate].
    intros H. injection H as <-.
    destruct (cleanLoop_result _ _ _ _ _ C) as [s' ->].
    now apply cleanStep_end. }
  destruct (svach.compileReplaceExpr replaceStr); try discriminate. apply L.
Qed.

(** ** Valid UTF-8 *)

Lemma wf_stable (ts : list utf8.token) : Forall wf ts -> Forall stable ts.
Proof. apply Forall_impl. intros t [S _]. exact S. Qed.

Lemma runes_wf (s : gostring) :
  utf8.ValidString s = true -> Forall wf (utf8.runes s).
Proof.
  intros V. pose proof (valid_stable s V) as S.
  unfold utf8.ValidString in V. rewrite forallb_forall in V.
  rewrite Forall_forall in *. intros t Ht. split; [exact (S t Ht)|].
  apply negb_true_iff. exact (V t Ht).
Qed.

Lemma wf_runes (ts : list utf8.token) :
  Forall wf ts -> utf8.runes (utf8.bytes ts) = ts.
Proof. intros F. apply runes_bytes. now apply wf_stable. Qed.

Lemma Valid_iff (s : gostring) : Valid s <-> utf8.ValidString s = true.
Proof.
  split.
  - intros [ts [F <-]]. unfold utf8.ValidString. rewrite (wf_runes ts F).
    apply forallb_forall. intros t Ht. rewrite Forall_forall in F.
    apply negb_true_iff. exact (proj2 (F t Ht)).
  - intros V. exists (utf8.runes s). split; [now apply runes_wf | apply bytes_runes].
Qed.

Lemma Valid_runes (s : gostring) : Valid s -> Forall wf (utf8.runes s).
Proof. intros V. apply runes_wf. now apply Valid_iff. Qed.

Lemma Valid_nil : Valid [].
Proof. exists []. split; [constructor | reflexivity]. Qed.

Lemma Valid_app (a b : gostring) : Valid a -> Valid b -> Valid (a ++ b).
Proof.
  intros [ta [Fa <-]] [tb [Fb <-]]. exists (ta ++ tb).
  split; [now apply Forall_app | apply bytes_app].
Qed.

Lemma wf_ascii (c : ascii) : code c < 128 -> wf (tokens.ascii c).
Proof.
  intros A. split; [split; [discriminate|]|].
  - intros rest. cbn [tokens.ascii fst snd app length]. now apply decode_ascii.
  - unfold utf8.invalid, tokens.ascii, utf8.RuneError. cbn [fst snd]. lia.
Qed.

Lemma Valid_ascii (l : gostring) : Forall (fun c => code c < 128) l -> Valid l.
Proof.
  induction 1 as [|c l A _ IH]; [apply Valid_nil|].
  apply (Valid_app [c] l); [|exact IH].
  exists [tokens.ascii c]. split; [|reflexivity].
  constructor; [now apply wf_ascii | constructor].
Qed.

Lemma Valid_encode (r : rune) : Valid (utf8.EncodeRune r).
Proof.
  destruct (encode_stable r) as [r' [S I]].
  exists [(r', utf8.EncodeRune r)]. split.
  - constructor; [split; assumption | constructor].
  - cbn. apply app_nil_r.
Qed.

Lemma wf_tok_ok (t : utf8.token) : wf t -> tok_ok t.
Proof.
  intros [[N S] _]. specialize (S []). rewrite app_nil_r in S.
  destruct t as [r bs]. cbn [fst snd] in *.
  destruct bs as [|c bs]; [congruence|].
  pose proof (decode_tok_ok c bs r _ S) as T.
  now rewrite firstn_all in T.
Qed.

(** A valid string starts with an ASCII byte, after which it is valid, or
    with a rune of bytes above ASCII, after which it is valid. *)
Lemma Valid_cons (c : ascii) (s : gostring) :
  Valid (c :: s) ->
  (code c < 128 /\ Valid s)
  \/ (exists bs rest, c :: s = bs ++ rest /\ bs <> []
                      /\ Forall (fun b => 128 <= code b) bs
                      /\ Valid bs /\ Valid rest).
Proof.
  intros [ts [F E]]. destruct ts as [|t ts]; [discriminate|].
  inversion F as [|? ? Ft Fts]; subst. rewrite bytes_cons in E.
  destruct (wf_tok_ok t Ft) as [N [[d [-> A]]|[H B]]].
  - cbn [snd tokens.ascii app] in E. injection E as -> <-.
    left. split; [exact A|]. now exists ts.
  - right. exists (snd t), (utf8.bytes ts). repeat split; auto.
    + exists [t]. split; [now constructor|]. cbn. apply app_nil_r.
    + now exists ts.
Qed.

Lemma Valid_skipn_ascii (n : nat) :
  forall s, Forall (fun c => code c < 128) (firstn n s) -> Valid s ->
            Valid (skipn n s).
Proof.
  induction n as [|n IH]; intros s A V; [exact V|].
  destruct s as [|c s]; [exact V|]. cbn [firstn skipn] in *.
  inversion A as [|? ? Ac As]; subst. apply IH; [exact As|].
  destruct (Valid_cons c s V) as [[_ V']|[bs [rest [E [N [B _]]]]]]; [exact V'|].
  exfalso. destruct bs as [|b bs]; [congruence|].
  injection E as <- _. inversion B; subst. lia.
Qed.

(** ** [html.UnescapeString] keeps a string valid *)

Lemma between_ascii (lo hi : Z) (c : ascii) :
  hi < 128 -> html.between lo c hi = true -> ascii7 c.
Proof. unfold html.between, ascii7. lia. Qed.

Lemma scanDigits_ascii (hex : bool) :
  forall s x x' n,
    html.scanDigits hex x s = (x', n) ->
    (n <= length s)%nat /\ Forall ascii7 (firstn n s).
Proof.
  induction s as [|c s IH]; intros x x' n H; cbn [html.scanDigits] in H.
  - injection H as _ <-. split; [reflexivity | constructor].
  - destruct (html.digitValue hex c) as [d|] eqn:D.
    + destruct (html.scanDigits hex _ s) as [x1 n1] eqn:R.
      injection H as _ <-. destruct (IH _ _ _ R) as [L F].
      cbn [length firstn]. split; [lia|]. constructor; [|exact F].
      unfold html.digitValue in D.
      destruct (html.between 48 c 57) eqn:B1;
        [now apply (between_ascii 48 57)|].
      destruct (hex && html.between 97 c 102) eqn:B2.
      { apply andb_true_iff in B2. now apply (between_ascii 97 102). }
      destruct (hex && html.between 65 c 70) eqn:B3; [|discriminate].
      apply andb_true_iff in B3. now apply (between_ascii 65 70).
    + destruct (Ascii.eqb_spec c ";") as [->|_]; injection H as _ <-.
      * cbn [length firstn]. split; [lia|]. repeat constructor.
      * split; [cbn; lia | constructor].
Qed.

Lemma scanName_ascii (s : gostring) :
  (html.scanName s <= length s)%nat /\ Forall ascii7 (firstn (html.scanName s) s).
Proof.
  induction s as [|c s [L F]]; [split; [reflexivity | constructor]|].
  cbn [html.scanName]. destruct (html.alnum c) eqn:A.
  - cbn [length firstn]. split; [lia|]. constructor; [|exact F].
    unfold html.alnum in A. apply orb_true_iff in A. destruct A as [A|A].
    + apply orb_true_iff in A. destruct A as [A|A].
      * now apply (between_ascii 97 122).
      * now apply (between_ascii 65 90).
    + now apply (between_ascii 48 57).
  - destruct (Ascii.eqb_spec c ";") as [->|_].
    + cbn [length firstn]. split; [lia|]. repeat constructor.
    + split; [cbn; lia | constructor].
Qed.

Lemma longestPrefix_le (name : gostring) :
  forall j x n,
    html.longestPrefix name j = Some (x, n) -> (1 <= n <= S j)%nat.
Proof.
  induction j as [|j IH]; intros x n H; [discriminate|].
  cbn [html.longestPrefix] in H.
  destruct (1 <? S j)%nat; [|discriminate].
  destruct (html.lookup html.entity (firstn (S j) name)).
  - injection H as _ <-. lia.
  - specialize (IH _ _ H). lia.
Qed.

Lemma Forall_firstn_le (A : Type) (P : A -> Prop) (n m : nat) (l : list A) :
  (n <= m)%nat -> Forall P (firstn m l) -> Forall P (firstn n l).
Proof.
  intros L F. replace n with (Nat.min n m) by lia.
  rewrite <- firstn_firstn. rewrite <- (firstn_skipn n (firstn m l)) in F.
  apply Forall_app in F. tauto.
Qed.

(** An entity is read from ASCII bytes and replaced by a valid string. *)
Lemma unescapeEntity_spec (t : gostring) (out : gostring) (n : nat) :
  html.unescapeEntity ("&"%char :: t) = (out, n) ->
  (1 <= n <= length ("&"%char :: t))%nat
  /\ Forall ascii7 (firstn n ("&"%char :: t))
  /\ Valid out.
Proof.
  set (s := "&"%char :: t).
  assert (Amp : forall out n, (firstn 1 s, 1%nat) = (out, n) ->
                              (1 <= n <= length s)%nat
                              /\ Forall ascii7 (firstn n s) /\ Valid out).
  { intros o k H. injection H as <- <-. cbn. repeat split; try lia.
    - repeat constructor.
    - apply Valid_ascii. repeat constructor. }
  unfold html.unescapeEntity. fold s. subst s.
  destruct t as [|c1 rest]; [apply Amp|].
  destruct (Ascii.eqb_spec c1 "#") as [->|NotHash].
  - destruct rest as [|c2 rest2]; [apply Amp|].
    destruct (len ("&"%char :: "#"%char :: c2 :: rest2) <=? 3); [apply Amp|].
    set (s := "&"%char :: "#"%char :: c2 :: rest2) in *.
    set (hex := Ascii.eqb c2 "x" || Ascii.eqb c2 "X").
    set (start := if hex then 3%nat else 2%nat).
    destruct (html.scanDigits hex 0 (skipn start s)) as [x k] eqn:SD.
    destruct (start + k <=? 3)%nat; [apply Amp|].
    intros H. injection H as <- <-.
    destruct (scanDigits_ascii _ _ _ _ _ SD) as [L F].
    rewrite length_skipn in L.
    assert (St : (start <= length s)%nat /\ Forall ascii7 (firstn start s)).
    { subst start s. destruct hex eqn:Hx; cbn [length firstn].
      - split; [lia|]. repeat constructor.
        apply orb_true_iff in Hx.
        destruct Hx as [Hx|Hx]; apply Ascii.eqb_eq in Hx; subst c2;
          vm_compute; reflexivity.
      - split; [lia|]. repeat constructor. }
    destruct St as [St1 St2].
    repeat split; [destruct hex; subst start; lia | lia | | apply Valid_encode].
    rewrite firstn_add. apply Forall_app. split; assumption.
  - set (s := "&"%char :: c1 :: rest).
    set (i := S (html.scanName (skipn 1 s))).
    destruct (scanName_ascii (skipn 1 s)) as [L F].
    assert (Fi : Forall ascii7 (firstn i s) /\ (1 <= i <= length s)%nat).
    { subst i s. cbn [skipn firstn length] in *. split; [|lia].
      constructor; [vm_compute; reflexivity | exact F]. }
    destruct Fi as [Fi Li].
    assert (Verb : forall out n, (firstn i s, i) = (out, n) ->
                                 (1 <= n <= length s)%nat
                                 /\ Forall ascii7 (firstn n s) /\ Valid out).
    { intros o k H. injection H as <- <-. repeat split; try lia; auto.
      now apply Valid_ascii. }
    destruct (firstn (i - 1) (skipn 1 s)) as [|e0 ename] eqn:EN; [apply Verb|].
    destruct (html.lookup html.entity (e0 :: ename)) as [x|].
    { intros H. injection H as <- <-.
      repeat split; try lia; auto. apply Valid_encode. }
    destruct (html.lookup html.entity2 (e0 :: ename)) as [[x0 x1]|].
    { intros H. injection H as <- <-.
      repeat split; try lia; auto. apply Valid_app; apply Valid_encode. }
    destruct (html.longestPrefix (e0 :: ename) _) as [[x k]|] eqn:LP;
      [|apply Verb].
    intros H. injection H as <- <-.
    apply longestPrefix_le in LP.
    assert (Lk : (k <= i)%nat).
    { assert (length (e0 :: ename) <= i - 1)%nat.
      { rewrite <- EN, length_firstn. lia. }
      unfold html.longestEntityWithoutSemicolon, len in LP. lia. }
    repeat split; try lia; [|apply Valid_encode].
    now apply (Forall_firstn_le _ _ k i).
Qed.

(** ** The documented examples and the calls that go wrong *)

(** C8: with the default configuration [Clean] of
    [.....Hello<>:/---\....W|orld?.!..] is [.Hello-.World.!], the loop
    breaking in its second turn; and the object made with the replacement
    string of one space and the maximal length 6 gives [.H e l] as the
    [Name] of [.....H<>e:l.!..]. *)
Theorem C8_documented_examples :
  (forall fuel,
      svach.Clean (2 + fuel) svach.New
                  (str ".....Hello<>:/---\....W|orld?.!..")
      = Value (str ".Hello-.World.!"))
  /\ svach.NewWithOpts (str " ") 6 = (svach.mkSvach (str " ") 6, None)
  /\ svach.Name (svach.mkSvach (str " ") 6) (str ".....H<>e:l.!..")
     = Value (str ".H e l").
Proof.
  split; [|split].
  - intros fuel. vm_compute. reflexivity.
  - vm_compute. reflexivity.
  - vm_compute. reflexivity.
Qed.

(** C1: [Name] and [Clean] are not total.  With the maximal length 1, which
    [NewWithOpts] accepts, the name of a string that starts with a rune of
    two bytes is cut in the middle of the rune and comes out empty; with the
    maximal length -1 the slice panics; with a replacement string that is
    not valid UTF-8 the pattern built in [Clean] does not compile. *)
Theorem C1_empty_result_and_panics :
  svach.NewWithOpts [] 1 = (svach.mkSvach [] 1, None)
  /\ svach.Name (svach.mkSvach [] 1) spec.e_acute = Value []
  /\ (forall fuel, svach.Clean (1 + fuel) (svach.mkSvach [] 1) spec.e_acute = Value [])
  /\ svach.NewWithOpts [] (-1) = (svach.mkSvach [] (-1), None)
  /\ svach.Name (svach.mkSvach [] (-1)) (str "a") = Panic
  /\ svach.NewWithOpts [chr 0xFF] 240 = (svach.mkSvach [chr 0xFF] 240, None)
  /\ (forall fuel, svach.Clean fuel (svach.mkSvach [chr 0xFF] 240) (str "a") = Panic).
Proof.
  repeat split; try (intros fuel); vm_compute; reflexivity.
Qed.

(** C5: the name is checked against the reserved names before it is cut to
    the maximal length, not after: with the maximal length 3 the name of
    [console] is [con]. *)
Theorem C5_reserved_after_truncation :
  svach.NewWithOpts [] 3 = (svach.mkSvach [] 3, None)
  /\ svach.Name (svach.mkSvach [] 3) (str "console") = Value (str "con")
  /\ (forall fuel,
         svach.Clean (1 + fuel) (svach.mkSvach [] 3) (str "console")
         = Value (str "con"))
  /\ svach.valid (str "con") = false.
Proof.
  repeat split; try (intros fuel); vm_compute; reflexivity.
Qed.

(** C10: [NewWithOpts] accepts the replacement string [$0], which as a
    template stands for the text of the match: every invalid or control
    character is then replaced by itself and stays in the name. *)
Theorem C10_template_keeps_invalid_characters :
  svach.NewWithOpts (str "$0") 240 = (svach.mkSvach (str "$0") 240, None)
  /\ svach.Name (svach.mkSvach (str "$0") 240) (str "a<b") = Value (str "a<b")
  /\ svach.Name (svach.mkSvach (str "$0") 240) [chr 97; chr 1; chr 98]
     = Value [chr 97; chr 1; chr 98].
Proof.
  repeat split; vm_compute; reflexivity.
Qed.

(** ** The options *)

Lemma matchFrom_one (P : rune -> bool) (b : bool) (ts : list utf8.token) :
  regexp.matchFrom (regexp.one P) b ts = existsb (fun t => P (fst t)) ts.
Proof.
  revert b. induction ts as [|t ts IH]; intros b; [reflexivity|].
  cbn [regexp.matchFrom existsb]. unfold regexp.one at 1. rewrite run_cons.
  destruct (P (fst t)); [reflexivity|]. simpl. apply IH.
Qed.

Lemma matchFrom_plus (P : rune -> bool) (b : bool) (ts : list utf8.token) :
  regexp.matchFrom (regexp.plus P) b ts = existsb (fun t => P (fst t)) ts.
Proof.
  revert b. induction ts as [|t ts IH]; intros b; [reflexivity|].
  cbn [regexp.matchFrom existsb]. unfold regexp.plus at 1. rewrite run_cons.
  destruct (P (fst t)); [reflexivity|]. simpl. apply IH.
Qed.

Lemma cntrl_ascii (r : rune) : regexp.cntrl r = true -> r < 128.
Proof. unfold regexp.cntrl. lia. Qed.

Lemma invChar_ascii (r : rune) : svach.invChar r = true -> r < 128.
Proof.
  unfold svach.invChar. intros H. apply existsb_exists in H.
  destruct H as [c [Hin E]]. apply Z.eqb_eq in E. subst r.
  simpl in Hin. repeat (destruct Hin as [<-|Hin]; [vm_compute; reflexivity|]).
  contradiction.
Qed.

(** [cntrlExp.MatchString(s)] says that a control character is in [s]. *)
Lemma match_cntrl (s : gostring) :
  regexp.MatchString svach.cntrlExp s = true <-> spec.hasControl s.
Proof.
  unfold regexp.MatchString, svach.cntrlExp.
  rewrite matchFrom_one, (existsb_runes_ascii _ _ cntrl_ascii), existsb_exists.
  unfold spec.hasControl, spec.control, regexp.cntrl.
  split; intros [c [Hin H]]; exists c; (split; [exact Hin|]);
    pose proof (code_range c); lia.
Qed.

Lemma invChar_code (c : ascii) :
  svach.invChar (code c) = true <-> In c spec.allInvalid.
Proof.
  unfold svach.invChar, spec.allInvalid. rewrite existsb_exists. split.
  - intros [d [Hin E]]. apply Z.eqb_eq, code_inj in E. now subst d.
  - intros Hin. exists c. split; [exact Hin | apply Z.eqb_refl].
Qed.

(** [invCharExp.MatchString(s) || strings.Contains(s, ".")] says that a
    reserved character or a dot is in [s]. *)
Lemma match_invalid (s : gostring) :
  regexp.MatchString svach.invCharExp s || strings.ContainsDot s = true
  <-> spec.hasReservedOrDot s.
Proof.
  unfold regexp.MatchString, svach.invCharExp.
  rewrite matchFrom_plus, (existsb_runes_ascii _ _ invChar_ascii).
  unfold strings.ContainsDot, containsByte.
  rewrite orb_true_iff, !existsb_exists.
  unfold spec.hasReservedOrDot, spec.reservedOrDot. split.
  - intros [[c [Hin H]]|[c [Hin H]]]; exists c; (split; [exact Hin|]);
      apply in_or_app.
    + left. now apply invChar_code.
    + right. apply Ascii.eqb_eq in H. subst c. now left.
  - intros [c [Hin H]]. apply in_app_or in H. destruct H as [H|H].
    + left. exists c. split; [exact Hin | now apply invChar_code].
    + right. exists c. split; [exact Hin|].
      destruct H as [<-|[]]. reflexivity.
Qed.


(** ** Validation, the fallback and the cut to the maximal length *)

Lemma Sprintf_x_length (b : gostring) :
  length (fmt.Sprintf_x b) = (2 * length b)%nat.
Proof.
  unfold fmt.Sprintf_x. induction b as [|c b IH]; [reflexivity|].
  cbn [flat_map]. rewrite length_app, IH. simpl. lia.
Qed.

Lemma Sum_length (msg : gostring) : length (md5.Sum msg) = 16%nat.
Proof. unfold md5.Sum. rewrite !length_app. reflexivity. Qed.

Lemma hexdigit_lower (d : Z) : 0 <= d < 16 -> spec.lowerHex (fmt.hexdigit d).
Proof.
  intros H. unfold spec.lowerHex, fmt.hexdigit.
  destruct (d <? 10) eqn:E; rewrite code_chr; lia.
Qed.

(** The fallback is 32 lower-case hexadecimal digits. *)
Lemma fallback_length (x : gostring) : len (spec.fallback x) = 32.
Proof.
  unfold len, spec.fallback. rewrite Sprintf_x_length, Sum_length. reflexivity.
Qed.

Lemma fallback_hex (x : gostring) : Forall spec.lowerHex (spec.fallback x).
Proof.
  unfold spec.fallback, fmt.Sprintf_x. apply Forall_flat_map.
  apply Forall_forall. intros c _. pose proof (code_range c).
  apply Forall_cons; [|apply Forall_cons; [|apply Forall_nil]];
    apply hexdigit_lower; Z.div_mod_to_equations; lia.
Qed.

Lemma toValid_nil_length (b : bool) (ts : list utf8.token) :
  (length (strings.toValid [] b ts) <= length (utf8.bytes ts))%nat.
Proof.
  revert b. induction ts as [|t ts IH]; intros b; [reflexivity|].
  cbn [strings.toValid]. rewrite bytes_cons, length_app.
  destruct (utf8.invalid t).
  - destruct b; cbn [app]; specialize (IH true); lia.
  - rewrite length_app. specialize (IH false). lia.
Qed.

(** Taking the invalid bytes out of a string does not make it longer. *)
Lemma ToValidUTF8_nil_len (s : gostring) : len (strings.ToValidUTF8 s []) <= len s.
Proof.
  unfold strings.ToValidUTF8, len.
  pose proof (toValid_nil_length false (utf8.runes s)) as H.
  rewrite bytes_runes in H. lia.
Qed.

Lemma slice_0_len (s : gostring) (m : Z) : 0 <= m -> len (slice s 0 m) <= m.
Proof.
  intros H. unfold slice, len. rewrite skipn_O, length_firstn. lia.
Qed.

(** [validName] returns the intermediate string, that string cut to the
    maximal length, or the fallback. *)
Lemma validName_value (fileName intrStr replaceStr out : gostring) (maxLen : Z) :
  svach.validName fileName intrStr replaceStr maxLen = Value out ->
  (out = spec.fallback fileName
   /\ (intrStr = replaceStr \/ intrStr = [] \/ svach.valid intrStr = false))
  \/ (intrStr <> replaceStr /\ intrStr <> [] /\ svach.valid intrStr = true
      /\ ((len intrStr <= maxLen /\ out = intrStr)
          \/ (0 <= maxLen < len intrStr
              /\ out = strings.ToValidUTF8 (slice intrStr 0 maxLen) []))).
Proof.
  unfold svach.validName.
  destruct (bytes_eqb_spec intrStr replaceStr) as [E1|N1]; cbn [negb andb].
  { intros H. injection H as <-. left. auto. }
  destruct (bytes_eqb_spec intrStr []) as [E2|N2]; cbn [negb andb].
  { intros H. injection H as <-. left. auto. }
  destruct (svach.valid intrStr) eqn:V.
  2:{ intros H. injection H as <-. left. auto. }
  destruct (maxLen <? len intrStr) eqn:L.
  - destruct (maxLen <? 0) eqn:L0; [discriminate|].
    intros H. injection H as <-. right. repeat split; auto. right. split; [lia | reflexivity].
  - intros H. injection H as <-. right. repeat split; auto. left. split; [lia | reflexivity].
Qed.

Lemma validName_rejected (fileName intrStr replaceStr : gostring) (maxLen : Z) :
  spec.rejected intrStr replaceStr ->
  svach.validName fileName intrStr replaceStr maxLen
  = Value (spec.fallback fileName).
Proof.
  unfold svach.validName, spec.rejected. intros R.
  destruct (bytes_eqb_spec intrStr replaceStr) as [E1|N1]; [reflexivity|].
  destruct (bytes_eqb_spec intrStr []) as [E2|N2]; [reflexivity|].
  cbn [negb andb].
  assert (V : svach.valid intrStr = false).
  { apply valid_false_iff. tauto. }
  rewrite V. reflexivity.
Qed.

Lemma clean_nil (fuel : nat) (replaceStr : gostring) (maxLen : Z) :
  svach.clean fuel [] replaceStr maxLen = Value (spec.fallback []).
Proof.
  unfold svach.clean, svach.cleanIntr. cbn.
  apply validName_rejected. now left.
Qed.






(** ** The end of the name: the claim *)




(** ** The loop of [clean] *)

Lemma runes_ascii (s : gostring) :
  Forall (fun c => code c < 128) s -> utf8.runes s = map tokens.ascii s.
Proof.
  induction 1 as [|c s A _ IH]; [reflexivity|].
  rewrite (runes_cons c s _ _ (decode_ascii c s A)). cbn [firstn skipn map].
  now rewrite IH.
Qed.

Lemma runes_as_space (n : nat) : utf8.runes (as_space n) = as_space_runes n.
Proof.
  unfold as_space, as_space_runes. rewrite runes_ascii.
  - now rewrite map_app, map_repeat.
  - apply Forall_app. split; [|repeat constructor].
    apply Forall_forall. intros c H. apply repeat_spec in H. now subst c.
Qed.

Lemma bytes_as_space (n : nat) : utf8.bytes (as_space_runes n) = as_space n.
Proof. rewrite <- runes_as_space. apply bytes_runes. Qed.

Lemma skipn_as_space (k n : nat) :
  skipn k (as_space_runes n) = as_space_runes (n - k)
  \/ skipn k (as_space_runes n) = [].
Proof.
  revert n. induction k as [|k IH]; intros n.
  - left. now rewrite Nat.sub_0_r.
  - destruct n as [|n]; [right; destruct k; reflexivity|].
    cbn [Nat.sub]. exact (IH n).
Qed.

Lemma replace_as_space_none (re : regexp.Regexp) rep (n : nat) :
  (forall b m, re b (as_space_runes m) = None) ->
  (forall b, re b [] = None) ->
  tokens.replace re rep true 0 (as_space_runes n) = as_space_runes n.
Proof.
  intros H H0. apply replace_none. intros k.
  destruct (skipn_as_space k n) as [-> | ->]; [apply H | apply H0].
Qed.

Lemma cleanExpr_as_space (b : bool) (m : nat) :
  svach.cleanExpr b (as_space_runes m) = None.
Proof. destruct m; reflexivity. Qed.

Lemma litRepeated_as_space (b : bool) (m : nat) :
  regexp.litRepeated [97; 32] b (as_space_runes m) = None.
Proof. destruct m as [|[|m]]; reflexivity. Qed.

Lemma rightSD_as_space (b : bool) (n : nat) :
  tokens.replace svach.rightSDExp (fun _ _ => utf8.runes (str "a ")) b 0
                 (as_space_runes n)
  = as_space_runes (S n).
Proof.
  revert b. induction n as [|n IH]; intros b; [reflexivity|].
  change (as_space_runes (S n)) with (tokens.ascii "a" :: as_space_runes n).
  rewrite replace_nomatch by reflexivity. rewrite IH. reflexivity.
Qed.

Lemma leftdot_as_space (n : nat) :
  tokens.replace svach.leftdotExpr (tokens.put ".") true 0
                 (as_space_runes (S n))
  = as_space_runes (S n).
Proof.
  change (as_space_runes (S n)) with (tokens.ascii "a" :: as_space_runes n).
  rewrite replace_nomatch by reflexivity.
  unfold svach.leftdotExpr. now rewrite replace_startPlus_false.
Qed.

(** A turn of the loop adds an [a]. *)
Lemma cleanStep_as_space (n : nat) :
  svach.cleanStep (Some (regexp.litRepeated [97; 32])) (str "a ") (as_space n)
  = as_space (S n).
Proof.
  unfold svach.cleanStep.
  rewrite collapse_tokens, runes_as_space.
  rewrite replace_as_space_none
    by (intros; first [apply cleanExpr_as_space | reflexivity]).
  rewrite bytes_as_space.
  rewrite (ReplaceAllString_tokens _ (as_space n) (str "a ")
             (fun _ _ => utf8.runes (str "a ")) eq_refl (fun _ _ => eq_refl)).
  rewrite runes_as_space.
  rewrite replace_as_space_none
    by (intros; first [apply litRepeated_as_space | reflexivity]).
  rewrite bytes_as_space.
  rewrite (ReplaceAllString_tokens _ (as_space n) (str "a ")
             (fun _ _ => utf8.runes (str "a ")) eq_refl (fun _ _ => eq_refl)).
  rewrite runes_as_space, rightSD_as_space, bytes_as_space.
  rewrite (ReplaceAllString_tokens _ (as_space (S n)) (str ".")
             (tokens.put ".") eq_refl (fun _ _ => eq_refl)).
  rewrite runes_as_space, leftdot_as_space. apply bytes_as_space.
Qed.

Lemma cleanLoop_as_space (fuel n : nat) :
  svach.cleanLoop fuel
    (svach.cleanStep (Some (regexp.litRepeated [97; 32])) (str "a "))
    (as_space n) = None.
Proof.
  revert n. induction fuel as [|fuel IH]; intros n; [reflexivity|].
  cbn [svach.cleanLoop]. rewrite cleanStep_as_space.
  destruct (bytes_eqb_spec (as_space n) (as_space (S n))) as [E|_].
  - apply (f_equal (@length ascii)) in E. unfold as_space in E.
    rewrite !length_app, !repeat_length in E. lia.
  - now rewrite IH.
Qed.

Lemma unescape_from_skipn (k : nat) (s : gostring) :
  html.unescape_from k s = html.UnescapeString (skipn k s).
Proof.
  revert s. induction k as [|k IH]; intros s; [reflexivity|].
  destruct s as [|c t]; [reflexivity|]. cbn [html.unescape_from skipn]. apply IH.
Qed.

Lemma unescape_amp (t out : gostring) (n : nat) :
  html.unescapeEntity ("&"%char :: t) = (out, n) ->
  html.UnescapeString ("&"%char :: t)
  = out ++ html.UnescapeString (skipn n ("&"%char :: t)).
Proof.
  intros H. destruct (unescapeEntity_spec t out n H) as [[L _] _].
  unfold html.UnescapeString at 1. cbn [html.unescape_from].
  change (Ascii.eqb "&" "&") with true. cbv iota. rewrite H.
  rewrite unescape_from_skipn. destruct n as [|n]; [lia|].
  cbn [Nat.sub skipn]. now rewrite Nat.sub_0_r.
Qed.

Lemma unescape_other (c : ascii) (t : gostring) :
  c <> "&"%char ->
  html.UnescapeString (c :: t) = c :: html.UnescapeString t.
Proof.
  intros N. unfold html.UnescapeString at 1. cbn [html.unescape_from].
  destruct (Ascii.eqb_spec c "&"); [contradiction | reflexivity].
Qed.

Lemma unescape_copy (bs rest : gostring) :
  Forall (fun b => 128 <= code b) bs ->
  html.UnescapeString (bs ++ rest) = bs ++ html.UnescapeString rest.
Proof.
  induction 1 as [|b bs B _ IH]; [reflexivity|].
  cbn [app]. rewrite unescape_other, IH; [reflexivity|].
  intros ->. vm_compute in B. now apply B.
Qed.

(** [html.UnescapeString] keeps a valid string valid. *)
Lemma unescape_Valid (s : gostring) :
  Valid s -> Valid (html.UnescapeString s).
Proof.
  remember (length s) as n eqn:L. revert s L.
  induction n as [n IH] using lt_wf_ind. intros s L V.
  destruct s as [|c t]; [exact V|].
  destruct (Valid_cons c t V) as [[A Vt]|[bs [rest [E [N [B [Vb Vr]]]]]]].
  - destruct (Ascii.eqb_spec c "&") as [->|NA].
    + destruct (html.unescapeEntity ("&"%char :: t)) as [out k] eqn:U.
      rewrite (unescape_amp t out k U).
      destruct (unescapeEntity_spec t out k U) as [[K1 K2] [F Vo]].
      apply Valid_app; [exact Vo|].
      apply (IH (length (skipn k ("&"%char :: t)))); [|reflexivity|].
      * rewrite length_skipn. subst n. lia.
      * now apply Valid_skipn_ascii.
    + rewrite unescape_other by exact NA.
      apply (Valid_app [c]); [apply Valid_ascii; now repeat constructor|].
      apply (IH (length t)); [subst n; simpl; lia | reflexivity | exact Vt].
  - rewrite E, unescape_copy by exact B.
    apply Valid_app; [exact Vb|].
    apply (IH (length rest)); [|reflexivity | exact Vr].
    subst n. rewrite E, length_app. destruct bs; [congruence | simpl; lia].
Qed.

(** ** [strings.ToValidUTF8] *)

Lemma toValid_valid (replacement : gostring) (ts : list utf8.token) :
  Forall wf ts -> forall b, strings.toValid replacement b ts = utf8.bytes ts.
Proof.
  induction 1 as [|t ts [_ I] _ IH]; intros b; [reflexivity|].
  cbn [strings.toValid]. rewrite I, IH. reflexivity.
Qed.

Lemma ToValidUTF8_valid (s replacement : gostring) :
  Valid s -> strings.ToValidUTF8 s replacement = s.
Proof.
  intros V. unfold strings.ToValidUTF8.
  rewrite toValid_valid by (now apply Valid_runes). apply bytes_runes.
Qed.

Lemma toValid_nil_filter (ts : list utf8.token) (b : bool) :
  strings.toValid [] b ts
  = utf8.bytes (filter (fun t => negb (utf8.invalid t)) ts).
Proof.
  revert b. induction ts as [|t ts IH]; intros b; [reflexivity|].
  cbn [strings.toValid filter]. destruct (utf8.invalid t); cbn [negb].
  - destruct b; cbn [app]; apply IH.
  - rewrite bytes_cons, IH. reflexivity.
Qed.

(** Without its invalid bytes a string is valid. *)
Lemma ToValidUTF8_nil_Valid (x : gostring) : Valid (strings.ToValidUTF8 x []).
Proof.
  unfold strings.ToValidUTF8. rewrite toValid_nil_filter.
  eexists. split; [|reflexivity].
  pose proof (runes_stable x) as S. rewrite Forall_forall in *.
  intros t Ht. apply filter_In in Ht. destruct Ht as [Ht I].
  apply negb_true_iff in I. split; [exact (S t Ht I) | exact I].
Qed.

(** ** A pass on a valid string *)

Lemma pass_runes (re : regexp.Regexp) rep (s : gostring) :
  tokens.nonempty re -> (forall g m, Forall wf (rep g m)) -> Valid s ->
  utf8.runes (pass re rep s) = tokens.replace re rep true 0 (utf8.runes s)
  /\ Valid (pass re rep s).
Proof.
  intros WF R V.
  assert (F : Forall wf (tokens.replace re rep true 0 (utf8.runes s))).
  { apply replace_Forall; [exact WF | exact R | now apply Valid_runes]. }
  split; [now apply wf_runes|]. eexists. split; [exact F | reflexivity].
Qed.

Lemma pass_all (re : regexp.Regexp) rep (Q : utf8.token -> Prop) (s : gostring) :
  tokens.nonempty re -> (forall g m, Forall wf (rep g m)) ->
  (forall g m, Forall Q (rep g m)) ->
  Valid s -> allRunes Q s -> allRunes Q (pass re rep s).
Proof.
  intros WF R RQ V A. unfold allRunes.
  rewrite (proj1 (pass_runes re rep s WF R V)).
  now apply replace_Forall.
Qed.

Lemma one_classOf (P : rune -> bool) : classOf P (regexp.one P).
Proof.
  split; [apply one_nonempty|]. intros b t rest. unfold regexp.one.
  rewrite run_cons. destruct (P (fst t)); [discriminate | reflexivity].
Qed.

Lemma plus_classOf (P : rune -> bool) : classOf P (regexp.plus P).
Proof.
  split; [apply plus_nonempty|]. intros b t rest. unfold regexp.plus.
  rewrite run_cons. destruct (P (fst t)); [discriminate | reflexivity].
Qed.

Lemma class_replace_Forall (P : rune -> bool) (re : regexp.Regexp) rep
      (Q : utf8.token -> Prop) :
  classOf P re -> (forall g m, Forall Q (rep g m)) ->
  forall ts b,
    Forall (fun t => P (fst t) = false -> Q t) ts ->
    Forall Q (tokens.replace re rep b 0 ts).
Proof.
  intros [WF C] R ts b.
  apply (replace_ind re rep
           (fun b ts out => Forall (fun t => P (fst t) = false -> Q t) ts ->
                            Forall Q out) WF).
  - intros _ _. constructor.
  - intros b' t rest g n out M W IH F. apply Forall_app. split; [apply R|].
    apply IH. rewrite <- (firstn_skipn n (t :: rest)) in F.
    apply Forall_app in F. tauto.
  - intros b' t rest out M IH F. inversion F as [|? ? Ft Fr]; subst.
    constructor; [apply Ft; exact (C _ _ _ M) | now apply IH].
Qed.

(** After the runes of a class are taken out, none is left. *)
Lemma class_drop (P : rune -> bool) (re : regexp.Regexp) (s : gostring) :
  classOf P re -> Valid s ->
  allRunes (fun t => P (fst t) = false) (pass re tokens.drop s).
Proof.
  intros C V. unfold allRunes.
  rewrite (proj1 (pass_runes re tokens.drop s (proj1 C)
                             (fun _ _ => Forall_nil _) V)).
  apply (class_replace_Forall P re); [exact C | intros; constructor|].
  apply Forall_forall. auto.
Qed.

Lemma run_zero (P : rune -> bool) (ts : list utf8.token) :
  Forall (fun t => P (fst t) = false) ts -> regexp.run P ts = 0%nat.
Proof.
  intros F. destruct ts as [|t ts]; [reflexivity|]. rewrite run_cons.
  inversion F as [|? ? Ft _]; subst. now rewrite Ft.
Qed.

Lemma Forall_skipn (A : Type) (P : A -> Prop) (k : nat) (l : list A) :
  Forall P l -> Forall P (skipn k l).
Proof.
  intros F. rewrite <- (firstn_skipn k l) in F. apply Forall_app in F. tauto.
Qed.

(** A pass on a string without rune of the class changes nothing. *)
Lemma class_id (P : rune -> bool) (re : regexp.Regexp) rep (s : gostring) :
  matchesClass P re ->
  allRunes (fun t => P (fst t) = false) s -> pass re rep s = s.
Proof.
  intros M A. unfold pass. rewrite replace_none; [apply bytes_runes|].
  intros k. destruct (re _ (skipn k (utf8.runes s))) as [[g n]|] eqn:E;
    [|reflexivity].
  apply M in E. rewrite run_zero in E; [lia|]. now apply Forall_skipn.
Qed.

Lemma one_matchesClass (P : rune -> bool) : matchesClass P (regexp.one P).
Proof.
  intros b ts g n. unfold regexp.one.
  destruct (1 <=? regexp.run P ts)%nat eqn:E; [|discriminate].
  intros _. now apply Nat.leb_le.
Qed.

Lemma plus_matchesClass (P : rune -> bool) : matchesClass P (regexp.plus P).
Proof.
  intros b ts g n. unfold regexp.plus.
  destruct (1 <=? regexp.run P ts)%nat eqn:E; [|discriminate].
  intros _. now apply Nat.leb_le.
Qed.

Lemma plusEnd_matchesClass (P : rune -> bool) :
  matchesClass P (regexp.plusEnd P).
Proof.
  intros b ts g n. unfold regexp.plusEnd.
  destruct (1 <=? regexp.run P ts)%nat eqn:E; [|discriminate].
  intros _. now apply Nat.leb_le.
Qed.

(** Replacing each rune of a class by a character that is the only rune of
    the class in the string changes nothing. *)
Lemma one_put_id (P : rune -> bool) (c : ascii) (s : gostring) :
  allRunes (fun t => P (fst t) = true -> t = tokens.ascii c) s ->
  pass (regexp.one P) (tokens.put c) s = s.
Proof.
  intros A. unfold pass. rewrite <- (bytes_runes s) at 2. f_equal.
  unfold allRunes in A. generalize true as b.
  induction A as [|t ts Ht _ IH]; intros b; [reflexivity|].
  destruct (regexp.one P b (t :: ts)) as [[g n]|] eqn:M.
  - unfold regexp.one in M. rewrite run_cons in M.
    destruct (P (fst t)) eqn:E; [|discriminate]. cbn in M.
    injection M as <- <-.
    assert (M' : regexp.one P b (t :: ts) = Some (0%nat, 1%nat)).
    { unfold regexp.one. rewrite run_cons, E. reflexivity. }
    rewrite (replace_match _ _ _ _ _ _ _ M') by lia.
    cbn [skipn firstn]. rewrite IH. unfold tokens.put.
    rewrite (Ht eq_refl). reflexivity.
  - rewrite (replace_nomatch _ _ _ _ _ M), IH. reflexivity.
Qed.

(** ** Normalising a normalised name *)

Lemma endsSD_class (ts : list utf8.token) :
  ts <> [] -> Forall tok_ok ts ->
  Forall (fun t => svach.spaceOrDot (fst t) = true) ts ->
  tokens.endsSD (utf8.bytes ts) = true.
Proof.
  intros N F A. destruct (exists_last N) as [ts' [t ->]].
  apply Forall_app in F. destruct F as [_ F]. inversion F as [|? ? Ft _]; subst.
  apply Forall_app in A. destruct A as [_ A]. inversion A as [|? ? At _]; subst.
  rewrite bytes_app. cbn [utf8.bytes map concat]. rewrite app_nil_r.
  rewrite endsSD_app by (destruct Ft; assumption).
  destruct Ft as [_ [[c [-> _]]|[H _]]]; [exact At|].
  apply spaceOrDot_ascii in At. lia.
Qed.

(** A string that does not end in a space or a dot has no trailing spaces
    and dots to take out. *)
Lemma rightSD_id rep (s : gostring) :
  tokens.endsSD s = false -> pass svach.rightSDExp rep s = s.
Proof.
  intros E. unfold pass. rewrite replace_none; [apply bytes_runes|].
  intros k.
  destruct (svach.rightSDExp (true && (k =? 0)%nat) (skipn k (utf8.runes s)))
    as [[g n]|] eqn:M; [|reflexivity].
  exfalso. unfold svach.rightSDExp, regexp.plusEnd in M.
  destruct (1 <=? regexp.run svach.spaceOrDot (skipn k (utf8.runes s)))%nat
    eqn:R1; [|discriminate].
  destruct (regexp.run svach.spaceOrDot (skipn k (utf8.runes s))
            =? length (skipn k (utf8.runes s)))%nat eqn:R2; [|discriminate].
  apply Nat.leb_le in R1. apply Nat.eqb_eq in R2.
  pose proof (run_firstn_all svach.spaceOrDot (skipn k (utf8.runes s))) as A.
  rewrite R2, firstn_all in A.
  pose proof (Forall_skipn _ _ k _ (runes_ok s)) as F.
  assert (N : skipn k (utf8.runes s) <> []).
  { intros X. rewrite X in R1. simpl in R1. lia. }
  pose proof (endsSD_class _ N F A) as T.
  rewrite <- (bytes_runes s), <- (firstn_skipn k (utf8.runes s)), bytes_app in E.
  rewrite endsSD_app in E; [congruence|].
  intros X. apply N. exact (bytes_nil_inv _ F X).
Qed.

Lemma run_skipn_run (P : rune -> bool) (ts : list utf8.token) :
  regexp.run P (skipn (regexp.run P ts) ts) = 0%nat.
Proof.
  induction ts as [|t ts IH]; [reflexivity|]. rewrite run_cons.
  destruct (P (fst t)) eqn:E; [exact IH|].
  cbn [skipn]. rewrite run_cons, E. reflexivity.
Qed.

(** The leading dots are made one once and for all. *)
Lemma leftdot_tokens_idem (ts : list utf8.token) :
  tokens.replace svach.leftdotExpr (tokens.put ".") true 0
    (tokens.replace svach.leftdotExpr (tokens.put ".") true 0 ts)
  = tokens.replace svach.leftdotExpr (tokens.put ".") true 0 ts.
Proof.
  unfold svach.leftdotExpr.
  destruct ts as [|t rest]; [reflexivity|].
  destruct (regexp.startPlus (regexp.only ".") true (t :: rest))
    as [[g n]|] eqn:M.
  - pose proof (startPlus_nonempty _ _ _ _ _ M) as W.
    rewrite (replace_match _ _ _ _ _ _ _ M) by lia.
    rewrite replace_startPlus_false.
    unfold regexp.startPlus in M. cbn [andb] in M.
    destruct (1 <=? regexp.run (regexp.only ".") (t :: rest))%nat; [|discriminate].
    injection M as _ Hn.
    assert (Hn' : n = regexp.run (regexp.only ".") (t :: rest))
      by (rewrite <- Hn; reflexivity).
    clear Hn. unfold tokens.put. cbn [app].
    assert (M' : regexp.startPlus (regexp.only ".") true
                   (tokens.ascii "." :: skipn n (t :: rest))
                 = Some (0%nat, 1%nat)).
    { unfold regexp.startPlus. cbn [andb]. rewrite run_cons.
      change (regexp.only "." (fst (tokens.ascii "."))) with true. cbv iota.
      rewrite Hn', run_skipn_run. reflexivity. }
    rewrite (replace_match _ _ _ _ _ _ _ M') by lia.
    cbn [firstn skipn]. rewrite replace_startPlus_false. reflexivity.
  - rewrite (replace_nomatch _ _ _ _ _ M), replace_startPlus_false.
    rewrite (replace_nomatch _ _ _ _ _ M), replace_startPlus_false.
    reflexivity.
Qed.

Lemma wf_put (c : ascii) :
  code c < 128 -> forall (g : nat) (m : list utf8.token), Forall wf (tokens.put c g m).
Proof. intros A g m. repeat constructor; now apply wf_ascii. Qed.

Lemma wf_drop (g : nat) (m : list utf8.token) : Forall wf (tokens.drop g m).
Proof. constructor. Qed.

Lemma leftdot_idem (s : gostring) :
  Valid s ->
  pass svach.leftdotExpr (tokens.put ".")
       (pass svach.leftdotExpr (tokens.put ".") s)
  = pass svach.leftdotExpr (tokens.put ".") s.
Proof.
  intros V.
  destruct (pass_runes svach.leftdotExpr (tokens.put ".") s
                       (startPlus_nonempty _)
                       (wf_put "." ltac:(vm_compute; reflexivity)) V) as [R _].
  unfold pass at 1. rewrite R, leftdot_tokens_idem. reflexivity.
Qed.

(** The passes with the empty replacement string, as passes on runes. *)
Lemma replace_nil (re : regexp.Regexp) (s : gostring) :
  regexp.ReplaceAllString re s [] = pass re tokens.drop s.
Proof. apply ReplaceAllString_tokens; reflexivity. Qed.

Lemma replace_dot (re : regexp.Regexp) (s : gostring) :
  regexp.ReplaceAllString re s (str ".") = pass re (tokens.put ".") s.
Proof. apply ReplaceAllString_tokens; reflexivity. Qed.

Lemma replace_space (re : regexp.Regexp) (s : gostring) :
  regexp.ReplaceAllString re s (str " ") = pass re (tokens.put " ") s.
Proof. apply ReplaceAllString_tokens; reflexivity. Qed.

Lemma all_drop (Q : utf8.token -> Prop) (g : nat) (m : list utf8.token) :
  Forall Q (tokens.drop g m).
Proof. constructor. Qed.

Lemma all_put (Q : utf8.token -> Prop) (c : ascii) :
  Q (tokens.ascii c) -> forall g m, Forall Q (tokens.put c g m).
Proof. intros H g m. repeat constructor. exact H. Qed.

(** The intermediate string of [name], with the empty replacement string,
    is left as it is by the passes of [name] when it holds no entity. *)
Lemma nameIntr_idem (x : gostring) :
  html.UnescapeString (svach.nameIntr x []) = svach.nameIntr x [] ->
  svach.nameIntr (svach.nameIntr x []) [] = svach.nameIntr x [].
Proof.
  intros U.
  pose proof (nameIntr_end x [] (fun H => H) eq_refl) as E.
  unfold svach.nameIntr at 1.
  remember (svach.nameIntr x []) as y eqn:Y.
  unfold svach.nameIntr in Y. rewrite !replace_nil, replace_dot in Y.
  set (t1 := html.UnescapeString (strings.ToValidUTF8 x [])) in Y.
  set (t2 := pass svach.cntrlExp tokens.drop t1) in Y.
  set (t3 := pass svach.invCharExp tokens.drop t2) in Y.
  set (t4 := pass svach.rightSDExp tokens.drop t3) in Y.
  assert (V1 : Valid t1) by apply unescape_Valid, ToValidUTF8_nil_Valid.
  destruct (pass_runes svach.cntrlExp tokens.drop t1 (one_nonempty _) wf_drop V1)
    as [_ V2]. fold t2 in V2.
  pose proof (class_drop regexp.cntrl _ t1 (one_classOf _) V1) as C2. fold t2 in C2.
  destruct (pass_runes svach.invCharExp tokens.drop t2 (plus_nonempty _) wf_drop V2)
    as [_ V3]. fold t3 in V3.
  pose proof (class_drop svach.invChar _ t2 (plus_classOf _) V2) as I3. fold t3 in I3.
  pose proof (pass_all svach.invCharExp tokens.drop _ t2 (plus_nonempty _) wf_drop
                       (all_drop _) V2 C2) as C3. fold t3 in C3.
  destruct (pass_runes svach.rightSDExp tokens.drop t3 (plusEnd_nonempty _) wf_drop V3)
    as [_ V4]. fold t4 in V4.
  pose proof (pass_all svach.rightSDExp tokens.drop _ t3 (plusEnd_nonempty _) wf_drop
                       (all_drop _) V3 C3) as C4. fold t4 in C4.
  pose proof (pass_all svach.rightSDExp tokens.drop _ t3 (plusEnd_nonempty _) wf_drop
                       (all_drop _) V3 I3) as I4. fold t4 in I4.
  assert (Wdot : forall g m, Forall wf (tokens.put "." g m))
    by (apply wf_put; vm_compute; reflexivity).
  destruct (pass_runes svach.leftdotExpr (tokens.put ".") t4
                       (startPlus_nonempty _) Wdot V4) as [_ V5].
  pose proof (pass_all svach.leftdotExpr (tokens.put ".") _ t4
                       (startPlus_nonempty _) Wdot
                       (all_put _ "." eq_refl) V4 C4) as C5.
  pose proof (pass_all svach.leftdotExpr (tokens.put ".") _ t4
                       (startPlus_nonempty _) Wdot
                       (all_put _ "." eq_refl) V4 I4) as I5.
  rewrite <- Y in V5, C5, I5.
  rewrite (ToValidUTF8_valid y [] V5), U, !replace_nil, replace_dot.
  rewrite (class_id regexp.cntrl svach.cntrlExp _ y (one_matchesClass _) C5).
  rewrite (class_id svach.invChar svach.invCharExp _ y (plus_matchesClass _) I5).
  rewrite (rightSD_id tokens.drop y E).
  rewrite Y. now apply leftdot_idem.
Qed.

Lemma pass_cleanRunes (re : regexp.Regexp) rep (s : gostring) :
  tokens.nonempty re ->
  (forall g m, Forall wf (rep g m)) ->
  (forall g m, Forall (fun t => svach.controlOrFormat (fst t) = false) (rep g m)) ->
  (forall g m, Forall (fun t => svach.separator (fst t) = true
                                -> t = tokens.ascii " ") (rep g m)) ->
  (forall g m, Forall (fun t => svach.invChar (fst t) = false) (rep g m)) ->
  cleanRunes s -> cleanRunes (pass re rep s).
Proof.
  intros WF W Q1 Q2 Q3 [V [A1 [A2 A3]]].
  split; [exact (proj2 (pass_runes re rep s WF W V))|].
  repeat split; apply pass_all; assumption.
Qed.

Lemma canonical_Forall (Q : utf8.token -> Prop) :
  Forall (fun c => Q (tokens.ascii c)) (str " _-+.!") ->
  forall g m, Forall Q (tokens.canonical g m).
Proof.
  intros H g m. unfold tokens.canonical.
  assert (X : forall l, In l svach.cleanReplaceWith ->
                        Forall Q (map tokens.ascii l)).
  { intros l Hl. simpl in Hl. unfold str in H. cbn [list_ascii_of_string] in H.
    repeat match goal with
           | H : Forall _ (_ :: _) |- _ => inversion H; subst; clear H
           end.
    repeat (destruct Hl as [<-|Hl]; [repeat constructor; assumption|]).
    contradiction. }
  destruct (nth_in_or_default g svach.cleanReplaceWith []) as [I| ->];
    [now apply X | constructor].
Qed.

Lemma cleanStep_cleanRunes (s : gostring) :
  cleanRunes s -> cleanRunes (svach.cleanStep None [] s).
Proof.
  intros C. unfold svach.cleanStep.
  rewrite collapse_tokens, replace_nil, replace_dot.
  apply pass_cleanRunes;
    [apply startPlus_nonempty | apply wf_put; vm_compute; reflexivity
     | apply all_put; reflexivity | apply all_put; discriminate
     | apply all_put; reflexivity |].
  apply pass_cleanRunes;
    [apply plusEnd_nonempty | apply wf_drop | apply all_drop | apply all_drop
     | apply all_drop |].
  apply (pass_cleanRunes svach.cleanExpr tokens.canonical);
    [apply repeated_nonempty | | | | | exact C];
    apply canonical_Forall; repeat constructor;
      try (apply wf_ascii; vm_compute; reflexivity); try discriminate.
Qed.

Lemma cleanLoop_cleanRunes (fuel : nat) :
  forall s r n,
    cleanRunes s ->
    svach.cleanLoop fuel (svach.cleanStep None []) s = Some (r, n) ->
    cleanRunes r.
Proof.
  induction fuel as [|fuel IH]; intros s r n C; [discriminate|].
  cbn [svach.cleanLoop].
  destruct (bytes_eqb s (svach.cleanStep None [] s)).
  - intros H. injection H as <- _. now apply cleanStep_cleanRunes.
  - destruct (svach.cleanLoop fuel (svach.cleanStep None [])
                              (svach.cleanStep None [] s)) as [[r' n']|] eqn:L;
      [|discriminate].
    intros H. injection H as <- _.
    exact (IH _ _ _ (cleanStep_cleanRunes s C) L).
Qed.

Lemma cleanPasses_cleanRunes (s : gostring) :
  Valid s -> cleanRunes (svach.cleanPasses s []).
Proof.
  intros V. unfold svach.cleanPasses. rewrite !replace_nil, replace_space.
  set (u1 := html.UnescapeString s).
  assert (V1 : Valid u1) by now apply unescape_Valid.
  set (u2 := pass svach.unicodeControl tokens.drop u1).
  destruct (pass_runes svach.unicodeControl tokens.drop u1 (one_nonempty _)
                       wf_drop V1) as [_ V2]. fold u2 in V2.
  pose proof (class_drop svach.controlOrFormat _ u1 (one_classOf _) V1) as A2.
  fold u2 in A2.
  set (u3 := pass svach.unicodeSpace (tokens.put " ") u2).
  assert (Wsp : forall g m, Forall wf (tokens.put " " g m))
    by (apply wf_put; vm_compute; reflexivity).
  destruct (pass_runes svach.unicodeSpace (tokens.put " ") u2 (one_nonempty _)
                       Wsp V2) as [R3 V3]. fold u3 in V3, R3.
  pose proof (pass_all svach.unicodeSpace (tokens.put " ") _ u2 (one_nonempty _)
                       Wsp (all_put _ " " eq_refl) V2 A2) as A3. fold u3 in A3.
  assert (B3 : allRunes (fun t => svach.separator (fst t) = true
                                  -> t = tokens.ascii " ") u3).
  { unfold allRunes. rewrite R3.
    apply (class_replace_Forall svach.separator); [apply one_classOf | |].
    - apply all_put. reflexivity.
    - apply Forall_forall. intros t _ H1 H2. congruence. }
  split; [|split; [|split]].
  - exact (proj2 (pass_runes svach.invCharExp tokens.drop u3 (plus_nonempty _)
                             wf_drop V3)).
  - now apply pass_all; [apply plus_nonempty | apply wf_drop | apply all_drop | |].
  - now apply pass_all; [apply plus_nonempty | apply wf_drop | apply all_drop | |].
  - exact (class_drop svach.invChar _ u3 (plus_classOf _) V3).
Qed.

(** The passes before the loop leave such a string as it is when it holds
    no entity. *)
Lemma cleanPasses_id (y : gostring) :
  cleanRunes y -> html.UnescapeString y = y -> svach.cleanPasses y [] = y.
Proof.
  intros [V [A [B C]]] U. unfold svach.cleanPasses.
  rewrite U, !replace_nil, replace_space.
  rewrite (class_id svach.controlOrFormat svach.unicodeControl _ y
                    (one_matchesClass _) A).
  unfold svach.unicodeSpace. rewrite (one_put_id svach.separator " " y B).
  exact (class_id svach.invChar svach.invCharExp _ y (plus_matchesClass _) C).
Qed.

(** The intermediate string of [clean], with the empty replacement string,
    is the intermediate string of itself when it holds no entity. *)
Lemma cleanIntr_idem (fuel : nat) (x y : gostring) :
  svach.cleanIntr fuel x [] = Value y -> y <> [] ->
  html.UnescapeString y = y ->
  svach.cleanIntr fuel y [] = Value y.
Proof.
  unfold svach.cleanIntr. intros H N U.
  destruct (bytes_eqb_spec (strings.ToValidUTF8 x []) []) as [E|_].
  { injection H as <-. congruence. }
  change (svach.compileReplaceExpr []) with (@Value (option regexp.Regexp) None)
    in *.
  unfold svach.cleanFix in H.
  destruct (svach.cleanLoop fuel (svach.cleanStep None [])
                            (svach.cleanPasses (strings.ToValidUTF8 x []) []))
    as [[r n]|] eqn:L; [|discriminate].
  injection H as ->.
  pose proof (cleanLoop_cleanRunes fuel _ _ _
                (cleanPasses_cleanRunes _ (ToValidUTF8_nil_Valid x)) L) as C.
  pose proof (cleanLoop_fixed _ _ _ _ _ L) as F.
  rewrite (ToValidUTF8_valid y [] (proj1 C)).
  destruct (bytes_eqb_spec y []) as [->|_]; [congruence|].
  rewrite (cleanPasses_id y C U). unfold svach.cleanFix.
  destruct fuel as [|fuel]; [discriminate|].
  cbn [svach.cleanLoop]. rewrite F, bytes_eqb_refl. reflexivity.
Qed.

Lemma valid_fallback (x : gostring) : svach.valid (spec.fallback x) = true.
Proof.
  unfold svach.valid. pose proof (fallback_length x) as L.
  destruct (bytes_eqb_spec (spec.fallback x) []) as [E|_].
  - rewrite E in L. discriminate.
  - rewrite L. reflexivity.
Qed.

(** A string that [validName] returned uncut is returned uncut again. *)
Lemma validName_again (x y intrStr : gostring) (maxLen : Z) :
  svach.validName x intrStr [] maxLen = Value y ->
  y = intrStr -> len y <= maxLen ->
  y <> [] /\ svach.validName y y [] maxLen = Value y.
Proof.
  intros H -> L. apply validName_value in H.
  assert (A : intrStr <> [] /\ svach.valid intrStr = true).
  { destruct H as [[E R]|[_ [N [V _]]]]; [|auto].
    pose proof (valid_fallback x) as VF. pose proof (fallback_length x) as LF.
    unfold spec.fallback in *. rewrite <- E in VF, LF.
    split; [intros X; rewrite X in LF; discriminate | exact VF]. }
  destruct A as [N V]. split; [exact N|].
  unfold svach.validName.
  destruct (bytes_eqb_spec intrStr []) as [E|_]; [congruence|].
  cbn [negb andb]. rewrite V.
  destruct (maxLen <? len intrStr) eqn:C; [lia | reflexivity].
Qed.




(** ** The bounds given to the loops of the templates and of the literal
    pattern are enough *)

Lemma cutDollar_length (s before after : gostring) :
  regexp.cutDollar s = Some (before, after) ->
  (length after < length s)%nat.
Proof.
  revert before. induction s as [|c s IH]; intros before; [discriminate|].
  cbn [regexp.cutDollar]. destruct (Ascii.eqb c "$").
  - intros H. injection H as _ <-. simpl. lia.
  - destruct (regexp.cutDollar s) as [[b a]|]; [|discriminate].
    intros H. injection H as _ <-. specialize (IH _ eq_refl). simpl. lia.
Qed.

Lemma extract_length (s name rest : gostring) (num : Z) :
  regexp.extract s = Some (name, num, rest) -> (length rest <= length s)%nat.
Proof.
  unfold regexp.extract. destruct s as [|c0 t0]; [discriminate|].
  set (s' := if Ascii.eqb c0 "{" then t0 else c0 :: t0).
  assert (L : (length s' <= length (c0 :: t0))%nat).
  { subst s'. destruct (Ascii.eqb c0 "{"); simpl; lia. }
  match goal with
  | |- context [(?k =? 0)%nat] => destruct (k =? 0)%nat; [discriminate|];
                                  generalize k
  end.
  intros i.
  destruct (Ascii.eqb c0 "{").
  - destruct (skipn i s') as [|c rest'] eqn:K; [discriminate|].
    destruct (Ascii.eqb c "}"); [|discriminate].
    intros H. injection H as _ _ <-.
    assert (length (skipn i s') <= length s')%nat by (rewrite length_skipn; lia).
    rewrite K in H. simpl in H. lia.
  - intros H. injection H as _ _ <-. rewrite length_skipn. lia.
Qed.

(** The loop of [expand] does not depend on its bound, once the bound is
    above the length of the template. *)
Lemma expand_loop_enough (m : list (option gostring)) :
  forall fuel1 fuel2 template,
    (length template < fuel1)%nat -> (length template < fuel2)%nat ->
    regexp.expand_loop fuel1 template m = regexp.expand_loop fuel2 template m.
Proof.
  induction fuel1 as [|fuel1 IH]; intros fuel2 template L1 L2; [lia|].
  destruct fuel2 as [|fuel2]; [lia|]. cbn [regexp.expand_loop].
  destruct (regexp.cutDollar template) as [[before after]|] eqn:C;
    [|reflexivity].
  apply cutDollar_length in C. f_equal.
  destruct after as [|c rest]; [reflexivity|].
  destruct (Ascii.eqb c "$").
  - f_equal. apply IH; simpl in *; lia.
  - destruct (regexp.extract (c :: rest)) as [[[name num] rest']|] eqn:X.
    + apply extract_length in X. f_equal. apply IH; simpl in *; lia.
    + f_equal. apply IH; simpl in *; lia.
Qed.

Lemma litPrefix_length (lit : list rune) (ts : list utf8.token) :
  regexp.litPrefix lit ts = true -> (length lit <= length ts)%nat.
Proof.
  revert ts. induction lit as [|r lit IH]; intros ts H; [simpl; lia|].
  destruct ts as [|t ts]; [discriminate|]. cbn [regexp.litPrefix] in H.
  apply andb_true_iff in H. destruct H as [_ H]. specialize (IH _ H).
  simpl. lia.
Qed.

(** The count of the copies of a non-empty literal does not depend on its
    bound, once the bound is the number of runes. *)
Lemma copies_enough (lit : list rune) :
  lit <> [] ->
  forall n m ts,
    (length ts <= n)%nat -> (length ts <= m)%nat ->
    regexp.copies n lit ts = regexp.copies m lit ts.
Proof.
  intros N. induction n as [|n IH]; intros m ts Ln Lm.
  - destruct ts; [|simpl in Ln; lia]. destruct m; [reflexivity|].
    cbn [regexp.copies]. destruct lit; [congruence | reflexivity].
  - destruct m as [|m].
    + destruct ts; [|simpl in Lm; lia]. cbn [regexp.copies].
      destruct lit; [congruence | reflexivity].
    + cbn [regexp.copies]. destruct (regexp.litPrefix lit ts) eqn:P;
        [|reflexivity].
      apply litPrefix_length in P. f_equal.
      assert (1 <= length lit)%nat by (destruct lit; [congruence | simpl; lia]).
      apply IH; rewrite length_skipn; lia.
Qed.

(** ** The loop of [clean] with a replacement string *)

(** A replacement that puts fewer runes for every match, or leaves it as it
    is, gives fewer runes or leaves the text as it is. *)
Lemma replace_count (re : regexp.Regexp) rep :
  tokens.nonempty re ->
  (forall b ts g n,
      re b ts = Some (g, n) -> Forall tok_ok ts ->
      rep g (firstn n ts) = firstn n ts \/ (length (rep g (firstn n ts)) < n)%nat) ->
  forall ts b,
    Forall tok_ok ts ->
    (length (tokens.replace re rep b 0 ts) <= length ts)%nat
    /\ (length (tokens.replace re rep b 0 ts) = length ts ->
        tokens.replace re rep b 0 ts = ts).
Proof.
  intros WF Hrep ts b.
  apply (replace_ind re rep
           (fun b ts out =>
              Forall tok_ok ts ->
              (length out <= length ts)%nat
              /\ (length out = length ts -> out = ts)) WF).
  - intros _ _. split; reflexivity.
  - intros b' t rest g n out M W IH F.
    destruct (IH (Forall_skipn _ _ n _ F)) as [L E]. clear IH.
    pose proof (Hrep _ _ _ _ M F) as R.
    pose proof (firstn_skipn n (t :: rest)) as FS.
    assert (Ln : length (firstn n (t :: rest)) = n)
      by (rewrite length_firstn; lia).
    set (m := firstn n (t :: rest)) in *.
    set (tl := skipn n (t :: rest)) in *.
    rewrite <- FS, !length_app.
    destruct R as [Same|Less].
    + rewrite Same. split; [lia|]. intros X. f_equal. apply E. lia.
    + split; [lia|]. intros X. exfalso. lia.
  - intros b' t rest out M IH F. inversion F as [|? ? Ft Fr]; subst.
    destruct (IH Fr) as [L E]. cbn [length].
    split; [lia|]. intros X. f_equal. apply E. lia.
Qed.

Lemma pass_count (re : regexp.Regexp) rep (s : gostring) :
  tokens.nonempty re ->
  (forall g m, Forall wf (rep g m)) ->
  (forall b ts g n,
      re b ts = Some (g, n) -> Forall tok_ok ts ->
      rep g (firstn n ts) = firstn n ts \/ (length (rep g (firstn n ts)) < n)%nat) ->
  Valid s ->
  Valid (pass re rep s)
  /\ (runeCount (pass re rep s) <= runeCount s)%nat
  /\ (runeCount (pass re rep s) = runeCount s -> pass re rep s = s).
Proof.
  intros WF W C V. destruct (pass_runes re rep s WF W V) as [R V'].
  split; [exact V'|]. unfold runeCount. rewrite R.
  destruct (replace_count re rep WF C (utf8.runes s) true (runes_ok s)) as [L E].
  split; [exact L|]. intros X. unfold pass. rewrite (E X). apply bytes_runes.
Qed.

(** A replacement that puts, for a match at the end of the text, runes that
    do not end in a space or a dot, keeps a text from ending in one. *)
Lemma replace_end (re : regexp.Regexp) rep :
  tokens.nonempty re ->
  (forall b ts g n,
      re b ts = Some (g, n) -> n = length ts -> Forall tok_ok ts ->
      tokens.endsSD (utf8.bytes ts) = false ->
      tokens.endsSD (utf8.bytes (rep g (firstn n ts))) = false
      /\ utf8.bytes (rep g (firstn n ts)) <> []) ->
  forall ts b,
    Forall tok_ok ts -> tokens.endsSD (utf8.bytes ts) = false ->
    tokens.endsSD (utf8.bytes (tokens.replace re rep b 0 ts)) = false.
Proof.
  intros WF Hrep ts b F E.
  enough (Q : (ts = [] -> tokens.replace re rep b 0 ts = [])
              /\ (Forall tok_ok ts -> tokens.endsSD (utf8.bytes ts) = false ->
                  tokens.endsSD (utf8.bytes (tokens.replace re rep b 0 ts)) = false
                  /\ (ts <> [] ->
                      utf8.bytes (tokens.replace re rep b 0 ts) <> []))).
  { exact (proj1 (proj2 Q F E)). }
  clear F E. revert ts b.
  refine (replace_ind re rep
            (fun b ts out =>
               (ts = [] -> out = [])
               /\ (Forall tok_ok ts -> tokens.endsSD (utf8.bytes ts) = false ->
                   tokens.endsSD (utf8.bytes out) = false
                   /\ (ts <> [] -> utf8.bytes out <> []))) WF _ _ _).
  - intros _. split; [reflexivity|]. intros _ _. split; [reflexivity | congruence].
  - intros b t rest g n out M W [IHnil IH].
    split; [discriminate|]. intros F E.
    pose proof (Forall_skipn _ _ n _ F) as F'.
    rewrite bytes_app.
    destruct (skipn n (t :: rest)) as [|t' tl] eqn:K.
    + rewrite (IHnil eq_refl). cbn [utf8.bytes map concat]. rewrite app_nil_r.
      assert (N : n = length (t :: rest)).
      { apply (f_equal (@length _)) in K. rewrite length_skipn in K.
        cbn [length] in *. lia. }
      destruct (Hrep _ _ _ _ M N F E) as [H1 H2]. split; [exact H1 | auto].
    + assert (NB : utf8.bytes (t' :: tl) <> []).
      { rewrite bytes_cons. inversion F'; subst. now apply tok_bytes_nonempty. }
      rewrite <- (firstn_skipn n (t :: rest)), K, bytes_app in E.
      rewrite endsSD_app in E by exact NB.
      destruct (IH F' E) as [I1 I2]. specialize (I2 ltac:(discriminate)).
      rewrite endsSD_app by exact I2. split; [exact I1|].
      intros _ X. apply app_eq_nil in X. tauto.
  - intros b t rest out M [IHnil IH].
    split; [discriminate|]. intros F E. inversion F as [|? ? Ft Fr]; subst.
    rewrite bytes_cons in *.
    split; [|intros _; now apply tok_bytes_nonempty].
    destruct rest as [|t' tl].
    + rewrite (IHnil eq_refl). exact E.
    + assert (NB : utf8.bytes (t' :: tl) <> []).
      { rewrite bytes_cons. inversion Fr; subst. now apply tok_bytes_nonempty. }
      rewrite endsSD_app in E by exact NB.
      destruct (IH Fr E) as [I1 I2]. specialize (I2 ltac:(discriminate)).
      rewrite endsSD_app by exact I2. exact I1.
Qed.

Lemma pass_end (re : regexp.Regexp) rep (s : gostring) :
  tokens.nonempty re ->
  (forall b ts g n,
      re b ts = Some (g, n) -> n = length ts -> Forall tok_ok ts ->
      tokens.endsSD (utf8.bytes ts) = false ->
      tokens.endsSD (utf8.bytes (rep g (firstn n ts))) = false
      /\ utf8.bytes (rep g (firstn n ts)) <> []) ->
  tokens.endsSD s = false -> tokens.endsSD (pass re rep s) = false.
Proof.
  intros WF H E. unfold pass. apply replace_end; auto; [apply runes_ok|].
  now rewrite bytes_runes.
Qed.

(** *** The repeated separators *)

Lemma canonical_length (g : nat) (m : list utf8.token) :
  (length (tokens.canonical g m) <= 1)%nat.
Proof.
  unfold tokens.canonical. rewrite length_map.
  do 7 (destruct g as [|g]; [simpl; lia|]). destruct g; simpl; lia.
Qed.

Lemma collapse_count_cond :
  forall b ts g n,
    svach.cleanExpr b ts = Some (g, n) -> Forall tok_ok ts ->
    tokens.canonical g (firstn n ts) = firstn n ts
    \/ (length (tokens.canonical g (firstn n ts)) < n)%nat.
Proof.
  intros b ts g n M _. right.
  destruct (repeated_some _ _ _ _ _ _ M) as [P [_ [_ [_ H2]]]].
  pose proof (canonical_length g (firstn n ts)). lia.
Qed.

Lemma class_sd_end (P : rune -> bool) (ts : list utf8.token) :
  (forall r, P r = true -> svach.spaceOrDot r = true) ->
  ts <> [] -> Forall tok_ok ts ->
  regexp.run P ts = length ts ->
  tokens.endsSD (utf8.bytes ts) = true.
Proof.
  intros HP N F R. apply endsSD_class; [exact N | exact F|].
  pose proof (run_firstn_all P ts) as A. rewrite R, firstn_all in A.
  revert A. apply Forall_impl. intros t. apply HP.
Qed.

Lemma collapse_end_cond :
  forall b ts g n,
    svach.cleanExpr b ts = Some (g, n) -> n = length ts -> Forall tok_ok ts ->
    tokens.endsSD (utf8.bytes ts) = false ->
    tokens.endsSD (utf8.bytes (tokens.canonical g (firstn n ts))) = false
    /\ utf8.bytes (tokens.canonical g (firstn n ts)) <> [].
Proof.
  intros b ts g n M N F E.
  destruct (repeated_some _ _ _ _ _ _ M) as [P [HP [Hg [Hn H2]]]].
  assert (NE : ts <> []) by (intros ->; simpl in N; lia).
  assert (R : regexp.run P ts = length ts) by congruence.
  rewrite canonical_bytes.
  destruct g as [|[|[|[|[|[|[|g]]]]]]]; try lia;
    cbn [Nat.sub nth_error svach.cleanVals] in HP;
    try (injection HP as <-); try discriminate;
    try (split; [reflexivity | discriminate]).
  - exfalso. rewrite (class_sd_end regexp.space ts) in E; auto; [discriminate|].
    intros r H. unfold svach.spaceOrDot. now rewrite H.
  - exfalso. rewrite (class_sd_end (regexp.only ".") ts) in E; auto; [discriminate|].
    intros r H. unfold svach.spaceOrDot. rewrite H. apply orb_true_r.
  - destruct g; discriminate.
Qed.

(** *** The repeated replacement string *)

Lemma copies_bound (lit : list rune) :
  forall n ts, (regexp.copies n lit ts * length lit <= length ts)%nat.
Proof.
  induction n as [|n IH]; intros ts; [simpl; lia|].
  cbn [regexp.copies]. destruct (regexp.litPrefix lit ts) eqn:P; [|simpl; lia].
  apply litPrefix_length in P. specialize (IH (skipn (length lit) ts)).
  rewrite length_skipn in IH. simpl. lia.
Qed.

Lemma litRepeated_some (lit : list rune) b ts g n :
  lit <> [] ->
  regexp.litRepeated lit b ts = Some (g, n) ->
  (2 * length lit <= n <= length ts)%nat /\ (1 <= length lit)%nat.
Proof.
  intros N. unfold regexp.litRepeated.
  destruct (2 <=? regexp.copies (length ts) lit ts)%nat eqn:E; [|discriminate].
  intros H. injection H as _ <-. apply Nat.leb_le in E.
  pose proof (copies_bound lit (length ts) ts).
  assert (1 <= length lit)%nat by (destruct lit; [congruence | simpl; lia]).
  split; [|assumption]. split; [nia | assumption].
Qed.

Lemma litRepeated_nonempty (lit : list rune) :
  lit <> [] -> tokens.nonempty (regexp.litRepeated lit).
Proof.
  intros N b ts g n H. destruct (litRepeated_some lit b ts g n N H). lia.
Qed.

Section Loop.

Variable R : gostring.
Hypothesis plainR : existsb regexp.operator R = false.
Hypothesis validR : Valid R.
Hypothesis endR : tokens.endsSD R = false.

Lemma plain_no_dollar : regexp.cutDollar R = None.
Proof.
  apply cutDollar_none. intros H.
  assert (X : existsb regexp.operator R = true).
  { apply existsb_exists. exists "$"%char. split; [exact H | reflexivity]. }
  congruence.
Qed.

Lemma compile_plain : svach.compileReplaceExpr R = Value (plainExpr R).
Proof.
  unfold svach.compileReplaceExpr, plainExpr. destruct (bytes_eqb R []); [reflexivity|].
  unfold regexp.compileRepeated. apply Valid_iff in validR.
  rewrite validR, plainR. reflexivity.
Qed.

Lemma replace_R (rx : regexp.Regexp) (s : gostring) :
  regexp.ReplaceAllString rx s R = pass rx (putRunes R) s.
Proof.
  apply ReplaceAllString_tokens; [exact plain_no_dollar|].
  intros g m. apply bytes_runes.
Qed.

Lemma wf_putRunes (g : nat) (m : list utf8.token) : Forall wf (putRunes R g m).
Proof. now apply Valid_runes. Qed.

Lemma runes_nonempty (s : gostring) : s <> [] -> utf8.runes s <> [].
Proof.
  intros N E. apply N. rewrite <- (bytes_runes s), E. reflexivity.
Qed.

Lemma second_spec (s : gostring) :
  Valid s ->
  Valid (secondPass R s)
  /\ (runeCount (secondPass R s) <= runeCount s)%nat
  /\ (runeCount (secondPass R s) = runeCount s -> secondPass R s = s)
  /\ (tokens.endsSD s = false -> tokens.endsSD (secondPass R s) = false).
Proof.
  intros V. unfold secondPass, plainExpr.
  destruct (bytes_eqb_spec R []) as [E|N]; [auto|].
  rewrite replace_R.
  assert (NL : map fst (utf8.runes R) <> []).
  { intros X. apply map_eq_nil in X. now apply (runes_nonempty R N). }
  pose proof (litRepeated_nonempty _ NL) as WF.
  destruct (pass_count (regexp.litRepeated (map fst (utf8.runes R)))
                       (putRunes R) s WF wf_putRunes) as [V' [L Q]]; auto.
  { intros b ts g n M _. right.
    destruct (litRepeated_some _ _ _ _ _ NL M) as [[H1 _] H2].
    unfold putRunes. rewrite !length_map in *.
    unfold utf8.token, rune, gostring in *. lia. }
  repeat split; auto.
  apply pass_end; [exact WF|].
  intros b ts g n M _ _ _. unfold putRunes. rewrite bytes_runes. auto.
Qed.

Lemma collapse_spec (s : gostring) :
  Valid s ->
  let c := svach.replaceAllStringSubmatch
             (regexp.FindAllStringSubmatchIndex svach.cleanExpr 6 s)
             s svach.cleanReplaceWith in
  Valid c
  /\ (runeCount c <= runeCount s)%nat
  /\ (runeCount c = runeCount s -> c = s)
  /\ (tokens.endsSD s = false -> tokens.endsSD c = false).
Proof.
  intros V c. subst c. rewrite collapse_tokens.
  fold (pass svach.cleanExpr tokens.canonical s).
  assert (W : forall g m, Forall wf (tokens.canonical g m)).
  { apply canonical_Forall. repeat constructor; apply wf_ascii;
      vm_compute; reflexivity. }
  destruct (pass_count svach.cleanExpr tokens.canonical s
                       (repeated_nonempty _ _) W collapse_count_cond V)
    as [V' [L Q]].
  repeat split; auto.
  apply pass_end; [apply repeated_nonempty | exact collapse_end_cond].
Qed.

Lemma leftdot_count_cond :
  forall b ts g n,
    svach.leftdotExpr b ts = Some (g, n) -> Forall tok_ok ts ->
    tokens.put "." g (firstn n ts) = firstn n ts
    \/ (length (tokens.put "." g (firstn n ts)) < n)%nat.
Proof.
  intros b ts g n M F.
  pose proof (startPlus_nonempty _ _ _ _ _ M) as W.
  unfold svach.leftdotExpr, regexp.startPlus in M.
  destruct b; [|discriminate].
  destruct (1 <=? regexp.run (regexp.only ".") ts)%nat; [|discriminate].
  injection M as _ <-.
  pose proof (run_firstn_all (regexp.only ".") ts) as A.
  pose proof (firstn_tok_ok (regexp.run (regexp.only ".") ts) ts F) as F'.
  destruct (regexp.run (regexp.only ".") ts) as [|[|n]] eqn:Rn; [lia| |].
  - left. destruct ts as [|t ts]; [simpl in W; lia|].
    cbn [firstn] in *. inversion A as [|? ? At _]; subst.
    inversion F' as [|? ? Ft _]; subst.
    unfold tokens.put. f_equal. symmetry.
    apply ascii_tok; [vm_compute; reflexivity | exact Ft |].
    unfold regexp.only in At. lia.
  - right. unfold tokens.put. simpl. lia.
Qed.

Lemma leftdot_spec (s : gostring) :
  Valid s ->
  let c := regexp.ReplaceAllString svach.leftdotExpr s (str ".") in
  Valid c
  /\ (runeCount c <= runeCount s)%nat
  /\ (runeCount c = runeCount s -> c = s).
Proof.
  intros V c. subst c. rewrite replace_dot.
  apply pass_count; auto; [apply startPlus_nonempty | | exact leftdot_count_cond].
  apply wf_put. vm_compute. reflexivity.
Qed.

Lemma rightSD_grow (ts : list utf8.token) (b : bool) :
  (length (tokens.replace svach.rightSDExp (putRunes R) b 0 ts)
   <= length ts + runeCount R)%nat.
Proof.
  enough (Q : (ts = [] -> tokens.replace svach.rightSDExp (putRunes R) b 0 ts = [])
              /\ (length (tokens.replace svach.rightSDExp (putRunes R) b 0 ts)
                  <= length ts + runeCount R)%nat) by exact (proj2 Q).
  revert ts b.
  refine (replace_ind svach.rightSDExp (putRunes R)
            (fun b ts out =>
               (ts = [] -> out = [])
               /\ (length out <= length ts + runeCount R)%nat)
            (plusEnd_nonempty _) _ _ _).
  - intros _. split; [reflexivity | simpl; lia].
  - intros b t rest g n out M W [IHnil _]. split; [discriminate|].
    unfold svach.rightSDExp, regexp.plusEnd in M.
    destruct (1 <=? regexp.run svach.spaceOrDot (t :: rest))%nat; [|discriminate].
    destruct (regexp.run svach.spaceOrDot (t :: rest) =? length (t :: rest))%nat
      eqn:A; [|discriminate].
    injection M as _ Hn. apply Nat.eqb_eq in A.
    assert (N : n = length (t :: rest)) by (rewrite <- Hn; exact A).
    rewrite N, skipn_all in IHnil. rewrite (IHnil eq_refl), app_nil_r.
    unfold putRunes, runeCount. lia.
  - intros b t rest out M [_ IH]. split; [discriminate|]. cbn [length]. lia.
Qed.

Lemma rightSD_spec (s : gostring) :
  Valid s ->
  let c := regexp.ReplaceAllString svach.rightSDExp s R in
  Valid c
  /\ (runeCount c <= runeCount s + runeCount R)%nat
  /\ (tokens.endsSD s = false -> c = s).
Proof.
  intros V c. subst c. rewrite replace_R.
  destruct (pass_runes svach.rightSDExp (putRunes R) s (plusEnd_nonempty _)
                       wf_putRunes V) as [E V'].
  repeat split; [exact V' | | apply rightSD_id].
  unfold runeCount at 1. rewrite E. apply rightSD_grow.
Qed.

(** A turn of the loop on a valid string. *)
Lemma step_spec (s : gostring) :
  Valid s ->
  Valid (loopStep R s)
  /\ tokens.endsSD (loopStep R s) = false
  /\ (runeCount (loopStep R s) <= runeCount s + runeCount R)%nat
  /\ (tokens.endsSD s = false ->
      (runeCount (loopStep R s) <= runeCount s)%nat
      /\ (runeCount (loopStep R s) = runeCount s -> loopStep R s = s)).
Proof.
  intros V.
  assert (D : ~ In "$"%char R).
  { intros H.
    assert (X : existsb regexp.operator R = true).
    { apply existsb_exists. exists "$"%char. split; [exact H | reflexivity]. }
    congruence. }
  split; [|split; [now apply cleanStep_end|]].
  - unfold loopStep, svach.cleanStep. fold (secondPass R
      (svach.replaceAllStringSubmatch
         (regexp.FindAllStringSubmatchIndex svach.cleanExpr 6 s) s
         svach.cleanReplaceWith)).
    destruct (collapse_spec s V) as [V1 _].
    destruct (second_spec _ V1) as [V2 _].
    destruct (rightSD_spec _ V2) as [V3 _].
    exact (proj1 (leftdot_spec _ V3)).
  - unfold loopStep, svach.cleanStep. fold (secondPass R
      (svach.replaceAllStringSubmatch
         (regexp.FindAllStringSubmatchIndex svach.cleanExpr 6 s) s
         svach.cleanReplaceWith)).
    destruct (collapse_spec s V) as [V1 [L1 [Q1 E1]]].
    set (c1 := svach.replaceAllStringSubmatch _ s _) in *.
    destruct (second_spec c1 V1) as [V2 [L2 [Q2 E2]]].
    set (c2 := secondPass R c1) in *.
    destruct (rightSD_spec c2 V2) as [V3 [L3 Q3]]. cbv zeta in *.
    set (c3 := regexp.ReplaceAllString svach.rightSDExp c2 R) in *.
    destruct (leftdot_spec c3 V3) as [V4 [L4 Q4]]. cbv zeta in *.
    set (c4 := regexp.ReplaceAllString svach.leftdotExpr c3 (str ".")) in *.
    split; [lia|]. intros E.
    assert (X : c3 = c2) by (apply Q3, E2, E1, E).
    rewrite X in *. split; [lia|]. intros C.
    rewrite Q4 by lia. rewrite Q2 by lia. apply Q1. lia.
Qed.

(** The loop breaks on a valid string that does not end in a space or a
    dot. *)
Lemma loop_breaks_inside :
  forall fuel s,
    Valid s -> tokens.endsSD s = false ->
    (runeCount s < fuel)%nat ->
    exists r n, svach.cleanLoop fuel (loopStep R) s = Some (r, n)
                /\ (1 <= n <= runeCount s + 1)%nat.
Proof.
  induction fuel as [|fuel IH]; intros s V E L; [lia|].
  cbn [svach.cleanLoop].
  destruct (step_spec s V) as [V' [E' [_ H]]]. destruct (H E) as [H1 H2].
  destruct (bytes_eqb_spec s (loopStep R s)) as [X|N].
  - exists (loopStep R s), 1%nat. split; [reflexivity | lia].
  - assert (runeCount (loopStep R s) < runeCount s)%nat.
    { destruct (Nat.eq_dec (runeCount (loopStep R s)) (runeCount s)) as [Y|Y]; [|lia].
      exfalso. apply N. symmetry. now apply H2. }
    destruct (IH (loopStep R s) V' E' ltac:(lia)) as [r [n [C B]]].
    exists r, (S n). rewrite C. split; [reflexivity | lia].
Qed.

(** The loop breaks on a valid string. *)
Lemma loop_breaks (fuel : nat) (s : gostring) :
  Valid s ->
  (runeCount s + runeCount R + 1 < fuel)%nat ->
  exists r n, svach.cleanLoop fuel (loopStep R) s = Some (r, n)
              /\ (1 <= n <= runeCount s + runeCount R + 2)%nat.
Proof.
  intros V L. destruct fuel as [|fuel]; [lia|].
  cbn [svach.cleanLoop].
  destruct (step_spec s V) as [V' [E' [G _]]].
  destruct (bytes_eqb_spec s (loopStep R s)) as [X|N].
  - exists (loopStep R s), 1%nat. split; [reflexivity | lia].
  - destruct (loop_breaks_inside fuel (loopStep R s) V' E' ltac:(lia))
      as [r [n [C B]]].
    exists r, (S n). rewrite C. split; [reflexivity | lia].
Qed.

Lemma toValid_Valid (ts : list utf8.token) (b : bool) :
  Forall (fun t => utf8.invalid t = false -> stable t) ts ->
  Valid (strings.toValid R b ts).
Proof.
  intros F. revert b. induction F as [|t ts Ht _ IH]; intros b; [apply Valid_nil|].
  cbn [strings.toValid]. destruct (utf8.invalid t) eqn:I.
  - apply Valid_app; [destruct b; [apply Valid_nil | exact validR] | apply IH].
  - apply Valid_app; [|apply IH].
    exists [t]. split; [|cbn; apply app_nil_r].
    constructor; [split; auto | constructor].
Qed.

Lemma cleanPasses_Valid (s : gostring) :
  Valid s -> Valid (svach.cleanPasses s R).
Proof.
  intros V. unfold svach.cleanPasses. rewrite !replace_R, replace_space.
  apply pass_runes; [apply plus_nonempty | exact wf_putRunes|].
  apply pass_runes;
    [apply one_nonempty | apply wf_put; vm_compute; reflexivity|].
  apply pass_runes; [apply one_nonempty | exact wf_putRunes|].
  now apply unescape_Valid.
Qed.

(** [clean] returns when its loop is given enough turns. *)
Lemma cleanIntr_returns (x : gostring) (fuel : nat) :
  let s0 := svach.cleanPasses (strings.ToValidUTF8 x R) R in
  (length s0 + length R + 1 < fuel)%nat ->
  (exists r n,
      svach.cleanLoop fuel (loopStep R) s0 = Some (r, n)
      /\ (1 <= n <= length s0 + length R + 2)%nat)
  /\ (exists intrStr, svach.cleanIntr fuel x R = Value intrStr).
Proof.
  intros s0 L.
  assert (V : Valid s0).
  { apply cleanPasses_Valid. apply toValid_Valid. apply runes_stable. }
  assert (C : forall s, (runeCount s <= length s)%nat).
  { intros s. unfold runeCount.
    pose proof (bytes_length_pos _ (runes_ok s)) as B.
    now rewrite bytes_runes in B. }
  pose proof (C s0). pose proof (C R).
  destruct (loop_breaks fuel s0 V ltac:(lia)) as [r [n [E B]]].
  split; [exists r, n; split; [exact E | lia]|].
  unfold svach.cleanIntr.
  destruct (bytes_eqb (strings.ToValidUTF8 x R) []); [eexists; reflexivity|].
  rewrite compile_plain. unfold svach.cleanFix. fold s0. fold (loopStep R).
  rewrite E. eexists; reflexivity.
Qed.

End Loop.

(** ** The loop of [Clean]: the claim *)

(** C7, as the claim states it, fails.  [NewWithOpts] accepts the
    replacement string [a ]; [Clean] of a dot then replaces the dot by [a ],
    whose trailing space is replaced by [a ] in the next turn, and so on:
    the loop never breaks.  And with the default configuration the loop
    takes two turns on [a.], in which no separator is repeated. *)
Lemma C7_counterexample :
  svach.NewWithOpts (str "a ") 240 = (svach.mkSvach (str "a ") 240, None)
  /\ spec.diverges
       (fun fuel => svach.Clean fuel (svach.mkSvach (str "a ") 240) (str "."))
  /\ regexp.FindAllStringSubmatchIndex svach.cleanExpr 6 (str "a.") = []
  /\ svach.cleanLoop 2 (svach.cleanStep None []) (str "a.")
     = Some (str "a", 2%nat).
Proof.
  split; [vm_compute; reflexivity|].
  split; [|split; vm_compute; reflexivity].
  constructor. intros fuel.
  unfold svach.Clean, svach.clean, svach.cleanIntr. cbn [svach.replaceStr].
  assert (E1 : strings.ToValidUTF8 (str ".") (str "a ") = str ".")
    by (vm_compute; reflexivity).
  rewrite E1. clear E1.
  assert (E2 : svach.cleanPasses (str ".") (str "a ") = str ".")
    by (vm_compute; reflexivity).
  rewrite E2. clear E2.
  change (bytes_eqb (str ".") []) with false. cbv iota.
  assert (E3 : svach.compileReplaceExpr (str "a ")
               = Value (Some (regexp.litRepeated [97; 32])))
    by reflexivity.
  rewrite E3. clear E3. unfold svach.cleanFix.
  destruct fuel as [|fuel]; [reflexivity|].
  cbn [svach.cleanLoop].
  assert (E4 : svach.cleanStep (Some (regexp.litRepeated [97; 32]))
                               (str "a ") (str ".") = as_space 1)
    by (vm_compute; reflexivity).
  rewrite E4. clear E4.
  change (bytes_eqb (str ".") (as_space 1)) with false. cbv iota.
  now rewrite cleanLoop_as_space.
Qed.

(** C7, amended: with a replacement string that is valid UTF-8, holds no
    operator of a pattern and does not end in white space or a dot, the
    pattern of the repeated replacement string compiles, and the loop of
    [Clean] breaks after at most two turns more than the string that enters
    it and the replacement string have bytes, on a string that one more turn
    leaves as it is; so [clean] returns when its loop is given that many
    turns. *)
Theorem C7_loop_breaks (replaceStr x : gostring) (fuel : nat) :
  utf8.ValidString replaceStr = true ->
  existsb regexp.operator replaceStr = false ->
  tokens.endsSD replaceStr = false ->
  let s0 := svach.cleanPasses (strings.ToValidUTF8 x replaceStr) replaceStr in
  (length s0 + length replaceStr + 1 < fuel)%nat ->
  exists replaceExpr,
    svach.compileReplaceExpr replaceStr = Value replaceExpr
    /\ (exists r n,
           svach.cleanLoop fuel (svach.cleanStep replaceExpr replaceStr) s0
           = Some (r, n)
           /\ (1 <= n <= length s0 + length replaceStr + 2)%nat
           /\ svach.cleanStep replaceExpr replaceStr r = r)
    /\ (exists intrStr, svach.cleanIntr fuel x replaceStr = Value intrStr).
Proof.
  intros U P E s0 L.
  assert (V : Valid replaceStr) by now apply Valid_iff.
  pose proof (compile_plain replaceStr P V) as C.
  pose proof (cleanIntr_returns replaceStr P V E x fuel) as H.
  cbv zeta in *. fold s0 in H. destruct (H L) as [[r [n [Q B]]] I].
  eexists. split; [exact C|]. split; [|exact I].
  exists r, n. split; [exact Q|]. split; [exact B|].
  exact (cleanLoop_fixed _ _ _ _ _ Q).
Qed.

Lemma C7_witness :
  exists replaceExpr,
    svach.compileReplaceExpr (str "-") = Value replaceExpr
    /\ (exists r n,
           svach.cleanLoop 9 (svach.cleanStep replaceExpr (str "-"))
             (svach.cleanPasses (strings.ToValidUTF8 (str "a?? .") (str "-"))
                                (str "-"))
           = Some (r, n)
           /\ (1 <= n
               <= length (svach.cleanPasses
                            (strings.ToValidUTF8 (str "a?? .") (str "-"))
                            (str "-"))
                  + length (str "-") + 2)%nat
           /\ svach.cleanStep replaceExpr (str "-") r = r)
    /\ (exists intrStr, svach.cleanIntr 9 (str "a?? .") (str "-") = Value intrStr).
Proof.
  apply (C7_loop_breaks (str "-") (str "a?? .") 9);
    [reflexivity | reflexivity | reflexivity | vm_compute; lia].
Defined.

(** ** Cutting a string of valid encodings

    [validName] cuts the intermediate string at [maxLen] bytes and takes the
    bytes of a rune cut in the middle out with [strings.ToValidUTF8]. *)

Lemma Forall_firstn_keep (A : Type) (P : A -> Prop) (k : nat) (l : list A) :
  Forall P l -> Forall P (firstn k l).
Proof.
  intros F. rewrite <- (firstn_skipn k l) in F. apply Forall_app in F. tauto.
Qed.

(** The bytes after the first of an encoding are continuation bytes. *)
Lemma decode_cont (c : ascii) (t : gostring) (r : rune) (w : nat) :
  utf8.DecodeRuneInString (c :: t) = (r, w) ->
  Forall (fun b => utf8.cont (code b) = true) (firstn (w - 1) t).
Proof.
  unfold utf8.DecodeRuneInString. intros H.
  destruct (code c <? utf8.RuneSelf); [inversion H; constructor|].
  destruct (utf8.first (code c)) as [[sz [lo hi]]|] eqn:F;
    [|inversion H; constructor].
  apply first_some in F.
  destruct t as [|c1 t1]; [inversion H; constructor|].
  destruct ((code c1 <? lo) || (hi <? code c1)) eqn:E1;
    [inversion H; constructor|].
  apply orb_false_iff in E1. destruct E1 as [E1a E1b].
  assert (C1 : utf8.cont (code c1) = true) by (unfold utf8.cont; lia).
  destruct (sz <=? 2); [inversion H; subst; repeat constructor; exact C1|].
  destruct t1 as [|c2 t2]; [inversion H; constructor|].
  destruct (utf8.cont (code c2)) eqn:C2; cbn [negb] in H;
    [|inversion H; constructor].
  destruct (sz <=? 3);
    [inversion H; subst; repeat constructor; assumption|].
  destruct t2 as [|c3 t3]; [inversion H; constructor|].
  destruct (utf8.cont (code c3)) eqn:C3; cbn [negb] in H;
    [|inversion H; constructor].
  inversion H; subst. repeat constructor; assumption.
Qed.

(** A continuation byte starts no encoding. *)
Lemma cont_decode (c : ascii) (t : gostring) :
  utf8.cont (code c) = true ->
  utf8.DecodeRuneInString (c :: t) = (utf8.RuneError, 1%nat).
Proof.
  unfold utf8.cont, utf8.DecodeRuneInString, utf8.RuneSelf, utf8.first.
  intros H.
  destruct (code c <? 128) eqn:A; [lia|].
  destruct (code c <? 194) eqn:B; [reflexivity | lia].
Qed.

Lemma runes_conts (bs : gostring) :
  Forall (fun b => utf8.cont (code b) = true) bs ->
  Forall (fun t => utf8.invalid t = true) (utf8.runes bs).
Proof.
  induction 1 as [|c bs Hc _ IH]; [constructor|].
  rewrite (runes_cons _ _ _ _ (cont_decode c bs Hc)).
  constructor; [reflexivity | exact IH].
Qed.

Lemma wf_width (t : utf8.token) : wf t -> (1 <= length (snd t) <= 4)%nat.
Proof.
  intros [[N S] _]. specialize (S []). rewrite app_nil_r in S.
  destruct (snd t) as [|c bs]; [congruence|].
  destruct (decode_width _ _ _ _ S) as [W _]. exact W.
Qed.

(** The runes of a part of an encoding are all invalid. *)
Lemma runes_part (t : utf8.token) (k : nat) :
  wf t -> (k < length (snd t))%nat ->
  Forall (fun u => utf8.invalid u = true) (utf8.runes (firstn k (snd t))).
Proof.
  intros [[N S] V] K.
  destruct (snd t) as [|c bs] eqn:E; [congruence|].
  destruct k as [|k]; [constructor|].
  cbn [firstn length] in *.
  pose proof (S []) as S0. rewrite app_nil_r in S0.
  pose proof (decode_cont _ _ _ _ S0) as C.
  cbn [Nat.sub length] in C. rewrite Nat.sub_0_r, firstn_all in C.
  destruct (utf8.DecodeRuneInString (c :: firstn k bs)) as [r' w'] eqn:D.
  destruct (decode_width _ _ _ _ D) as [[W1 _] W2].
  cbn [length] in W2. rewrite length_firstn in W2.
  destruct (utf8.invalid (r', firstn w' (c :: firstn k bs))) eqn:I.
  - assert (w' = 1%nat).
    { unfold utf8.invalid in I. cbn [fst snd] in I.
      apply andb_true_iff in I. destruct I as [_ I].
      apply Nat.eqb_eq in I. rewrite length_firstn in I.
      cbn [length] in I. rewrite length_firstn in I. lia. }
    subst w'. rewrite (runes_cons _ _ _ _ D).
    constructor; [exact I|]. cbn [skipn].
    apply runes_conts. now apply Forall_firstn_keep.
  - exfalso.
    pose proof (decode_stable c (firstn k bs) r' w' (skipn (w' - 1) (firstn k bs) ++ skipn k bs) D I) as X.
    assert (Y : firstn w' (c :: firstn k bs)
                ++ skipn (w' - 1) (firstn k bs) ++ skipn k bs = c :: bs).
    { destruct w' as [|w']; [lia|]. cbn [firstn Nat.sub]. rewrite Nat.sub_0_r.
      cbn [app]. f_equal. rewrite app_assoc, firstn_skipn.
      apply firstn_skipn. }
    rewrite Y, S0 in X. injection X as _ X. cbn [length] in X. lia.
Qed.

(** Cutting a string of valid encodings at [m] bytes and taking the invalid
    bytes out leaves the runes that end before the cut: at most three bytes
    are lost. *)
Lemma cut_tokens (ts : list utf8.token) :
  Forall wf ts ->
  forall m : nat,
    exists k,
      strings.ToValidUTF8 (firstn m (utf8.bytes ts)) [] = utf8.bytes (firstn k ts)
      /\ (length (utf8.bytes (firstn k ts)) <= m)%nat
      /\ ((m <= length (utf8.bytes ts))%nat ->
          (m < length (utf8.bytes (firstn k ts)) + 4)%nat).
Proof.
  induction 1 as [|t ts Ht Hts IH]; intros m.
  - exists 0%nat. cbn. rewrite firstn_nil. cbn. repeat split; lia.
  - pose proof (wf_width t Ht) as W.
    rewrite bytes_cons.
    destruct (le_lt_dec (length (snd t)) m) as [L|L].
    + destruct (IH (m - length (snd t))%nat) as [k [E [B1 B2]]].
      exists (S k). cbn [firstn]. rewrite bytes_cons, length_app.
      rewrite firstn_app, firstn_all2 by exact L.
      unfold strings.ToValidUTF8 in *.
      assert (R : utf8.runes
                    (snd t ++ firstn (m - length (snd t)) (utf8.bytes ts))
                  = t :: utf8.runes
                           (firstn (m - length (snd t)) (utf8.bytes ts))).
      { pose proof (runes_bytes_app [t]
                      (firstn (m - length (snd t)) (utf8.bytes ts))
                      (Forall_cons _ (proj1 Ht) (Forall_nil _))) as Y.
        cbn [utf8.bytes map concat app] in Y. rewrite app_nil_r in Y.
        exact Y. }
      rewrite R. cbn [strings.toValid]. rewrite (proj2 Ht), E.
      repeat split; [lia|]. rewrite length_app. intros X.
      specialize (B2 ltac:(lia)). lia.
    + exists 0%nat. cbn [firstn utf8.bytes map concat length].
      rewrite firstn_app.
      replace (m - length (snd t))%nat with 0%nat by lia.
      cbn [firstn]. rewrite app_nil_r.
      unfold strings.ToValidUTF8. rewrite toValid_nil_filter.
      pose proof (runes_part t m Ht L) as P.
      assert (F : filter (fun u => negb (utf8.invalid u))
                         (utf8.runes (firstn m (snd t))) = []).
      { induction P as [|u us Hu _ IHu]; [reflexivity|].
        cbn [filter]. rewrite Hu. exact IHu. }
      rewrite F. repeat split; lia.
Qed.

(** ** What [validName] returns for a valid intermediate string *)

Lemma fallback_Valid (x : gostring) : Valid (spec.fallback x).
Proof.
  apply Valid_ascii. pose proof (fallback_hex x) as H.
  revert H. apply Forall_impl. intros c. unfold spec.lowerHex. lia.
Qed.

Lemma validName_out (x intr R out : gostring) (m : Z) :
  Valid intr ->
  svach.validName x intr R m = Value out ->
  out = spec.fallback x
  \/ (svach.valid intr = true /\ intr <> R
      /\ exists rest,
          intr = out ++ rest /\ Valid out /\ Valid rest
          /\ (len intr <= m -> rest = [])
          /\ (m < len intr -> 0 <= m /\ m - 3 <= len out <= m)).
Proof.
  intros V H. apply validName_value in H.
  destruct H as [[E _]|[NR [NN [VI [[L E]|[L E]]]]]]; [now left| |].
  - right. split; [exact VI|]. split; [exact NR|]. exists [].
    subst out. rewrite app_nil_r. repeat split; auto using Valid_nil; lia.
  - right. split; [exact VI|]. split; [exact NR|].
    destruct V as [ts [F B]].
    destruct (cut_tokens ts F (Z.to_nat m)) as [k [C [B1 B2]]].
    unfold slice in E. rewrite Z.sub_0_r in E. cbn [skipn Z.to_nat] in E.
    rewrite <- B, C in E.
    exists (utf8.bytes (skipn k ts)).
    assert (LB : len intr = Z.of_nat (length (utf8.bytes ts)))
      by (now rewrite B).
    split; [subst out; rewrite <- bytes_app, firstn_skipn; now symmetry|].
    split; [exists (firstn k ts); split;
            [now apply Forall_firstn_keep | now symmetry]|].
    split; [exists (skipn k ts); split;
            [now apply Forall_skipn | reflexivity]|].
    split; [lia|]. intros _. split; [lia|].
    subst out. unfold len in *. specialize (B2 ltac:(lia)). lia.
Qed.

(** ** The passes with a replacement string without dollar sign *)

Lemma replace_text (R : gostring) (re : regexp.Regexp) (s : gostring) :
  ~ In "$"%char R ->
  regexp.ReplaceAllString re s R = pass re (putRunes R) s.
Proof.
  intros D. apply ReplaceAllString_tokens; [now apply cutDollar_none|].
  intros g m. apply bytes_runes.
Qed.

(** The patterns that [clean] can build from the replacement string. *)
Lemma compile_cases (R : gostring) (re : option regexp.Regexp) :
  svach.compileReplaceExpr R = Value re ->
  re = None \/ exists lit, lit <> [] /\ re = Some (regexp.litRepeated lit).
Proof.
  unfold svach.compileReplaceExpr, regexp.compileRepeated.
  destruct (bytes_eqb_spec R []) as [E|N]; [intros H; injection H; auto|].
  destruct (negb (utf8.ValidString R)); [discriminate|].
  destruct (existsb regexp.operator R); [discriminate|].
  intros H. injection H as <-. right.
  exists (map fst (utf8.runes R)). split; [|reflexivity].
  intros X. apply map_eq_nil in X. now apply (runes_nonempty R N).
Qed.

Section Passes.

Variable R : gostring.
Hypothesis dollarR : ~ In "$"%char R.

(** A property of bytes that the replacement string has. *)
Variable Qb : ascii -> Prop.
Hypothesis QbR : Forall Qb R.

Lemma runes_bytes_Forall (s : gostring) :
  Forall Qb s -> Forall (fun t => Forall Qb (snd t)) (utf8.runes s).
Proof.
  intros F. rewrite <- (bytes_runes s) in F.
  induction (utf8.runes s) as [|t ts IH]; [constructor|].
  rewrite bytes_cons in F. apply Forall_app in F.
  constructor; [tauto | apply IH; tauto].
Qed.

Lemma bytes_Forall (ts : list utf8.token) :
  Forall (fun t => Forall Qb (snd t)) ts -> Forall Qb (utf8.bytes ts).
Proof.
  induction 1 as [|t ts Ht _ IH]; [constructor|].
  rewrite bytes_cons. apply Forall_app. auto.
Qed.

(** A pass keeps a property of all bytes that its replacement has. *)
Lemma pass_bytes (re : regexp.Regexp) rep (s : gostring) :
  tokens.nonempty re ->
  (forall g m, Forall Qb (utf8.bytes (rep g m))) ->
  Forall Qb s -> Forall Qb (pass re rep s).
Proof.
  intros WF Hrep F. unfold pass.
  assert (G : forall ts b,
             Forall (fun t => Forall Qb (snd t)) ts ->
             Forall Qb (utf8.bytes (tokens.replace re rep b 0 ts))).
  { apply (replace_ind re rep
             (fun _ ts out => Forall (fun t => Forall Qb (snd t)) ts ->
                              Forall Qb (utf8.bytes out)) WF).
    - constructor.
    - intros b t rest g n out M W IH X. rewrite bytes_app.
      apply Forall_app. split; [apply Hrep|].
      apply IH. now apply Forall_skipn.
    - intros b t rest out M IH X. inversion X; subst.
      rewrite bytes_cons. apply Forall_app. auto. }
  apply G. now apply runes_bytes_Forall.
Qed.

Lemma putRunes_bytes (g : nat) (m : list utf8.token) :
  Forall Qb (utf8.bytes (putRunes R g m)).
Proof. unfold putRunes. now rewrite bytes_runes. Qed.

Lemma ToValidUTF8_nil_bytes (s : gostring) :
  Forall Qb s -> Forall Qb (strings.ToValidUTF8 s []).
Proof.
  intros F. unfold strings.ToValidUTF8. rewrite toValid_nil_filter.
  apply bytes_Forall. apply runes_bytes_Forall in F.
  induction F as [|t ts Ht _ IH]; [constructor|].
  cbn [filter]. destruct (negb (utf8.invalid t)); [constructor|]; auto.
Qed.

End Passes.

Lemma Forall_bytes (Qb : ascii -> Prop) (ts : list utf8.token) :
  Forall Qb (utf8.bytes ts) -> Forall (fun t => Forall Qb (snd t)) ts.
Proof.
  induction ts as [|t ts IH]; [constructor|].
  rewrite bytes_cons. intros F. apply Forall_app in F.
  constructor; [tauto | apply IH; tauto].
Qed.

(** A pass on the runes of a class leaves no byte of a class of ASCII
    characters within it, when its replacement has none. *)
Lemma pass_class_bytes (P P' : rune -> bool) (re : regexp.Regexp) rep
      (s : gostring) :
  classOf P re ->
  (forall r, P' r = true -> r < 128 /\ P r = true) ->
  (forall g m, Forall (fun c => P' (code c) = false) (utf8.bytes (rep g m))) ->
  Forall (fun c => P' (code c) = false) (pass re rep s).
Proof.
  intros C A Hrep. unfold pass. apply bytes_Forall.
  apply (class_replace_Forall P re rep
           (fun t => Forall (fun c => P' (code c) = false) (snd t)) C).
  - intros g m. apply Forall_bytes, Hrep.
  - pose proof (runes_ok s) as F. revert F. apply Forall_impl.
    intros t [_ [[c [-> Hc]]|[Hr Hb]]] Pt; cbn [fst snd] in *.
    + constructor; [|constructor].
      destruct (P' (code c)) eqn:E; [|reflexivity].
      destruct (A _ E) as [_ X]. congruence.
    + revert Hb. apply Forall_impl. intros b Hb.
      destruct (P' (code b)) eqn:E; [|reflexivity].
      destruct (A _ E) as [X _]. lia.
Qed.

(** ** Names without control and invalid characters *)

Lemma control_cntrl (c : ascii) :
  spec.control c <-> regexp.cntrl (code c) = true.
Proof.
  unfold spec.control, regexp.cntrl. pose proof (code_range c). lia.
Qed.

Lemma nameByte_iff (c : ascii) :
  names.nameByte c
  <-> regexp.cntrl (code c) = false /\ svach.invChar (code c) = false.
Proof.
  unfold names.nameByte. rewrite control_cntrl, <- invChar_code.
  destruct (regexp.cntrl (code c)), (svach.invChar (code c)); intuition congruence.
Qed.

Lemma nameByte_Forall (s : gostring) :
  Forall names.nameByte s
  <-> Forall (fun c => regexp.cntrl (code c) = false) s
      /\ Forall (fun c => svach.invChar (code c) = false) s.
Proof.
  rewrite !Forall_forall. split.
  - intros H. split; intros c Hc; apply nameByte_iff; auto.
  - intros [A B] c Hc. apply nameByte_iff. auto.
Qed.

Lemma nameByte_check (s : gostring) :
  forallb (fun c => negb (regexp.cntrl (code c))
                    && negb (svach.invChar (code c))) s = true ->
  Forall names.nameByte s.
Proof.
  rewrite forallb_forall, Forall_forall. intros H c Hc.
  apply nameByte_iff. specialize (H c Hc).
  destruct (regexp.cntrl (code c)), (svach.invChar (code c));
    try discriminate; auto.
Qed.

(** A replacement string that [validOptStr] accepts. *)
Lemma validOptStr_nameByte (R : gostring) :
  svach.validOptStr R = None -> Forall names.nameByte R.
Proof.
  unfold svach.validOptStr. intros H.
  destruct (regexp.MatchString svach.cntrlExp R) eqn:C; [discriminate|].
  destruct (regexp.MatchString svach.invCharExp R || strings.ContainsDot R)
           eqn:I; [discriminate|].
  apply Forall_forall. intros c Hc. split.
  - intros X. assert (Y : spec.hasControl R) by (exists c; auto).
    apply match_cntrl in Y. congruence.
  - intros X. assert (Y : spec.hasReservedOrDot R).
    { exists c. split; [exact Hc|]. unfold spec.reservedOrDot.
      apply in_or_app. now left. }
    apply match_invalid in Y. congruence.
Qed.

Lemma fallback_nameByte (x : gostring) : Forall names.nameByte (spec.fallback x).
Proof.
  pose proof (fallback_hex x) as H. revert H. apply Forall_impl.
  intros c Hc. apply nameByte_iff. unfold spec.lowerHex in Hc.
  unfold regexp.cntrl, svach.invChar.
  split; [lia|]. cbn. lia.
Qed.

Lemma cntrl_controlOrFormat (r : rune) :
  regexp.cntrl r = true -> r < 128 /\ svach.controlOrFormat r = true.
Proof.
  unfold regexp.cntrl. intros H.
  assert (A : 0 <= r < 128) by lia. split; [lia|].
  assert (G : forall x, 0 <= x < Z.of_nat 128 ->
                        implb (regexp.cntrl x) (svach.controlOrFormat x) = true).
  { apply forall_below. vm_compute. reflexivity. }
  specialize (G r ltac:(lia)). unfold regexp.cntrl in G.
  rewrite H in G. exact G.
Qed.

(** What [validName] returns has the properties of the bytes of the
    intermediate string that the digits of the fallback have too. *)
Lemma validName_bytes (Qb : ascii -> Prop) (x intr R out : gostring) (m : Z) :
  (forall c, spec.lowerHex c -> Qb c) ->
  Forall Qb intr ->
  svach.validName x intr R m = Value out -> Forall Qb out.
Proof.
  intros Hex F H. apply validName_value in H.
  destruct H as [[E _]|[_ [_ [_ [[_ E]|[_ E]]]]]]; subst out.
  - pose proof (fallback_hex x) as X. revert X. apply Forall_impl. exact Hex.
  - exact F.
  - apply ToValidUTF8_nil_bytes. unfold slice.
    apply Forall_firstn_keep. now apply Forall_skipn.
Qed.

Lemma lowerHex_nameByte (c : ascii) : spec.lowerHex c -> names.nameByte c.
Proof.
  intros Hc. apply nameByte_iff. unfold spec.lowerHex in Hc.
  unfold regexp.cntrl, svach.invChar. split; [lia|]. cbn. lia.
Qed.

Lemma put_nameByte (c : ascii) (g : nat) (m : list utf8.token) :
  names.nameByte c -> Forall names.nameByte (utf8.bytes (tokens.put c g m)).
Proof. intros H. cbn. constructor; [exact H | constructor]. Qed.

Lemma dot_nameByte : names.nameByte ".".
Proof. apply nameByte_iff. split; reflexivity. Qed.

Section Safe.

Variable R : gostring.
Hypothesis dollarR : ~ In "$"%char R.
Hypothesis safeR : Forall names.nameByte R.

Lemma cntrl_pass (re : regexp.Regexp) (P : rune -> bool) (s : gostring) :
  classOf P re ->
  (forall r, regexp.cntrl r = true -> r < 128 /\ P r = true) ->
  Forall (fun c => regexp.cntrl (code c) = false)
         (regexp.ReplaceAllString re s R).
Proof.
  intros C A. rewrite replace_text by exact dollarR.
  apply (pass_class_bytes P regexp.cntrl); auto.
  intros g m. apply putRunes_bytes. now apply nameByte_Forall.
Qed.

Lemma invChar_pass (s : gostring) :
  Forall (fun c => regexp.cntrl (code c) = false) s ->
  Forall names.nameByte (regexp.ReplaceAllString svach.invCharExp s R).
Proof.
  intros F. rewrite replace_text by exact dollarR. apply nameByte_Forall.
  split.
  - apply pass_bytes; [apply plus_nonempty | | exact F].
    intros g m. apply putRunes_bytes. now apply nameByte_Forall.
  - apply (pass_class_bytes svach.invChar svach.invChar);
      [apply plus_classOf | |].
    + intros r H. split; [now apply invChar_ascii | exact H].
    + intros g m. apply putRunes_bytes. now apply nameByte_Forall.
Qed.

Lemma text_pass (re : regexp.Regexp) (s : gostring) :
  tokens.nonempty re ->
  Forall names.nameByte s ->
  Forall names.nameByte (regexp.ReplaceAllString re s R).
Proof.
  intros WF F. rewrite replace_text by exact dollarR.
  apply pass_bytes; [exact WF | | exact F].
  intros g m. now apply putRunes_bytes.
Qed.

Lemma dot_pass (re : regexp.Regexp) (s : gostring) :
  tokens.nonempty re ->
  Forall names.nameByte s ->
  Forall names.nameByte (regexp.ReplaceAllString re s (str ".")).
Proof.
  intros WF F. rewrite replace_dot.
  apply pass_bytes; [exact WF | | exact F].
  intros g m. apply put_nameByte, dot_nameByte.
Qed.

Lemma nameIntr_nameByte (x : gostring) :
  Forall names.nameByte (svach.nameIntr x R).
Proof.
  unfold svach.nameIntr.
  apply dot_pass; [apply startPlus_nonempty|].
  apply text_pass; [apply plusEnd_nonempty|].
  apply invChar_pass.
  apply (cntrl_pass _ regexp.cntrl); [apply one_classOf|].
  intros r H. split; [now apply cntrl_ascii | exact H].
Qed.

Lemma cleanPasses_nameByte (s : gostring) :
  Forall names.nameByte (svach.cleanPasses s R).
Proof.
  unfold svach.cleanPasses. apply invChar_pass.
  rewrite replace_space.
  apply pass_bytes; [apply one_nonempty | |].
  - intros g m. cbn. constructor; [reflexivity | constructor].
  - apply (cntrl_pass _ svach.controlOrFormat); [apply one_classOf|].
    exact cntrl_controlOrFormat.
Qed.

Lemma cleanStep_nameByte (re : option regexp.Regexp) (s : gostring) :
  (re = None \/ exists lit, lit <> [] /\ re = Some (regexp.litRepeated lit)) ->
  Forall names.nameByte s ->
  Forall names.nameByte (svach.cleanStep re R s).
Proof.
  intros Hre F. unfold svach.cleanStep.
  apply dot_pass; [apply startPlus_nonempty|].
  apply text_pass; [apply plusEnd_nonempty|].
  assert (G : Forall names.nameByte
                (svach.replaceAllStringSubmatch
                   (regexp.FindAllStringSubmatchIndex svach.cleanExpr 6 s)
                   s svach.cleanReplaceWith)).
  { rewrite collapse_tokens.
    apply (pass_bytes names.nameByte svach.cleanExpr tokens.canonical s);
      [apply repeated_nonempty | | exact F].
    intros g m. rewrite canonical_bytes.
    do 7 (destruct g as [|g];
          [cbn; repeat constructor; apply nameByte_iff; split; reflexivity|]).
    destruct g; constructor. }
  destruct Hre as [->|[lit [N ->]]]; [exact G|].
  apply text_pass; [now apply litRepeated_nonempty | exact G].
Qed.

End Safe.

(** The loop of [clean] keeps what each of its turns keeps. *)
Lemma cleanLoop_keeps (Q : gostring -> Prop) (step : gostring -> gostring) :
  (forall s, Q s -> Q (step s)) ->
  forall fuel s r n,
    Q s -> svach.cleanLoop fuel step s = Some (r, n) -> Q r.
Proof.
  intros K. induction fuel as [|fuel IH]; intros s r n Hs; [discriminate|].
  cbn [svach.cleanLoop].
  destruct (bytes_eqb s (step s)).
  - intros X. injection X as <- _. auto.
  - destruct (svach.cleanLoop fuel step (step s)) as [[r' n']|] eqn:L;
      [|discriminate].
    intros X. injection X as <- _. eapply IH; [|exact L]. auto.
Qed.

Lemma cleanIntr_nameByte (fuel : nat) (x R intr : gostring) :
  ~ In "$"%char R -> Forall names.nameByte R ->
  svach.cleanIntr fuel x R = Value intr ->
  Forall names.nameByte intr.
Proof.
  intros D S. unfold svach.cleanIntr.
  destruct (bytes_eqb_spec (strings.ToValidUTF8 x R) []) as [E|_].
  { intros H. injection H as <-. rewrite E. constructor. }
  destruct (svach.compileReplaceExpr R) as [re| | |] eqn:C; try discriminate.
  apply compile_cases in C. unfold svach.cleanFix.
  destruct (svach.cleanLoop fuel (svach.cleanStep re R) _) as [[r n]|] eqn:L;
    [|discriminate].
  intros H. injection H as <-.
  apply (cleanLoop_keeps (Forall names.nameByte) _
           (fun s => cleanStep_nameByte R D S re s C) _ _ _ _
           (cleanPasses_nameByte R D S _) L).
Qed.

(** X1: with a replacement string that [NewWithOpts] accepts and that holds
    no dollar sign, the name that [Name] returns holds no control character
    (0x00 to 0x1F, 0x7F) and none of the nine characters that are invalid
    on Windows. *)
Theorem X1_Name_has_no_control_or_invalid_character
        (replaceStr x out : gostring) (maxLen : Z) :
  svach.validOptStr replaceStr = None ->
  ~ In "$"%char replaceStr ->
  svach.Name (svach.mkSvach replaceStr maxLen) x = Value out ->
  Forall names.nameByte out.
Proof.
  intros A D H. unfold svach.Name, svach.name in H. cbn [svach.replaceStr svach.maxLen] in H.
  apply (validName_bytes names.nameByte _ _ _ _ _ lowerHex_nameByte) in H;
    [exact H|].
  apply nameIntr_nameByte; [exact D | now apply validOptStr_nameByte].
Qed.

Lemma X1_witness : Forall names.nameByte (str "a-b").
Proof.
  apply (X1_Name_has_no_control_or_invalid_character
           (str "-") (str "a<b") (str "a-b") 240);
    [reflexivity | cbn; intros [H|[]]; discriminate | vm_compute; reflexivity].
Defined.



(** ** Names of valid encodings *)

Section ValidText.

Variable R : gostring.
Hypothesis dollarR : ~ In "$"%char R.
Hypothesis validR : Valid R.

Lemma text_pass_Valid (re : regexp.Regexp) (s : gostring) :
  tokens.nonempty re -> Valid s -> Valid (regexp.ReplaceAllString re s R).
Proof.
  intros WF V. rewrite replace_text by exact dollarR.
  apply pass_runes; [exact WF | now apply wf_putRunes | exact V].
Qed.

Lemma put_pass_Valid (re : regexp.Regexp) (c : ascii) (s : gostring) :
  tokens.nonempty re -> code c < 128 -> Valid s ->
  Valid (pass re (tokens.put c) s).
Proof.
  intros WF A V. apply pass_runes; [exact WF | now apply wf_put | exact V].
Qed.

Lemma ToValidUTF8_Valid (x : gostring) : Valid (strings.ToValidUTF8 x R).
Proof. apply toValid_Valid; [exact validR | apply runes_stable]. Qed.

Lemma nameIntr_Valid (x : gostring) : Valid (svach.nameIntr x R).
Proof.
  unfold svach.nameIntr. rewrite replace_dot.
  apply put_pass_Valid; [apply startPlus_nonempty | vm_compute; reflexivity|].
  apply text_pass_Valid; [apply plusEnd_nonempty|].
  apply text_pass_Valid; [apply plus_nonempty|].
  apply text_pass_Valid; [apply one_nonempty|].
  apply unescape_Valid, ToValidUTF8_Valid.
Qed.

Lemma cleanPasses_Valid_text (s : gostring) :
  Valid s -> Valid (svach.cleanPasses s R).
Proof.
  intros V. unfold svach.cleanPasses.
  apply text_pass_Valid; [apply plus_nonempty|].
  rewrite replace_space.
  apply put_pass_Valid; [apply one_nonempty | vm_compute; reflexivity|].
  apply text_pass_Valid; [apply one_nonempty|].
  now apply unescape_Valid.
Qed.

Lemma collapse_Valid (s : gostring) :
  Valid s ->
  Valid (svach.replaceAllStringSubmatch
           (regexp.FindAllStringSubmatchIndex svach.cleanExpr 6 s)
           s svach.cleanReplaceWith).
Proof.
  intros V. rewrite collapse_tokens.
  apply (pass_runes svach.cleanExpr tokens.canonical s);
    [apply repeated_nonempty | | exact V].
  apply canonical_Forall. repeat constructor; apply wf_ascii;
    vm_compute; reflexivity.
Qed.

Lemma cleanStep_Valid (re : option regexp.Regexp) (s : gostring) :
  (re = None \/ exists lit, lit <> [] /\ re = Some (regexp.litRepeated lit)) ->
  Valid s -> Valid (svach.cleanStep re R s).
Proof.
  intros Hre V. unfold svach.cleanStep. rewrite replace_dot.
  apply put_pass_Valid; [apply startPlus_nonempty | vm_compute; reflexivity|].
  apply text_pass_Valid; [apply plusEnd_nonempty|].
  destruct Hre as [->|[lit [N ->]]]; [now apply collapse_Valid|].
  apply text_pass_Valid; [now apply litRepeated_nonempty|].
  now apply collapse_Valid.
Qed.

Lemma cleanIntr_Valid (fuel : nat) (x intr : gostring) :
  svach.cleanIntr fuel x R = Value intr -> Valid intr.
Proof.
  unfold svach.cleanIntr.
  destruct (bytes_eqb_spec (strings.ToValidUTF8 x R) []) as [E|_].
  { intros H. injection H as <-. rewrite E. apply Valid_nil. }
  destruct (svach.compileReplaceExpr R) as [re| | |] eqn:C; try discriminate.
  apply compile_cases in C. unfold svach.cleanFix.
  destruct (svach.cleanLoop fuel (svach.cleanStep re R) _) as [[r n]|] eqn:L;
    [|discriminate].
  intros H. injection H as <-.
  apply (cleanLoop_keeps Valid _ (fun s => cleanStep_Valid re s C) _ _ _ _
           (cleanPasses_Valid_text _ (ToValidUTF8_Valid x)) L).
Qed.

End ValidText.

Lemma validName_Valid (x intr R out : gostring) (m : Z) :
  Valid intr -> svach.validName x intr R m = Value out -> Valid out.
Proof.
  intros V H. destruct (validName_out _ _ _ _ _ V H) as [->|[_ [_ [rest A]]]].
  - apply fallback_Valid.
  - tauto.
Qed.

(** A name of at least five bytes is valid. *)
Lemma valid_long (s : gostring) : 5 <= len s -> svach.valid s = true.
Proof.
  intros L. unfold svach.valid.
  destruct (bytes_eqb_spec s []) as [->|_]; [cbn in L; lia|].
  destruct (len s <? 5) eqn:E; [lia | reflexivity].
Qed.

(** With a maximal length of eight bytes or more, what [validName] returns
    for an intermediate string of valid encodings is a valid name. *)
Lemma validName_valid (x intr R : gostring) (m : Z) :
  Valid intr -> 8 <= m ->
  exists out, svach.validName x intr R m = Value out
              /\ svach.valid out = true.
Proof.
  intros V M.
  destruct (svach.validName x intr R m) as [out| | |] eqn:H.
  - exists out. split; [reflexivity|].
    destruct (validName_out _ _ _ _ _ V H) as [->|[VI [_ [rest [E [_ [_ [A B]]]]]]]].
    + apply valid_fallback.
    + destruct (Z_le_gt_dec (len intr) m) as [L|L].
      * rewrite (A L), app_nil_r in E. now subst out.
      * apply valid_long. specialize (B ltac:(lia)). lia.
  - exfalso. unfold svach.validName in H.
    repeat match type of H with
           | (if ?b then _ else _) = _ => destruct b eqn:?
           end; try discriminate. lia.
  - exfalso. unfold svach.validName in H.
    repeat match type of H with
           | (if ?b then _ else _) = _ => destruct b eqn:?
           end; discriminate.
  - exfalso. unfold svach.validName in H.
    repeat match type of H with
           | (if ?b then _ else _) = _ => destruct b eqn:?
           end; discriminate.
Qed.



(** X4: when [validName] cuts an intermediate string of valid encodings
    that it accepts, at a maximal length that is not negative, it returns
    a string of whole runes with which the intermediate string starts: no
    rune is cut in two, what is left out is valid UTF-8 too, and at most
    three bytes fewer than the maximal length are kept. *)
Theorem X4_validName_cuts_between_runes
        (fileName intrStr replaceStr : gostring) (maxLen : Z) :
  utf8.ValidString intrStr = true ->
  intrStr <> replaceStr -> svach.valid intrStr = true ->
  0 <= maxLen < len intrStr ->
  exists out rest,
    svach.validName fileName intrStr replaceStr maxLen = Value out
    /\ intrStr = out ++ rest
    /\ utf8.ValidString out = true /\ utf8.ValidString rest = true
    /\ maxLen - 3 <= len out <= maxLen.
Proof.
  intros U NR VI M. apply Valid_iff in U.
  assert (E : svach.validName fileName intrStr replaceStr maxLen
              = Value (strings.ToValidUTF8 (slice intrStr 0 maxLen) [])).
  { unfold svach.validName. rewrite VI.
    destruct (bytes_eqb_spec intrStr replaceStr) as [X|_]; [congruence|].
    destruct (bytes_eqb_spec intrStr []) as [X|_];
      [subst; cbn in M; lia|].
    cbn [negb andb].
    destruct (maxLen <? len intrStr) eqn:A; [|lia].
    destruct (maxLen <? 0) eqn:B; [lia | reflexivity]. }
  destruct U as [ts [Fw Bs]].
  destruct (cut_tokens ts Fw (Z.to_nat maxLen)) as [k [C [B1 B2]]].
  exists (utf8.bytes (firstn k ts)), (utf8.bytes (skipn k ts)).
  rewrite E. unfold slice. rewrite Z.sub_0_r. cbn [skipn Z.to_nat].
  rewrite <- Bs, C.
  split; [reflexivity|].
  split; [now rewrite <- bytes_app, firstn_skipn|].
  split; [apply Valid_iff; exists (firstn k ts); split;
          [now apply Forall_firstn_keep | reflexivity]|].
  split; [apply Valid_iff; exists (skipn k ts); split;
          [now apply Forall_skipn | reflexivity]|].
  assert (LB : len intrStr = Z.of_nat (length (utf8.bytes ts)))
    by (now rewrite <- Bs).
  unfold len in *. specialize (B2 ltac:(lia)). lia.
Qed.

Lemma X4_witness :
  exists out rest,
    svach.validName [] (str "h" ++ spec.e_acute ++ str "llo") [] 2 = Value out
    /\ str "h" ++ spec.e_acute ++ str "llo" = out ++ rest
    /\ utf8.ValidString out = true /\ utf8.ValidString rest = true
    /\ 2 - 3 <= len out <= 2.
Proof.
  apply (X4_validName_cuts_between_runes
           [] (str "h" ++ spec.e_acute ++ str "llo") [] 2);
    [reflexivity | discriminate | reflexivity | cbn; lia].
Defined.

(** ** [Name] and [Clean] return a valid name *)

Lemma plain_dollar (R : gostring) :
  existsb regexp.operator R = false -> ~ In "$"%char R.
Proof.
  intros P H.
  assert (X : existsb regexp.operator R = true).
  { apply existsb_exists. exists "$"%char. split; [exact H | reflexivity]. }
  congruence.
Qed.

Lemma validName_len (x intr R out : gostring) (m : Z) :
  Valid intr -> svach.validName x intr R m = Value out ->
  len out <= m \/ out = spec.fallback x.
Proof.
  intros V H.
  destruct (validName_out _ _ _ _ _ V H) as [->|[_ [_ [rest [E [_ [_ [A B]]]]]]]];
    [now right | left].
  destruct (Z_le_gt_dec (len intr) m) as [L|L].
  - rewrite (A L), app_nil_r in E. now subst out.
  - specialize (B ltac:(lia)). lia.
Qed.

Lemma name_returns (R x : gostring) (m : Z) :
  Valid R -> ~ In "$"%char R -> 8 <= m ->
  exists out, svach.name x R m = Value out
              /\ svach.valid out = true
              /\ (len out <= m \/ out = spec.fallback x).
Proof.
  intros V D M. unfold svach.name.
  pose proof (nameIntr_Valid R D V x) as VI.
  destruct (validName_valid x (svach.nameIntr x R) R m VI M) as [out [E W]].
  exists out. split; [exact E|]. split; [exact W|].
  exact (validName_len _ _ _ _ _ VI E).
Qed.

Lemma clean_returns (R x : gostring) (m : Z) :
  Valid R -> existsb regexp.operator R = false ->
  tokens.endsSD R = false -> 8 <= m ->
  exists n, forall fuel,
      (n <= fuel)%nat ->
      exists out, svach.clean fuel x R m = Value out
                  /\ svach.valid out = true
                  /\ (len out <= m \/ out = spec.fallback x).
Proof.
  intros V P E M.
  exists (length (svach.cleanPasses (strings.ToValidUTF8 x R) R)
          + length R + 2)%nat.
  intros fuel L.
  pose proof (cleanIntr_returns R P V E x fuel) as H. cbv zeta in H.
  destruct (H ltac:(lia)) as [_ [intr I]].
  pose proof (cleanIntr_Valid R (plain_dollar R P) V fuel x intr I) as VI.
  unfold svach.clean. rewrite I.
  destruct (validName_valid x intr R m VI M) as [out [Eo W]].
  exists out. split; [exact Eo|]. split; [exact W|].
  exact (validName_len _ _ _ _ _ VI Eo).
Qed.

(** X5: with a replacement string of valid encodings that holds no dollar
    sign and a maximal length of eight bytes or more, [Name] returns, for
    every input, a name that [valid] accepts: the name is not empty and is
    no reserved name. *)
Theorem X5_Name_returns_a_valid_name (replaceStr x : gostring) (maxLen : Z) :
  utf8.ValidString replaceStr = true ->
  ~ In "$"%char replaceStr ->
  8 <= maxLen ->
  exists out, svach.Name (svach.mkSvach replaceStr maxLen) x = Value out
              /\ svach.valid out = true.
Proof.
  intros U D M. apply Valid_iff in U.
  destruct (name_returns replaceStr x maxLen U D M) as [out [E [W _]]].
  exists out. split; [exact E | exact W].
Qed.

Lemma X5_witness :
  exists out, svach.Name (svach.mkSvach (str "-") 8) (str "com1" ++ spec.e_acute ++ spec.e_acute ++ spec.e_acute) = Value out
              /\ svach.valid out = true.
Proof.
  apply (X5_Name_returns_a_valid_name (str "-") _ 8);
    [reflexivity | cbn; intros [H|[]]; discriminate | lia].
Defined.

(** X6: with a replacement string of valid encodings that holds no operator
    of a pattern and does not end in a space character or a dot, and a
    maximal length of eight bytes or more, [Clean] returns, for every input
    and once its loop is given enough turns, a name that [valid] accepts. *)
Theorem X6_Clean_returns_a_valid_name (replaceStr x : gostring) (maxLen : Z) :
  utf8.ValidString replaceStr = true ->
  existsb regexp.operator replaceStr = false ->
  tokens.endsSD replaceStr = false ->
  8 <= maxLen ->
  exists n, forall fuel,
      (n <= fuel)%nat ->
      exists out,
        svach.Clean fuel (svach.mkSvach replaceStr maxLen) x = Value out
        /\ svach.valid out = true.
Proof.
  intros U P E M. apply Valid_iff in U.
  destruct (clean_returns replaceStr x maxLen U P E M) as [n H].
  exists n. intros fuel L. destruct (H fuel L) as [out [Eo [W _]]].
  exists out. split; [exact Eo | exact W].
Qed.

Lemma X6_witness :
  exists n, forall fuel,
      (n <= fuel)%nat ->
      exists out,
        svach.Clean fuel (svach.mkSvach (str "-") 8) (str "a  b..") = Value out
        /\ svach.valid out = true.
Proof.
  apply (X6_Clean_returns_a_valid_name (str "-") (str "a  b..") 8);
    [reflexivity | reflexivity | reflexivity | lia].
Defined.

(** ** The leading dots *)

(** The first byte of a rune that is not a dot is not a dot. *)
Lemma tok_not_dot (t : utf8.token) :
  tok_ok t -> regexp.only "." (fst t) = false ->
  exists b bs, snd t = b :: bs /\ b <> "."%char.
Proof.
  intros [N [[c [-> Hc]]|[Hr Hb]]] D.
  - exists c, []. split; [reflexivity|]. intros ->.
    unfold regexp.only in D. cbn in D. discriminate.
  - destruct (snd t) as [|b bs]; [congruence|].
    exists b, bs. split; [reflexivity|]. intros ->.
    inversion Hb as [|? ? X _]; subst. vm_compute in X. congruence.
Qed.

Lemma head_not_dot (ts : list utf8.token) :
  Forall tok_ok ts -> regexp.run (regexp.only ".") ts = 0%nat ->
  forall rest, utf8.bytes ts <> "."%char :: rest.
Proof.
  intros F Z rest. destruct ts as [|t ts]; [discriminate|].
  inversion F as [|? ? Ft _]; subst. rewrite run_cons in Z.
  destruct (regexp.only "." (fst t)) eqn:D; [discriminate|].
  destruct (tok_not_dot t Ft D) as [b [bs [E N]]].
  rewrite bytes_cons, E. cbn [app]. congruence.
Qed.

(** After the pass [leftdotExpr] no string starts with two dots. *)
Lemma leftdot_start (s : gostring) (rest : gostring) :
  regexp.ReplaceAllString svach.leftdotExpr s (str ".")
  <> "."%char :: "."%char :: rest.
Proof.
  rewrite replace_dot. unfold pass.
  pose proof (runes_ok s) as F.
  destruct (utf8.runes s) as [|t ts] eqn:R; [discriminate|].
  unfold svach.leftdotExpr.
  destruct (regexp.startPlus (regexp.only ".") true (t :: ts))
    as [[g n]|] eqn:M.
  - pose proof (startPlus_nonempty _ _ _ _ _ M) as W.
    rewrite (replace_match _ _ _ _ _ _ _ M) by lia.
    rewrite replace_startPlus_false.
    unfold regexp.startPlus in M. cbn [andb] in M.
    destruct (1 <=? regexp.run (regexp.only ".") (t :: ts))%nat; [|discriminate].
    injection M as _ Hn.
    assert (Hn' : n = regexp.run (regexp.only ".") (t :: ts))
      by (rewrite <- Hn; reflexivity).
    rewrite bytes_app. cbn [tokens.put utf8.bytes map concat tokens.ascii snd app].
    intros X. injection X as X.
    revert X. apply head_not_dot; [now apply Forall_skipn|].
    rewrite Hn'. apply run_skipn_run.
  - rewrite (replace_nomatch _ _ _ _ _ M), replace_startPlus_false.
    apply head_not_dot; [exact F|].
    unfold regexp.startPlus in M. cbn [andb] in M.
    destruct (regexp.run (regexp.only ".") (t :: ts)); [reflexivity|].
    discriminate.
Qed.

Lemma nameIntr_start (x R rest : gostring) :
  svach.nameIntr x R <> "."%char :: "."%char :: rest.
Proof. unfold svach.nameIntr. apply leftdot_start. Qed.

Lemma cleanIntr_start (fuel : nat) (x R intr rest : gostring) :
  svach.cleanIntr fuel x R = Value intr ->
  intr <> "."%char :: "."%char :: rest.
Proof.
  unfold svach.cleanIntr.
  destruct (bytes_eqb_spec (strings.ToValidUTF8 x R) []) as [E|_].
  { intros H. injection H as <-. rewrite E. discriminate. }
  destruct (svach.compileReplaceExpr R) as [re| | |]; try discriminate.
  unfold svach.cleanFix.
  destruct (svach.cleanLoop fuel (svach.cleanStep re R) _) as [[r n]|] eqn:L;
    [|discriminate].
  intros H. injection H as <-.
  destruct (cleanLoop_result _ _ _ _ _ L) as [s' ->].
  unfold svach.cleanStep. apply leftdot_start.
Qed.

Lemma fallback_start (x rest : gostring) :
  spec.fallback x <> "."%char :: rest.
Proof.
  intros E. pose proof (fallback_hex x) as H. rewrite E in H.
  inversion H as [|? ? X _]; subst. unfold spec.lowerHex in X.
  vm_compute in X. destruct X as [[X _]|[X _]]; apply X; reflexivity.
Qed.

Lemma validName_start (x intr R out rest : gostring) (m : Z) :
  Valid intr ->
  (forall rest', intr <> "."%char :: "."%char :: rest') ->
  svach.validName x intr R m = Value out ->
  out <> "."%char :: "."%char :: rest.
Proof.
  intros V N H.
  destruct (validName_out _ _ _ _ _ V H) as [->|[_ [_ [rest' [E _]]]]].
  - apply fallback_start.
  - intros ->. apply (N (rest ++ rest')). exact E.
Qed.

Lemma twoDots_false (s : gostring) :
  (forall rest, s <> "."%char :: "."%char :: rest) -> names.twoDots s = false.
Proof.
  intros H. destruct s as [|a [|b rest]]; try reflexivity.
  cbn [names.twoDots].
  destruct (Ascii.eqb_spec a "."); [|reflexivity].
  destruct (Ascii.eqb_spec b "."); [|reflexivity].
  subst. exfalso. now apply (H rest).
Qed.



(** ** No repeated separator in what [Clean] returns *)

(** A replacement that puts fewer runes for every match makes the text
    shorter as soon as the pattern matches somewhere. *)
Lemma replace_strict (re : regexp.Regexp) rep :
  tokens.nonempty re ->
  (forall b ts g n,
      re b ts = Some (g, n) -> (length (rep g (firstn n ts)) < n)%nat) ->
  forall ts b,
    (length (tokens.replace re rep b 0 ts) <= length ts)%nat
    /\ ((exists k, re (b && (k =? 0)%nat) (skipn k ts) <> None) ->
        (length (tokens.replace re rep b 0 ts) < length ts)%nat).
Proof.
  intros WF Hrep.
  apply (replace_ind re rep
           (fun b ts out =>
              (length out <= length ts)%nat
              /\ ((exists k, re (b && (k =? 0)%nat) (skipn k ts) <> None) ->
                  (length out < length ts)%nat)) WF).
  - intros b. split; [reflexivity|]. intros [k H]. exfalso.
    rewrite skipn_nil in H.
    destruct (re (b && (k =? 0)%nat) []) as [[g n]|] eqn:M; [|congruence].
    apply WF in M. cbn in M. lia.
  - intros b t rest g n out M W [IH _].
    pose proof (Hrep _ _ _ _ M) as L.
    rewrite length_skipn in IH. rewrite length_app.
    split; [lia | intros _; lia].
  - intros b t rest out M [IH1 IH2]. cbn [length].
    split; [lia|]. intros [k H].
    destruct k as [|k].
    + cbn [Nat.eqb skipn] in H. rewrite andb_true_r in H. congruence.
    + cbn [Nat.eqb skipn] in H. rewrite andb_false_r in H.
      assert (X : exists k', re (false && (k' =? 0)%nat) (skipn k' rest) <> None)
        by (exists k; exact H).
      specialize (IH2 X). lia.
Qed.

Lemma repeated_match (cs : list (rune -> bool)) (P : rune -> bool) :
  In P cs ->
  forall g b ts, (2 <= regexp.run P ts)%nat -> regexp.repeated g cs b ts <> None.
Proof.
  induction cs as [|Q more IH]; intros I g b ts L; [destruct I|].
  cbn [regexp.repeated].
  destruct (2 <=? regexp.run Q ts)%nat eqn:E; [discriminate|].
  destruct I as [->|I]; [apply Nat.leb_gt in E; lia|].
  now apply IH.
Qed.

Lemma cleanVals_ascii (P : rune -> bool) (r : rune) :
  In P svach.cleanVals -> P r = true -> r < 128.
Proof.
  unfold svach.cleanVals. cbn [In].
  intros [<-|[<-|[<-|[<-|[<-|[<-|[]]]]]]];
    unfold regexp.space, regexp.only; cbn; lia.
Qed.

Lemma sameSeparator_true (a b : ascii) :
  names.sameSeparator a b = true ->
  exists P, In P svach.cleanVals /\ P (code a) = true /\ P (code b) = true.
Proof.
  unfold names.sameSeparator. intros H. apply existsb_exists in H.
  destruct H as [P [I H]]. apply andb_true_iff in H. exists P. tauto.
Qed.

Lemma sameSeparator_ascii (a b : ascii) :
  names.sameSeparator a b = true -> code a < 128 /\ code b < 128.
Proof.
  intros H. destruct (sameSeparator_true a b H) as [P [I [A B]]].
  split; eapply cleanVals_ascii; eauto.
Qed.

Lemma noRepeat_cons (a : ascii) (s : gostring) :
  names.noRepeat (a :: s)
  = match s with
    | b :: _ => negb (names.sameSeparator a b) && names.noRepeat s
    | [] => true
    end.
Proof. reflexivity. Qed.

(** The bytes above ASCII are no separators. *)
Lemma high_noRepeat (bs rest : gostring) :
  Forall (fun b => 128 <= code b) bs ->
  names.noRepeat (bs ++ rest) = names.noRepeat rest.
Proof.
  induction 1 as [|a bs Ha _ IH]; [reflexivity|].
  cbn [app]. rewrite noRepeat_cons.
  destruct (bs ++ rest) as [|b t] eqn:E.
  - apply app_eq_nil in E. destruct E as [_ ->]. reflexivity.
  - destruct (names.sameSeparator a b) eqn:S.
    + apply sameSeparator_ascii in S. lia.
    + exact IH.
Qed.

(** Runes among which the pattern [cleanExpr] matches nowhere are read from
    bytes among which no separator is repeated. *)
Lemma tokens_noRepeat (ts : list utf8.token) :
  Forall tok_ok ts ->
  (forall k, svach.cleanExpr false (skipn k ts) = None) ->
  names.noRepeat (utf8.bytes ts) = true.
Proof.
  induction 1 as [|t ts Ht Hts IH]; intros N; [reflexivity|].
  assert (N' : forall k, svach.cleanExpr false (skipn k ts) = None)
    by (intros k; exact (N (S k))).
  specialize (IH N'). specialize (N 0%nat). cbn [skipn] in N.
  rewrite bytes_cons.
  destruct Ht as [_ [[c [-> Hc]]|[_ Hb]]]; cbn [snd].
  2:{ rewrite high_noRepeat by exact Hb. exact IH. }
  cbn [app]. rewrite noRepeat_cons.
  destruct (utf8.bytes ts) as [|d rest] eqn:B; [reflexivity|].
  rewrite IH, andb_true_r.
  destruct (names.sameSeparator c d) eqn:S; [exfalso | reflexivity].
  destruct (sameSeparator_true c d S) as [P [I [Pc Pd]]].
  pose proof (cleanVals_ascii P _ I Pd) as Hd.
  destruct ts as [|u ts']; [discriminate|].
  inversion Hts as [|? ? Hu _]; subst.
  assert (U : fst u = code d).
  { rewrite bytes_cons in B.
    destruct Hu as [Nu [[e [-> He]]|[_ Hb]]]; cbn [snd fst] in *.
    - cbn [app] in B. injection B as -> _. reflexivity.
    - destruct (snd u) as [|b bs]; [congruence|].
      cbn [app] in B. injection B as -> _. inversion Hb; subst. lia. }
  apply (repeated_match svach.cleanVals P I 1%nat false
                        ((code c, [c]) :: u :: ts')); [|exact N].
  rewrite !run_cons. cbn [fst]. rewrite Pc, U, Pd. lia.
Qed.

Lemma noRepeat_prefix (a b : gostring) :
  names.noRepeat (a ++ b) = true -> names.noRepeat a = true.
Proof.
  induction a as [|c a IH]; [reflexivity|].
  cbn [app]. rewrite !noRepeat_cons.
  destruct a as [|d a']; [reflexivity|].
  cbn [app] in *. intros H. apply andb_true_iff in H. destruct H as [H1 H2].
  rewrite H1. cbn [andb]. now apply IH.
Qed.

Lemma hex_noRepeat (s : gostring) :
  Forall spec.lowerHex s -> names.noRepeat s = true.
Proof.
  induction 1 as [|a s Ha _ IH]; [reflexivity|].
  rewrite noRepeat_cons. destruct s as [|b t]; [reflexivity|].
  rewrite IH, andb_true_r.
  destruct (names.sameSeparator a b) eqn:S; [exfalso | reflexivity].
  destruct (sameSeparator_true a b S) as [P [I [Pa _]]].
  unfold spec.lowerHex in Ha. revert I Pa.
  unfold svach.cleanVals. cbn [In].
  intros [<-|[<-|[<-|[<-|[<-|[<-|[]]]]]]];
    unfold regexp.space, regexp.only; cbn; lia.
Qed.

Lemma cleanExpr_length (b : bool) (ts : list utf8.token) (g n : nat) :
  svach.cleanExpr b ts = Some (g, n) ->
  (length (tokens.canonical g (firstn n ts)) < n)%nat.
Proof.
  intros M.
  destruct (repeated_some _ _ _ _ _ _ M) as [P [_ [_ [_ H2]]]].
  pose proof (canonical_length g (firstn n ts)). lia.
Qed.

Lemma cleanExpr_flag (b b' : bool) (ts : list utf8.token) :
  svach.cleanExpr b ts = svach.cleanExpr b' ts.
Proof. reflexivity. Qed.

(** A string of valid encodings that the pass of the repeated separators
    leaves as it is has no repeated separator. *)
Lemma collapse_fixed_noRepeat (r : gostring) :
  Valid r ->
  svach.replaceAllStringSubmatch
    (regexp.FindAllStringSubmatchIndex svach.cleanExpr 6 r)
    r svach.cleanReplaceWith = r ->
  names.noRepeat r = true.
Proof.
  intros V E. rewrite collapse_tokens in E.
  assert (W : forall g m, Forall wf (tokens.canonical g m)).
  { apply canonical_Forall. repeat constructor; apply wf_ascii;
      vm_compute; reflexivity. }
  destruct (pass_runes svach.cleanExpr tokens.canonical r
                       (repeated_nonempty _ _) W V) as [Rn _].
  unfold pass in Rn. rewrite E in Rn.
  rewrite <- (bytes_runes r). apply tokens_noRepeat; [apply runes_ok|].
  intros k.
  destruct (svach.cleanExpr false (skipn k (utf8.runes r))) as [[g n]|] eqn:M;
    [exfalso | reflexivity].
  destruct (replace_strict svach.cleanExpr tokens.canonical
                           (repeated_nonempty _ _) cleanExpr_length
                           (utf8.runes r) true) as [_ S].
  rewrite <- Rn in S.
  assert (X : exists k0,
             svach.cleanExpr (true && (k0 =? 0)%nat) (skipn k0 (utf8.runes r))
             <> None).
  { exists k. rewrite (cleanExpr_flag _ false), M. discriminate. }
  specialize (S X). lia.
Qed.

(** A string on which the loop of [clean] breaks is left as it is by each
    pass of a turn. *)
Lemma fixed_collapse (R r : gostring) :
  existsb regexp.operator R = false -> Valid R ->
  tokens.endsSD R = false ->
  Valid r -> tokens.endsSD r = false ->
  loopStep R r = r ->
  svach.replaceAllStringSubmatch
    (regexp.FindAllStringSubmatchIndex svach.cleanExpr 6 r)
    r svach.cleanReplaceWith = r.
Proof.
  intros P VR ER V E F.
  unfold loopStep, svach.cleanStep in F.
  fold (secondPass R
          (svach.replaceAllStringSubmatch
             (regexp.FindAllStringSubmatchIndex svach.cleanExpr 6 r) r
             svach.cleanReplaceWith)) in F.
  destruct (collapse_spec r V) as [V1 [L1 [Q1 E1]]]. cbv zeta in *.
  set (c1 := svach.replaceAllStringSubmatch _ r _) in *.
  destruct (second_spec R P VR ER c1 V1) as [V2 [L2 [Q2 E2]]].
  set (c2 := secondPass R c1) in *.
  destruct (rightSD_spec R P VR c2 V2) as [V3 [L3 Q3]]. cbv zeta in *.
  rewrite (Q3 (E2 (E1 E))) in F.
  destruct (leftdot_spec c2 V2) as [V4 [L4 Q4]]. cbv zeta in *.
  rewrite F in L4. apply Q1. lia.
Qed.

Lemma cleanIntr_noRepeat (fuel : nat) (R x intr : gostring) :
  existsb regexp.operator R = false -> Valid R ->
  tokens.endsSD R = false ->
  svach.cleanIntr fuel x R = Value intr ->
  names.noRepeat intr = true.
Proof.
  intros P VR ER I.
  pose proof (cleanIntr_Valid R (plain_dollar R P) VR fuel x intr I) as V.
  pose proof (cleanIntr_end fuel x R intr (plain_dollar R P) ER I) as E.
  unfold svach.cleanIntr in I.
  destruct (bytes_eqb_spec (strings.ToValidUTF8 x R) []) as [Z|_].
  { injection I as <-. rewrite Z. reflexivity. }
  rewrite (compile_plain R P VR) in I. unfold svach.cleanFix in I.
  destruct (svach.cleanLoop fuel (svach.cleanStep (plainExpr R) R) _)
    as [[r n]|] eqn:L; [|discriminate].
  injection I as <-.
  apply collapse_fixed_noRepeat; [exact V|].
  apply (fixed_collapse R r P VR ER V E).
  exact (cleanLoop_fixed _ _ _ _ _ L).
Qed.

(** X8: with a replacement string of valid encodings that holds no operator
    of a pattern and does not end in a space character or a dot, the name
    that [Clean] returns has no repeated separator: no two space characters
    and no two equal characters among [_], [-], [+], [.] and [!] stand one
    after the other. *)
Theorem X8_Clean_leaves_no_repeated_separator
        (fuel : nat) (replaceStr x out : gostring) (maxLen : Z) :
  utf8.ValidString replaceStr = true ->
  existsb regexp.operator replaceStr = false ->
  tokens.endsSD replaceStr = false ->
  svach.Clean fuel (svach.mkSvach replaceStr maxLen) x = Value out ->
  names.noRepeat out = true.
Proof.
  intros U P E H. apply Valid_iff in U.
  unfold svach.Clean, svach.clean in H.
  cbn [svach.replaceStr svach.maxLen] in H.
  destruct (svach.cleanIntr fuel x replaceStr) as [intr| | |] eqn:I;
    try discriminate.
  pose proof (cleanIntr_noRepeat fuel replaceStr x intr P U E I) as N.
  pose proof (cleanIntr_Valid _ (plain_dollar _ P) U _ _ _ I) as V.
  destruct (validName_out _ _ _ _ _ V H) as [->|[_ [_ [rest [S _]]]]].
  - apply hex_noRepeat, fallback_hex.
  - rewrite S in N. exact (noRepeat_prefix _ _ N).
Qed.

Lemma X8_witness : names.noRepeat (str "a_b c-d-") = true.
Proof.
  apply (X8_Clean_leaves_no_repeated_separator
           4 (str "-") (str "a___b   c??d..") (str "a_b c-d-") 240);
    [reflexivity | reflexivity | reflexivity | vm_compute; reflexivity].
Defined.

(** ** No invisible character in what [Clean] returns *)

(** A pass on the runes of a class leaves no rune of the class, when its
    replacement has none. *)
Lemma class_pass (P : rune -> bool) (re : regexp.Regexp) rep (s : gostring) :
  classOf P re ->
  (forall g m, Forall wf (rep g m)) ->
  (forall g m, Forall (fun t => P (fst t) = false) (rep g m)) ->
  Valid s ->
  allRunes (fun t => P (fst t) = false) (pass re rep s).
Proof.
  intros C W Hrep V. unfold allRunes.
  rewrite (proj1 (pass_runes re rep s (proj1 C) W V)).
  apply (class_replace_Forall P re rep _ C Hrep).
  apply Forall_forall. intros t _ H. exact H.
Qed.

Lemma cleanString_iff (s : gostring) :
  names.cleanString s = true
  <-> allRunes cleanTok s.
Proof.
  unfold names.cleanString, allRunes. rewrite forallb_forall, Forall_forall.
  reflexivity.
Qed.

Lemma cleanRune_ascii (c : ascii) :
  In c (str " _-+.!") -> names.cleanRune (fst (tokens.ascii c)) = true.
Proof.
  cbn [str list_ascii_of_string In].
  intros [<-|[<-|[<-|[<-|[<-|[<-|[]]]]]]]; vm_compute; reflexivity.
Qed.

Lemma canonical_cleanRune (g : nat) (m : list utf8.token) :
  Forall cleanTok (tokens.canonical g m).
Proof.
  apply canonical_Forall.
  repeat constructor; vm_compute; reflexivity.
Qed.

Lemma canonical_wf (g : nat) (m : list utf8.token) :
  Forall wf (tokens.canonical g m).
Proof.
  apply canonical_Forall. repeat constructor; apply wf_ascii;
    vm_compute; reflexivity.
Qed.

Section Invisible.

Variable R : gostring.
Hypothesis dollarR : ~ In "$"%char R.
Hypothesis validR : Valid R.
Hypothesis cleanR : names.cleanString R = true.

Lemma putRunes_clean (g : nat) (m : list utf8.token) :
  Forall cleanTok (putRunes R g m).
Proof. now apply cleanString_iff. Qed.

Lemma text_pass_clean (re : regexp.Regexp) (s : gostring) :
  tokens.nonempty re -> Valid s -> allRunes cleanTok s ->
  allRunes cleanTok (regexp.ReplaceAllString re s R).
Proof.
  intros WF V A. rewrite replace_text by exact dollarR.
  apply pass_all; auto using putRunes_clean. now apply wf_putRunes.
Qed.

Lemma cleanPasses_clean (s : gostring) :
  Valid s -> allRunes cleanTok (svach.cleanPasses s R).
Proof.
  intros V. unfold svach.cleanPasses.
  set (u1 := html.UnescapeString s).
  assert (V1 : Valid u1) by now apply unescape_Valid.
  set (u2 := regexp.ReplaceAllString svach.unicodeControl u1 R).
  assert (V2 : Valid u2)
    by (apply text_pass_Valid; auto; apply one_nonempty).
  assert (A2 : allRunes (fun t => svach.controlOrFormat (fst t) = false) u2).
  { unfold u2. rewrite replace_text by exact dollarR.
    apply class_pass; [apply one_classOf | now apply wf_putRunes | | exact V1].
    intros g m. pose proof (putRunes_clean g m) as X.
    revert X. apply Forall_impl. intros t. unfold cleanTok, names.cleanRune.
    destruct (svach.controlOrFormat (fst t)); [discriminate | reflexivity]. }
  set (u3 := regexp.ReplaceAllString svach.unicodeSpace u2 (str " ")).
  assert (Wsp : forall g m, Forall wf (tokens.put " " g m))
    by (apply wf_put; vm_compute; reflexivity).
  assert (V3 : Valid u3).
  { unfold u3. rewrite replace_space.
    apply pass_runes; [apply one_nonempty | exact Wsp | exact V2]. }
  assert (A3 : allRunes cleanTok u3).
  { unfold u3. rewrite replace_space. unfold allRunes.
    rewrite (proj1 (pass_runes svach.unicodeSpace (tokens.put " ") u2
                              (one_nonempty _) Wsp V2)).
    apply (class_replace_Forall svach.separator); [apply one_classOf | |].
    - intros g m. repeat constructor.
    - revert A2. unfold allRunes. apply Forall_impl.
      intros t H1 H2. unfold cleanTok, names.cleanRune. now rewrite H1, H2. }
  apply text_pass_clean; [apply plus_nonempty | exact V3 | exact A3].
Qed.

Lemma cleanStep_clean (re : option regexp.Regexp) (s : gostring) :
  (re = None \/ exists lit, lit <> [] /\ re = Some (regexp.litRepeated lit)) ->
  Valid s /\ allRunes cleanTok s ->
  Valid (svach.cleanStep re R s) /\ allRunes cleanTok (svach.cleanStep re R s).
Proof.
  intros Hre [V A].
  split; [now apply cleanStep_Valid|].
  unfold svach.cleanStep.
  set (c1 := svach.replaceAllStringSubmatch _ s _).
  assert (V1 : Valid c1) by now apply collapse_Valid.
  assert (A1 : allRunes cleanTok c1).
  { unfold c1. rewrite collapse_tokens.
    apply (pass_all svach.cleanExpr tokens.canonical cleanTok s);
      [apply repeated_nonempty | apply canonical_wf
       | apply canonical_cleanRune | exact V | exact A]. }
  set (c2 := match re with
             | Some re0 => regexp.ReplaceAllString re0 c1 R
             | None => c1
             end).
  assert (VA2 : Valid c2 /\ allRunes cleanTok c2).
  { unfold c2. destruct Hre as [->|[lit [N ->]]]; [auto|].
    split; [apply text_pass_Valid | apply text_pass_clean];
      auto using litRepeated_nonempty. }
  destruct VA2 as [V2 A2].
  rewrite replace_dot.
  apply pass_all;
    [apply startPlus_nonempty | apply wf_put; vm_compute; reflexivity
     | intros g m; repeat constructor | |].
  - apply text_pass_Valid; auto. apply plusEnd_nonempty.
  - apply text_pass_clean; auto. apply plusEnd_nonempty.
Qed.

Lemma cleanIntr_clean (fuel : nat) (x intr : gostring) :
  svach.cleanIntr fuel x R = Value intr -> Valid intr /\ allRunes cleanTok intr.
Proof.
  unfold svach.cleanIntr.
  destruct (bytes_eqb_spec (strings.ToValidUTF8 x R) []) as [E|_].
  { intros H. injection H as <-. rewrite E.
    split; [apply Valid_nil | constructor]. }
  destruct (svach.compileReplaceExpr R) as [re| | |] eqn:C; try discriminate.
  apply compile_cases in C. unfold svach.cleanFix.
  destruct (svach.cleanLoop fuel (svach.cleanStep re R) _) as [[r n]|] eqn:L;
    [|discriminate].
  intros H. injection H as <-.
  apply (cleanLoop_keeps (fun s => Valid s /\ allRunes cleanTok s) _
           (fun s => cleanStep_clean re s C) _ _ _ _) in L; [exact L|].
  pose proof (ToValidUTF8_Valid R validR x) as V0.
  split; [now apply cleanPasses_Valid_text | now apply cleanPasses_clean].
Qed.

End Invisible.

Lemma hex_cleanRune (s : gostring) :
  Forall spec.lowerHex s -> names.cleanString s = true.
Proof.
  intros H. apply cleanString_iff. unfold allRunes.
  rewrite runes_ascii
    by (revert H; apply Forall_impl; intros c; unfold spec.lowerHex; lia).
  apply Forall_map. revert H. apply Forall_impl. intros c Hc.
  cbn [tokens.ascii fst].
  assert (K : forall x, 0 <= x < Z.of_nat 128 ->
                        implb (((48 <=? x) && (x <=? 57))
                               || ((97 <=? x) && (x <=? 102)))
                              (names.cleanRune x) = true).
  { apply forall_below. vm_compute. reflexivity. }
  unfold spec.lowerHex in Hc. specialize (K (code c) ltac:(lia)).
  destruct (((48 <=? code c) && (code c <=? 57))
            || ((97 <=? code c) && (code c <=? 102))) eqn:E; [exact K | lia].
Qed.

Lemma runes_app_Valid (a b : gostring) :
  Valid a -> utf8.runes (a ++ b) = utf8.runes a ++ utf8.runes b.
Proof.
  intros [ts [F <-]]. rewrite runes_bytes_app by now apply wf_stable.
  now rewrite wf_runes.
Qed.



(** ** The names that [Name] leaves as they are *)

(** A replacement with any template, as a pass on runes. *)
Lemma ReplaceAllString_pass (re : regexp.Regexp) (s R : gostring) :
  regexp.ReplaceAllString re s R = pass re (putTemplate R) s.
Proof.
  unfold regexp.ReplaceAllString, pass. apply replaceAll_tokens.
  intros g m. unfold putTemplate. cbn. now rewrite app_nil_r.
Qed.

(** The runes of a string without byte of a class of ASCII characters are
    not of the class. *)
Lemma bytes_class_runes (P : rune -> bool) (s : gostring) :
  (forall r, P r = true -> r < 128) ->
  Forall (fun c => P (code c) = false) s ->
  allRunes (fun t => P (fst t) = false) s.
Proof.
  intros A F. unfold allRunes.
  pose proof (runes_bytes_Forall _ s F) as B.
  pose proof (runes_ok s) as K.
  induction K as [|t ts Ht _ IH]; [constructor|].
  inversion B as [|? ? Bt Bts]; subst.
  constructor; [|now apply IH].
  destruct Ht as [_ [[c [-> Hc]]|[Hr _]]]; cbn [fst snd] in *.
  - now inversion Bt.
  - destruct (P (fst t)) eqn:E; [|reflexivity]. apply A in E. lia.
Qed.

Lemma unescape_no_amp (s : gostring) :
  ~ In "&"%char s -> html.UnescapeString s = s.
Proof.
  induction s as [|c s IH]; intros N; [reflexivity|].
  rewrite unescape_other by (intros ->; apply N; now left).
  rewrite IH; [reflexivity|]. intros H. apply N. now right.
Qed.

(** The pass [leftdotExpr] leaves a string that does not start with two
    dots as it is. *)
Lemma leftdot_id (s : gostring) :
  names.twoDots s = false ->
  regexp.ReplaceAllString svach.leftdotExpr s (str ".") = s.
Proof.
  intros T. rewrite replace_dot. unfold pass.
  pose proof (runes_ok s) as F. pose proof (bytes_runes s) as B.
  destruct (utf8.runes s) as [|t ts] eqn:R; [exact B|].
  unfold svach.leftdotExpr.
  destruct (regexp.startPlus (regexp.only ".") true (t :: ts))
    as [[g n]|] eqn:M.
  - pose proof (startPlus_nonempty _ _ _ _ _ M) as W.
    rewrite (replace_match _ _ _ _ _ _ _ M) by lia.
    rewrite replace_startPlus_false.
    unfold regexp.startPlus in M. cbn [andb] in M.
    destruct (1 <=? regexp.run (regexp.only ".") (t :: ts))%nat; [|discriminate].
    injection M as _ Hn.
    assert (Hn' : n = regexp.run (regexp.only ".") (t :: ts))
      by (rewrite <- Hn; reflexivity).
    clear Hn. rewrite run_cons in Hn'.
    apply Forall_cons_iff in F. destruct F as [Ft Fts].
    destruct (regexp.only "." (fst t)) eqn:D1; [|lia].
    assert (E1 : t = tokens.ascii ".").
    { apply ascii_tok; [vm_compute; reflexivity | exact Ft|].
      unfold regexp.only in D1. lia. }
    destruct ts as [|u ts'].
    + subst n. cbn [regexp.run skipn tokens.put app]. subst t. exact B.
    + rewrite run_cons in Hn'.
      destruct (regexp.only "." (fst u)) eqn:D2.
      * exfalso. apply Forall_cons_iff in Fts. destruct Fts as [Fu _].
        assert (E2 : u = tokens.ascii ".").
        { apply ascii_tok; [vm_compute; reflexivity | exact Fu|].
          unfold regexp.only in D2. lia. }
        subst u t. rewrite <- B in T. cbn in T. discriminate.
      * subst n. cbn [skipn tokens.put app]. subst t. exact B.
  - rewrite (replace_nomatch _ _ _ _ _ M), replace_startPlus_false. exact B.
Qed.

(** The passes of [name] leave a clean name as it is, whatever the
    replacement string is. *)
Lemma nameIntr_id (y R : gostring) :
  Valid y -> Forall names.nameByte y -> ~ In "&"%char y ->
  tokens.endsSD y = false -> names.twoDots y = false ->
  svach.nameIntr y R = y.
Proof.
  intros V S A E T. unfold svach.nameIntr.
  apply nameByte_Forall in S. destruct S as [S1 S2].
  rewrite (ToValidUTF8_valid y R V), (unescape_no_amp y A).
  rewrite (ReplaceAllString_pass svach.cntrlExp).
  rewrite (class_id regexp.cntrl svach.cntrlExp _ y (one_matchesClass _)
                    (bytes_class_runes _ y cntrl_ascii S1)).
  rewrite (ReplaceAllString_pass svach.invCharExp).
  rewrite (class_id svach.invChar svach.invCharExp _ y (plus_matchesClass _)
                    (bytes_class_runes _ y invChar_ascii S2)).
  rewrite (ReplaceAllString_pass svach.rightSDExp).
  rewrite (rightSD_id _ y E).
  now apply leftdot_id.
Qed.

(** X10: [Name] returns a name as it is, whatever the replacement string
    is, when the name is valid UTF-8, holds no control character, none of
    the nine invalid characters and no ampersand, does not end in a space
    character or a dot, does not start with two dots, is accepted by
    [valid], is not the replacement string and is not longer than the
    maximal length. *)
Theorem X10_Name_keeps_a_clean_name (s : svach.Svach) (y : gostring) :
  utf8.ValidString y = true ->
  Forall names.nameByte y ->
  ~ In "&"%char y ->
  tokens.endsSD y = false ->
  names.twoDots y = false ->
  svach.valid y = true ->
  y <> svach.replaceStr s ->
  len y <= svach.maxLen s ->
  svach.Name s y = Value y.
Proof.
  intros U S A E T W N L. apply Valid_iff in U.
  unfold svach.Name, svach.name.
  rewrite (nameIntr_id y (svach.replaceStr s) U S A E T).
  unfold svach.validName. rewrite W.
  destruct (bytes_eqb_spec y (svach.replaceStr s)) as [X|_]; [congruence|].
  destruct (bytes_eqb_spec y []) as [X|_]; [subst y; discriminate|].
  cbn [negb andb].
  destruct (svach.maxLen s <? len y) eqn:C; [lia | reflexivity].
Qed.

Lemma X10_witness :
  svach.Name (svach.mkSvach (str "$0") 240) (str ".a b_c") = Value (str ".a b_c").
Proof.
  apply (X10_Name_keeps_a_clean_name (svach.mkSvach (str "$0") 240) (str ".a b_c"));
    try reflexivity.
  - apply nameByte_check. reflexivity.
  - cbn. intuition discriminate.
  - discriminate.
  - cbn. lia.
Defined.

(** ** The names that [valid] rejects *)

Lemma ToLower_ascii (s : gostring) :
  strings.isASCII s = true -> strings.ToLower s = map names.asciiLower s.
Proof. intros A. unfold strings.ToLower. rewrite A. reflexivity. Qed.

Lemma reserved_shape (n : gostring) :
  In n spec.reservedNames ->
  1 <= len n <= 4 /\ Forall (fun c => code c < 128) n.
Proof.
  assert (K : Forall (fun n => 1 <= len n <= 4
                               /\ Forall (fun c => code c < 128) n)
                     spec.reservedNames).
  { repeat constructor; cbn; lia. }
  rewrite Forall_forall in K. apply K.
Qed.

Lemma asciiLower_ascii (c : ascii) :
  code (names.asciiLower c) < 128 -> code c < 128.
Proof.
  unfold names.asciiLower.
  destruct ((65 <=? code c) && (code c <=? 90)) eqn:E; [lia | auto].
Qed.

Lemma isASCII_iff (s : gostring) :
  strings.isASCII s = true <-> Forall (fun c => code c < 128) s.
Proof.
  unfold strings.isASCII, utf8.RuneSelf.
  rewrite forallb_forall, Forall_forall.
  split; intros H c Hc; specialize (H c Hc); lia.
Qed.

(** X11: [valid] rejects the empty string and the strings that are a
    reserved name once their ASCII capital letters are made small, and no
    other string: a string with a byte above ASCII is never rejected. *)
Theorem X11_valid_rejects_reserved_names_in_any_case (name : gostring) :
  svach.valid name = false
  <-> name = [] \/ In (map names.asciiLower name) spec.reservedNames.
Proof.
  rewrite valid_false_iff. split.
  - intros [E|[L I]]; [now left | right].
    destruct (strings.isASCII name) eqn:A.
    + now rewrite <- ToLower_ascii.
    + exfalso. unfold strings.ToLower in I. rewrite A in I.
      exact (mapToLower_not_reserved name A I).
  - intros [E|I]; [now left | right].
    destruct (reserved_shape _ I) as [L F].
    assert (A : strings.isASCII name = true).
    { apply isASCII_iff. rewrite Forall_map in F. revert F.
      apply Forall_impl. intros c. apply asciiLower_ascii. }
    rewrite (ToLower_ascii name A). split; [|exact I].
    unfold len in *. now rewrite length_map in L.
Qed.

(** ** One pass of the repeated separators *)

(** Two runes of the same class of [cleanExpr]. *)
Lemma sameClass_true (r1 r2 : rune) :
  names.sameClass r1 r2 = true ->
  exists P, In P svach.cleanVals /\ P r1 = true /\ P r2 = true.
Proof.
  unfold names.sameClass. intros H. apply existsb_exists in H.
  destruct H as [P [I H]]. apply andb_true_iff in H. exists P. tauto.
Qed.

Lemma sameClass_intro (P : rune -> bool) (r1 r2 : rune) :
  In P svach.cleanVals -> P r1 = true -> P r2 = true ->
  names.sameClass r1 r2 = true.
Proof.
  intros I A B. unfold names.sameClass. apply existsb_exists.
  exists P. split; [exact I|]. now rewrite A, B.
Qed.

(** The pattern matches where two runes of the same class stand. *)
Lemma cleanExpr_pair (b : bool) (t1 t2 : utf8.token) (ts : list utf8.token) :
  names.sameClass (fst t1) (fst t2) = true ->
  svach.cleanExpr b (t1 :: t2 :: ts) <> None.
Proof.
  intros H. destruct (sameClass_true _ _ H) as [P [I [A B]]].
  apply (repeated_match svach.cleanVals P I).
  rewrite !run_cons, A, B. lia.
Qed.

(** The character put for a class is of this class only. *)
Lemma canonical_class (g : nat) (P : rune -> bool) (m : list utf8.token) :
  nth_error svach.cleanVals (g - 1) = Some P -> (1 <= g)%nat ->
  exists c, tokens.canonical g m = [tokens.ascii c]
            /\ forall r, names.sameClass r (code c) = true -> P r = true.
Proof.
  intros H G.
  destruct g as [|[|[|[|[|[|[|g]]]]]]]; try lia;
    cbn [Nat.sub nth_error svach.cleanVals] in H;
    try (injection H as <-);
    try (eexists; split; [reflexivity|];
         intros r; unfold names.sameClass, svach.cleanVals,
                   regexp.space, regexp.only; cbn; lia).
  destruct g; discriminate.
Qed.

Lemma run_head (P : rune -> bool) (t : utf8.token) (ts : list utf8.token) :
  (1 <= regexp.run P (t :: ts))%nat -> P (fst t) = true.
Proof. rewrite run_cons. destruct (P (fst t)); [reflexivity | lia]. Qed.

(** After the pass no two runes of the same class stand one after the
    other, and the first rune is of the class of the first rune before. *)
Lemma collapse_noPairs :
  forall ts b,
    names.noPairs (tokens.replace svach.cleanExpr tokens.canonical b 0 ts) = true
    /\ match tokens.replace svach.cleanExpr tokens.canonical b 0 ts, ts with
       | o :: _, t :: _ =>
         forall r, names.sameClass r (fst o) = true ->
                   names.sameClass r (fst t) = true
       | _ :: _, [] => False
       | [], _ => True
       end.
Proof.
  apply (replace_ind svach.cleanExpr tokens.canonical
           (fun b ts out =>
              names.noPairs out = true
              /\ match out, ts with
                 | o :: _, t :: _ =>
                   forall r, names.sameClass r (fst o) = true ->
                             names.sameClass r (fst t) = true
                 | _ :: _, [] => False
                 | [], _ => True
                 end) (repeated_nonempty _ _)).
  - intros _. split; [reflexivity | exact I].
  - intros b t rest g n out M W [IH1 IH2].
    destruct (repeated_some _ _ _ _ _ _ M) as [P [HP [Hg [Hn H2]]]].
    destruct (canonical_class g P (firstn n (t :: rest)) HP ltac:(lia))
      as [c [-> Hc]].
    assert (IP : In P svach.cleanVals) by (eapply nth_error_In; eauto).
    assert (Pt : P (fst t) = true) by (apply (run_head P t rest); lia).
    cbn [app]. split.
    + cbn [names.noPairs]. destruct out as [|o out']; [reflexivity|].
      rewrite IH1, andb_true_r.
      destruct (names.sameClass (fst (tokens.ascii c)) (fst o)) eqn:S;
        [exfalso | reflexivity].
      destruct (skipn n (t :: rest)) as [|t' rest'] eqn:K; [exact IH2|].
      specialize (IH2 _ S).
      destruct (sameClass_true _ _ IH2) as [Q [IQ [Qc Qt]]].
      assert (Pt' : P (fst t') = true).
      { apply Hc. cbn [tokens.ascii fst] in Qc.
        apply (sameClass_intro Q); auto. }
      pose proof (run_skipn_run P (t :: rest)) as Z.
      rewrite <- Hn, K, run_cons, Pt' in Z. discriminate.
    + intros r Hr. cbn [tokens.ascii fst] in Hr.
      apply (sameClass_intro P); auto.
  - intros b t rest out M [IH1 IH2]. split; [|auto].
    cbn [names.noPairs]. destruct out as [|o out']; [reflexivity|].
    rewrite IH1, andb_true_r.
    destruct (names.sameClass (fst t) (fst o)) eqn:S; [exfalso | reflexivity].
    destruct rest as [|t2 rest']; [exact IH2|].
    specialize (IH2 _ S).
    exact (cleanExpr_pair b t t2 rest' IH2 M).
Qed.

Lemma noPairs_nomatch (ts : list utf8.token) :
  names.noPairs ts = true ->
  forall b k, svach.cleanExpr b (skipn k ts) = None.
Proof.
  induction ts as [|t ts IH]; intros N b k.
  - rewrite skipn_nil. reflexivity.
  - assert (N' : names.noPairs ts = true).
    { cbn [names.noPairs] in N. destruct ts; [reflexivity|].
      apply andb_true_iff in N. tauto. }
    destruct k as [|k]; [|exact (IH N' b k)].
    cbn [skipn].
    destruct (svach.cleanExpr b (t :: ts)) as [[g n]|] eqn:M; [|reflexivity].
    exfalso.
    destruct (repeated_some _ _ _ _ _ _ M) as [P [HP [Hg [Hn H2]]]].
    assert (IP : In P svach.cleanVals) by (eapply nth_error_In; eauto).
    destruct ts as [|t2 ts'].
    { rewrite run_cons in Hn. cbn [regexp.run] in Hn.
      destruct (P (fst t)); lia. }
    cbn [names.noPairs] in N. apply andb_true_iff in N. destruct N as [N _].
    rewrite !run_cons in Hn.
    destruct (P (fst t)) eqn:A; [|lia].
    destruct (P (fst t2)) eqn:B; [|lia].
    rewrite (sameClass_intro P _ _ IP A B) in N. discriminate.
Qed.

Lemma canonical_tok_ok (g : nat) (m : list utf8.token) :
  Forall tok_ok (tokens.canonical g m).
Proof.
  pose proof (canonical_wf g m) as W. revert W.
  apply Forall_impl. intros t. apply wf_tok_ok.
Qed.

(** The pass, on the runes of any string. *)
Lemma collapse_out (s : gostring) :
  let out := tokens.replace svach.cleanExpr tokens.canonical true 0
                            (utf8.runes s) in
  svach.replaceAllStringSubmatch
    (regexp.FindAllStringSubmatchIndex svach.cleanExpr 6 s)
    s svach.cleanReplaceWith = utf8.bytes out
  /\ Forall tok_ok out
  /\ names.noPairs out = true.
Proof.
  intros out. split; [apply collapse_tokens|]. split.
  - apply replace_Forall;
      [apply repeated_nonempty | apply canonical_tok_ok | apply runes_ok].
  - exact (proj1 (collapse_noPairs (utf8.runes s) true)).
Qed.

(** A replacement that makes every match shorter, or leaves it as it is,
    makes the text shorter or leaves it as it is. *)
Lemma replace_shrink (re : regexp.Regexp) rep :
  tokens.nonempty re ->
  (forall b ts g n,
      re b ts = Some (g, n) -> Forall tok_ok ts ->
      rep g (firstn n ts) = firstn n ts
      \/ (length (utf8.bytes (rep g (firstn n ts)))
          < length (utf8.bytes (firstn n ts)))%nat) ->
  forall ts b,
    Forall tok_ok ts ->
    (length (utf8.bytes (tokens.replace re rep b 0 ts))
     <= length (utf8.bytes ts))%nat
    /\ (length (utf8.bytes (tokens.replace re rep b 0 ts))
        = length (utf8.bytes ts) ->
        tokens.replace re rep b 0 ts = ts).
Proof.
  intros WF Hrep ts b.
  apply (replace_ind re rep
           (fun b ts out =>
              Forall tok_ok ts ->
              (length (utf8.bytes out) <= length (utf8.bytes ts))%nat
              /\ (length (utf8.bytes out) = length (utf8.bytes ts) ->
                  out = ts)) WF).
  - intros _ _. split; reflexivity.
  - intros b' t rest g n out M W IH F.
    destruct (IH (Forall_skipn _ _ n _ F)) as [L E]. clear IH.
    pose proof (Hrep _ _ _ _ M F) as R.
    pose proof (firstn_skipn n (t :: rest)) as FS.
    set (m := firstn n (t :: rest)) in *.
    set (tl := skipn n (t :: rest)) in *.
    rewrite <- FS, !bytes_app, !length_app.
    destruct R as [Same|Less].
    + rewrite Same. split; [lia|]. intros X. f_equal. apply E. lia.
    + split; [lia|]. intros X. exfalso. lia.
  - intros b' t rest out M IH F. inversion F as [|? ? Ft Fr]; subst.
    destruct (IH Fr) as [L E]. rewrite !bytes_cons, !length_app.
    split; [lia|]. intros X. f_equal. apply E. lia.
Qed.

Lemma collapse_shrinks (s : gostring) :
  let c := svach.replaceAllStringSubmatch
             (regexp.FindAllStringSubmatchIndex svach.cleanExpr 6 s)
             s svach.cleanReplaceWith in
  len c <= len s /\ (len c = len s -> c = s).
Proof.
  intros c. subst c. rewrite collapse_tokens.
  destruct (replace_shrink svach.cleanExpr tokens.canonical
                           (repeated_nonempty _ _)) with
      (ts := utf8.runes s) (b := true) as [L E].
  - intros b ts g n M F. right.
    destruct (repeated_some _ _ _ _ _ _ M) as [P [_ [_ [Hn H2]]]].
    pose proof (run_le P ts).
    pose proof (bytes_length_pos _ (firstn_tok_ok n ts F)) as B.
    rewrite length_firstn in B.
    rewrite canonical_bytes.
    assert (length (nth g svach.cleanReplaceWith []) <= 1)%nat.
    { do 7 (destruct g as [|g]; [simpl; lia|]). destruct g; simpl; lia. }
    lia.
  - apply runes_ok.
  - rewrite bytes_runes in *. unfold len. split; [lia|].
    intros X. rewrite E by lia. apply bytes_runes.
Qed.

Lemma collapse_nonempty (ts : list utf8.token) (b : bool) :
  Forall tok_ok ts -> ts <> [] ->
  utf8.bytes (tokens.replace svach.cleanExpr tokens.canonical b 0 ts) <> [].
Proof.
  intros F N. destruct ts as [|t rest]; [congruence|].
  destruct (svach.cleanExpr b (t :: rest)) as [[g n]|] eqn:M.
  - pose proof (repeated_nonempty _ _ _ _ _ _ M) as W.
    rewrite (replace_match _ _ _ _ _ _ _ M) by lia.
    destruct (repeated_some _ _ _ _ _ _ M) as [P [HP [Hg _]]].
    destruct (canonical_class g P (firstn n (t :: rest)) HP ltac:(lia))
      as [c [-> _]].
    discriminate.
  - rewrite (replace_nomatch _ _ _ _ _ M), bytes_cons.
    inversion F as [|? ? [Nt _] _]; subst.
    destruct (snd t); [congruence | discriminate].
Qed.

(** X12: one call of [replaceAllStringSubmatch] with [cleanExpr] and
    [cleanReplaceWith], as in the loop of [clean], returns a string that is
    not longer than its input, is the input when it is as long, is empty
    only for the empty input (the number of groups fits, so that the branch
    that returns the empty string is never taken), and in which no
    separator is repeated any more. *)
Theorem X12_one_pass_collapses_all_repeated_separators (src : gostring) :
  let out := svach.replaceAllStringSubmatch
               (regexp.FindAllStringSubmatchIndex svach.cleanExpr 6 src)
               src svach.cleanReplaceWith in
  len out <= len src
  /\ (len out = len src -> out = src)
  /\ (out = [] -> src = [])
  /\ names.noRepeat out = true.
Proof.
  intros out. destruct (collapse_shrinks src) as [L E].
  destruct (collapse_out src) as [B [F N]]. cbv zeta in B.
  split; [exact L|]. split; [exact E|]. split.
  - intros Z. unfold out in Z. rewrite B in Z.
    destruct (utf8.runes src) as [|t ts] eqn:R.
    + rewrite <- (bytes_runes src), R. reflexivity.
    + exfalso. revert Z. apply collapse_nonempty; [|discriminate].
      rewrite <- R. apply runes_ok.
  - unfold out. rewrite B. apply tokens_noRepeat; [exact F|].
    intros k. now apply noPairs_nomatch.
Qed.

(** X13: on a string of valid encodings, a second call of
    [replaceAllStringSubmatch] with [cleanExpr] and [cleanReplaceWith]
    changes nothing. *)
Theorem X13_collapse_is_idempotent (src : gostring) :
  utf8.ValidString src = true ->
  let collapse s :=
      svach.replaceAllStringSubmatch
        (regexp.FindAllStringSubmatchIndex svach.cleanExpr 6 s)
        s svach.cleanReplaceWith in
  collapse (collapse src) = collapse src.
Proof.
  intros U collapse. apply Valid_iff in U. unfold collapse.
  destruct (collapse_out src) as [B [F N]]. cbv zeta in B.
  pose proof (pass_runes svach.cleanExpr tokens.canonical src
                         (repeated_nonempty _ _) canonical_wf U) as [Rn V].
  unfold pass in Rn, V. rewrite <- B in Rn, V.
  set (c := svach.replaceAllStringSubmatch _ src _) in *.
  rewrite (collapse_tokens c), Rn.
  rewrite replace_none; [now symmetry|].
  intros k. now apply noPairs_nomatch.
Qed.

Lemma X13_witness :
  let collapse s :=
      svach.replaceAllStringSubmatch
        (regexp.FindAllStringSubmatchIndex svach.cleanExpr 6 s)
        s svach.cleanReplaceWith in
  collapse (collapse (str "a__  b")) = collapse (str "a__  b").
Proof.
  apply (X13_collapse_is_idempotent (str "a__  b")). reflexivity.
Defined.

(** ** The command: one name for each argument *)

Lemma nameByte_newline (s : gostring) :
  Forall names.nameByte s -> ~ In (chr 10) s.
Proof.
  intros F I. rewrite Forall_forall in F. destruct (F _ I) as [C _].
  apply C. left. vm_compute. discriminate.
Qed.

Lemma fallback_le (x : gostring) (m : Z) (out : gostring) :
  32 <= m -> len out <= m \/ out = spec.fallback x -> len out <= m.
Proof.
  intros M [L| ->]; [exact L|]. rewrite fallback_length. exact M.
Qed.

(** What the command prints for one argument. *)
Lemma newName_returns (f : cmd.flags) (x : gostring) :
  exists n, forall fuel,
      (n <= fuel)%nat ->
      exists nn, cmd.newName fuel f x = Value nn
                 /\ svach.valid nn = true
                 /\ Forall names.nameByte nn
                 /\ ~ In (chr 10) nn
                 /\ len nn <= 240.
Proof.
  unfold cmd.newName, cmd.s, svach.Clean, svach.Name, svach.New, svach.iMaxLen.
  cbn [svach.replaceStr svach.maxLen].
  assert (D : ~ In "$"%char (@nil ascii)) by (intros []).
  destruct (cmd.name f); cbn [negb].
  - exists 0%nat. intros fuel _.
    destruct (name_returns [] x 240 Valid_nil D ltac:(lia)) as [out [E [W L]]].
    assert (B : Forall names.nameByte out)
      by apply (validName_bytes names.nameByte _ _ _ _ _ lowerHex_nameByte
                                (nameIntr_nameByte [] D (Forall_nil _) x) E).
    exists out. split; [exact E|]. split; [exact W|]. split; [exact B|].
    split; [now apply nameByte_newline|].
    apply (fallback_le x); [lia | exact L].
  - destruct (clean_returns [] x 240 Valid_nil eq_refl eq_refl ltac:(lia))
      as [n H].
    exists n. intros fuel Hf. destruct (H fuel Hf) as [out [E [W L]]].
    assert (B : Forall names.nameByte out).
    { unfold svach.clean in E.
      destruct (svach.cleanIntr fuel x []) as [intr| | |] eqn:I;
        try discriminate.
      apply (validName_bytes names.nameByte _ _ _ _ _ lowerHex_nameByte
               (cleanIntr_nameByte fuel x [] intr D (Forall_nil _) I) E). }
    exists out. split; [exact E|]. split; [exact W|]. split; [exact B|].
    split; [now apply nameByte_newline|].
    apply (fallback_le x); [lia | exact L].
Qed.

Lemma printArgs_returns (f : cmd.flags) (args : list gostring) :
  exists n, forall fuel,
      (n <= fuel)%nat ->
      forall stdout,
      exists names,
        cmd.printArgs fuel f args stdout
        = (stdout ++ concat (map (fun nn => nn ++ [chr 10]) names), Value tt)
        /\ Forall2 (fun arg nn => cmd.newName fuel f arg = Value nn) args names
        /\ Forall (fun nn => svach.valid nn = true /\ Forall names.nameByte nn
                             /\ ~ In (chr 10) nn /\ len nn <= 240) names.
Proof.
  induction args as [|x args [n2 IH]].
  - exists 0%nat. intros fuel _ stdout. exists [].
    cbn. rewrite app_nil_r. repeat split; constructor.
  - destruct (newName_returns f x) as [n1 H1].
    exists (Nat.max n1 n2). intros fuel Hf stdout.
    destruct (H1 fuel ltac:(lia)) as [nn [E G]].
    destruct (IH fuel ltac:(lia) (stdout ++ nn ++ [chr 10]))
      as [names [P [F2 FG]]].
    exists (nn :: names). cbn [cmd.printArgs map concat].
    rewrite E, P. rewrite <- !app_assoc.
    repeat split; [constructor; assumption | constructor; assumption].
Qed.

(** X14: called with arguments, [main] ends without panic and prints one
    line for each argument, in order: the name that [Clean], or [Name] with
    the flag [-n], returns for it with the default options.  Each name is
    accepted by [valid], holds no control character, so no new line, and
    none of the nine invalid characters, and is at most 240 bytes long. *)
Theorem X14_main_prints_one_valid_name_per_argument
        (f : cmd.flags) (args : list gostring) :
  args <> [] ->
  exists n, forall fuel,
      (n <= fuel)%nat ->
      exists names,
        cmd.main fuel f args
        = (concat (map (fun nn => nn ++ [chr 10]) names), Value tt)
        /\ Forall2 (fun arg nn => cmd.newName fuel f arg = Value nn) args names
        /\ Forall (fun nn => svach.valid nn = true /\ Forall names.nameByte nn
                             /\ ~ In (chr 10) nn /\ len nn <= 240) names.
Proof.
  intros N. destruct (printArgs_returns f args) as [n H].
  exists n. intros fuel Hf. destruct (H fuel Hf []) as [names P].
  exists names. unfold cmd.main. destruct args; [congruence | exact P].
Qed.

Lemma X14_witness :
  exists n, forall fuel,
      (n <= fuel)%nat ->
      exists names,
        cmd.main fuel (cmd.mkFlags false false false) [str "a<b"; str "con"]
        = (concat (map (fun nn => nn ++ [chr 10]) names), Value tt)
        /\ Forall2 (fun arg nn =>
                      cmd.newName fuel (cmd.mkFlags false false false) arg
                      = Value nn)
                   [str "a<b"; str "con"] names
        /\ Forall (fun nn => svach.valid nn = true /\ Forall names.nameByte nn
                             /\ ~ In (chr 10) nn /\ len nn <= 240) names.
Proof.
  apply (X14_main_prints_one_valid_name_per_argument
           (cmd.mkFlags false false false) [str "a<b"; str "con"]).
  discriminate.
Defined.

(** ** With the empty replacement string a name is not longer than the
    input *)

Lemma EncodeRune_length (r : rune) :
  (1 <= length (utf8.EncodeRune r) <= 4)%nat.
Proof.
  unfold utf8.EncodeRune.
  repeat match goal with
         | |- context [if ?b then _ else _] => destruct b
         end; cbn [length]; lia.
Qed.

(** No entity of the tables stands for more bytes than its name has, the
    ampersand counted. *)
Lemma entity_short :
  forallb (fun e : string * rune =>
             (length (utf8.EncodeRune (snd e)) <=? S (length (str (fst e))))%nat)
          html.entity = true.
Proof. vm_compute. reflexivity. Qed.

Lemma entity2_short :
  forallb (fun e : string * (rune * rune) =>
             (length (utf8.EncodeRune (fst (snd e))
                      ++ utf8.EncodeRune (snd (snd e)))
              <=? S (length (str (fst e))))%nat)
          html.entity2 = true.
Proof. vm_compute. reflexivity. Qed.

Lemma lookup_some (A : Type) (tbl : list (string * A)) (name : gostring)
      (x : A) :
  html.lookup tbl name = Some x ->
  exists e, In e tbl /\ str (fst e) = name /\ snd e = x.
Proof.
  unfold html.lookup. intros H.
  destruct (find _ tbl) as [e|] eqn:F; [|discriminate].
  injection H as <-. apply find_some in F. destruct F as [I E].
  exists e. split; [exact I|]. split; [|reflexivity].
  now destruct (bytes_eqb_spec (str (fst e)) name).
Qed.

Lemma entity_length (name : gostring) (x : rune) :
  html.lookup html.entity name = Some x ->
  (length (utf8.EncodeRune x) <= S (length name))%nat.
Proof.
  intros H. destruct (lookup_some _ _ _ _ H) as [e [I [<- <-]]].
  pose proof entity_short as K. rewrite forallb_forall in K.
  specialize (K e I). now apply Nat.leb_le in K.
Qed.

Lemma entity2_length (name : gostring) (x0 x1 : rune) :
  html.lookup html.entity2 name = Some (x0, x1) ->
  (length (utf8.EncodeRune x0 ++ utf8.EncodeRune x1) <= S (length name))%nat.
Proof.
  intros H. destruct (lookup_some _ _ _ _ H) as [e [I [<- E]]].
  pose proof entity2_short as K. rewrite forallb_forall in K.
  specialize (K e I). rewrite E in K. now apply Nat.leb_le in K.
Qed.

Lemma longestPrefix_some (name : gostring) :
  forall j x n,
    html.longestPrefix name j = Some (x, n) ->
    exists j', n = S j' /\ html.lookup html.entity (firstn j' name) = Some x.
Proof.
  induction j as [|j IH]; intros x n H; [discriminate|].
  cbn [html.longestPrefix] in H.
  destruct (1 <? S j)%nat; [|discriminate].
  destruct (html.lookup html.entity (firstn (S j) name)) as [y|] eqn:L.
  - injection H as <- <-. exists (S j). auto.
  - exact (IH _ _ H).
Qed.

(** What stands for an entity is not longer than the entity. *)
Lemma unescapeEntity_length (t : gostring) (out : gostring) (n : nat) :
  html.unescapeEntity ("&"%char :: t) = (out, n) ->
  (length out <= n)%nat.
Proof.
  set (s := "&"%char :: t).
  assert (Amp : forall out n, (firstn 1 s, 1%nat) = (out, n) ->
                              (length out <= n)%nat).
  { intros o k H. injection H as <- <-. subst s. cbn. lia. }
  unfold html.unescapeEntity. fold s. subst s.
  destruct t as [|c1 rest]; [apply Amp|].
  destruct (Ascii.eqb_spec c1 "#") as [->|NotHash].
  - destruct rest as [|c2 rest2]; [apply Amp|].
    destruct (len ("&"%char :: "#"%char :: c2 :: rest2) <=? 3); [apply Amp|].
    set (s := "&"%char :: "#"%char :: c2 :: rest2) in *.
    set (hex := Ascii.eqb c2 "x" || Ascii.eqb c2 "X").
    set (start := if hex then 3%nat else 2%nat).
    destruct (html.scanDigits hex 0 (skipn start s)) as [x k] eqn:SD.
    destruct (start + k <=? 3)%nat eqn:E3; [apply Amp|].
    intros H. injection H as <- <-. apply Nat.leb_gt in E3.
    match goal with
    | |- (length (utf8.EncodeRune ?r) <= _)%nat =>
      pose proof (EncodeRune_length r)
    end. lia.
  - set (s := "&"%char :: c1 :: rest).
    set (i := S (html.scanName (skipn 1 s))).
    assert (Verb : forall out n, (firstn i s, i) = (out, n) ->
                                 (length out <= n)%nat).
    { intros o k H.
      assert (X : (length (fst (firstn i s, i)) <= snd (firstn i s, i))%nat)
        by (cbn [fst snd]; apply firstn_le_length).
      rewrite H in X. exact X. }
    destruct (firstn (i - 1) (skipn 1 s)) as [|e0 ename] eqn:EN; [apply Verb|].
    assert (LN : (length (e0 :: ename) <= i - 1)%nat).
    { rewrite <- EN, length_firstn. lia. }
    destruct (html.lookup html.entity (e0 :: ename)) as [x|] eqn:L1.
    { intros H. injection H as <- <-.
      pose proof (entity_length _ _ L1). lia. }
    destruct (html.lookup html.entity2 (e0 :: ename)) as [[x0 x1]|] eqn:L2.
    { intros H. injection H as <- <-.
      pose proof (entity2_length _ _ _ L2). lia. }
    destruct (html.longestPrefix (e0 :: ename) _) as [[x k]|] eqn:LP;
      [|apply Verb].
    intros H. injection H as <- <-.
    destruct (longestPrefix_some _ _ _ _ LP) as [j' [-> L3]].
    pose proof (entity_length _ _ L3) as K.
    rewrite length_firstn in K. lia.
Qed.

(** [html.UnescapeString] returns a string that is not longer. *)
Lemma UnescapeString_length (s : gostring) :
  (length (html.UnescapeString s) <= length s)%nat.
Proof.
  remember (length s) as n eqn:Hn. revert s Hn.
  induction n as [n IH] using lt_wf_ind. intros s Hn.
  destruct s as [|c t]; [cbn; lia|].
  destruct (Ascii.eqb_spec c "&") as [->|N].
  - destruct (html.unescapeEntity ("&"%char :: t)) as [out k] eqn:U.
    rewrite (unescape_amp t out k U), length_app.
    destruct (unescapeEntity_spec t out k U) as [[L1 L2] _].
    pose proof (unescapeEntity_length t out k U) as L3.
    assert (LT : (length (skipn k ("&"%char :: t)) < n)%nat)
      by (rewrite length_skipn; subst n; lia).
    pose proof (IH _ LT (skipn k ("&"%char :: t)) eq_refl) as X.
    rewrite length_skipn in X. subst n. lia.
  - rewrite (unescape_other c t N). cbn [length].
    specialize (IH (length t) ltac:(subst n; cbn; lia) t eq_refl).
    subst n. cbn [length]. lia.
Qed.

(** A replacement that puts no more bytes than each match has returns a
    text that is not longer. *)
Lemma replace_le (re : regexp.Regexp) rep :
  tokens.nonempty re ->
  (forall b ts g n,
      re b ts = Some (g, n) -> Forall tok_ok ts ->
      (length (utf8.bytes (rep g (firstn n ts)))
       <= length (utf8.bytes (firstn n ts)))%nat) ->
  forall ts b,
    Forall tok_ok ts ->
    (length (utf8.bytes (tokens.replace re rep b 0 ts))
     <= length (utf8.bytes ts))%nat.
Proof.
  intros WF Hrep.
  apply (replace_ind re rep
           (fun b ts out =>
              Forall tok_ok ts ->
              (length (utf8.bytes out) <= length (utf8.bytes ts))%nat) WF).
  - intros _ _. reflexivity.
  - intros b t rest g n out M W IH F.
    specialize (IH (Forall_skipn _ _ n _ F)).
    pose proof (Hrep _ _ _ _ M F) as R.
    rewrite <- (firstn_skipn n (t :: rest)) at 2.
    rewrite !bytes_app, !length_app. lia.
  - intros b t rest out M IH F. inversion F as [|? ? Ft Fr]; subst.
    specialize (IH Fr). rewrite !bytes_cons, !length_app. lia.
Qed.

Lemma pass_drop_le (re : regexp.Regexp) (s : gostring) :
  tokens.nonempty re ->
  (length (regexp.ReplaceAllString re s []) <= length s)%nat.
Proof.
  intros WF. rewrite replace_nil. unfold pass.
  pose proof (replace_le re tokens.drop WF) as H.
  specialize (H ltac:(intros; cbn; lia) (utf8.runes s) true (runes_ok s)).
  now rewrite bytes_runes in H.
Qed.

Lemma pass_put_le (re : regexp.Regexp) (c : ascii) (s : gostring) :
  tokens.nonempty re ->
  (length (pass re (tokens.put c) s) <= length s)%nat.
Proof.
  intros WF. unfold pass.
  pose proof (replace_le re (tokens.put c) WF) as H.
  assert (K : forall b ts g n,
             re b ts = Some (g, n) -> Forall tok_ok ts ->
             (length (utf8.bytes (tokens.put c g (firstn n ts)))
              <= length (utf8.bytes (firstn n ts)))%nat).
  { intros b ts g n M F. pose proof (WF _ _ _ _ M) as W.
    pose proof (bytes_length_pos _ (firstn_tok_ok n ts F)) as B.
    rewrite length_firstn in B. cbn. lia. }
  specialize (H K (utf8.runes s) true (runes_ok s)).
  now rewrite bytes_runes in H.
Qed.

Lemma nameIntr_length (x : gostring) :
  (length (svach.nameIntr x []) <= length x)%nat.
Proof.
  unfold svach.nameIntr. rewrite replace_dot.
  etransitivity; [apply pass_put_le, startPlus_nonempty|].
  etransitivity; [apply pass_drop_le, plusEnd_nonempty|].
  etransitivity; [apply pass_drop_le, plus_nonempty|].
  etransitivity; [apply pass_drop_le, one_nonempty|].
  etransitivity; [apply UnescapeString_length|].
  pose proof (ToValidUTF8_nil_len x). unfold len in *. lia.
Qed.

Lemma cleanPasses_length (s : gostring) :
  (length (svach.cleanPasses s []) <= length s)%nat.
Proof.
  unfold svach.cleanPasses. rewrite replace_space.
  etransitivity; [apply pass_drop_le, plus_nonempty|].
  etransitivity; [apply pass_put_le, one_nonempty|].
  etransitivity; [apply pass_drop_le, one_nonempty|].
  apply UnescapeString_length.
Qed.

Lemma cleanStep_length (s : gostring) :
  (length (svach.cleanStep None [] s) <= length s)%nat.
Proof.
  unfold svach.cleanStep. rewrite replace_dot.
  etransitivity; [apply pass_put_le, startPlus_nonempty|].
  etransitivity; [apply pass_drop_le, plusEnd_nonempty|].
  pose proof (proj1 (collapse_shrinks s)). unfold len in *. lia.
Qed.

Lemma cleanIntr_length (fuel : nat) (x intr : gostring) :
  svach.cleanIntr fuel x [] = Value intr -> (length intr <= length x)%nat.
Proof.
  unfold svach.cleanIntr.
  pose proof (ToValidUTF8_nil_len x) as L0. unfold len in L0.
  destruct (bytes_eqb (strings.ToValidUTF8 x []) []).
  { intros H. injection H as <-. lia. }
  change (svach.compileReplaceExpr []) with (@Value (option regexp.Regexp) None).
  unfold svach.cleanFix.
  destruct (svach.cleanLoop fuel (svach.cleanStep None []) _) as [[r n]|] eqn:L;
    [|discriminate].
  intros H. injection H as <-.
  apply (cleanLoop_keeps (fun s => (length s <= length x)%nat) _) in L;
    [exact L | |].
  - intros s Hs. pose proof (cleanStep_length s). lia.
  - pose proof (cleanPasses_length (strings.ToValidUTF8 x [])). lia.
Qed.

Lemma validName_length (x intr R out : gostring) (m : Z) :
  svach.validName x intr R m = Value out ->
  len out <= len intr \/ out = spec.fallback x.
Proof.
  intros H. apply validName_value in H.
  destruct H as [[E _]|[_ [_ [_ [[_ E]|[L E]]]]]]; [now right | | ]; left.
  - subst out. lia.
  - subst out. pose proof (ToValidUTF8_nil_len (slice intr 0 m)).
    pose proof (slice_0_len intr m ltac:(lia)). lia.
Qed.

(** X15: with the empty replacement string, the default, the name that
    [Name] or [Clean] returns is not longer than the input, or it is the
    fallback. *)
Theorem X15_default_name_is_not_longer (s : svach.Svach) (x out : gostring) :
  svach.replaceStr s = [] ->
  svach.Name s x = Value out
  \/ (exists fuel, svach.Clean fuel s x = Value out) ->
  len out <= len x \/ out = fmt.Sprintf_x (md5.Sum x).
Proof.
  intros R H. unfold svach.Name, svach.name, svach.Clean, svach.clean in H.
  rewrite R in H. destruct H as [H|[fuel H]].
  - destruct (validName_length _ _ _ _ _ H) as [L|E]; [left | now right].
    pose proof (nameIntr_length x). unfold len in *. lia.
  - destruct (svach.cleanIntr fuel x []) as [intr| | |] eqn:I;
      try discriminate.
    destruct (validName_length _ _ _ _ _ H) as [L|E]; [left | now right].
    pose proof (cleanIntr_length fuel x intr I). unfold len in *. lia.
Qed.

Lemma X15_witness :
  len (str "a&b") <= len (str "a&amp;b")
  \/ str "a&b" = fmt.Sprintf_x (md5.Sum (str "a&amp;b")).
Proof.
  apply (X15_default_name_is_not_longer svach.New (str "a&amp;b") (str "a&b"));
    [reflexivity | left; vm_compute; reflexivity].
Defined.

(** ** With the empty replacement string the loop takes two turns at most *)

Lemma noPairs_tail (t : utf8.token) (ts : list utf8.token) :
  names.noPairs (t :: ts) = true -> names.noPairs ts = true.
Proof.
  cbn [names.noPairs]. destruct ts; [reflexivity|].
  intros H. apply andb_true_iff in H. tauto.
Qed.

Lemma noPairs_firstn (j : nat) (ts : list utf8.token) :
  names.noPairs ts = true -> names.noPairs (firstn j ts) = true.
Proof.
  revert ts. induction j as [|j IH]; intros ts N; [reflexivity|].
  destruct ts as [|t ts]; [reflexivity|].
  cbn [firstn]. pose proof (IH ts (noPairs_tail _ _ N)) as X.
  cbn [names.noPairs] in N |- *.
  destruct ts as [|u ts']; [destruct j; reflexivity|].
  destruct j as [|j]; [reflexivity|]. cbn [firstn] in *.
  apply andb_true_iff in N. destruct N as [N _]. now rewrite N, X.
Qed.

(** The pass that takes the trailing spaces and dots out keeps the runes
    before them. *)
Lemma rightSD_drop_firstn :
  forall ts b,
    exists j, tokens.replace svach.rightSDExp tokens.drop b 0 ts = firstn j ts.
Proof.
  apply (replace_ind svach.rightSDExp tokens.drop
           (fun _ ts out => exists j, out = firstn j ts) (plusEnd_nonempty _)).
  - intros _. exists 0%nat. reflexivity.
  - intros b t rest g n out M W [j E]. exists 0%nat.
    unfold svach.rightSDExp, regexp.plusEnd in M.
    destruct (1 <=? regexp.run svach.spaceOrDot (t :: rest))%nat; [|discriminate].
    destruct (regexp.run svach.spaceOrDot (t :: rest) =? length (t :: rest))%nat
      eqn:A; [|discriminate].
    injection M as _ Hn. apply Nat.eqb_eq in A.
    assert (N : n = length (t :: rest)) by (rewrite <- Hn; exact A).
    rewrite N, skipn_all, firstn_nil in E. subst out. reflexivity.
  - intros b t rest out M [j E]. exists (S j). cbn [firstn]. now rewrite E.
Qed.

(** In a string without repeated separator no two dots start the string. *)
Lemma noRepeat_twoDots (s : gostring) :
  names.noRepeat s = true -> names.twoDots s = false.
Proof.
  destruct s as [|a [|b rest]]; try reflexivity.
  rewrite noRepeat_cons. intros H. apply andb_true_iff in H.
  destruct H as [H _]. cbn [names.twoDots].
  destruct (Ascii.eqb_spec a "."); [|reflexivity].
  destruct (Ascii.eqb_spec b "."); [|reflexivity].
  subst. discriminate.
Qed.

(** A string of valid encodings without repeated separator, read as runes,
    that does not end in a space character or a dot, is left as it is by a
    turn of the loop. *)
Lemma cleanStep_id (s : gostring) :
  Valid s -> names.noPairs (utf8.runes s) = true ->
  tokens.endsSD s = false ->
  svach.cleanStep None [] s = s.
Proof.
  intros V N E. unfold svach.cleanStep.
  assert (C : svach.replaceAllStringSubmatch
                (regexp.FindAllStringSubmatchIndex svach.cleanExpr 6 s)
                s svach.cleanReplaceWith = s).
  { rewrite collapse_tokens, replace_none; [apply bytes_runes|].
    intros k. now apply noPairs_nomatch. }
  rewrite C, replace_nil, (rightSD_id tokens.drop s E).
  apply leftdot_id, noRepeat_twoDots.
  rewrite <- (bytes_runes s). apply tokens_noRepeat; [apply runes_ok|].
  intros k. now apply noPairs_nomatch.
Qed.

(** A turn of the loop on a string of valid encodings gives a string that a
    second turn leaves as it is. *)
Lemma cleanStep_twice (s : gostring) :
  Valid s ->
  svach.cleanStep None [] (svach.cleanStep None [] s)
  = svach.cleanStep None [] s.
Proof.
  intros V.
  assert (K : exists r,
             svach.cleanStep None [] s = r /\ Valid r
             /\ names.noPairs (utf8.runes r) = true
             /\ tokens.endsSD r = false).
  { unfold svach.cleanStep.
    destruct (collapse_out s) as [B [_ N1]]. cbv zeta in B.
    pose proof (pass_runes svach.cleanExpr tokens.canonical s
                           (repeated_nonempty _ _) canonical_wf V) as [R1 V1].
    unfold pass in R1, V1. rewrite <- B in R1, V1. rewrite <- R1 in N1.
    set (c := svach.replaceAllStringSubmatch _ s _) in *.
    pose proof (rightSD_end c [] ltac:(intros []) eq_refl) as E2.
    rewrite replace_nil in *.
    pose proof (pass_runes svach.rightSDExp tokens.drop c
                           (plusEnd_nonempty _) wf_drop V1) as [R2 V2].
    set (r := pass svach.rightSDExp tokens.drop c) in *.
    assert (N2 : names.noPairs (utf8.runes r) = true).
    { rewrite R2. destruct (rightSD_drop_firstn (utf8.runes c) true) as [j ->].
      now apply noPairs_firstn. }
    exists r. split; [|auto].
    apply leftdot_id, noRepeat_twoDots.
    rewrite <- (bytes_runes r). apply tokens_noRepeat; [apply runes_ok|].
    intros k. now apply noPairs_nomatch. }
  destruct K as [r [-> [Vr [Nr Er]]]]. now apply cleanStep_id.
Qed.

(** A loop whose turn gives a string that a second turn leaves as it is
    breaks in the second turn at the latest. *)
Lemma cleanLoop_two (step : gostring -> gostring) (s : gostring) (fuel : nat) :
  step (step s) = step s -> (2 <= fuel)%nat ->
  exists n, svach.cleanLoop fuel step s = Some (step s, n) /\ (1 <= n <= 2)%nat.
Proof.
  intros F L. destruct fuel as [|[|fuel]]; try lia.
  cbn [svach.cleanLoop].
  destruct (bytes_eqb s (step s)); [exists 1%nat; split; [reflexivity | lia]|].
  rewrite F, bytes_eqb_refl. exists 2%nat. split; [reflexivity | lia].
Qed.

(** X16: with the empty replacement string, the default, the loop of
    [clean] breaks in its second turn at the latest, whatever the input is:
    the first turn gives a string that the second leaves as it is, and
    [clean] returns when its loop is given two turns. *)
Theorem X16_default_loop_takes_two_turns (x : gostring) (fuel : nat) :
  (2 <= fuel)%nat ->
  let s0 := svach.cleanPasses (strings.ToValidUTF8 x []) [] in
  (exists n,
      svach.cleanLoop fuel (svach.cleanStep None []) s0
      = Some (svach.cleanStep None [] s0, n) /\ (1 <= n <= 2)%nat)
  /\ exists intrStr, svach.cleanIntr fuel x [] = Value intrStr.
Proof.
  intros L s0.
  assert (V : Valid s0).
  { apply cleanPasses_Valid_text; [intros [] | apply Valid_nil|].
    apply ToValidUTF8_Valid, Valid_nil. }
  destruct (cleanLoop_two _ s0 fuel (cleanStep_twice s0 V) L) as [n [E B]].
  split; [exists n; auto|].
  unfold svach.cleanIntr.
  destruct (bytes_eqb (strings.ToValidUTF8 x []) []); [eexists; reflexivity|].
  change (svach.compileReplaceExpr []) with (@Value (option regexp.Regexp) None).
  unfold svach.cleanFix. fold s0. rewrite E. eexists; reflexivity.
Qed.


Lemma X16_witness :
  let s0 := svach.cleanPasses (strings.ToValidUTF8 (str "..a__b. .") []) [] in
  (exists n,
      svach.cleanLoop 2 (svach.cleanStep None []) s0
      = Some (svach.cleanStep None [] s0, n) /\ (1 <= n <= 2)%nat)
  /\ exists intrStr, svach.cleanIntr 2 (str "..a__b. .") [] = Value intrStr.
Proof.
  apply (X16_default_loop_takes_two_turns (str "..a__b. .") 2). lia.
Defined.

(** ** The names that [Clean] leaves as they are *)

Lemma noRepeat_suffix (a b : gostring) :
  names.noRepeat (a ++ b) = true -> names.noRepeat b = true.
Proof.
  induction a as [|c a IH]; [auto|].
  cbn [app]. rewrite noRepeat_cons.
  destruct (a ++ b) as [|d t] eqn:E.
  - apply app_eq_nil in E. destruct E as [_ ->]. reflexivity.
  - intros H. apply andb_true_iff in H. tauto.
Qed.

Lemma tok_ascii (t : utf8.token) :
  tok_ok t -> fst t < 128 -> exists c, t = tokens.ascii c.
Proof.
  intros [_ [[c [-> _]]|[H _]]] L; [now exists c | lia].
Qed.

(** The runes of a string without repeated separator: no two of the same
    class stand one after the other. *)
Lemma noRepeat_noPairs (ts : list utf8.token) :
  Forall tok_ok ts ->
  names.noRepeat (utf8.bytes ts) = true -> names.noPairs ts = true.
Proof.
  induction 1 as [|t ts Ht Hts IH]; intros N; [reflexivity|].
  rewrite bytes_cons in N.
  specialize (IH (noRepeat_suffix _ _ N)).
  cbn [names.noPairs]. destruct ts as [|u ts']; [reflexivity|].
  rewrite IH, andb_true_r.
  destruct (names.sameClass (fst t) (fst u)) eqn:S; [exfalso | reflexivity].
  destruct (sameClass_true _ _ S) as [P [I [Pt Pu]]].
  inversion Hts as [|? ? Hu _]; subst.
  destruct (tok_ascii t Ht (cleanVals_ascii P _ I Pt)) as [c ->].
  destruct (tok_ascii u Hu (cleanVals_ascii P _ I Pu)) as [d ->].
  rewrite bytes_cons in N. cbn [tokens.ascii snd app] in N.
  rewrite noRepeat_cons in N. apply andb_true_iff in N. destruct N as [N _].
  unfold names.sameSeparator in N. unfold names.sameClass in S.
  cbn [tokens.ascii fst] in S. rewrite S in N. discriminate.
Qed.

Lemma cleanString_cleanRunes (y : gostring) :
  Valid y -> names.cleanString y = true -> Forall names.nameByte y ->
  cleanRunes y.
Proof.
  intros V C S. apply cleanString_iff in C.
  apply nameByte_Forall in S. destruct S as [_ S2].
  split; [exact V|]. split; [|split].
  - revert C. unfold allRunes. apply Forall_impl. intros t.
    unfold cleanTok, names.cleanRune.
    destruct (svach.controlOrFormat (fst t)); [discriminate | reflexivity].
  - unfold allRunes in *. pose proof (runes_ok y) as K.
    induction K as [|t ts Ht _ IH]; [constructor|].
    inversion C as [|? ? Ct Cts]; subst.
    constructor; [|now apply IH].
    intros Sp. unfold cleanTok, names.cleanRune in Ct. rewrite Sp in Ct.
    apply andb_true_iff in Ct. destruct Ct as [_ Ct]. cbn [negb orb] in Ct.
    apply ascii_tok; [vm_compute; reflexivity | exact Ht|].
    apply Z.eqb_eq in Ct. exact Ct.
  - exact (bytes_class_runes _ y invChar_ascii S2).
Qed.


